(** * MP-Gadget domain decomposition: particle manager, garbage collector,
      top-tree refinement, splitter and exchange bookkeeping (domain.c)

    Shallow embedding of the functions of [domain.c] and proofs about them.

    Conventions of the embedding.
    - C arrays are lists holding the whole allocated array ([P] has
      [All.MaxPart] entries, [BhP] has [All.MaxPartBh] entries, [topNodes]
      has [MaxTopNodes] entries); [a[i]] is [a !!! i] and [a[i] = x] is
      [<[i:=x]> a].  The live part of an array is the prefix given by its
      counter ([NumPart], [N_sph_slots], [N_bh_slots], [NTopnodes]).
    - Counters and indices that the code keeps non-negative are [nat];
      integer fields that hold sentinels ([ReverseLink], [Daughter],
      [Parent]) and the integers of the splitter are [Z].  Overflow of [int]
      is outside the model, except in the particle load of a rank, an [int]
      sum that is written with its wrap-around ([wrap_int]).
    - [double] and [float] values are the rationals they stand for ([Q]).
      Where the code computes with them (the splitter, the growth of
      [TopNodeAllocFactor], the cost of a particle and of a node) every
      operation rounds its result to the format, see [round_float]; a
      division by 8 changes the exponent alone and is written as the exact
      quotient; infinities, NaN and underflow are outside the model.
    - [endrun] is the result [Fatal code]; a loop that the code may spin in
      forever runs on fuel and yields [OutOfFuel] when the fuel is used up.
    - The ranks run the same code in lockstep; values obtained from a
      collective operation are inputs of the rank-local functions. *)

From Stdlib Require Import ZArith QArith Qpower Qround Qabs Lia List Permutation Sorted.
From stdpp Require Import base list sorting.

Local Open Scope Z_scope.

(** ** Results of code that may call [endrun] *)

Inductive result (A : Type) : Type :=
| OK (a : A)
| Fatal (code : Z)
| OutOfFuel.
Arguments OK {A} a.
Arguments Fatal {A} code.
Arguments OutOfFuel {A}.

Definition rbind {A B} (r : result A) (k : A -> result B) : result B :=
  match r with
  | OK a => k a
  | Fatal c => Fatal c
  | OutOfFuel => OutOfFuel
  end.

Notation "'do' x <- r ; k" := (rbind r (fun x => k))
  (at level 10, x pattern, r at level 100, k at level 200).

(** ** Particle tables (allvars.h, partmanager) *)

(** Modelled from the spec: [struct particle_data] is declared in
    allvars.h, which is not part of the sources at hand.  The fields are the
    ones domain.c reads or writes ([Type] is spelt [PType]); the identifier
    is an unsigned 64-bit integer and the generation an unsigned 8-bit
    integer. *)
Record particle_data : Type := mk_particle {
  Pos : Q * Q * Q;
  Vel : Q * Q * Q;
  Mass : Q;
  ID : Z;
  Generation : Z;
  PType : Z;
  TimeBin : nat;
  GravCost : Q;
  Key : Z;
  PI : nat;
  OnAnotherDomain : bool;
  WillExport : bool
}.

Definition particle0 : particle_data :=
  mk_particle (0, 0, 0)%Q (0, 0, 0)%Q 0%Q 0 0 0 0%nat 0%Q 0 0%nat false false.

Global Instance particle_inhabited : Inhabited particle_data := populate particle0.

Definition set_Mass (m : Q) (p : particle_data) : particle_data :=
  mk_particle (Pos p) (Vel p) m (ID p) (Generation p) (PType p) (TimeBin p)
    (GravCost p) (Key p) (PI p) (OnAnotherDomain p) (WillExport p).

Definition set_ID (id : Z) (p : particle_data) : particle_data :=
  mk_particle (Pos p) (Vel p) (Mass p) id (Generation p) (PType p) (TimeBin p)
    (GravCost p) (Key p) (PI p) (OnAnotherDomain p) (WillExport p).

Definition set_Generation (g : Z) (p : particle_data) : particle_data :=
  mk_particle (Pos p) (Vel p) (Mass p) (ID p) g (PType p) (TimeBin p)
    (GravCost p) (Key p) (PI p) (OnAnotherDomain p) (WillExport p).

Definition set_PI (pi : nat) (p : particle_data) : particle_data :=
  mk_particle (Pos p) (Vel p) (Mass p) (ID p) (Generation p) (PType p) (TimeBin p)
    (GravCost p) (Key p) pi (OnAnotherDomain p) (WillExport p).

(** Modelled from the spec: a gas slot carries fluid state; domain.c only
    copies whole slots, so the state is one opaque component. *)
Record sph_particle_data : Type := mk_sph { SphState : Z }.

Global Instance sph_inhabited : Inhabited sph_particle_data := populate (mk_sph 0).

(** Modelled from the spec: a black-hole slot carries accretion state, the
    identifier of its base particle and the [ReverseLink] used by the
    collector. *)
Record bh_particle_data : Type := mk_bh {
  ReverseLink : Z;
  BhID : Z;
  BhState : Z
}.

Global Instance bh_inhabited : Inhabited bh_particle_data := populate (mk_bh 0 0 0).

Definition set_ReverseLink (r : Z) (b : bh_particle_data) : bh_particle_data :=
  mk_bh r (BhID b) (BhState b).

(** The process-wide state of the particle manager on one rank. *)
Record part_state : Type := mk_state {
  P : list particle_data;
  SphP : list sph_particle_data;
  BhP : list bh_particle_data;
  NumPart : nat;
  N_sph_slots : nat;
  N_bh_slots : nat;
  TimeBinCount : list Z;
  TimeBinCountSph : list Z;
  NumActiveParticle : nat;
  ActiveParticle : list nat;
  Nextnode : option (list nat);
  Father : list nat
}.

(** ** [atomic_fetch_and_add] (utils/system.h) on a counter *)

Definition atomic_fetch_and_add (ptr : nat) (value : nat) : nat * nat :=
  (ptr, (ptr + value)%nat).

(** ** [domain_fork_particle] *)

(** The child identifier: [(ID & 0x00ffffffffffffffL) + (g << 56L)] in
    unsigned 64-bit arithmetic. *)
Definition fork_ID (id g : Z) : Z :=
  (Z.land id 0x00ffffffffffffff + Z.shiftl g 56) mod 2 ^ 64.

(** [Generation ++] on an unsigned 8-bit field. *)
Definition incr_Generation (g : Z) : Z := (g + 1) mod 2 ^ 8.

Section Fork.

(** [All.MaxPart], and the time-bin bookkeeping of timestep.c, which is not
    part of the sources at hand: [timebin_add_particle_to_active parent
    child bin] acts on the time-bin counters only. *)
Variable MaxPart : nat.
Variable timebin_add_particle_to_active :
  nat -> nat -> nat -> list Z * list Z -> list Z * list Z.

Definition domain_fork_particle (parent : nat) (st : part_state)
  : result (nat * part_state) :=
  if (MaxPart <=? NumPart st)%nat then Fatal 8888
  else
    let '(child, NumPart1) := atomic_fetch_and_add (NumPart st) 1 in
    let '(childactive, NumActive1) := atomic_fetch_and_add (NumActiveParticle st) 1 in
    let Active1 := <[childactive := child]> (ActiveParticle st) in
    let P1 := <[parent := set_Generation (incr_Generation (Generation (P st !!! parent)))
                            (P st !!! parent)]> (P st) in
    let g := Generation (P1 !!! parent) in
    let P2 := <[child := P1 !!! parent]> P1 in
    let P3 := <[child := set_ID (fork_ID (ID (P2 !!! parent)) g) (P2 !!! child)]> P2 in
    let P4 := <[child := set_Mass 0%Q (P3 !!! child)]> P3 in
    let '(tbc, tbcsph) :=
      timebin_add_particle_to_active parent child (TimeBin (P4 !!! child))
        (TimeBinCount st, TimeBinCountSph st) in
    let '(Nextnode1, Father1) :=
      match Nextnode st with
      | Some nn =>
          let no := nn !!! parent in
          let nn1 := <[parent := child]> nn in
          let nn2 := <[child := no]> nn1 in
          (Some nn2, <[child := Father st !!! parent]> (Father st))
      | None => (None, Father st)
      end in
    OK (child,
        mk_state P4 (SphP st) (BhP st) NumPart1 (N_sph_slots st) (N_bh_slots st)
          tbc tbcsph NumActive1 Active1 Nextnode1 Father1).

(** The parent after the fork and the child it leaves at the old [NumPart]. *)
Definition forked_parent (p : particle_data) : particle_data :=
  set_Generation (incr_Generation (Generation p)) p.

Definition forked_child (p : particle_data) : particle_data :=
  set_Mass 0%Q
    (set_ID (fork_ID (ID p) (incr_Generation (Generation p))) (forked_parent p)).

End Fork.


(** ** [sumup_large_ints] (utils/system.h)

    The sum of a rank-local counter over all ranks; [others] is what the
    other ranks contribute. *)
Definition sumup_large_ints (others : Z) (src : nat) : Z := Z.of_nat src + others.

(** ** [domain_all_garbage_collection]: mass-zero elimination *)

(** The body of the [if(P[i].Mass == 0)] branch up to [NumPart--]. *)
Definition gc_eliminate (i : nat) (st : part_state) : part_state :=
  let p := P st !!! i in
  let tbc := <[TimeBin p := TimeBinCount st !!! TimeBin p - 1]> (TimeBinCount st) in
  if PType p =? 0 then
    let tbcsph :=
      <[TimeBin p := TimeBinCountSph st !!! TimeBin p - 1]> (TimeBinCountSph st) in
    let P1 := <[i := P st !!! (N_sph_slots st - 1)%nat]> (P st) in
    let SphP1 := <[i := SphP st !!! (N_sph_slots st - 1)%nat]> (SphP st) in
    let P2 := <[(N_sph_slots st - 1)%nat := P1 !!! (NumPart st - 1)%nat]> P1 in
    mk_state P2 SphP1 (BhP st) (NumPart st - 1) (N_sph_slots st - 1) (N_bh_slots st)
      tbc tbcsph (NumActiveParticle st) (ActiveParticle st) (Nextnode st) (Father st)
  else
    let P1 := <[i := P st !!! (NumPart st - 1)%nat]> (P st) in
    mk_state P1 (SphP st) (BhP st) (NumPart st - 1) (N_sph_slots st) (N_bh_slots st)
      tbc (TimeBinCountSph st) (NumActiveParticle st) (ActiveParticle st)
      (Nextnode st) (Father st).

(** The loop [for(i = 0; i < NumPart; i++)]; after an elimination [i--]
    and [i++] leave [i] where it was.  Every iteration lowers
    [NumPart - i] by one, so [NumPart] iterations are all there are. *)
Fixpoint all_gc_loop (fuel : nat) (i : nat) (st : part_state)
    (count_elim count_gaselim : nat) : part_state * nat * nat :=
  match fuel with
  | O => (st, count_elim, count_gaselim)
  | S fuel' =>
      if (i <? NumPart st)%nat then
        if Qeq_bool (Mass (P st !!! i)) 0 then
          all_gc_loop fuel' i (gc_eliminate i st) (S count_elim)
            (if PType (P st !!! i) =? 0 then S count_gaselim else count_gaselim)
        else all_gc_loop fuel' (S i) st count_elim count_gaselim
      else (st, count_elim, count_gaselim)
  end.

(** [others0] and [others] are the sums of [NumPart] over the other ranks
    before and after their own pass. *)
Definition domain_all_garbage_collection (others0 others : Z) (st : part_state)
  : Z * part_state :=
  let total0 := sumup_large_ints others0 (NumPart st) in
  let '(st', count_elim, count_gaselim) := all_gc_loop (NumPart st) 0 st 0 0 in
  let total := sumup_large_ints others (NumPart st') in
  let tree_invalid := if total =? total0 then 0 else 1 in
  (tree_invalid, st').

(** The gas prefix: the live entries of type 0 are the first [N_sph_slots]. *)
Definition gas_prefix (st : part_state) : Prop :=
  (N_sph_slots st <= NumPart st)%nat /\
  forall k, (k < NumPart st)%nat ->
    (PType (P st !!! k) = 0 <-> (k < N_sph_slots st)%nat).

(** The live part of the base table. *)
Definition live (st : part_state) : list particle_data := take (NumPart st) (P st).

Definition massless (p : particle_data) : bool := Qeq_bool (Mass p) 0.

(** Number of massless entries in time bin [b] among [l]. *)
Definition massless_in_bin (b : nat) (l : list particle_data) : nat :=
  length (filter (fun p => massless p = true /\ TimeBin p = b) l).

(** The same for the gas entries: what [TimeBinCountSph] loses. *)
Definition massless_gas_in_bin (b : nat) (l : list particle_data) : nat :=
  length (filter (fun p => (massless p = true /\ PType p = 0) /\ TimeBin p = b) l).

(** The invariant of the elimination loop, relating the state [st] reached
    with loop index [i] and counters [ce], [cg] to the initial state [st0]. *)
Definition gc_inv (st0 st : part_state) (i ce cg : nat) : Prop :=
  (NumPart st <= length (P st))%nat /\
  (i <= NumPart st)%nat /\
  gas_prefix st /\
  (forall k, (k < i)%nat -> massless (P st !!! k) = false) /\
  filter (fun p => massless p = false) (live st)
    ≡ₚ filter (fun p => massless p = false) (live st0) /\
  (NumPart st + ce = NumPart st0)%nat /\
  (N_sph_slots st + cg = N_sph_slots st0)%nat /\
  length (TimeBinCount st) = length (TimeBinCount st0) /\
  length (TimeBinCountSph st) = length (TimeBinCountSph st0) /\
  (forall b, (b < length (TimeBinCount st0))%nat ->
     TimeBinCount st !!! b + Z.of_nat (massless_in_bin b (live st0)) =
     TimeBinCount st0 !!! b + Z.of_nat (massless_in_bin b (live st))) /\
  (forall b, (b < length (TimeBinCountSph st0))%nat ->
     TimeBinCountSph st !!! b + Z.of_nat (massless_gas_in_bin b (live st0)) =
     TimeBinCountSph st0 !!! b + Z.of_nat (massless_gas_in_bin b (live st))) /\
  BhP st = BhP st0 /\ N_bh_slots st = N_bh_slots st0.

(** ** Counted loops

    [for(i = 0; i < n; i++) s = body(i, s)], and the same for a body that
    may call [endrun]. *)
Fixpoint for_loop {S : Type} (n : nat) (body : nat -> S -> S) (s : S) : S :=
  match n with
  | O => s
  | S n' => body n' (for_loop n' body s)
  end.

Fixpoint for_loopR {S : Type} (n : nat) (body : nat -> S -> result S) (s : S)
  : result S :=
  match n with
  | O => OK s
  | S n' => do s' <- for_loopR n' body s; body n' s'
  end.

(** ** [domain_bh_garbage_collection]: black-hole compaction *)

Definition bh_cmp_reverse_link (b1 b2 : bh_particle_data) : Z :=
  if (ReverseLink b1 =? -1) && (ReverseLink b2 =? -1) then 0
  else if ReverseLink b1 =? -1 then 1
  else if ReverseLink b2 =? -1 then -1
  else Z.b2z (ReverseLink b1 >? ReverseLink b2)
       - Z.b2z (ReverseLink b1 <? ReverseLink b2).

(** [for(i = 0; i < n; i++) BhP[i].ReverseLink = -1] *)
Definition bh_reset_links (n : nat) (bhp : list bh_particle_data)
  : list bh_particle_data :=
  for_loop n (fun i b => <[i := set_ReverseLink (-1) (b !!! i)]> b) bhp.

(** The body of the loop over the base entries that writes the reverse
    links and checks the slot of every black hole. *)
Definition bh_link_body (Pt : list particle_data) (nbh : nat) (i : nat)
    (bhp : list bh_particle_data) : result (list bh_particle_data) :=
  if PType (Pt !!! i) =? 5 then
    let bhp1 :=
      <[PI (Pt !!! i) := set_ReverseLink (Z.of_nat i) (bhp !!! PI (Pt !!! i))]> bhp in
    if (nbh <=? PI (Pt !!! i))%nat then Fatal 1
    else if negb (BhID (bhp1 !!! PI (Pt !!! i)) =? ID (Pt !!! i)) then Fatal 1
    else OK bhp1
  else OK bhp.

(** The writes of that loop alone. *)
Definition bh_link_write (Pt : list particle_data) (i : nat)
    (bhp : list bh_particle_data) : list bh_particle_data :=
  if PType (Pt !!! i) =? 5 then
    <[PI (Pt !!! i) := set_ReverseLink (Z.of_nat i) (bhp !!! PI (Pt !!! i))]> bhp
  else bhp.

(** [while(N_bh_slots > 0 && BhP[N_bh_slots - 1].ReverseLink == -1) N_bh_slots--] *)
Fixpoint bh_trim (n : nat) (bhp : list bh_particle_data) : nat :=
  match n with
  | O => O
  | S n' => if ReverseLink (bhp !!! n') =? -1 then bh_trim n' bhp else S n'
  end.

(** [for(i = 0; i < n; i++) P[BhP[i].ReverseLink].PI = i] *)
Definition bh_relink (n : nat) (bhp : list bh_particle_data)
    (Pt : list particle_data) : list particle_data :=
  for_loop n
    (fun i Pc =>
       <[Z.to_nat (ReverseLink (bhp !!! i)) :=
           set_PI i (Pc !!! Z.to_nat (ReverseLink (bhp !!! i)))]> Pc)
    Pt.

(** The body of the closing consistency loop, counting in [j]. *)
Definition bh_check_body (Pt : list particle_data)
    (bhp : list bh_particle_data) (nbh : nat) (i : nat) (j : nat) : result nat :=
  if negb (PType (Pt !!! i) =? 5) then OK j
  else if (nbh <=? PI (Pt !!! i))%nat then Fatal 1
  else if negb (BhID (bhp !!! PI (Pt !!! i)) =? ID (Pt !!! i)) then Fatal 1
  else OK (S j).

Section BhCollection.

(** [All.MaxPartBh], and [qsort] of the C library applied to the first
    entries of an array with a comparison function. *)
Variable MaxPartBh : nat.
Variable qsort :
  (bh_particle_data -> bh_particle_data -> Z) ->
  list bh_particle_data -> list bh_particle_data.

(** The slot table once the reverse links are written, and once sorted. *)
Definition bh_linked_table (st : part_state) : list bh_particle_data :=
  for_loop (NumPart st) (bh_link_write (P st)) (bh_reset_links MaxPartBh (BhP st)).

Definition bh_sorted_table (st : part_state) : list bh_particle_data :=
  qsort bh_cmp_reverse_link (take (N_bh_slots st) (bh_linked_table st))
    ++ drop (N_bh_slots st) (bh_linked_table st).

(** [others0] is the sum of [N_bh_slots] over the other ranks; the sum
    after the pass only feeds a message. *)
Definition domain_bh_garbage_collection (others0 : Z) (st : part_state)
  : result (Z * part_state) :=
  let total0 := sumup_large_ints others0 (N_bh_slots st) in
  if total0 =? 0 then OK (0, st)
  else
    let B1 := bh_reset_links MaxPartBh (BhP st) in
    do B2 <- for_loopR (NumPart st) (bh_link_body (P st) (N_bh_slots st)) B1;
    let B3 := qsort bh_cmp_reverse_link (take (N_bh_slots st) B2)
                ++ drop (N_bh_slots st) B2 in
    let nbh := bh_trim (N_bh_slots st) B3 in
    let P1 := bh_relink nbh B3 (P st) in
    let B4 := bh_reset_links nbh B3 in
    do j <- for_loopR (NumPart st) (bh_check_body P1 B4 nbh) 0%nat;
    if negb (j =? nbh)%nat then Fatal 1
    else
      OK (0,
          mk_state P1 (SphP st) B4 (NumPart st) (N_sph_slots st) nbh
            (TimeBinCount st) (TimeBinCountSph st) (NumActiveParticle st)
            (ActiveParticle st) (Nextnode st) (Father st)).

(** What the pass expects of its input: every live black hole has a slot
    of its own among the first [N_bh_slots], carrying its identifier. *)
Definition bh_wf (st : part_state) : Prop :=
  (N_bh_slots st <= MaxPartBh)%nat /\
  length (BhP st) = MaxPartBh /\
  (NumPart st <= length (P st))%nat /\
  (forall i, (i < NumPart st)%nat -> PType (P st !!! i) = 5 ->
     (PI (P st !!! i) < N_bh_slots st)%nat /\
     BhID (BhP st !!! PI (P st !!! i)) = ID (P st !!! i)) /\
  (forall i j, (i < NumPart st)%nat -> (j < NumPart st)%nat ->
     PType (P st !!! i) = 5 -> PType (P st !!! j) = 5 ->
     PI (P st !!! i) = PI (P st !!! j) -> i = j).

End BhCollection.

(** The indices of the black holes among the first [n] base entries, in
    base order. *)
Definition bh_indices (Pt : list particle_data) (n : nat) : list nat :=
  filter (fun i => PType (Pt !!! i) = 5) (seq 0 n).

(** Invariants of the loop that writes the reverse links, after [i]
    iterations started from the table [B1]: slots only change in their
    [ReverseLink], and a link other than -1 names a black hole whose [PI] is
    that slot. *)
Definition bh_link_inv (Pt : list particle_data) (B1 : list bh_particle_data)
    (i : nat) (L : list bh_particle_data) : Prop :=
  length L = length B1 /\
  (forall k, (k < length B1)%nat ->
     L !!! k = set_ReverseLink (ReverseLink (L !!! k)) (B1 !!! k)) /\
  (forall k, (k < length B1)%nat -> ReverseLink (L !!! k) <> -1 ->
     exists j, (j < i)%nat /\ PType (Pt !!! j) = 5 /\ PI (Pt !!! j) = k /\
               ReverseLink (L !!! k) = Z.of_nat j).

(** With a slot of its own for every black hole, each of the first [i]
    black holes is named by its slot, and the links written so far are the
    indices of these black holes. *)
Definition bh_link_inv_wf (Pt : list particle_data) (i : nat)
    (L : list bh_particle_data) : Prop :=
  (forall j, (j < i)%nat -> PType (Pt !!! j) = 5 ->
     ReverseLink (L !!! PI (Pt !!! j)) = Z.of_nat j) /\
  filter (fun r => r <> -1) (ReverseLink <$> L) ≡ₚ Z.of_nat <$> bh_indices Pt i.

(** The order [qsort] is asked to establish: [a] may stand before [b]. *)
Definition bh_le (a b : bh_particle_data) : Prop := bh_cmp_reverse_link a b <= 0.

(** ** A sorting function and small tables to run the code on *)

(** A stand-in for the C library's [qsort]: merge sort by [cmp a b <= 0]. *)
Definition merge_qsort (cmp : bh_particle_data -> bh_particle_data -> Z)
    (l : list bh_particle_data) : list bh_particle_data :=
  @merge_sort _ (fun a b => cmp a b <= 0) (fun a b => decide (cmp a b <= 0)) l.

Definition sample_particle (ty id : Z) (m : Q) (pi : nat) (bin : nat)
  : particle_data :=
  mk_particle (0, 0, 0)%Q (0, 0, 0)%Q m id 0 ty bin 0%Q 0 pi false false.

(** Six base entries allocated, four live: two gas entries (one massless),
    a massless dark-matter entry and a massive one. *)
Definition sample_gas_state : part_state :=
  mk_state
    [sample_particle 0 100 1%Q 0 1; sample_particle 0 101 0%Q 1 2;
     sample_particle 1 102 0%Q 0 1; sample_particle 1 103 2%Q 0 0;
     particle0; particle0]
    [mk_sph 7; mk_sph 8; mk_sph 0; mk_sph 0; mk_sph 0; mk_sph 0]
    []
    4 2 0
    [10; 10; 10] [5; 5; 5] 0 [] None [].

(** Four live base entries, two of them black holes owning slots 1 and 0 of
    three slots in use; slot 2 belongs to a black hole that is gone. *)
Definition sample_bh_state : part_state :=
  mk_state
    [sample_particle 0 100 1%Q 0 0; sample_particle 5 11 1%Q 1 0;
     sample_particle 1 102 1%Q 0 0; sample_particle 5 10 1%Q 0 0;
     particle0; particle0]
    [mk_sph 7; mk_sph 0; mk_sph 0; mk_sph 0; mk_sph 0; mk_sph 0]
    [mk_bh 3 10 70; mk_bh 1 11 71; mk_bh 8 99 72; mk_bh 0 0 0]
    4 1 3
    [10; 10; 10] [5; 5; 5] 0 [] None [].

(** A time-bin bookkeeping that leaves the counters alone. *)
Definition timebin_keep (parent child bin : nat) (c : list Z * list Z)
  : list Z * list Z := c.

(** ** Floating-point arithmetic

    [double] and [float] are the IEEE 754 formats binary64 and binary32; an
    operation yields the exact result rounded to the nearest number of the
    format, the one with an even significand when two are as near.  Values
    beyond the largest finite number of the format are outside the model. *)

(** The floor of the binary logarithm of a positive rational. *)
Definition Qlog2 (a : Q) : Z :=
  let e0 := Z.log2 (Qnum a) - Z.log2 (Zpos (Qden a)) in
  if Qle_bool (Qpower 2 e0) a then e0 else e0 - 1.

(** The integer nearest to [a], the even one of two that are as near. *)
Definition round_even (a : Q) : Z :=
  let f := Qfloor a in
  match Qcompare (a - inject_Z f) (1 # 2) with
  | Lt => f
  | Gt => f + 1
  | Eq => if Z.even f then f else f + 1
  end.

(** Rounding to the format with [prec] bits of significand and least
    exponent [emin]: the significand is the rational over the unit in the
    last place, rounded to an integer.  The rational is taken in lowest
    terms, and so is the result. *)
Definition round_float (prec emin : Z) (q : Q) : Q :=
  let q := Qred q in
  match Qcompare q 0 with
  | Eq => 0%Q
  | c =>
      let a := Qabs q in
      let e := Z.max (Qlog2 a) emin - (prec - 1) in
      let m := round_even (a / Qpower 2 e) in
      let r := Qred (inject_Z m * Qpower 2 e) in
      match c with Lt => Qopp r | _ => r end
  end.

Definition round_double : Q -> Q := round_float 53 (-1022).
Definition round_single : Q -> Q := round_float 24 (-126).

(** [a + b], [a * b] and [a / b] on [double]s. *)
Definition double_add (a b : Q) : Q := round_double (a + b).
Definition double_mul (a b : Q) : Q := round_double (a * b).
Definition double_div (a b : Q) : Q := round_double (a / b).

(** ** The splitter: [domain_findSplit_work_balanced] and
       [domain_findSplit_load_balanced] *)

Definition Qltb (a b : Q) : bool := negb (Qle_bool b a).

(** [domainWork[k]], a [float]; it goes into the sums as the [double] of
    the same value. *)
Definition cost_at (dw : list Q) (k : Z) : Q := nth (Z.to_nat k) dw 0%Q.

(** [for(k = 0, w = 0; k < n; k++) w += domainWork[a + k]], with [w] a
    [double]. *)
Definition sum_cost (dw : list Q) (a : Z) (n : nat) : Q :=
  for_loop n (fun k w => double_add w (cost_at dw (a + Z.of_nat k))) 0%Q.

(** The global arrays [DomainStartList] and [DomainEndList]. *)
Record layout : Type := mk_layout {
  DomainStartList : list Z;
  DomainEndList : list Z
}.

(** The [while] loop that extends segment [i]; every iteration moves [end]
    up by one and [end] stays below [ndomain], so [ndomain] iterations are
    all there can be.  The two sums of the test are [double]s. *)
Fixpoint split_extend (fuel : nat) (ncpu ndomain i : Z) (dw : list Q)
    (workavg workavg_before work_before : Q) (end_ : Z) (work : Q) : Z * Q :=
  match fuel with
  | O => (end_, work)
  | S fuel' =>
      if Qltb (double_add work work_before) (double_add workavg workavg_before)
         || ((i =? ncpu - 1) && (end_ <? ndomain - 1))
      then
        if ndomain - end_ >? ncpu - i
        then split_extend fuel' ncpu ndomain i dw workavg workavg_before work_before
               (end_ + 1) (double_add work (cost_at dw (end_ + 1)))
        else (end_, work)
      else (end_, work)
  end.

Record split_state : Type := mk_split {
  split_start : Z;
  split_work_before : Q;
  split_workavg_before : Q;
  split_layout : layout
}.

(** The body of [for(i = 0; i < ncpu; i++)]. *)
Definition split_body (ncpu ndomain : Z) (dw : list Q) (workavg : Q)
    (i : nat) (s : split_state) : split_state :=
  let start := split_start s in
  let '(end_, work) :=
    split_extend (Z.to_nat ndomain) ncpu ndomain (Z.of_nat i) dw workavg
      (split_workavg_before s) (split_work_before s)
      start (double_add 0 (cost_at dw start)) in
  mk_split (end_ + 1)
    (double_add (split_work_before s) work)
    (double_add (split_workavg_before s) workavg)
    (mk_layout (<[i := start]> (DomainStartList (split_layout s)))
               (<[i := end_]> (DomainEndList (split_layout s)))).

Definition domain_findSplit_work_balanced (ncpu ndomain : Z) (domainWork : list Q)
    (L : layout) : layout :=
  let work := sum_cost domainWork 0 (Z.to_nat ndomain) in
  let workavg := double_div work (inject_Z ncpu) in
  split_layout
    (for_loop (Z.to_nat ncpu) (split_body ncpu ndomain domainWork workavg)
       (mk_split 0 0%Q 0%Q L)).

(** The same function on the counts: an [int] goes into the sums as the
    [double] of the same value, as a [float] does. *)
Definition domain_findSplit_load_balanced (ncpu ndomain : Z) (domainCount : list Z)
    (L : layout) : layout :=
  domain_findSplit_work_balanced ncpu ndomain (inject_Z <$> domainCount) L.

(** The work of the leaves [s], ..., [e] as the loop over segment [s] sums
    it: a [double] sum from the left, starting from 0. *)
Definition seg_work (dw : list Q) (s e : Z) : Q :=
  for_loop (Z.to_nat (e - s))
    (fun k w => double_add w (cost_at dw (s + 1 + Z.of_nat k)))
    (double_add 0 (cost_at dw s)).

(** The work committed before segment [j] of the layout [L]: the work of
    the segments before it, added up as [double]s. *)
Definition work_before (dw : list Q) (L : layout) (j : nat) : Q :=
  for_loop j
    (fun j' wb =>
       double_add wb (seg_work dw (DomainStartList L !!! j') (DomainEndList L !!! j')))
    0%Q.

(** The average added up [j] times as a [double]. *)
Definition workavg_before (workavg : Q) (j : nat) : Q :=
  for_loop j (fun _ a => double_add a workavg) 0%Q.

(** Segment [j] of [L] is still open with leaf [e] as its last: its work
    and the work committed are below the next sum of averages. *)
Definition seg_open (dw : list Q) (workavg : Q) (L : layout) (j : nat) (e : Z)
  : Prop :=
  (double_add (seg_work dw (DomainStartList L !!! j) e) (work_before dw L j)
   < double_add workavg (workavg_before workavg j))%Q.

(** What the split guarantees of segment [j] of [L]. *)
Definition segment_ok (ncpu ndomain : Z) (dw : list Q) (workavg : Q) (L : layout)
    (j : nat) : Prop :=
  let s := DomainStartList L !!! j in
  let e := DomainEndList L !!! j in
  s <= e <= ndomain - (ncpu - Z.of_nat j) /\
  (Z.of_nat j = ncpu - 1 -> e = ndomain - 1) /\
  (forall e', s <= e' < e ->
     ndomain - e' > ncpu - Z.of_nat j /\
     (Z.of_nat j < ncpu - 1 -> seg_open dw workavg L j e')) /\
  (Z.of_nat j < ncpu - 1 ->
     ~ seg_open dw workavg L j e \/ ndomain - e <= ncpu - Z.of_nat j).

(** The invariant of the loop over the segments, after [i] of them. *)
Definition split_inv (ncpu ndomain : Z) (dw : list Q) (workavg : Q) (n0 : nat)
    (i : nat) (s : split_state) : Prop :=
  0 <= split_start s <= ndomain - (ncpu - Z.of_nat i) /\
  split_work_before s = work_before dw (split_layout s) i /\
  split_workavg_before s = workavg_before workavg i /\
  length (DomainStartList (split_layout s)) = n0 /\
  length (DomainEndList (split_layout s)) = n0 /\
  (i = 0%nat -> split_start s = 0) /\
  (forall j, (j < i)%nat ->
     segment_ok ncpu ndomain dw workavg (split_layout s) j /\
     (j = 0%nat -> DomainStartList (split_layout s) !!! j = 0) /\
     ((S j < i)%nat ->
        DomainStartList (split_layout s) !!! S j
        = DomainEndList (split_layout s) !!! j + 1) /\
     (S j = i -> split_start s = DomainEndList (split_layout s) !!! j + 1)).

(** The sum of the costs of the leaves before leaf [k] in exact
    arithmetic. *)
Definition exact_cost_before (dw : list Q) (k : Z) : Q :=
  for_loop (Z.to_nat k) (fun i w => (w + cost_at dw (Z.of_nat i))%Q) 0%Q.

(** ** The memory check and the choice of the split in [domain_decompose] *)

(** [domainCount[k]] *)
Definition count_at (dc : list Z) (k : Z) : Z := nth (Z.to_nat k) dc 0.

(** The value an [int] holds after an operation whose exact result is [x]:
    32 bits in two's complement. *)
Definition wrap_int (x : Z) : Z := (x + 2 ^ 31) mod 2 ^ 32 - 2 ^ 31.

(** [for(i = a; i <= b; i++) load += domainCount[i]] with [load] an [int]. *)
Definition sum_count (dc : list Z) (a b : Z) (load : Z) : Z :=
  for_loop (Z.to_nat (b - a + 1))
    (fun k l => wrap_int (l + count_at dc (a + Z.of_nat k))) load.

(** The number of particles in the leaves [a], ..., [b], added to [n]. *)
Definition add_counts (dc : list Z) (a b : Z) (n : Z) : Z :=
  for_loop (Z.to_nat (b - a + 1)) (fun k l => l + count_at dc (a + Z.of_nat k)) n.

Inductive split_choice : Type := WorkBalanced | LoadBalanced.

Section Decompose.

(** The number of ranks, [All.DomainOverDecompositionFactor], [All.MaxPart],
    and the assigner [domain_assign_balanced], which rewrites
    [DomainStartList] and [DomainEndList] from the work or from the counts;
    nothing of what follows depends on how it does so. *)
Variable NTask : nat.
Variable DomainOverDecompositionFactor : nat.
Variable MaxPart : Z.
Variable domain_assign_balanced :
  option (list Q) -> option (list Z) -> layout -> layout.

(** The particle load of rank [ta]: the inner two loops of
    [domain_check_memory_bound], with [int load]. *)
Definition rank_load (L : layout) (dc : list Z) (ta : nat) : Z :=
  for_loop DomainOverDecompositionFactor
    (fun m load =>
       sum_count dc
         (DomainStartList L !!! (ta * DomainOverDecompositionFactor + m)%nat)
         (DomainEndList L !!! (ta * DomainOverDecompositionFactor + m)%nat)
         load)
    0.

(** [domain_check_memory_bound]; the work sums it keeps besides only go
    into messages. *)
Definition max_load_upto (n : nat) (L : layout) (dc : list Z) : Z :=
  for_loop n
    (fun ta m => let load := rank_load L dc ta in if load >? m then load else m)
    0.

Definition max_load (L : layout) (dc : list Z) : Z := max_load_upto NTask L dc.

Definition domain_check_memory_bound (print_details : bool) (dw : list Q)
    (dc : list Z) (L : layout) : Z :=
  if max_load L dc >? MaxPart then 1 else 0.

(** The layouts the two strategies lead to. *)
Definition work_layout (NTopleaves : Z) (dw : list Q) (L : layout) : layout :=
  domain_assign_balanced (Some dw) None
    (domain_findSplit_work_balanced
       (Z.of_nat (DomainOverDecompositionFactor * NTask)) NTopleaves dw L).

Definition load_layout (NTopleaves : Z) (dw : list Q) (dc : list Z) (L : layout)
  : layout :=
  domain_assign_balanced None (Some dc)
    (domain_findSplit_load_balanced
       (Z.of_nat (DomainOverDecompositionFactor * NTask)) NTopleaves dc
       (work_layout NTopleaves dw L)).

(** [domain_decompose] from the check of the number of leaves to the call
    of [domain_exchange]. *)
Definition domain_decompose_split (NTopleaves : Z) (dw : list Q) (dc : list Z)
    (L : layout) : result (split_choice * layout) :=
  if NTopleaves <? Z.of_nat (DomainOverDecompositionFactor * NTask) then Fatal 112
  else
    let L1 := work_layout NTopleaves dw L in
    let status := domain_check_memory_bound false dw dc L1 in
    if negb (status =? 0) then
      let L2 := load_layout NTopleaves dw dc L in
      let status := domain_check_memory_bound true dw dc L2 in
      if negb (status =? 0) then Fatal 0
      else OK (LoadBalanced, L2)
    else OK (WorkBalanced, L1).

(** The number of particles in the segments of rank [ta]. *)
Definition assigned_count (L : layout) (dc : list Z) (ta : nat) : Z :=
  for_loop DomainOverDecompositionFactor
    (fun m n =>
       add_counts dc
         (DomainStartList L !!! (ta * DomainOverDecompositionFactor + m)%nat)
         (DomainEndList L !!! (ta * DomainOverDecompositionFactor + m)%nat)
         n)
    0.

(** Some rank is given more than [MaxPart] particles. *)
Definition over_memory (L : layout) (dc : list Z) : Prop :=
  exists ta, (ta < NTask)%nat /\ assigned_count L dc ta > MaxPart.

(** No leaf has a negative count and what a rank is given fits an [int]. *)
Definition loads_fit (L : layout) (dc : list Z) : Prop :=
  (forall k, 0 <= count_at dc k) /\
  forall ta, (ta < NTask)%nat -> assigned_count L dc ta < 2 ^ 31.

End Decompose.

(** With one segment per rank the assigner has nothing to pair up and its
    sort by rank finds the segments in order. *)
Definition assign_one_per_rank (dw : option (list Q)) (dc : option (list Z))
    (L : layout) : layout := L.

(** ** The driver loop of [domain_Decomposition] *)

(** The calls the driver makes, in order. *)
Inductive driver_call : Type :=
| Call_allocate
| Call_decompose (factor : Q)
| Call_free.

Record driver_state : Type := mk_driver {
  TopNodeAllocFactor : Q;
  domain_allocated_flag : bool;
  driver_calls : list driver_call
}.

Definition domain_allocate (d : driver_state) : driver_state :=
  mk_driver (TopNodeAllocFactor d) true (driver_calls d ++ [Call_allocate]).

Definition domain_free (d : driver_state) : driver_state :=
  if domain_allocated_flag d
  then mk_driver (TopNodeAllocFactor d) false (driver_calls d ++ [Call_free])
  else d.

Section Driver.

(** The rank, and the sum over all ranks of the values [domain_decompose]
    returns when it runs with a given [TopNodeAllocFactor].  The factor is a
    [double], and [1.3] is the [double] nearest to 13/10. *)
Variable ThisTask : nat.
Variable decompose_retsum : Q -> Z.

(** [do { ... } while(retsum);] *)
Fixpoint domain_Decomposition_loop (fuel : nat) (d : driver_state)
  : result driver_state :=
  match fuel with
  | O => OutOfFuel
  | S fuel' =>
      let d1 := domain_allocate d in
      let retsum := decompose_retsum (TopNodeAllocFactor d1) in
      let d2 := mk_driver (TopNodeAllocFactor d1) (domain_allocated_flag d1)
                  (driver_calls d1 ++ [Call_decompose (TopNodeAllocFactor d1)]) in
      if negb (retsum =? 0) then
        let d3 := domain_free d2 in
        let d4 := mk_driver
                    (double_mul (TopNodeAllocFactor d3) (round_double (13 # 10)))
                    (domain_allocated_flag d3) (driver_calls d3) in
        if Qltb 1000 (TopNodeAllocFactor d4) && (ThisTask =? 0)%nat
        then Fatal 781
        else domain_Decomposition_loop fuel' d4
      else OK d2
  end.

End Driver.

(** The factor after [k] recoveries: [k] products in [double]. *)
Fixpoint grown_factor (k : nat) (f : Q) : Q :=
  match k with
  | O => f
  | S k' => double_mul (grown_factor k' f) (round_double (13 # 10))
  end.

(** The calls of [k] failed attempts starting from factor [f]. *)
Fixpoint failed_attempts (k : nat) (f : Q) : list driver_call :=
  match k with
  | O => []
  | S k' =>
      failed_attempts k' f
        ++ [Call_allocate; Call_decompose (grown_factor k' f); Call_free]
  end.

(** A decomposition that needs a factor of at least 0.0137. *)
Definition sample_retsum (f : Q) : Z := if Qltb f (137 # 10000) then 1 else 0.

(** ** The top tree: [domain_check_for_local_refine] *)

(** Modelled from the spec: [peanokey] is an unsigned 64-bit integer
    (peano.h is not part of the sources at hand); sums of keys wrap at
    [2 ^ 64]. *)
Definition peanokey_wrap (k : Z) : Z := k mod 2 ^ 64.

Record local_topnode_data : Type := mk_topnode {
  Size : Z;
  StartKey : Z;
  Count : Z;
  Daughter : Z;
  Leaf : Z;
  Parent : Z;
  PIndex : Z;
  Cost : Q
}.

Global Instance topnode_inhabited : Inhabited local_topnode_data :=
  populate (mk_topnode 0 0 0 0 0 0 0 0%Q).

Record peano_hilbert_data : Type := mk_peano { key : Z; index : Z }.

Global Instance peano_inhabited : Inhabited peano_hilbert_data :=
  populate (mk_peano 0 0).

(** The array [topNodes] with its [MaxTopNodes] entries, and [NTopnodes]. *)
Record toptree : Type := mk_toptree {
  topNodes : list local_topnode_data;
  NTopnodes : Z
}.

(** [topNodes[i]] and [topNodes[i] = x] for an [int] index. *)
Definition node_at (tn : list local_topnode_data) (i : Z) : local_topnode_data :=
  tn !!! Z.to_nat i.

Definition node_set (tn : list local_topnode_data) (i : Z) (x : local_topnode_data)
  : list local_topnode_data :=
  <[Z.to_nat i := x]> tn.

Definition set_Daughter (d : Z) (x : local_topnode_data) : local_topnode_data :=
  mk_topnode (Size x) (StartKey x) (Count x) d (Leaf x) (Parent x) (PIndex x) (Cost x).

Definition set_PIndex (p : Z) (x : local_topnode_data) : local_topnode_data :=
  mk_topnode (Size x) (StartKey x) (Count x) (Daughter x) (Leaf x) (Parent x) p (Cost x).

(** [Cost += c; Count++], the cost a [double]. *)
Definition add_particle (c : Q) (x : local_topnode_data) : local_topnode_data :=
  mk_topnode (Size x) (StartKey x) (Count x + 1) (Daughter x) (Leaf x) (Parent x)
    (PIndex x) (double_add (Cost x) c).

(** [domain_particle_costfactor]; [TIMEBASE] is a constant of allvars.h.
    The sum and the quotient are [double]s and the value returned is a
    [float]; [1 << TimeBin] is an [int], for the bins below 31. *)
Definition domain_particle_costfactor (TIMEBASE : Z) (Pt : list particle_data)
    (i : Z) : Q :=
  let p := Pt !!! Z.to_nat i in
  if negb (TimeBin p =? 0)%nat
  then round_single
         (double_div (double_add 1 (GravCost p))
            (inject_Z (Z.shiftl 1 (Z.of_nat (TimeBin p)))))
  else round_single (double_div (double_add 1 (GravCost p)) (inject_Z TIMEBASE)).

(** The test that ends the refinement of a node with a parent:
    [Count <= 0.8 * parent.Count && Cost <= 0.8 * parent.Cost], in [double]
    arithmetic: the counts are converted and [0.8] is the [double] nearest
    to 8/10. *)
Definition within_parent_share (x par : local_topnode_data) : bool :=
  Qle_bool (round_double (inject_Z (Count x)))
    (double_mul (round_double (8 # 10)) (round_double (inject_Z (Count par))))
  && Qle_bool (Cost x) (double_mul (round_double (8 # 10)) (Cost par)).

(** The first loop over [j]: the eight new daughters of node [i]. *)
Definition init_daughter (i : Z) (j : nat) (tn : list local_topnode_data)
  : list local_topnode_data :=
  let sub := Daughter (node_at tn i) + Z.of_nat j in
  let tn1 := node_set tn sub (set_Daughter (-1) (node_at tn sub)) in
  let tn2 := node_set tn1 sub
    (mk_topnode (Size (node_at tn1 sub)) (StartKey (node_at tn1 sub))
       (Count (node_at tn1 sub)) (Daughter (node_at tn1 sub))
       (Leaf (node_at tn1 sub)) i (PIndex (node_at tn1 sub))
       (Cost (node_at tn1 sub))) in
  let tn3 := node_set tn2 sub
    (mk_topnode (Z.shiftr (Size (node_at tn2 i)) 3) (StartKey (node_at tn2 sub))
       (Count (node_at tn2 sub)) (Daughter (node_at tn2 sub))
       (Leaf (node_at tn2 sub)) (Parent (node_at tn2 sub))
       (PIndex (node_at tn2 sub)) (Cost (node_at tn2 sub))) in
  let tn4 := node_set tn3 sub
    (mk_topnode (Size (node_at tn3 sub))
       (peanokey_wrap (StartKey (node_at tn3 i)
                       + peanokey_wrap (Z.of_nat j * Size (node_at tn3 sub))))
       (Count (node_at tn3 sub)) (Daughter (node_at tn3 sub))
       (Leaf (node_at tn3 sub)) (Parent (node_at tn3 sub))
       (PIndex (node_at tn3 sub)) (Cost (node_at tn3 sub))) in
  let tn5 := node_set tn4 sub (set_PIndex (PIndex (node_at tn4 i)) (node_at tn4 sub)) in
  node_set tn5 sub
    (mk_topnode (Size (node_at tn5 sub)) (StartKey (node_at tn5 sub)) 0 
       (Daughter (node_at tn5 sub)) (Leaf (node_at tn5 sub))
       (Parent (node_at tn5 sub)) (PIndex (node_at tn5 sub)) 0%Q).

Section LocalRefine.

(** [MaxTopNodes], the sorted keys [mp] and the cost of a particle. *)
Variable MaxTopNodes : Z.
Variable mp : list peano_hilbert_data.
Variable costfactor : Z -> Q.

(** The [while] loop that moves [j] on to the daughter holding particle
    [p]; [j] only goes up, and not beyond 7. *)
Fixpoint advance_daughter (fuel : nat) (i sub p : Z) (j : Z)
    (tn : list local_topnode_data) : Z * list local_topnode_data :=
  match fuel with
  | O => (j, tn)
  | S fuel' =>
      if StartKey (node_at tn (sub + j + 1))
         <=? key (mp !!! Z.to_nat (p + PIndex (node_at tn i)))
      then
        let tn1 := node_set tn (sub + j + 1)
                     (set_PIndex p (node_at tn (sub + j + 1))) in
        if j + 1 >=? 7 then (j + 1, tn1)
        else advance_daughter fuel' i sub p (j + 1) tn1
      else (j, tn)
  end.

(** The loop over the particles of node [i]. *)
Fixpoint distribute_particles (fuel : nat) (i : Z) (p j : Z)
    (tn : list local_topnode_data) : result (list local_topnode_data) :=
  match fuel with
  | O => OutOfFuel
  | S fuel' =>
      if p <? Count (node_at tn i) then
        let sub := Daughter (node_at tn i) in
        let '(j1, tn1) :=
          if j <? 7 then advance_daughter 7 i sub p j tn else (j, tn) in
        let entry := mp !!! Z.to_nat (p + PIndex (node_at tn1 i)) in
        let tn2 := node_set tn1 (sub + j1)
                     (add_particle (costfactor (index entry)) (node_at tn1 (sub + j1))) in
        distribute_particles fuel' i (p + 1) j1 tn2
      else OK tn
  end.

(** The last loop over [j], with [rec] the function itself one level down. *)
Fixpoint refine_daughters (rec : Z -> toptree -> result (Z * toptree))
    (n : nat) (i : Z) (j : Z) (t : toptree) : result (Z * toptree) :=
  match n with
  | O => OK (0, t)
  | S n' =>
      let sub := Daughter (node_at (topNodes t) i) + j in
      do rt <- rec sub t;
      if negb (fst rt =? 0) then OK (1, snd rt)
      else refine_daughters rec n' i (j + 1) (snd rt)
  end.

Fixpoint local_refine (fuel : nat) (i : Z) (t : toptree) : result (Z * toptree) :=
  match fuel with
  | O => OutOfFuel
  | S fuel' =>
      let tn := topNodes t in
      if Size (node_at tn i) <? 8 then OK (0, t)
      else if (Parent (node_at tn i) <? 0)
              || within_parent_share (node_at tn i) (node_at tn (Parent (node_at tn i)))
      then OK (0, t)
      else if NTopnodes t + 8 >? MaxTopNodes then OK (1, t)
      else
        let tn1 := node_set tn i (set_Daughter (NTopnodes t) (node_at tn i)) in
        let n1 := NTopnodes t + 8 in
        let tn2 := for_loop 8 (init_daughter i) tn1 in
        do tn3 <- distribute_particles (S (Z.to_nat (Count (node_at tn2 i)))) i 0 0 tn2;
        refine_daughters (local_refine fuel') 8 i 0 (mk_toptree tn3 n1)
  end.

(** A node of [Size] below [2 ^ (3 * d)] is at most [d] levels above the
    nodes of fewer than 8 cells; [2 + log2 Size] levels always do. *)
Definition domain_check_for_local_refine (i : Z) (t : toptree)
  : result (Z * toptree) :=
  local_refine (2 + Z.to_nat (Z.log2 (Size (node_at (topNodes t) i)))) i t.

(** The start of [domain_determineTopTree]: the root is set up as the only
    node, with all [NumPart] particles and their cost [gravcost], and
    [domain_check_for_local_refine] is called on it.  [PEANOCELLS] is a
    constant of peano.h. *)
Definition domain_determineTopTree_root (PEANOCELLS NumPart : Z) (gravcost : Q)
    (t : toptree) : result (Z * toptree) :=
  let x := node_at (topNodes t) 0 in
  let root := mk_topnode PEANOCELLS 0 NumPart (-1) (Leaf x) (-1) 0 gravcost in
  domain_check_for_local_refine 0 (mk_toptree (node_set (topNodes t) 0 root) 1).

End LocalRefine.

(** Two nodes with the same place in the tree: key range, parent and
    first daughter. *)
Definition same_place (x y : local_topnode_data) : Prop :=
  Size x = Size y /\ StartKey x = StartKey y /\ Parent x = Parent y /\
  Daughter x = Daughter y.

(** What a call on node [i] leaves untouched: the nodes that were there
    keep their key range and parent, and all but node [i] their daughters. *)
Definition refine_frame (i : Z) (t t' : toptree) : Prop :=
  NTopnodes t <= NTopnodes t' /\
  length (topNodes t') = length (topNodes t) /\
  (forall k, 0 <= k < NTopnodes t ->
     Size (node_at (topNodes t') k) = Size (node_at (topNodes t) k) /\
     StartKey (node_at (topNodes t') k) = StartKey (node_at (topNodes t) k) /\
     Parent (node_at (topNodes t') k) = Parent (node_at (topNodes t) k)) /\
  (forall k, 0 <= k < NTopnodes t -> k <> i ->
     Daughter (node_at (topNodes t') k) = Daughter (node_at (topNodes t) k)).

(** The node is one the function opens: at least 8 cells, a parent, more
    than 80% of the parent's count or cost, and room for 8 more nodes. *)
Definition to_refine (MaxTopNodes : Z) (i : Z) (t : toptree) : Prop :=
  8 <= Size (node_at (topNodes t) i) /\
  0 <= Parent (node_at (topNodes t) i) /\
  within_parent_share (node_at (topNodes t) i)
    (node_at (topNodes t) (Parent (node_at (topNodes t) i))) = false /\
  NTopnodes t + 8 <= MaxTopNodes.

(** The daughter [j] that opening node [x] creates, in a slot holding [old]. *)
Definition new_daughter (i : Z) (x old : local_topnode_data) (j : nat)
  : local_topnode_data :=
  mk_topnode (Z.shiftr (Size x) 3)
    (peanokey_wrap (StartKey x + peanokey_wrap (Z.of_nat j * Z.shiftr (Size x) 3)))
    0 (-1) (Leaf old) i (PIndex x) 0%Q.

(** The shape of the array: [NTopnodes] of its [MaxTopNodes] entries in use. *)
Definition tree_wf (MaxTopNodes : Z) (t : toptree) : Prop :=
  0 <= NTopnodes t <= MaxTopNodes /\
  Z.of_nat (length (topNodes t)) = MaxTopNodes.

(** A function that can stand for the recursive call on nodes whose size
    satisfies [okS]. *)
Definition rec_ok (MaxTopNodes : Z) (rec : Z -> toptree -> result (Z * toptree))
    (okS : Z -> Prop) : Prop :=
  forall sub t,
    tree_wf MaxTopNodes t ->
    0 <= sub < NTopnodes t ->
    okS (Size (node_at (topNodes t) sub)) ->
    exists r t',
      rec sub t = OK (r, t') /\ (r = 0 \/ r = 1) /\
      tree_wf MaxTopNodes t' /\ refine_frame sub t t'.

(** A tree that fills its array: the root, opened, and its eight daughters
    of 64 cells; the first daughter holds all five particles. *)
Definition sample_node (size start count daughter parent pindex : Z) (cost : Q)
  : local_topnode_data :=
  mk_topnode size start count daughter 0 parent pindex cost.

Definition sample_nodes : list local_topnode_data :=
  [sample_node 512 0 5 1 (-1) 0 5%Q; sample_node 64 0 5 (-1) 0 0 5%Q;
   sample_node 64 64 0 (-1) 0 0 0%Q; sample_node 64 128 0 (-1) 0 0 0%Q;
   sample_node 64 192 0 (-1) 0 0 0%Q; sample_node 64 256 0 (-1) 0 0 0%Q;
   sample_node 64 320 0 (-1) 0 0 0%Q; sample_node 64 384 0 (-1) 0 0 0%Q;
   sample_node 64 448 0 (-1) 0 0 0%Q].

Definition sample_full_tree : toptree := mk_toptree sample_nodes 9.

(** The same tree in an array with room for sixteen more nodes. *)
Definition sample_tree : toptree :=
  mk_toptree (sample_nodes ++ replicate 16 (mk_topnode 0 0 0 0 0 0 0 0%Q)) 9.

Definition sample_keys : list peano_hilbert_data :=
  [mk_peano 0 0; mk_peano 1 1; mk_peano 2 2; mk_peano 3 3; mk_peano 7 4].

Definition unit_cost (i : Z) : Q := 1%Q.

(** ** The exchange: the receive-side loop of [domain_countToGo]

    All ranks at once: [toGo c !!! r] is the array [toGo] of rank [r], and
    so on; [list_NumPart], [list_N_sph] and [list_N_bh] are what
    [MPI_Allgather] hands to every rank.  The loop is entered when some rank
    could not stage all its exports ([retsum] non-zero). *)

Record exchange_counts : Type := mk_counts {
  toGo : list (list Z);
  toGoSph : list (list Z);
  toGoBh : list (list Z);
  toGet : list (list Z);
  toGetSph : list (list Z);
  toGetBh : list (list Z)
}.

Definition mget (m : list (list Z)) (r c : nat) : Z := (m !!! r) !!! c.

(** [m[r][c]--] *)
Definition mdec (m : list (list Z)) (r c : nat) : list (list Z) :=
  <[r := <[c := mget m r c - 1]> (m !!! r)]> m.

Section Exchange.

Variable NTask : nat.
Variable MaxPart MaxPartBh : Z.
Variable list_NumPart list_N_sph list_N_bh : list Z.

(** What rank [r] sums over its array [m !!! r]. *)
Definition row_sum (m : list (list Z)) (r : nat) : Z :=
  for_loop NTask (fun i s => s + mget m r i) 0.

(** [while(ntoomany)]: the ranks take turns, starting with [i]; the rank
    whose turn it is takes one particle bound for [ta] off its list, if it
    has one, and broadcasts the new [ntoomany] and [count_toget]. *)
Fixpoint shed (fuel : nat) (ta i : nat) (ntoomany : Z) (tg : list (list Z))
    (count_toget : Z) : result (list (list Z) * Z) :=
  if ntoomany =? 0 then OK (tg, count_toget)
  else
    match fuel with
    | O => OutOfFuel
    | S fuel' =>
        let i' := if (NTask <=? i + 1)%nat then 0%nat else (i + 1)%nat in
        if mget tg i ta >? 0
        then shed fuel' ta i' (ntoomany - 1) (mdec tg i ta) (count_toget - 1)
        else shed fuel' ta i' ntoomany tg count_toget
    end.

(** The body of [for(ta = 0; ta < NTask; ta++)], on the counts and [flag]. *)
Definition check_rank (fuel : nat) (flagsum : Z) (ta : nat)
    (s : exchange_counts * Z) : result (exchange_counts * Z) :=
  let '(c, flag) := s in
  let count_togo := row_sum (toGo c) ta in
  let count_toget := row_sum (toGet c) ta in
  let count_togo_sph := row_sum (toGoSph c) ta in
  let count_toget_sph := row_sum (toGetSph c) ta in
  let count_togo_bh := row_sum (toGoBh c) ta in
  let count_toget_bh := row_sum (toGetBh c) ta in
  let i0 := Z.to_nat (flagsum mod Z.of_nat NTask) in
  let n_sph := list_N_sph !!! ta + count_toget_sph - count_togo_sph - MaxPart in
  do s1 <-
    (if n_sph >? 0
     then do r <- shed fuel ta i0 n_sph (toGoSph c) count_toget; OK (fst r, snd r, 1)
     else OK (toGoSph c, count_toget, flag));
  let '(toGoSph1, count_toget1, flag1) := s1 in
  let n_bh := list_N_bh !!! ta + count_toget_bh - count_togo_bh - MaxPartBh in
  do s2 <-
    (if n_bh >? 0
     then do r <- shed fuel ta i0 n_bh (toGoBh c) count_toget1; OK (fst r, snd r, 1)
     else OK (toGoBh c, count_toget1, flag1));
  let '(toGoBh1, count_toget2, flag2) := s2 in
  let n_all := list_NumPart !!! ta + count_toget2 - count_togo - MaxPart in
  do s3 <-
    (if n_all >? 0
     then do r <- shed fuel ta i0 n_all (toGo c) count_toget2; OK (fst r, snd r, 1)
     else OK (toGo c, count_toget2, flag2));
  let '(toGo1, _, flag3) := s3 in
  OK (mk_counts toGo1 toGoSph1 toGoBh1 (toGet c) (toGetSph c) (toGetBh c), flag3).

(** One turn of the inner [do ... while(flag)]: [flag = 0] and the loop over
    the ranks. *)
Definition overflow_pass (fuel : nat) (flagsum : Z) (c : exchange_counts)
  : result (exchange_counts * Z) :=
  for_loopR NTask (check_rank fuel flagsum) (c, 0).

(** The inner loop; [flagsum] goes up with every turn that goes on, and
    beyond 100 the run ends, so [passes] = 101 turns are all there can be. *)
Fixpoint overflow_loop (passes : nat) (fuel : nat) (flagsum : Z)
    (c : exchange_counts) : result (exchange_counts * Z) :=
  match passes with
  | O => OutOfFuel
  | S passes' =>
      do r <- overflow_pass fuel flagsum c;
      let flagsum' := flagsum + snd r in
      if flagsum' >? 100 then Fatal 1013
      else if negb (snd r =? 0) then overflow_loop passes' fuel flagsum' (fst r)
      else OK (fst r, flagsum')
  end.

(** After a turn that found an overflow the ranks go through their
    particles again and exchange the new counts; [reconcile] stands for that
    block. *)
Variable reconcile : exchange_counts -> exchange_counts.

(** The outer [do ... while(flagsum)]. *)
Fixpoint safety_loop (rounds : nat) (fuel : nat) (c : exchange_counts)
  : result exchange_counts :=
  match rounds with
  | O => OutOfFuel
  | S rounds' =>
      do r <- overflow_loop 101 fuel 0 c;
      if negb (snd r =? 0) then safety_loop rounds' fuel (reconcile (fst r))
      else OK (fst r)
  end.

End Exchange.

(** The other ranks' counts as seen by the receivers: [MPI_Alltoall]. *)
Definition alltoall (NTask : nat) (m : list (list Z)) : list (list Z) :=
  map (fun r => map (fun i => mget m i r) (seq 0 NTask)) (seq 0 NTask).

(** Two ranks with room for 1000 particles each; rank 0 holds 801 and rank 1
    wants to send it 200 particles that are neither gas nor black holes:
    one too many. *)
Definition sample_exchange : exchange_counts :=
  let go := [[0; 0]; [200; 0]] in
  let none := [[0; 0]; [0; 0]] in
  mk_counts go none none (alltoall 2 go) none none.

(** ** Counts along the leaves *)

(** The number of particles in the leaves before leaf [k]. *)
Definition count_before (dc : list Z) (k : Z) : Z :=
  for_loop (Z.to_nat k) (fun i c => c + count_at dc (Z.of_nat i)) 0.

(** ** The receive-side loop: what it tests and what it may change *)

Section ExchangeTests.

Variable NTask : nat.
Variable MaxPart MaxPartBh : Z.
Variable list_NumPart list_N_sph list_N_bh : list Z.

(** Rank [ta] cannot take what the counts [c] send it: one of the three
    tests of the loop over the ranks holds before anything is shed. *)
Definition rank_over (c : exchange_counts) (ta : nat) : Prop :=
  list_N_sph !!! ta + row_sum NTask (toGetSph c) ta - row_sum NTask (toGoSph c) ta
    - MaxPart > 0 \/
  list_N_bh !!! ta + row_sum NTask (toGetBh c) ta - row_sum NTask (toGoBh c) ta
    - MaxPartBh > 0 \/
  list_NumPart !!! ta + row_sum NTask (toGet c) ta - row_sum NTask (toGo c) ta
    - MaxPart > 0.

(** What all ranks together send to rank [ta]. *)
Definition col_sum (m : list (list Z)) (ta : nat) : Z :=
  for_loop NTask (fun r s => s + mget m r ta) 0.

(** What the ranks together can still give up of what they send to [ta]. *)
Definition col_avail (m : list (list Z)) (ta : nat) : Z :=
  for_loop NTask (fun r s => s + Z.max 0 (mget m r ta)) 0.

(** The rank whose turn comes after rank [i]. *)
Definition next_rank (i : nat) : nat :=
  if (NTask <=? i + 1)%nat then 0%nat else (i + 1)%nat.

End ExchangeTests.

(** The send counts of [c'] are at most those of [c] and the receive counts
    are the same. *)
Definition counts_le (c' c : exchange_counts) : Prop :=
  (forall r k, mget (toGo c') r k <= mget (toGo c) r k) /\
  (forall r k, mget (toGoSph c') r k <= mget (toGoSph c) r k) /\
  (forall r k, mget (toGoBh c') r k <= mget (toGoBh c) r k) /\
  toGet c' = toGet c /\ toGetSph c' = toGetSph c /\ toGetBh c' = toGetBh c.

(** ** [domain_count_particles] and [domain_refresh_totals] *)

(** [NLocalThread[P[i].Type]++] over the live entries, starting from zeros;
    [NLocal] is the sum of these arrays over the threads, one thread here. *)
Definition domain_count_local (st : part_state) : list Z :=
  for_loop (NumPart st)
    (fun i nl =>
       <[Z.to_nat (PType (P st !!! i)) :=
           nl !!! Z.to_nat (PType (P st !!! i)) + 1]> nl)
    (replicate 6 0).

(** [domain_refresh_totals]: [NTotal] is [NLocal] summed over the ranks,
    [others] being what the other ranks contribute, and [TotNumPart] the sum
    of its six entries. *)
Definition domain_refresh_totals (others : list Z) (NLocal : list Z) : list Z * Z :=
  let NTotal := zip_with Z.add NLocal others in
  (NTotal, for_loop 6 (fun ptype tot => tot + NTotal !!! ptype) 0).

(** [domain_count_particles]: [NLocal], [NTotal] and [TotNumPart]. *)
Definition domain_count_particles (others : list Z) (st : part_state)
  : list Z * list Z * Z :=
  let NLocal := domain_count_local st in
  let '(NTotal, TotNumPart) := domain_refresh_totals others NLocal in
  (NLocal, NTotal, TotNumPart).

(** The number of live entries of type [t]. *)
Definition count_type (t : Z) (l : list particle_data) : Z :=
  Z.of_nat (length (filter (fun p => PType p = t) l)).

(** ** [domain_sph_garbage_collection_reclaim] *)

(** The body of the [while] loop: the entry at [i], no longer gas, changes
    places with the last entry of the gas prefix, whose slot moves to [i]. *)
Definition sph_reclaim_swap (i : nat) (st : part_state) : part_state :=
  let psave := P st !!! i in
  let P1 := <[i := P st !!! (N_sph_slots st - 1)%nat]> (P st) in
  let SphP1 := <[i := SphP st !!! (N_sph_slots st - 1)%nat]> (SphP st) in
  let P2 := <[(N_sph_slots st - 1)%nat := psave]> P1 in
  mk_state P2 SphP1 (BhP st) (NumPart st) (N_sph_slots st - 1) (N_bh_slots st)
    (TimeBinCount st) (TimeBinCountSph st) (NumActiveParticle st)
    (ActiveParticle st) (Nextnode st) (Father st).

(** The [for] loop with its inner [while] loop.  A turn either moves [i] up
    or [N_sph_slots] down, so [N_sph_slots] turns are all there are. *)
Fixpoint sph_reclaim_loop (fuel : nat) (i : nat) (st : part_state)
    (tree_invalid : Z) : part_state * Z :=
  match fuel with
  | O => (st, tree_invalid)
  | S fuel' =>
      if (i <? N_sph_slots st)%nat then
        if negb (PType (P st !!! i) =? 0)
        then sph_reclaim_loop fuel' i (sph_reclaim_swap i st) 1
        else sph_reclaim_loop fuel' (S i) st tree_invalid
      else (st, tree_invalid)
  end.

(** [SFR] is the compile-time option of that name; the sums over the ranks
    only feed a message. *)
Definition domain_sph_garbage_collection_reclaim (SFR : bool) (st : part_state)
  : Z * part_state :=
  if SFR then
    let '(st', tree_invalid) := sph_reclaim_loop (N_sph_slots st) 0 st 0 in
    (tree_invalid, st')
  else (0, st).

(** The entries of the gas prefix, each with its gas slot. *)
Definition slot_pairs (st : part_state) : list (particle_data * sph_particle_data) :=
  take (N_sph_slots st) (zip (P st) (SphP st)).

(** The invariant of the reclaim loop with respect to the state [st0] it
    started from. *)
Definition reclaim_inv (st0 st : part_state) (i : nat) (tree_invalid : Z) : Prop :=
  NumPart st = NumPart st0 /\
  length (P st) = length (P st0) /\
  length (SphP st) = length (SphP st0) /\
  (i <= N_sph_slots st <= N_sph_slots st0)%nat /\
  (forall k, (k < i)%nat -> PType (P st !!! k) = 0) /\
  (forall k, (N_sph_slots st <= k < N_sph_slots st0)%nat -> PType (P st !!! k) <> 0) /\
  (forall k, (N_sph_slots st0 <= k)%nat -> P st !! k = P st0 !! k) /\
  take (N_sph_slots st0) (P st) ≡ₚ take (N_sph_slots st0) (P st0) /\
  filter (fun x => PType (fst x) = 0) (slot_pairs st)
    ≡ₚ filter (fun x => PType (fst x) = 0) (slot_pairs st0) /\
  ((tree_invalid = 0 /\ N_sph_slots st = N_sph_slots st0) \/
   (tree_invalid = 1 /\ (N_sph_slots st < N_sph_slots st0)%nat)) /\
  BhP st = BhP st0 /\ N_bh_slots st = N_bh_slots st0 /\
  TimeBinCount st = TimeBinCount st0 /\ TimeBinCountSph st = TimeBinCountSph st0 /\
  NumActiveParticle st = NumActiveParticle st0 /\
  ActiveParticle st = ActiveParticle st0 /\
  Nextnode st = Nextnode st0 /\ Father st = Father st0.

(** ** [domain_garbage_collection] *)

Section GarbageCollection.

(** The option [SFR], [All.MaxPartBh] and the C library's [qsort]. *)
Variable SFR : bool.
Variable MaxPartBh : nat.
Variable qsort :
  (bh_particle_data -> bh_particle_data -> Z) ->
  list bh_particle_data -> list bh_particle_data.

(** The three passes, the sum of [tree_invalid] over the ranks and the
    recount.  [np0] and [np] are the sums of [NumPart] over the other ranks
    before and after their mass-zero elimination, [bh0] is their sum of
    [N_bh_slots], [invalid] what they add to the sum of [tree_invalid], and
    [counts] what they count of each type. *)
Definition domain_garbage_collection (np0 np bh0 invalid : Z) (counts : list Z)
    (st : part_state) : result (Z * part_state * (list Z * list Z * Z)) :=
  let tree_invalid := 0 in
  let '(r1, st1) := domain_sph_garbage_collection_reclaim SFR st in
  let tree_invalid := Z.lor tree_invalid r1 in
  let '(r2, st2) := domain_all_garbage_collection np0 np st1 in
  let tree_invalid := Z.lor tree_invalid r2 in
  do r <- domain_bh_garbage_collection MaxPartBh qsort bh0 st2;
  let '(r3, st3) := r in
  let tree_invalid := Z.lor tree_invalid r3 in
  OK (tree_invalid + invalid, st3, domain_count_particles counts st3).

End GarbageCollection.

(** The slots the live black holes point to, in base order. *)
Definition bh_pis (st : part_state) : list nat :=
  PI <$> filter (fun p => PType p = 5) (live st).

(** ** The nodes added to the merged tree ([domain_determineTopTree]) *)

Definition set_Size (s : Z) (x : local_topnode_data) : local_topnode_data :=
  mk_topnode s (StartKey x) (Count x) (Daughter x) (Leaf x) (Parent x) (PIndex x) (Cost x).

Definition set_StartKey (k : Z) (x : local_topnode_data) : local_topnode_data :=
  mk_topnode (Size x) k (Count x) (Daughter x) (Leaf x) (Parent x) (PIndex x) (Cost x).

Definition set_Count (c : Z) (x : local_topnode_data) : local_topnode_data :=
  mk_topnode (Size x) (StartKey x) c (Daughter x) (Leaf x) (Parent x) (PIndex x) (Cost x).

Definition set_Cost (c : Q) (x : local_topnode_data) : local_topnode_data :=
  mk_topnode (Size x) (StartKey x) (Count x) (Daughter x) (Leaf x) (Parent x) (PIndex x) c.

Definition set_Parent (p : Z) (x : local_topnode_data) : local_topnode_data :=
  mk_topnode (Size x) (StartKey x) (Count x) (Daughter x) (Leaf x) p (PIndex x) (Cost x).

Definition set_Leaf (l : Z) (x : local_topnode_data) : local_topnode_data :=
  mk_topnode (Size x) (StartKey x) (Count x) (Daughter x) l (Parent x) (PIndex x) (Cost x).

(** The body of the loop over [j]: daughter [j] of node [i] gets an eighth
    of the size, of the count (a division of [int64_t]) and of the cost. *)
Definition grow_daughter (i : Z) (j : nat) (tn : list local_topnode_data)
  : list local_topnode_data :=
  let sub := Daughter (node_at tn i) + Z.of_nat j in
  let tn1 := node_set tn sub
               (set_Size (Z.shiftr (Size (node_at tn i)) 3) (node_at tn sub)) in
  let tn2 := node_set tn1 sub
               (set_Count (Z.quot (Count (node_at tn1 i)) 8) (node_at tn1 sub)) in
  let tn3 := node_set tn2 sub
               (set_Cost (Cost (node_at tn2 i) / 8)%Q (node_at tn2 sub)) in
  let tn4 := node_set tn3 sub (set_Daughter (-1) (node_at tn3 sub)) in
  let tn5 := node_set tn4 sub (set_Parent i (node_at tn4 sub)) in
  node_set tn5 sub
    (set_StartKey
       (peanokey_wrap (StartKey (node_at tn5 i)
                       + peanokey_wrap (Z.of_nat j * Size (node_at tn5 sub))))
       (node_at tn5 sub)).

(** The daughter [j] that the loop leaves in a slot holding [old]. *)
Definition grown_daughter (i : Z) (x old : local_topnode_data) (j : nat)
  : local_topnode_data :=
  mk_topnode (Z.shiftr (Size x) 3)
    (peanokey_wrap (StartKey x + peanokey_wrap (Z.of_nat j * Z.shiftr (Size x) 3)))
    (Z.quot (Count x) 8) (-1) (Leaf old) i (PIndex old) (Cost x / 8)%Q.

Section AddNodes.

(** [MaxTopNodes] and the two limits, [countlimit] and [costlimit]. *)
Variable MaxTopNodes : Z.
Variable countlimit costlimit : Q.

(** [Count > countlimit || Cost > costlimit] *)
Definition over_limit (x : local_topnode_data) : bool :=
  Qltb countlimit (inject_Z (Count x)) || Qltb costlimit (Cost x).

(** [for(i = 0, errflag = 0; i < NTopnodes; i++)], with [NTopnodes] going up
    as nodes are added; the result is [errflag] and the tree. *)
Fixpoint grow_loop (fuel : nat) (i : Z) (t : toptree) : result (Z * toptree) :=
  match fuel with
  | O => OutOfFuel
  | S fuel' =>
      if i <? NTopnodes t then
        let tn := topNodes t in
        if (Daughter (node_at tn i) <? 0) && over_limit (node_at tn i)
           && (Size (node_at tn i) >? 1)
        then
          if NTopnodes t + 8 <=? MaxTopNodes then
            let tn1 := node_set tn i (set_Daughter (NTopnodes t) (node_at tn i)) in
            let tn2 := for_loop 8 (grow_daughter i) tn1 in
            grow_loop fuel' (i + 1) (mk_toptree tn2 (NTopnodes t + 8))
          else OK (1, t)
        else grow_loop fuel' (i + 1) t
      else OK (0, t)
  end.

(** [i] goes up with every turn and stays below [NTopnodes], which never
    passes [MaxTopNodes]. *)
Definition domain_determineTopTree_addnodes (t : toptree) : result (Z * toptree) :=
  grow_loop (S (Z.to_nat MaxTopNodes)) 0 t.

(** A node the loop has added, next to its parent. *)
Definition grown_node (tn : list local_topnode_data) (k : Z) : Prop :=
  let x := node_at tn k in
  let p := node_at tn (Parent x) in
  0 <= Parent x < k /\
  0 <= Daughter p <= k /\ k < Daughter p + 8 /\
  1 < Size p /\
  Size x = Z.shiftr (Size p) 3 /\
  Count x = Z.quot (Count p) 8 /\
  Cost x = (Cost p / 8)%Q /\
  StartKey x =
    peanokey_wrap (StartKey p + peanokey_wrap ((k - Daughter p) * Size x)).

(** The invariant of the loop with respect to the tree [t0] it started
    from, before the turn for node [i]. *)
Definition grow_inv (t0 : toptree) (i : Z) (t : toptree) : Prop :=
  tree_wf MaxTopNodes t /\
  NTopnodes t0 <= NTopnodes t /\
  0 <= i <= NTopnodes t /\
  (forall k, 0 <= k < NTopnodes t0 ->
     set_Daughter 0 (node_at (topNodes t) k) = set_Daughter 0 (node_at (topNodes t0) k) /\
     (Daughter (node_at (topNodes t) k) = Daughter (node_at (topNodes t0) k) \/
      (Daughter (node_at (topNodes t0) k) < 0 /\
       NTopnodes t0 <= Daughter (node_at (topNodes t) k)))) /\
  (forall k, 0 <= k < i ->
     Daughter (node_at (topNodes t) k) < 0 -> 1 < Size (node_at (topNodes t) k) ->
     over_limit (node_at (topNodes t) k) = false) /\
  (forall k, NTopnodes t0 <= k < NTopnodes t -> grown_node (topNodes t) k) /\
  (forall n, 0 <= n < NTopnodes t ->
     NTopnodes t0 <= Daughter (node_at (topNodes t) n) ->
     Daughter (node_at (topNodes t) n) + 8 <= NTopnodes t /\
     forall j, 0 <= j < 8 ->
       Parent (node_at (topNodes t) (Daughter (node_at (topNodes t) n) + j)) = n) /\
  (forall k, NTopnodes t <= k ->
     node_at (topNodes t) k = node_at (topNodes t0) k) /\
  (forall k, NTopnodes t0 <= k < NTopnodes t ->
     Daughter (node_at (topNodes t) k) < 0 \/
     NTopnodes t0 <= Daughter (node_at (topNodes t) k)).

End AddNodes.

(** ** The shape of a top tree *)

Definition pow8 (s : Z) : Prop := exists k : nat, s = 8 ^ Z.of_nat k.

(** An oct-tree over the keys: sizes are powers of 8, key ranges lie within
    the 64-bit keys, the daughters of a node stand behind it, eight in a
    row within the nodes in use, and cut its key range into eight equal
    parts in order. *)
Definition octree_ok (t : toptree) : Prop :=
  0 < NTopnodes t <= Z.of_nat (length (topNodes t)) /\
  forall n, 0 <= n < NTopnodes t ->
    let x := node_at (topNodes t) n in
    pow8 (Size x) /\ 0 <= StartKey x /\ StartKey x + Size x <= 2 ^ 64 /\
    (0 <= Daughter x ->
       n < Daughter x /\ Daughter x + 8 <= NTopnodes t /\
       forall j, 0 <= j < 8 ->
         let d := node_at (topNodes t) (Daughter x + j) in
         8 * Size d = Size x /\ StartKey d = StartKey x + j * Size d).

(** ** [domain_leafnodefunc] and [domain_layoutfunc] *)

(** The walk down from node [no].  The quotient is one of [peanokey]s,
    unsigned 64-bit integers; a node with daughters and fewer than 8 cells
    would make the C code divide by zero.  On a tree whose daughters stand
    behind their parent every step moves [no] up, so [NTopnodes] steps are
    all there are; a walk that needs more has no end. *)
Fixpoint leafnode_walk (fuel : nat) (tn : list local_topnode_data) (key no : Z)
  : result Z :=
  match fuel with
  | O => OutOfFuel
  | S fuel' =>
      if Daughter (node_at tn no) >=? 0 then
        leafnode_walk fuel' tn key
          (Daughter (node_at tn no)
           + peanokey_wrap (key - StartKey (node_at tn no))
             / (Size (node_at tn no) / 8))
      else OK (Leaf (node_at tn no))
  end.

Definition domain_leafnodefunc (t : toptree) (key : Z) : result Z :=
  leafnode_walk (Z.to_nat (NTopnodes t)) (topNodes t) key 0.

(** [DomainTask[no]] for the leaf [no] of the key of particle [n]. *)
Definition domain_layoutfunc (t : toptree) (DomainTask : list Z)
    (Pt : list particle_data) (n : nat) : result Z :=
  do no <- domain_leafnodefunc t (Key (Pt !!! n));
  OK (DomainTask !!! Z.to_nat no).

(** The key lies in the key range of node [no]. *)
Definition in_range (tn : list local_topnode_data) (no key : Z) : Prop :=
  StartKey (node_at tn no) <= key < StartKey (node_at tn no) + Size (node_at tn no).

(** ** [domain_countToGo]: counting what is to go *)

Definition set_WillExport (b : bool) (p : particle_data) : particle_data :=
  mk_particle (Pos p) (Vel p) (Mass p) (ID p) (Generation p) (PType p) (TimeBin p)
    (GravCost p) (Key p) (PI p) (OnAnotherDomain p) b.

(** The base table, the three send counts and [nlimit].  [nlimit] is a
    [ptrdiff_t] that the code only compares with and lowers by values of
    type [size_t]: it is kept here as the comparisons see it, converted to
    [size_t]. *)
Record togo_state : Type := mk_togo {
  tg_P : list particle_data;
  tg_toGo : list Z;
  tg_toGoSph : list Z;
  tg_toGoBh : list Z;
  tg_nlimit : Z
}.

Section CountToGo.

(** The number of ranks, the rank, the target rank of a particle, and the
    sizes of the three structures. *)
Variable NTask ThisTask : nat.
Variable layoutfunc : nat -> nat.
Variable size_P size_Sph size_Bh : Z.

Definition package : Z := size_P + size_Sph + size_Bh.

(** [x -= size] on [nlimit]. *)
Definition lower (x size : Z) : Z := (x - size) mod 2 ^ 64.

(** [a[target] += 1] *)
Definition bump (target : nat) (a : list Z) : list Z :=
  <[target := a !!! target + 1]> a.

(** The body of the loop over the particles once it is known that the
    particle is to go to another rank. *)
Definition togo_mark (n : nat) (s : togo_state) : togo_state :=
  let target := layoutfunc n in
  let toGo1 := bump target (tg_toGo s) in
  let nlimit1 := lower (tg_nlimit s) size_P in
  let '(toGoSph1, nlimit2) :=
    if PType (tg_P s !!! n) =? 0
    then (bump target (tg_toGoSph s), lower nlimit1 size_Sph)
    else (tg_toGoSph s, nlimit1) in
  let '(toGoBh1, nlimit3) :=
    if PType (tg_P s !!! n) =? 5
    then (bump target (tg_toGoBh s), lower nlimit2 size_Bh)
    else (tg_toGoBh s, nlimit2) in
  mk_togo (<[n := set_WillExport true (tg_P s !!! n)]> (tg_P s))
    toGo1 toGoSph1 toGoBh1 nlimit3.

(** [for(n = ...; n < NumPart; n++)] with [k] particles left to look at. *)
Fixpoint togo_loop (k : nat) (n : nat) (s : togo_state) : togo_state :=
  match k with
  | O => s
  | S k' =>
      if package >=? tg_nlimit s then s
      else if negb (OnAnotherDomain (tg_P s !!! n)) then togo_loop k' (S n) s
      else if (layoutfunc n =? ThisTask)%nat then togo_loop k' (S n) s
      else togo_loop k' (S n) (togo_mark n s)
  end.

(** The function up to the exchange of the counts: the value [ret] and the
    state; [nlimit] is the argument converted to [size_t]. *)
Definition domain_countToGo_local (nlimit : Z) (NumPart : nat)
    (Pt : list particle_data) : result (Z * togo_state) :=
  let zeros := replicate NTask 0 in
  if package >=? nlimit then Fatal 212
  else
    let s := togo_loop NumPart 0 (mk_togo Pt zeros zeros zeros nlimit) in
    OK ((if package >=? tg_nlimit s then 1 else 0), s).

(** Particle [m] of the table [Pt] is to go to rank [t]. *)
Definition goes_to (Pt : list particle_data) (t : nat) (m : nat) : Prop :=
  OnAnotherDomain (Pt !!! m) = true /\ layoutfunc m <> ThisTask /\ layoutfunc m = t.

(** The number of particles among [a], ..., [a + k - 1] that are to go to
    rank [t] and satisfy [sel]. *)
Definition togo_count (Pt : list particle_data) (sel : particle_data -> Prop)
    `{!forall p, Decision (sel p)} (t : nat) (a k : nat) : Z :=
  Z.of_nat (length (filter (fun m => goes_to Pt t m /\ sel (Pt !!! m)) (seq a k))).

End CountToGo.

(** ** [domain_test_id_uniqueness] *)

Section IdUniqueness.

Variable NTask ThisTask : nat.

(** [mpsort_mpi] sorts the identifiers of all ranks together and leaves
    every rank as many as it had; [mpsort_mpi ids] is what it leaves in the
    array [ids] of this rank. *)
Variable mpsort_mpi : list Z -> list Z.

(** [ids_first]: the first identifier of every rank after the sort, as
    [MPI_Allgather] delivers them. *)
Variable ids_first : list Z.

(** The body of [for(i = 1; i < NumPart; i++)], with [i = k + 1]. *)
Definition id_check (ids : list Z) (k : nat) (u : unit) : result unit :=
  if ids !!! S k =? ids !!! k then Fatal 12 else OK tt.

Definition domain_test_id_uniqueness (st : part_state) : result unit :=
  if (NumPart st =? 0)%nat then Fatal 8
  else
    let ids := mpsort_mpi (ID <$> live st) in
    do _ <- for_loopR (NumPart st - 1) (id_check ids) tt;
    if (ThisTask <? NTask - 1)%nat
    then
      if ids !!! (NumPart st - 1)%nat =? ids_first !!! (ThisTask + 1)%nat
      then Fatal 13
      else OK tt
    else OK tt.

End IdUniqueness.

(** ** Small tables for the passes above *)

(** One live entry at generation 255, with room for a child. *)
Definition sample_old_state : part_state :=
  mk_state
    [mk_particle (0, 0, 0)%Q (0, 0, 0)%Q 1%Q 7 255 1 0 0%Q 0 0 false false;
     particle0]
    [] []
    1 0 0
    [10] [5] 0 [] None [].

(** Four particles for two ranks: the odd ones belong to rank 1; the first
    two and the last lie on another domain, one of them gas and one a black
    hole. *)
Definition sample_layoutfunc (m : nat) : nat := if Nat.even m then 0%nat else 1%nat.

Definition sample_togo_table : list particle_data :=
  [mk_particle (0, 0, 0)%Q (0, 0, 0)%Q 1%Q 100 0 1 0 0%Q 0 0 true false;
   mk_particle (0, 0, 0)%Q (0, 0, 0)%Q 1%Q 101 0 0 0 0%Q 0 0 true false;
   mk_particle (0, 0, 0)%Q (0, 0, 0)%Q 1%Q 102 0 1 0 0%Q 0 0 false false;
   mk_particle (0, 0, 0)%Q (0, 0, 0)%Q 1%Q 103 0 5 0 0%Q 0 0 true false].

(** Two ranks, and what sorting their identifiers together leaves on each:
    the first rank gets the low end of the sorted whole, the second the
    rest. *)
Definition sample_ranks (r : nat) : part_state :=
  if (r =? 0)%nat then sample_bh_state else sample_old_state.

Definition sample_mpsort_mpi (r : nat) (own : list Z) : list Z :=
  let all :=
    merge_sort Z.le (ID <$> live (sample_ranks 0) ++ live (sample_ranks 1)) in
  if (r =? 0)%nat then take (length own) all
  else drop (length all - length own) all.
(** * Theorems *)

(** ** The particle manager: [domain_fork_particle] *)

Lemma mask56_bits (n : Z) :
  0 <= n -> Z.testbit 0x00ffffffffffffff n = (n <? 56).
Proof.
  intros Hn. change 0x00ffffffffffffff with (Z.ones 56).
  destruct (Z.ltb_spec n 56).
  - apply Z.ones_spec_low; lia.
  - apply Z.ones_spec_high; lia.
Qed.

Lemma fork_ID_lor (id g : Z) :
  0 <= g < 2 ^ 8 ->
  fork_ID id g = Z.lor (Z.land id 0x00ffffffffffffff) (Z.shiftl g 56).
Proof.
  intros Hg. unfold fork_ID.
  assert (Hdisj : Z.land (Z.land id 0x00ffffffffffffff) (Z.shiftl g 56) = 0).
  { apply Z.bits_inj'. intros n Hn.
    rewrite !Z.land_spec, Z.bits_0, mask56_bits by lia.
    destruct (Z.ltb_spec n 56).
    - rewrite Z.shiftl_spec_low by lia. now rewrite andb_false_r.
    - now rewrite andb_false_r. }
  rewrite (Z.add_nocarry_lxor _ _ Hdisj), (Z.lxor_lor _ _ Hdisj).
  apply Z.mod_small. split.
  - apply Z.lor_nonneg. split.
    + apply Z.land_nonneg. right. discriminate.
    + apply Z.shiftl_nonneg. lia.
  - assert (Hlo : 0 <= Z.land id 0x00ffffffffffffff < 2 ^ 56).
    { split.
      - apply Z.land_nonneg. right. discriminate.
      - change 0x00ffffffffffffff with (Z.ones 56).
        rewrite Z.land_ones by lia. apply Z.mod_pos_bound. lia. }
    rewrite <- (Z.lxor_lor _ _ Hdisj), <- (Z.add_nocarry_lxor _ _ Hdisj).
    rewrite Z.shiftl_mul_pow2 by lia.
    change (2 ^ 64) with (2 ^ 8 * 2 ^ 56). nia.
Qed.

Lemma fork_ID_low_bits (id g n : Z) :
  0 <= g < 2 ^ 8 -> 0 <= n < 56 ->
  Z.testbit (fork_ID id g) n = Z.testbit id n.
Proof.
  intros Hg Hn. rewrite fork_ID_lor by assumption.
  rewrite Z.lor_spec, Z.land_spec, mask56_bits by lia.
  rewrite Z.shiftl_spec_low by lia.
  destruct (Z.ltb_spec n 56); [|lia].
  now rewrite andb_true_r, orb_false_r.
Qed.

Lemma fork_ID_high_bits (id g n : Z) :
  0 <= g < 2 ^ 8 -> 56 <= n ->
  Z.testbit (fork_ID id g) n = Z.testbit g (n - 56).
Proof.
  intros Hg Hn. rewrite fork_ID_lor by assumption.
  rewrite Z.lor_spec, Z.land_spec, mask56_bits by lia.
  rewrite Z.shiftl_spec by lia.
  destruct (Z.ltb_spec n 56); [lia|].
  now rewrite andb_false_r.
Qed.

Lemma incr_Generation_range (g : Z) : 0 <= incr_Generation g < 2 ^ 8.
Proof. unfold incr_Generation. apply Z.mod_pos_bound. lia. Qed.

Section ForkFacts.

Variable MaxPart : nat.
Variable timebin_add_particle_to_active :
  nat -> nat -> nat -> list Z * list Z -> list Z * list Z.

Abbreviation fork := (domain_fork_particle MaxPart timebin_add_particle_to_active).

Lemma fork_full (parent : nat) (st : part_state) :
  length (P st) = MaxPart ->
  (parent < NumPart st)%nat ->
  (NumPart st < MaxPart)%nat ->
  exists st',
    fork parent st = OK (NumPart st, st') /\
    P st' = <[NumPart st := forked_child (P st !!! parent)]>
              (<[parent := forked_parent (P st !!! parent)]> (P st)) /\
    NumPart st' = S (NumPart st) /\
    SphP st' = SphP st /\ BhP st' = BhP st /\
    N_sph_slots st' = N_sph_slots st /\ N_bh_slots st' = N_bh_slots st.
Proof.
  intros Hlen Hpar Hroom.
  unfold domain_fork_particle.
  destruct (Nat.leb_spec MaxPart (NumPart st)) as [Hle|_]; [lia|].
  unfold atomic_fetch_and_add.
  destruct (timebin_add_particle_to_active _ _ _ _) as [tbc tbcsph].
  destruct (Nextnode st) as [nn|];
    (eexists; split; [reflexivity|]; cbn [P NumPart SphP BhP N_sph_slots N_bh_slots];
     split; [|repeat split; lia]).
  all: rewrite !list_lookup_total_insert_eq by (rewrite ?length_insert; lia).
  all: rewrite list_lookup_total_insert_ne by lia.
  all: rewrite !list_lookup_total_insert_eq by (rewrite ?length_insert; lia).
  all: rewrite !list_insert_insert_eq; reflexivity.
Qed.

Lemma fork_full_lookup (parent : nat) (st : part_state) :
  length (P st) = MaxPart ->
  (parent < NumPart st)%nat ->
  (NumPart st < MaxPart)%nat ->
  exists st',
    fork parent st = OK (NumPart st, st') /\
    P st' !!! NumPart st = forked_child (P st !!! parent) /\
    P st' !!! parent = forked_parent (P st !!! parent) /\
    (forall i, i <> parent -> i <> NumPart st -> P st' !! i = P st !! i) /\
    length (P st') = length (P st) /\
    NumPart st' = S (NumPart st) /\
    SphP st' = SphP st /\ BhP st' = BhP st /\
    N_sph_slots st' = N_sph_slots st /\ N_bh_slots st' = N_bh_slots st.
Proof.
  intros Hlen Hpar Hroom.
  destruct (fork_full parent st Hlen Hpar Hroom) as (st' & Hf & HP & Hrest).
  exists st'. split; [exact Hf|]. rewrite HP.
  split; [|split; [|split; [|split]]].
  - apply list_lookup_total_insert_eq. rewrite length_insert. lia.
  - rewrite list_lookup_total_insert_ne by lia.
    apply list_lookup_total_insert_eq. lia.
  - intros i Hi1 Hi2.
    rewrite list_lookup_insert_ne by congruence.
    apply list_lookup_insert_ne. congruence.
  - now rewrite !length_insert.
  - exact Hrest.
Qed.

(** C4. With room left ([NumPart < MaxPart]) the fork returns the old
    [NumPart] as the index of the child and adds one to [NumPart]; the
    generation of the parent is incremented (as an 8-bit counter); the child
    is the parent with that generation, with identifier
    [(ID & 0x00ffffffffffffff) + (g << 56)], that is the parent identifier
    with bits 56..63 replaced by the new generation (and for a first fork
    [(ID & 0x00ffffffffffffff) | (1 << 56)]), and with mass zero.  Without
    room the fork is the fatal error 8888. *)
Theorem fork_appends_child (parent : nat) (st : part_state) :
  length (P st) = MaxPart ->
  (parent < NumPart st)%nat ->
  ((NumPart st < MaxPart)%nat ->
   exists st',
     fork parent st = OK (NumPart st, st') /\
     NumPart st' = S (NumPart st) /\
     let p := P st !!! parent in
     let g := incr_Generation (Generation p) in
     let c := P st' !!! NumPart st in
     Generation (P st' !!! parent) = g /\
     (0 <= Generation p < 255 -> g = Generation p + 1) /\
     c = forked_child p /\
     ID c = fork_ID (ID p) g /\
     (forall n, 0 <= n < 56 -> Z.testbit (ID c) n = Z.testbit (ID p) n) /\
     (forall n, 56 <= n -> Z.testbit (ID c) n = Z.testbit g (n - 56)) /\
     (Generation p = 0 ->
      ID c = Z.lor (Z.land (ID p) 0x00ffffffffffffff) (Z.shiftl 1 56)) /\
     Mass c = 0%Q) /\
  ((MaxPart <= NumPart st)%nat -> fork parent st = Fatal 8888).
Proof.
  intros Hlen Hpar. split.
  - intros Hroom.
    destruct (fork_full_lookup parent st Hlen Hpar Hroom)
      as (st' & Hf & Hc & Hp & _ & _ & Hn & _).
    exists st'. split; [exact Hf|]. split; [exact Hn|].
    cbv zeta. rewrite Hc, Hp.
    pose proof (incr_Generation_range (Generation (P st !!! parent))) as Hg.
    repeat split.
    + intros Hsmall. unfold incr_Generation. apply Z.mod_small. lia.
    + intros n Hn'. cbn. now apply fork_ID_low_bits.
    + intros n Hn'. cbn. now apply fork_ID_high_bits.
    + intros Hg0. cbn. rewrite fork_ID_lor by exact Hg.
      now rewrite Hg0.
  - intros Hfull. unfold domain_fork_particle.
    destruct (Nat.leb_spec MaxPart (NumPart st)); [reflexivity|lia].
Qed.

(** C10. After a fork the child agrees with the parent as it was before the
    fork in every field but identifier, mass and generation; its [PI] is the
    parent's.  The parent changes in its generation only, every other entry
    of the base table and both slot tables are left as they were. *)
Theorem fork_frame (parent : nat) (st : part_state) :
  length (P st) = MaxPart ->
  (parent < NumPart st)%nat ->
  (NumPart st < MaxPart)%nat ->
  exists st',
    fork parent st = OK (NumPart st, st') /\
    let p := P st !!! parent in
    let c := P st' !!! NumPart st in
    (Pos c = Pos p /\ Vel c = Vel p /\ PType c = PType p /\
     TimeBin c = TimeBin p /\ GravCost c = GravCost p /\ Key c = Key p /\
     PI c = PI p /\ OnAnotherDomain c = OnAnotherDomain p /\
     WillExport c = WillExport p) /\
    Generation c = incr_Generation (Generation p) /\
    Mass c = 0%Q /\
    P st' !!! parent = set_Generation (incr_Generation (Generation p)) p /\
    (forall i, i <> parent -> i <> NumPart st -> P st' !! i = P st !! i) /\
    SphP st' = SphP st /\ BhP st' = BhP st /\
    N_sph_slots st' = N_sph_slots st /\ N_bh_slots st' = N_bh_slots st.
Proof.
  intros Hlen Hpar Hroom.
  destruct (fork_full_lookup parent st Hlen Hpar Hroom)
    as (st' & Hf & Hc & Hp & Hother & _ & _ & Hs & Hb & Hns & Hnb).
  exists st'. split; [exact Hf|].
  cbv zeta. rewrite Hc, Hp.
  repeat split; try assumption; reflexivity.
Qed.

End ForkFacts.

(** ** The garbage collector: mass-zero elimination *)

Section ListSwap.

Context {A : Type} `{!Inhabited A}.

Lemma insert_Permutation_cons (l : list A) (i : nat) (x : A) :
  (i < length l)%nat -> (l !!! i) :: <[i:=x]> l ≡ₚ x :: l.
Proof.
  revert i. induction l as [|a l IH]; intros i Hi; cbn in Hi; [lia|].
  destruct i as [|i]; cbn.
  - apply perm_swap.
  - rewrite (perm_swap a (l !!! i)), (perm_swap a x).
    apply perm_skip, IH. lia.
Qed.

Lemma take_last_Permutation (l : list A) (n : nat) :
  (0 < n <= length l)%nat -> take n l ≡ₚ (l !!! (n - 1)%nat) :: take (n - 1) l.
Proof.
  intros Hn. replace n with (S (n - 1)) at 1 by lia.
  rewrite (take_S_r l (n - 1) (l !!! (n - 1)%nat)).
  - now rewrite Permutation_app_comm.
  - apply list_lookup_lookup_total_lt. lia.
Qed.

(** Removing entry [i] of the first [n] by moving the last one into it. *)
Lemma end_swap_Permutation (l : list A) (i n : nat) :
  (i < n <= length l)%nat ->
  take n l ≡ₚ (l !!! i) :: take (n - 1) (<[i := l !!! (n - 1)%nat]> l).
Proof.
  intros Hin. rewrite take_last_Permutation by lia.
  destruct (decide (i = n - 1)%nat) as [->|Hne].
  - rewrite take_insert_ge by lia. reflexivity.
  - rewrite take_insert_lt by lia.
    rewrite <- (lookup_total_take_lt l (n - 1) i) by lia.
    symmetry. apply insert_Permutation_cons.
    rewrite length_take. lia.
Qed.

(** Removing entry [i] of the first [s], a prefix of the first [n], by
    moving entry [s - 1] into it and the last one into [s - 1]. *)
Lemma prefix_end_swap_Permutation (l : list A) (i s n : nat) :
  (i < s <= n)%nat -> (n <= length l)%nat ->
  take n l ≡ₚ
    (l !!! i) ::
      take (n - 1)
        (<[(s - 1)%nat := <[i := l !!! (s - 1)%nat]> l !!! (n - 1)%nat]>
           (<[i := l !!! (s - 1)%nat]> l)).
Proof.
  intros His Hn.
  set (l1 := <[i := l !!! (s - 1)%nat]> l).
  assert (Hl1 : length l1 = length l) by apply length_insert.
  assert (Hs1 : l1 !!! (s - 1)%nat = l !!! (s - 1)%nat).
  { unfold l1. destruct (decide (i = s - 1)%nat) as [->|Hne].
    - apply list_lookup_total_insert_eq. lia.
    - now apply list_lookup_total_insert_ne. }
  pose proof (end_swap_Permutation l1 (s - 1) n ltac:(lia)) as H1.
  rewrite Hs1 in H1.
  assert (H2 : (l !!! i) :: take n l1 ≡ₚ (l !!! (s - 1)%nat) :: take n l).
  { unfold l1. rewrite take_insert_lt by lia.
    rewrite <- (lookup_total_take_lt l n i) by lia.
    apply insert_Permutation_cons. rewrite length_take. lia. }
  rewrite H1 in H2. rewrite perm_swap in H2.
  apply Permutation_cons_inv in H2. now symmetry.
Qed.

End ListSwap.

Lemma massless_in_bin_cons (b : nat) (p : particle_data) (l : list particle_data) :
  massless p = true ->
  massless_in_bin b (p :: l) =
    ((if decide (TimeBin p = b) then 1 else 0) + massless_in_bin b l)%nat.
Proof.
  intros Hp. unfold massless_in_bin.
  destruct (decide (TimeBin p = b)) as [Hb|Hb].
  - rewrite filter_cons_True by auto. reflexivity.
  - rewrite filter_cons_False by tauto. reflexivity.
Qed.

Lemma massless_gas_in_bin_cons (b : nat) (p : particle_data) (l : list particle_data) :
  massless p = true ->
  massless_gas_in_bin b (p :: l) =
    ((if decide (PType p = 0%Z /\ TimeBin p = b) then 1 else 0)
     + massless_gas_in_bin b l)%nat.
Proof.
  intros Hp. unfold massless_gas_in_bin.
  destruct (decide (PType p = 0 /\ TimeBin p = b)) as [Hb|Hb].
  - rewrite filter_cons_True by tauto. reflexivity.
  - rewrite filter_cons_False by tauto. reflexivity.
Qed.

Lemma massless_in_bin_Permutation (b : nat) (l1 l2 : list particle_data) :
  l1 ≡ₚ l2 -> massless_in_bin b l1 = massless_in_bin b l2.
Proof. intros H. unfold massless_in_bin. now rewrite H. Qed.

Lemma massless_gas_in_bin_Permutation (b : nat) (l1 l2 : list particle_data) :
  l1 ≡ₚ l2 -> massless_gas_in_bin b l1 = massless_gas_in_bin b l2.
Proof. intros H. unfold massless_gas_in_bin. now rewrite H. Qed.

Lemma decrement_lookup (c : list Z) (t b : nat) :
  (b < length c)%nat ->
  <[t := c !!! t - 1]> c !!! b = c !!! b - (if decide (t = b) then 1 else 0).
Proof.
  intros Hb. destruct (decide (t = b)) as [->|Hne].
  - now rewrite list_lookup_total_insert_eq.
  - rewrite list_lookup_total_insert_ne by exact Hne. lia.
Qed.

(** One elimination: what [gc_eliminate] does to a state whose gas prefix
    is in order. *)
Lemma gc_eliminate_spec (i : nat) (st : part_state) :
  (i < NumPart st)%nat ->
  (NumPart st <= length (P st))%nat ->
  gas_prefix st ->
  let st' := gc_eliminate i st in
  live st ≡ₚ (P st !!! i) :: live st' /\
  NumPart st' = (NumPart st - 1)%nat /\
  length (P st') = length (P st) /\
  (forall k, (k < i)%nat -> P st' !!! k = P st !!! k) /\
  gas_prefix st' /\
  N_sph_slots st' =
    (if PType (P st !!! i) =? 0 then (N_sph_slots st - 1)%nat else N_sph_slots st) /\
  TimeBinCount st' =
    <[TimeBin (P st !!! i) := TimeBinCount st !!! TimeBin (P st !!! i) - 1]>
      (TimeBinCount st) /\
  TimeBinCountSph st' =
    (if PType (P st !!! i) =? 0
     then <[TimeBin (P st !!! i) := TimeBinCountSph st !!! TimeBin (P st !!! i) - 1]>
            (TimeBinCountSph st)
     else TimeBinCountSph st) /\
  BhP st' = BhP st /\ N_bh_slots st' = N_bh_slots st.
Proof.
  intros Hi Hlen [Hsn Hgas]. cbv zeta. unfold gc_eliminate, live.
  destruct (Z.eqb_spec (PType (P st !!! i)) 0) as [Hty|Hty];
    cbn [P NumPart N_sph_slots TimeBinCount TimeBinCountSph BhP N_bh_slots].
  - (* a gas entry: it sits inside the gas prefix *)
    assert (His : (i < N_sph_slots st)%nat) by (apply Hgas; assumption).
    set (s := N_sph_slots st) in *. set (n := NumPart st) in *.
    set (P1 := <[i := P st !!! (s - 1)%nat]> (P st)).
    assert (HP1n : P1 !!! (n - 1)%nat =
                   if decide (i = n - 1)%nat then P st !!! (s - 1)%nat
                   else P st !!! (n - 1)%nat).
    { unfold P1. destruct (decide (i = n - 1)%nat) as [->|Hne].
      - apply list_lookup_total_insert_eq. lia.
      - now apply list_lookup_total_insert_ne. }
    split; [apply prefix_end_swap_Permutation; lia|].
    split; [reflexivity|]. split; [unfold P1; now rewrite !length_insert|].
    split.
    { intros k Hk. unfold P1.
      rewrite !list_lookup_total_insert_ne by lia. reflexivity. }
    split; [|repeat split; reflexivity].
    split; cbn [P NumPart N_sph_slots]; [lia|]. intros k Hk.
    destruct (decide (k = s - 1)%nat) as [->|Hks].
    + rewrite list_lookup_total_insert_eq by (unfold P1; rewrite length_insert; lia).
      rewrite HP1n. destruct (decide (i = n - 1)%nat) as [->|Hne]; [lia|].
      rewrite (Hgas (n - 1)%nat) by lia. lia.
    + rewrite list_lookup_total_insert_ne by congruence.
      unfold P1. destruct (decide (k = i)) as [->|Hki].
      * rewrite list_lookup_total_insert_eq by lia.
        rewrite (Hgas (s - 1)%nat) by lia. lia.
      * rewrite list_lookup_total_insert_ne by congruence.
        rewrite (Hgas k) by lia. lia.
  - (* any other entry: it sits behind the gas prefix *)
    assert (His : ~ (i < N_sph_slots st)%nat) by (rewrite <- Hgas; assumption).
    split; [apply end_swap_Permutation; lia|].
    split; [reflexivity|]. split; [now rewrite length_insert|].
    split.
    { intros k Hk. rewrite list_lookup_total_insert_ne by lia. reflexivity. }
    split; [|repeat split; reflexivity].
    split; cbn [P NumPart N_sph_slots]; [lia|]. intros k Hk.
    destruct (decide (k = i)) as [->|Hki].
    + rewrite list_lookup_total_insert_eq by lia.
      rewrite (Hgas (NumPart st - 1)%nat) by lia. lia.
    + rewrite list_lookup_total_insert_ne by congruence.
      apply Hgas. lia.
Qed.

Lemma gc_inv_init (st : part_state) :
  (NumPart st <= length (P st))%nat -> gas_prefix st -> gc_inv st st 0 0 0.
Proof.
  intros Hlen Hgas. unfold gc_inv.
  repeat split; try reflexivity; try lia; try tauto; try apply Hgas.
  all: intros; lia.
Qed.

Lemma gc_inv_eliminate (st0 st : part_state) (i ce cg : nat) :
  gc_inv st0 st i ce cg ->
  (i < NumPart st)%nat ->
  massless (P st !!! i) = true ->
  gc_inv st0 (gc_eliminate i st) i (S ce)
    (if PType (P st !!! i) =? 0 then S cg else cg).
Proof.
  intros (Hlen & Hi & Hgas & Hdone & Hperm & Hce & Hcg & Hl1 & Hl2 & Ht1 & Ht2 & Hb & Hnb)
         Hlt Hzero.
  destruct (gc_eliminate_spec i st Hlt Hlen Hgas)
    as (Hlive & Hn & Hlen' & Hpre & Hgas' & Hs & Htbc & Htbcs & Hb' & Hnb').
  assert (Hin : (i < N_sph_slots st)%nat <-> PType (P st !!! i) = 0).
  { symmetry. apply Hgas. exact Hlt. }
  unfold gc_inv. rewrite Hn, Hlen', Hs, Htbc, Htbcs, Hb', Hnb'.
  split; [lia|]. split; [lia|]. split; [exact Hgas'|].
  split; [intros k Hk; rewrite Hpre by exact Hk; now apply Hdone|].
  split.
  { rewrite <- Hperm, Hlive. rewrite filter_cons_False; [reflexivity|].
    rewrite Hzero. discriminate. }
  split; [lia|].
  split; [destruct (Z.eqb_spec (PType (P st !!! i)) 0); lia|].
  split; [now rewrite length_insert|].
  split; [destruct (PType (P st !!! i) =? 0); now rewrite ?length_insert|].
  split; [|split; [|split; assumption]].
  - intros b Hbl. specialize (Ht1 b Hbl).
    rewrite decrement_lookup by lia.
    rewrite (massless_in_bin_Permutation b _ _ Hlive) in Ht1.
    rewrite massless_in_bin_cons in Ht1 by exact Hzero.
    destruct (decide (TimeBin (P st !!! i) = b)); lia.
  - intros b Hbl. specialize (Ht2 b Hbl).
    rewrite (massless_gas_in_bin_Permutation b _ _ Hlive) in Ht2.
    rewrite massless_gas_in_bin_cons in Ht2 by exact Hzero.
    destruct (Z.eqb_spec (PType (P st !!! i)) 0) as [Hty|Hty].
    + rewrite decrement_lookup by lia.
      destruct (decide (TimeBin (P st !!! i) = b));
        destruct (decide (PType (P st !!! i) = 0 /\ TimeBin (P st !!! i) = b));
        try tauto; lia.
    + destruct (decide (PType (P st !!! i) = 0 /\ TimeBin (P st !!! i) = b));
        try tauto; lia.
Qed.

Lemma all_gc_loop_inv (st0 : part_state) (fuel : nat) :
  forall i st ce cg st' ce' cg',
    gc_inv st0 st i ce cg ->
    (NumPart st - i <= fuel)%nat ->
    all_gc_loop fuel i st ce cg = (st', ce', cg') ->
    gc_inv st0 st' (NumPart st') ce' cg'.
Proof.
  induction fuel as [|fuel IH]; intros i st ce cg st' ce' cg' Hinv Hfuel Hrun;
    cbn [all_gc_loop] in Hrun.
  - injection Hrun as <- <- <-.
    replace (NumPart st) with i; [exact Hinv|].
    destruct Hinv as (_ & Hi & _). lia.
  - destruct (Nat.ltb_spec i (NumPart st)) as [Hlt|Hge].
    + destruct (Qeq_bool (Mass (P st !!! i)) 0) eqn:Hm.
      * eapply IH; [| |exact Hrun].
        -- now apply gc_inv_eliminate.
        -- destruct Hinv as (Hlen & _ & Hgas & _).
           destruct (gc_eliminate_spec i st Hlt Hlen Hgas) as (_ & Hn & _).
           cbv zeta in Hn. lia.
      * eapply IH; [| |exact Hrun]; [|lia].
        destruct Hinv as (Hlen & Hi & Hgas & Hdone & Hrest).
        split; [exact Hlen|]. split; [lia|]. split; [exact Hgas|].
        split; [|exact Hrest].
        intros k Hk. destruct (decide (k = i)) as [->|Hne]; [exact Hm|].
        apply Hdone. lia.
    + injection Hrun as <- <- <-.
      replace (NumPart st) with i; [exact Hinv|].
      destruct Hinv as (_ & Hi & _). lia.
Qed.

Lemma filter_all_true {A} (Q : A -> Prop) `{!forall x, Decision (Q x)} (l : list A) :
  (forall x, x ∈ l -> Q x) -> filter Q l = l.
Proof.
  induction l as [|a l IH]; intros Hall; [reflexivity|].
  rewrite filter_cons_True by (apply Hall; left).
  f_equal. apply IH. intros x Hx. apply Hall. now right.
Qed.

Lemma filter_all_false {A} (Q : A -> Prop) `{!forall x, Decision (Q x)} (l : list A) :
  (forall x, x ∈ l -> ~ Q x) -> filter Q l = [].
Proof.
  induction l as [|a l IH]; intros Hall; [reflexivity|].
  rewrite filter_cons_False by (apply Hall; left).
  apply IH. intros x Hx. apply Hall. now right.
Qed.

Lemma live_elem (st : part_state) (p : particle_data) :
  (NumPart st <= length (P st))%nat ->
  p ∈ live st -> exists k, (k < NumPart st)%nat /\ P st !!! k = p.
Proof.
  intros Hlen Hp. unfold live in Hp.
  apply list_elem_of_lookup in Hp as [k Hk].
  apply lookup_take_Some in Hk as [Hk Hlt].
  exists k. split; [exact Hlt|]. now apply list_lookup_total_correct.
Qed.

(** C5. The mass-zero elimination pass, run on a state whose gas prefix is
    in order: afterwards no live base entry has mass zero; the live entries
    are the entries of non-zero mass that were there before; the gas prefix
    [[0, N_sph_slots)] is again exactly the gas entries; every time-bin
    counter has lost the massless entries of its bin; an entry is taken out
    by [P[i] = P[NumPart - 1]], and a gas entry by [P[i] = P[N_sph_slots - 1]]
    followed by [P[N_sph_slots - 1] = P[NumPart - 1]]; and the tree is
    reported invalid exactly when the total number of particles over all
    ranks went down, that is when an entry was removed here or on another
    rank. *)
Theorem all_gc_eliminates_massless (others0 others : Z) (st : part_state) :
  (NumPart st <= length (P st))%nat ->
  gas_prefix st ->
  others <= others0 ->
  exists tree_invalid st',
    domain_all_garbage_collection others0 others st = (tree_invalid, st') /\
    (forall k, (k < NumPart st')%nat -> ~ (Mass (P st' !!! k) == 0)%Q) /\
    live st' ≡ₚ filter (fun p => massless p = false) (live st) /\
    gas_prefix st' /\
    (forall b, (b < length (TimeBinCount st))%nat ->
       TimeBinCount st' !!! b =
       TimeBinCount st !!! b - Z.of_nat (massless_in_bin b (live st))) /\
    (forall b, (b < length (TimeBinCountSph st))%nat ->
       TimeBinCountSph st' !!! b =
       TimeBinCountSph st !!! b - Z.of_nat (massless_gas_in_bin b (live st))) /\
    (forall i s, PType (P s !!! i) <> 0 ->
       P (gc_eliminate i s) = <[i := P s !!! (NumPart s - 1)%nat]> (P s) /\
       N_sph_slots (gc_eliminate i s) = N_sph_slots s) /\
    (forall i s, PType (P s !!! i) = 0 ->
       P (gc_eliminate i s) =
         <[(N_sph_slots s - 1)%nat :=
             <[i := P s !!! (N_sph_slots s - 1)%nat]> (P s) !!! (NumPart s - 1)%nat]>
           (<[i := P s !!! (N_sph_slots s - 1)%nat]> (P s)) /\
       N_sph_slots (gc_eliminate i s) = (N_sph_slots s - 1)%nat) /\
    (tree_invalid = 0 \/ tree_invalid = 1) /\
    (tree_invalid = 1 <-> ((NumPart st' < NumPart st)%nat \/ others < others0)).
Proof.
  intros Hlen Hgas Hoth. unfold domain_all_garbage_collection.
  destruct (all_gc_loop (NumPart st) 0 st 0 0) as [[st' ce] cg] eqn:Hrun.
  pose proof (all_gc_loop_inv st (NumPart st) 0 st 0 0 st' ce cg
                (gc_inv_init st Hlen Hgas) ltac:(lia) Hrun)
    as (Hlen' & _ & Hgas' & Hdone & Hperm & Hce & _ & _ & _ & Ht1 & Ht2 & _).
  assert (Hnz : forall p, p ∈ live st' -> massless p = false).
  { intros p Hp. destruct (live_elem st' p Hlen' Hp) as (k & Hk & <-).
    now apply Hdone. }
  eexists _, st'. split; [reflexivity|].
  split.
  { intros k Hk Hz. apply Qeq_bool_iff in Hz.
    specialize (Hdone k Hk). unfold massless in Hdone. congruence. }
  split; [now rewrite <- Hperm, filter_all_true|].
  split; [exact Hgas'|].
  split.
  { intros b Hb. specialize (Ht1 b Hb).
    assert (Hz : massless_in_bin b (live st') = 0%nat).
    { unfold massless_in_bin. rewrite filter_all_false; [reflexivity|].
      intros p Hp [Hm _]. rewrite (Hnz p Hp) in Hm. discriminate. }
    lia. }
  split.
  { intros b Hb. specialize (Ht2 b Hb).
    assert (Hz : massless_gas_in_bin b (live st') = 0%nat).
    { unfold massless_gas_in_bin. rewrite filter_all_false; [reflexivity|].
      intros p Hp [[Hm _] _]. rewrite (Hnz p Hp) in Hm. discriminate. }
    lia. }
  split.
  { intros i s Hty. unfold gc_eliminate.
    destruct (Z.eqb_spec (PType (P s !!! i)) 0); [contradiction|]. now split. }
  split.
  { intros i s Hty. unfold gc_eliminate.
    destruct (Z.eqb_spec (PType (P s !!! i)) 0); [|contradiction]. now split. }
  unfold sumup_large_ints.
  destruct (Z.eqb_spec (Z.of_nat (NumPart st') + others) (Z.of_nat (NumPart st) + others0));
    split; try (now auto); split; intros H; try discriminate; try lia.
Qed.

(** ** The garbage collector: black-hole compaction *)

Lemma for_loop_ind {S : Type} (Inv : nat -> S -> Prop) (n : nat)
    (body : nat -> S -> S) (s : S) :
  Inv 0%nat s ->
  (forall i t, (i < n)%nat -> Inv i t -> Inv (Datatypes.S i) (body i t)) ->
  Inv n (for_loop n body s).
Proof.
  intros H0 Hstep. induction n as [|n IH]; [exact H0|].
  cbn. apply Hstep; [lia|]. apply IH. intros i t Hi. apply Hstep. lia.
Qed.

Lemma for_loopR_ind {S : Type} (Inv : nat -> S -> Prop) (n : nat)
    (body : nat -> S -> result S) (s s' : S) :
  Inv 0%nat s ->
  (forall i t t', (i < n)%nat -> Inv i t -> body i t = OK t' ->
                  Inv (Datatypes.S i) t') ->
  for_loopR n body s = OK s' ->
  Inv n s'.
Proof.
  intros H0 Hstep. revert s'. induction n as [|n IH]; intros s' Hrun; cbn in Hrun.
  - now injection Hrun as <-.
  - destruct (for_loopR n body s) as [t| |] eqn:Ht; cbn in Hrun; try discriminate.
    apply (Hstep n t s'); [lia| |exact Hrun].
    apply IH; [|reflexivity]. intros i u u' Hi. apply Hstep. lia.
Qed.

(** A loop whose body never fails computes what its writes compute. *)
Lemma for_loopR_pure {S : Type} (Inv : nat -> S -> Prop) (n : nat)
    (body : nat -> S -> result S) (write : nat -> S -> S) (s : S) :
  Inv 0%nat s ->
  (forall i t, (i < n)%nat -> Inv i t ->
     body i t = OK (write i t) /\ Inv (Datatypes.S i) (write i t)) ->
  for_loopR n body s = OK (for_loop n write s) /\ Inv n (for_loop n write s).
Proof.
  intros H0 Hstep. induction n as [|n IH]; [now split|].
  destruct IH as [IHrun IHinv]; [intros i t Hi; apply Hstep; lia|].
  cbn. rewrite IHrun. cbn. apply Hstep; [lia|exact IHinv].
Qed.

Lemma bh_reset_links_length (n : nat) (bhp : list bh_particle_data) :
  length (bh_reset_links n bhp) = length bhp.
Proof.
  unfold bh_reset_links.
  apply (for_loop_ind (fun _ b => length b = length bhp)); [reflexivity|].
  intros i t _ Ht. now rewrite length_insert.
Qed.

Lemma bh_reset_links_lookup (n : nat) (bhp : list bh_particle_data) (k : nat) :
  (k < length bhp)%nat ->
  bh_reset_links n bhp !!! k =
    if (k <? n)%nat then set_ReverseLink (-1) (bhp !!! k) else bhp !!! k.
Proof.
  intros Hk. unfold bh_reset_links.
  induction n as [|n IH]; [reflexivity|]. cbn [for_loop].
  fold (bh_reset_links n bhp) in *.
  destruct (decide (k = n)) as [->|Hne].
  - rewrite list_lookup_total_insert_eq by (rewrite bh_reset_links_length; lia).
    rewrite IH. rewrite Nat.ltb_irrefl.
    destruct (Nat.ltb_spec n (S n)); [reflexivity|lia].
  - rewrite list_lookup_total_insert_ne by congruence. rewrite IH.
    destruct (Nat.ltb_spec k n), (Nat.ltb_spec k (S n)); try lia; reflexivity.
Qed.

Lemma lookup_total_insert_lt {A} `{!Inhabited A} (l : list A) (i j : nat) (x : A) :
  (i < length l)%nat ->
  <[i:=x]> l !!! j = if decide (i = j) then x else l !!! j.
Proof.
  intros Hi. destruct (decide (i = j)) as [<-|Hne].
  - now apply list_lookup_total_insert_eq.
  - now apply list_lookup_total_insert_ne.
Qed.

Lemma set_ReverseLink_eta (b : bh_particle_data) :
  set_ReverseLink (ReverseLink b) b = b.
Proof. now destruct b. Qed.

Lemma set_ReverseLink_twice (r r' : Z) (b : bh_particle_data) :
  set_ReverseLink r (set_ReverseLink r' b) = set_ReverseLink r b.
Proof. reflexivity. Qed.

Lemma bh_indices_S (Pt : list particle_data) (n : nat) :
  bh_indices Pt (S n) =
    bh_indices Pt n ++ (if decide (PType (Pt !!! n) = 5) then [n] else []).
Proof.
  unfold bh_indices. rewrite seq_S, filter_app. reflexivity.
Qed.

Lemma bh_indices_elem (Pt : list particle_data) (n i : nat) :
  i ∈ bh_indices Pt n <-> (i < n)%nat /\ PType (Pt !!! i) = 5.
Proof.
  unfold bh_indices. rewrite list_elem_of_filter, elem_of_seq. intuition lia.
Qed.

Lemma filter_insert_fresh (l : list Z) (k : nat) (v : Z) :
  l !! k = Some (-1) -> v <> -1 ->
  filter (fun r => r <> -1) (<[k:=v]> l) ≡ₚ v :: filter (fun r => r <> -1) l.
Proof.
  revert k. induction l as [|a l IH]; intros k Hk Hv; [discriminate|].
  destruct k as [|k]; cbn in Hk.
  - injection Hk as ->. change (<[0%nat:=v]> (-1 :: l)) with (v :: l).
    rewrite filter_cons_True by exact Hv.
    now rewrite (filter_cons_False _ (-1)) by auto.
  - change (<[S k:=v]> (a :: l)) with (a :: <[k:=v]> l).
    destruct (decide (a <> -1)) as [Ha|Ha].
    + rewrite !(filter_cons_True _ a) by exact Ha.
      rewrite IH by assumption. apply perm_swap.
    + rewrite !(filter_cons_False _ a) by exact Ha. now apply IH.
Qed.

Lemma bh_link_inv_init (Pt : list particle_data) (n : nat)
    (bhp : list bh_particle_data) :
  length bhp = n -> bh_link_inv Pt (bh_reset_links n bhp) 0 (bh_reset_links n bhp).
Proof.
  intros Hn. split; [reflexivity|]. split.
  - intros k _. now rewrite set_ReverseLink_eta.
  - intros k Hk Hr. rewrite bh_reset_links_length in Hk.
    rewrite bh_reset_links_lookup in Hr by exact Hk.
    destruct (Nat.ltb_spec k n); [|lia]. now cbn in Hr.
Qed.

Lemma bh_link_inv_step (Pt : list particle_data) (B1 L : list bh_particle_data)
    (i : nat) :
  bh_link_inv Pt B1 i L -> bh_link_inv Pt B1 (S i) (bh_link_write Pt i L).
Proof.
  intros (Hlen & Hfld & Hown). unfold bh_link_write.
  destruct (Z.eqb_spec (PType (Pt !!! i)) 5) as [H5|H5].
  - set (pi := PI (Pt !!! i)).
    destruct (Nat.lt_ge_cases pi (length L)) as [Hpi|Hpi].
    + split; [now rewrite length_insert|]. split.
      * intros k Hk. rewrite lookup_total_insert_lt by exact Hpi.
        destruct (decide (pi = k)) as [<-|Hne]; [|now apply Hfld].
        cbn [ReverseLink set_ReverseLink]. rewrite (Hfld pi) by lia. reflexivity.
      * intros k Hk. rewrite lookup_total_insert_lt by exact Hpi.
        destruct (decide (pi = k)) as [<-|Hne].
        -- intros _. exists i. repeat split; [lia|assumption].
        -- intros Hr. destruct (Hown k Hk Hr) as (j & Hj & Hrest).
           exists j. split; [lia|exact Hrest].
    + rewrite list_insert_ge by exact Hpi. split; [exact Hlen|].
      split; [exact Hfld|]. intros k Hk Hr.
      destruct (Hown k Hk Hr) as (j & Hj & Hrest).
      exists j. split; [lia|exact Hrest].
  - split; [exact Hlen|]. split; [exact Hfld|]. intros k Hk Hr.
    destruct (Hown k Hk Hr) as (j & Hj & Hrest).
    exists j. split; [lia|exact Hrest].
Qed.

(** The loop with its checks computes the table its writes compute. *)
Lemma bh_link_loop_writes (Pt : list particle_data) (nbh n : nat)
    (B1 L : list bh_particle_data) :
  for_loopR n (bh_link_body Pt nbh) B1 = OK L ->
  L = for_loop n (bh_link_write Pt) B1.
Proof.
  revert L. induction n as [|n IH]; intros L Hrun; cbn in Hrun.
  - now injection Hrun as <-.
  - destruct (for_loopR n (bh_link_body Pt nbh) B1) as [t| |] eqn:Ht;
      cbn in Hrun; try discriminate.
    cbn [for_loop]. rewrite <- (IH t eq_refl).
    unfold bh_link_body in Hrun. unfold bh_link_write.
    destruct (PType (Pt !!! n) =? 5); [|now injection Hrun].
    destruct (nbh <=? PI (Pt !!! n))%nat; [discriminate|].
    destruct (negb _); [discriminate|]. now injection Hrun.
Qed.

Lemma bh_linked_table_inv (MaxPartBh : nat) (st : part_state) :
  length (BhP st) = MaxPartBh ->
  bh_link_inv (P st) (bh_reset_links MaxPartBh (BhP st)) (NumPart st)
    (bh_linked_table MaxPartBh st).
Proof.
  intros Hlen. unfold bh_linked_table.
  apply (for_loop_ind (bh_link_inv (P st) (bh_reset_links MaxPartBh (BhP st)))).
  - now apply bh_link_inv_init.
  - intros i t _. apply bh_link_inv_step.
Qed.

Lemma bh_reset_links_BhID (n : nat) (bhp : list bh_particle_data) (k : nat) :
  (k < length bhp)%nat -> BhID (bh_reset_links n bhp !!! k) = BhID (bhp !!! k).
Proof.
  intros Hk. rewrite bh_reset_links_lookup by exact Hk.
  now destruct (k <? n)%nat.
Qed.

Lemma bh_reset_links_filter (n : nat) (bhp : list bh_particle_data) :
  length bhp = n ->
  filter (fun r => r <> -1) (ReverseLink <$> bh_reset_links n bhp) = [].
Proof.
  intros Hn. rewrite filter_all_false; [reflexivity|].
  intros r Hr Hne. apply list_elem_of_fmap in Hr as (b & -> & Hb).
  apply list_elem_of_lookup in Hb as [k Hk].
  pose proof (lookup_lt_Some _ _ _ Hk) as Hlt.
  apply list_lookup_total_correct in Hk. subst b.
  rewrite bh_reset_links_length in Hlt.
  rewrite bh_reset_links_lookup in Hne by exact Hlt.
  destruct (Nat.ltb_spec k n) as [Hkn|Hkn]; [now cbn in Hne|lia].
Qed.

Lemma bh_link_inv_wf_step (Pt : list particle_data) (B1 L : list bh_particle_data)
    (i : nat) :
  (forall j, (j < i)%nat -> PType (Pt !!! j) = 5 -> PType (Pt !!! i) = 5 ->
             PI (Pt !!! j) <> PI (Pt !!! i)) ->
  (PType (Pt !!! i) = 5 -> (PI (Pt !!! i) < length B1)%nat) ->
  bh_link_inv Pt B1 i L ->
  bh_link_inv_wf Pt i L ->
  bh_link_inv_wf Pt (S i) (bh_link_write Pt i L).
Proof.
  intros Hinj Hrange (Hlen & Hfld & Hown) (Hnamed & Hperm).
  unfold bh_link_inv_wf, bh_link_write. rewrite bh_indices_S.
  destruct (Z.eqb_spec (PType (Pt !!! i)) 5) as [H5|H5];
    destruct (decide (PType (Pt !!! i) = 5)) as [H5'|H5']; try contradiction.
  - specialize (Hrange H5). set (pi := PI (Pt !!! i)) in *.
    split.
    + intros j Hj Hj5. rewrite lookup_total_insert_lt by lia.
      destruct (decide (pi = PI (Pt !!! j))) as [Heq|Hne].
      * destruct (decide (j = i)) as [->|Hji]; [reflexivity|].
        exfalso. apply (Hinj j); [lia|assumption|assumption|now symmetry].
      * destruct (decide (j = i)) as [->|Hji]; [contradiction|].
        apply Hnamed; [lia|assumption].
    + rewrite list_fmap_insert. cbn [ReverseLink set_ReverseLink].
      rewrite fmap_app, filter_insert_fresh.
      * rewrite Hperm. cbn. apply Permutation_cons_append.
      * rewrite list_lookup_fmap.
        rewrite (list_lookup_lookup_total_lt L pi) by lia. cbn. f_equal.
        destruct (decide (ReverseLink (L !!! pi) = -1)) as [Hr|Hr]; [exact Hr|].
        destruct (Hown pi Hrange Hr) as (j & Hj & Hj5 & Hjpi & _).
        exfalso. now apply (Hinj j).
      * lia.
  - split.
    + intros j Hj Hj5. destruct (decide (j = i)) as [->|Hji]; [contradiction|].
      apply Hnamed; [lia|assumption].
    + now rewrite app_nil_r.
Qed.

(** On a well-formed state the link loop passes all its checks, and the
    links it leaves are those of the black holes. *)
Lemma bh_link_loop_wf (MaxPartBh : nat) (st : part_state) :
  bh_wf MaxPartBh st ->
  for_loopR (NumPart st) (bh_link_body (P st) (N_bh_slots st))
    (bh_reset_links MaxPartBh (BhP st)) = OK (bh_linked_table MaxPartBh st) /\
  bh_link_inv_wf (P st) (NumPart st) (bh_linked_table MaxPartBh st).
Proof.
  intros (Hn & Hlen & HlenP & Hslot & Hinj).
  set (B1 := bh_reset_links MaxPartBh (BhP st)).
  assert (HB1 : length B1 = MaxPartBh)
    by (unfold B1; now rewrite bh_reset_links_length).
  unfold bh_linked_table. fold B1.
  pose proof (for_loopR_pure
    (fun i L => bh_link_inv (P st) B1 i L /\ bh_link_inv_wf (P st) i L)
    (NumPart st) (bh_link_body (P st) (N_bh_slots st)) (bh_link_write (P st)) B1)
    as Hloop.
  destruct Hloop as [Hrun [_ Hwf]]; [| |now split].
  - split; [now apply bh_link_inv_init|]. split.
    + intros j Hj. lia.
    + unfold B1. now rewrite bh_reset_links_filter.
  - intros i L Hi [Hinv Hwf]. split; [|split].
    + unfold bh_link_body, bh_link_write.
      destruct (Z.eqb_spec (PType (P st !!! i)) 5) as [H5|H5]; [|reflexivity].
      destruct (Hslot i Hi H5) as [Hpi Hid].
      destruct (Nat.leb_spec (N_bh_slots st) (PI (P st !!! i))); [lia|].
      destruct Hinv as (HlenL & Hfld & _).
      rewrite list_lookup_total_insert_eq by lia.
      cbn [BhID set_ReverseLink]. rewrite (Hfld (PI (P st !!! i))) by lia.
      cbn [BhID set_ReverseLink]. unfold B1.
      rewrite bh_reset_links_BhID by lia. rewrite Hid, Z.eqb_refl. reflexivity.
    + now apply bh_link_inv_step.
    + apply (bh_link_inv_wf_step _ B1); try assumption.
      * intros j Hj Hj5 Hi5 Heq. apply (Hinj j i) in Heq; try assumption; lia.
      * intros H5. destruct (Hslot i Hi H5). lia.
Qed.

Lemma bh_le_spec (a b : bh_particle_data) :
  bh_le a b <->
  ReverseLink b = -1 \/ (ReverseLink a <> -1 /\ ReverseLink a <= ReverseLink b).
Proof.
  unfold bh_le, bh_cmp_reverse_link.
  destruct (Z.eqb_spec (ReverseLink a) (-1)) as [Ha|Ha],
           (Z.eqb_spec (ReverseLink b) (-1)) as [Hb|Hb]; cbn [andb].
  - split; [now left|lia].
  - split; [lia|]. intros [?|[? _]]; contradiction.
  - split; [now left|lia].
  - destruct (Z.gtb_spec (ReverseLink a) (ReverseLink b)),
             (Z.ltb_spec (ReverseLink a) (ReverseLink b)); cbn [Z.b2z];
      split; try lia; intros [?|[_ ?]]; try contradiction; lia.
Qed.

Lemma StronglySorted_lookup {A} (R : relation A) (l : list A) (i j : nat) (a b : A) :
  StronglySorted R l -> (i < j)%nat -> l !! i = Some a -> l !! j = Some b -> R a b.
Proof.
  intros Hs. revert i j. induction Hs as [|x l Hs IH Hx]; intros i j Hij Ha Hb.
  - discriminate.
  - destruct j as [|j]; [lia|]. cbn in Hb. destruct i as [|i]; cbn in Ha.
    + injection Ha as ->. rewrite Forall_forall in Hx. apply Hx.
      apply list_elem_of_lookup. eauto.
    + apply (IH i j); [lia|assumption..].
Qed.

Lemma StronglySorted_fmap_strong {A B} (R : relation A) (R' : relation B)
    (f : A -> B) (l : list A) :
  (forall a b, a ∈ l -> b ∈ l -> R a b -> R' (f a) (f b)) ->
  StronglySorted R l -> StronglySorted R' (f <$> l).
Proof.
  intros Hmono Hs. revert Hmono.
  induction Hs as [|x l Hs IH Hx]; intros Hmono; [constructor|].
  cbn. constructor.
  - apply IH. intros a b Ha Hb. apply Hmono; now right.
  - apply Forall_forall. intros y Hy.
    apply list_elem_of_fmap in Hy as (a & -> & Ha).
    apply Hmono; [left|now right|].
    now apply (proj1 (Forall_forall _ _) Hx).
Qed.

Lemma bh_indices_sorted (Pt : list particle_data) (n : nat) :
  StronglySorted Z.le (Z.of_nat <$> bh_indices Pt n).
Proof.
  induction n as [|n IH]; [constructor|].
  rewrite bh_indices_S, fmap_app. apply StronglySorted_app_2.
  - intros x1 x2 H1 H2.
    apply list_elem_of_fmap in H1 as (i & -> & Hi).
    apply bh_indices_elem in Hi as [Hi _].
    destruct (decide (PType (Pt !!! n) = 5)); cbn in H2.
    + apply list_elem_of_singleton in H2 as ->. lia.
    + now apply elem_of_nil in H2.
  - exact IH.
  - destruct (decide (PType (Pt !!! n) = 5)); cbn; repeat constructor.
Qed.

Lemma bh_indices_NoDup (Pt : list particle_data) (n : nat) :
  NoDup (bh_indices Pt n).
Proof. unfold bh_indices. apply NoDup_filter, NoDup_seq. Qed.

Lemma bh_trim_spec (n : nat) (bhp : list bh_particle_data) :
  (bh_trim n bhp <= n)%nat /\
  (forall k, (bh_trim n bhp <= k < n)%nat -> ReverseLink (bhp !!! k) = -1) /\
  ((0 < bh_trim n bhp)%nat ->
   ReverseLink (bhp !!! (bh_trim n bhp - 1)%nat) <> -1).
Proof.
  induction n as [|n (IH1 & IH2 & IH3)]; cbn [bh_trim].
  - repeat split; intros; lia.
  - destruct (Z.eqb_spec (ReverseLink (bhp !!! n)) (-1)) as [Hn|Hn].
    + split; [lia|]. split; [|exact IH3].
      intros k Hk. destruct (decide (k = n)) as [->|Hne]; [exact Hn|].
      apply IH2. lia.
    + split; [lia|]. split; [intros k Hk; lia|].
      intros _. now replace (S n - 1)%nat with n by lia.
Qed.

(** Trimming a table whose first [n] slots are in [qsort]'s order leaves
    exactly the slots with a link, in increasing order of the links. *)
Lemma bh_trim_sorted (B : list bh_particle_data) (n : nat) :
  (n <= length B)%nat ->
  StronglySorted bh_le (take n B) ->
  (bh_trim n B <= n)%nat /\
  (forall k, (k < bh_trim n B)%nat -> ReverseLink (B !!! k) <> -1) /\
  (forall k, (bh_trim n B <= k < n)%nat -> ReverseLink (B !!! k) = -1) /\
  filter (fun r => r <> -1) (ReverseLink <$> take n B)
    = ReverseLink <$> take (bh_trim n B) B /\
  StronglySorted Z.le (ReverseLink <$> take (bh_trim n B) B).
Proof.
  intros Hn Hs. destruct (bh_trim_spec n B) as (Hle & Htail & Hlast).
  set (n' := bh_trim n B) in *.
  assert (Hhead : forall k, (k < n')%nat -> ReverseLink (B !!! k) <> -1).
  { intros k Hk. destruct (decide (k = n' - 1)%nat) as [->|Hne]; [apply Hlast; lia|].
    assert (Hle' : bh_le (B !!! k) (B !!! (n' - 1)%nat)).
    { apply (StronglySorted_lookup bh_le (take n B) k (n' - 1)%nat); [exact Hs|lia| |].
      - rewrite lookup_take_lt by lia. apply list_lookup_lookup_total_lt. lia.
      - rewrite lookup_take_lt by lia. apply list_lookup_lookup_total_lt. lia. }
    apply bh_le_spec in Hle' as [Hl|[Hk' _]]; [|exact Hk'].
    exfalso. apply Hlast; [lia|exact Hl]. }
  split; [exact Hle|]. split; [exact Hhead|]. split; [exact Htail|].
  assert (Hsplit : take n B = take n' B ++ drop n' (take n B)).
  { rewrite <- (take_drop n' (take n B)) at 1. rewrite take_take.
    now replace (n' `min` n)%nat with n' by lia. }
  assert (Helem : forall b, b ∈ take n' B -> ReverseLink b <> -1).
  { intros b Hb. apply list_elem_of_lookup in Hb as [k Hk].
    apply lookup_take_Some in Hk as [Hk Hlt].
    apply list_lookup_total_correct in Hk. subst b. now apply Hhead. }
  split.
  - rewrite Hsplit at 1. rewrite fmap_app, filter_app.
    rewrite filter_all_true, filter_all_false; [apply app_nil_r| |].
    + intros r Hr Hne. apply list_elem_of_fmap in Hr as (b & -> & Hb).
      apply list_elem_of_lookup in Hb as [k Hk].
      rewrite lookup_drop in Hk. apply lookup_take_Some in Hk as [Hk Hlt].
      apply list_lookup_total_correct in Hk. subst b.
      apply Hne, Htail. lia.
    + intros r Hr. apply list_elem_of_fmap in Hr as (b & -> & Hb). now apply Helem.
  - apply (StronglySorted_fmap_strong bh_le).
    + intros a b Ha Hb Hab. apply bh_le_spec in Hab as [Hl|[_ Hl]]; [|exact Hl].
      now apply Helem in Hb.
    + rewrite Hsplit in Hs. now apply StronglySorted_app_1_l in Hs.
Qed.

Lemma set_PI_twice (a b : nat) (p : particle_data) :
  set_PI a (set_PI b p) = set_PI a p.
Proof. reflexivity. Qed.

Lemma set_PI_eta (p : particle_data) : set_PI (PI p) p = p.
Proof. now destruct p. Qed.

(** Writing the new slot indices changes nothing but the [PI] of black
    holes, provided every link followed names a black hole. *)
Lemma bh_relink_frame (n : nat) (B : list bh_particle_data)
    (Pt : list particle_data) :
  (forall k, (k < n)%nat ->
     exists j, ReverseLink (B !!! k) = Z.of_nat j /\ PType (Pt !!! j) = 5) ->
  length (bh_relink n B Pt) = length Pt /\
  forall i,
    bh_relink n B Pt !!! i = set_PI (PI (bh_relink n B Pt !!! i)) (Pt !!! i) /\
    (PType (Pt !!! i) <> 5 -> bh_relink n B Pt !!! i = Pt !!! i).
Proof.
  intros Hlinks. unfold bh_relink.
  apply (for_loop_ind (fun _ Pc =>
    length Pc = length Pt /\
    forall i, Pc !!! i = set_PI (PI (Pc !!! i)) (Pt !!! i) /\
              (PType (Pt !!! i) <> 5 -> Pc !!! i = Pt !!! i))).
  - split; [reflexivity|]. intros i. split; [now rewrite set_PI_eta|auto].
  - intros k Pc Hk [Hlen Hfr].
    destruct (Hlinks k Hk) as (j & -> & Hj5). rewrite Nat2Z.id.
    split; [now rewrite length_insert|]. intros i.
    destruct (Nat.lt_ge_cases j (length Pc)) as [Hj|Hj].
    + rewrite lookup_total_insert_lt by exact Hj.
      destruct (decide (j = i)) as [<-|Hne]; [|apply Hfr].
      split; [|intros H; contradiction].
      cbn [PI set_PI]. destruct (Hfr j) as [-> _]. reflexivity.
    + rewrite list_insert_ge by exact Hj. apply Hfr.
Qed.

Lemma links_lookup (B : list bh_particle_data) (m : nat) (t : list nat) (k : nat) :
  ReverseLink <$> take m B = Z.of_nat <$> t ->
  (k < length t)%nat ->
  ReverseLink (B !!! k) = Z.of_nat (t !!! k).
Proof.
  intros Heq Hk.
  assert (Hlen : length (take m B) = length t).
  { apply (f_equal length) in Heq. now rewrite !length_fmap in Heq. }
  rewrite length_take in Hlen.
  apply (f_equal (fun l => l !! k)) in Heq. rewrite !list_lookup_fmap in Heq.
  rewrite lookup_take_lt in Heq by lia.
  rewrite (list_lookup_lookup_total_lt B k) in Heq by lia.
  rewrite (list_lookup_lookup_total_lt t k) in Heq by lia.
  cbn in Heq. now injection Heq.
Qed.

(** When the links of the first slots are the distinct indices [t], entry
    [t !!! k] of the base table is given slot [k]. *)
Lemma bh_relink_links (B : list bh_particle_data) (Pt : list particle_data)
    (m : nat) (t : list nat) :
  NoDup t ->
  (forall i, i ∈ t -> (i < length Pt)%nat) ->
  ReverseLink <$> take m B = Z.of_nat <$> t ->
  forall k, (k < length t)%nat -> PI (bh_relink (length t) B Pt !!! (t !!! k)) = k.
Proof.
  intros Hnd Hrange Heq.
  assert (Hgen : forall n, (n <= length t)%nat ->
            length (bh_relink n B Pt) = length Pt /\
            forall k, (k < n)%nat -> PI (bh_relink n B Pt !!! (t !!! k)) = k).
  { induction n as [|n IH]; intros Hn.
    - split; [reflexivity|]. intros k Hk. lia.
    - destruct IH as [IHlen IH]; [lia|]. unfold bh_relink in *. cbn [for_loop].
      rewrite (links_lookup B m t n Heq) by lia. rewrite Nat2Z.id.
      split; [now rewrite length_insert|]. intros k Hk.
      assert (Htn : (t !!! n < length Pt)%nat).
      { apply Hrange, list_elem_of_lookup. exists n.
        apply list_lookup_lookup_total_lt. lia. }
      rewrite lookup_total_insert_lt by lia.
      destruct (decide (t !!! n = t !!! k)) as [Heqt|Hne].
      + assert (n = k) as <-; [|reflexivity].
        apply (NoDup_lookup t n k (t !!! n)); [exact Hnd| |].
        * apply list_lookup_lookup_total_lt. lia.
        * rewrite Heqt. apply list_lookup_lookup_total_lt. lia.
      + apply IH. destruct (decide (k = n)) as [->|]; [contradiction|lia]. }
  intros k Hk. now apply Hgen.
Qed.

(** The closing loop counts the black holes when every one of them passes
    its two checks. *)
Lemma bh_check_loop_ok (Pt : list particle_data) (B : list bh_particle_data)
    (nbh n : nat) :
  (forall i, (i < n)%nat -> PType (Pt !!! i) = 5 ->
     (PI (Pt !!! i) < nbh)%nat /\ BhID (B !!! PI (Pt !!! i)) = ID (Pt !!! i)) ->
  for_loopR n (bh_check_body Pt B nbh) 0%nat = OK (length (bh_indices Pt n)).
Proof.
  induction n as [|n IH]; intros Hok; [reflexivity|].
  cbn [for_loopR]. rewrite IH by (intros i Hi; apply Hok; lia). cbn [rbind].
  rewrite bh_indices_S, length_app. unfold bh_check_body.
  destruct (Z.eqb_spec (PType (Pt !!! n)) 5) as [H5|H5];
    destruct (decide (PType (Pt !!! n) = 5)) as [H5'|H5']; try contradiction;
    cbn [negb length].
  - destruct (Hok n ltac:(lia) H5) as [Hpi Hid].
    destruct (Nat.leb_spec nbh (PI (Pt !!! n))); [lia|].
    rewrite Hid, Z.eqb_refl. cbn [negb]. f_equal. lia.
  - f_equal. lia.
Qed.

(** Conversely, a closing loop that comes through has checked every black
    hole and counted them. *)
Lemma bh_check_loop_inv (Pt : list particle_data) (B : list bh_particle_data)
    (nbh n j : nat) :
  for_loopR n (bh_check_body Pt B nbh) 0%nat = OK j ->
  j = length (bh_indices Pt n) /\
  forall i, (i < n)%nat -> PType (Pt !!! i) = 5 ->
    (PI (Pt !!! i) < nbh)%nat /\ BhID (B !!! PI (Pt !!! i)) = ID (Pt !!! i).
Proof.
  revert j. induction n as [|n IH]; intros j Hrun; cbn [for_loopR] in Hrun.
  - injection Hrun as <-. split; [reflexivity|]. intros i Hi. lia.
  - destruct (for_loopR n (bh_check_body Pt B nbh) 0%nat) as [j'| |] eqn:Hj';
      cbn [rbind] in Hrun; try discriminate.
    destruct (IH j' eq_refl) as [-> IHok].
    unfold bh_check_body in Hrun. rewrite bh_indices_S, length_app.
    destruct (Z.eqb_spec (PType (Pt !!! n)) 5) as [H5|H5];
      destruct (decide (PType (Pt !!! n) = 5)) as [H5'|H5']; try contradiction;
      cbn [negb length] in Hrun |- *.
    + destruct (Nat.leb_spec nbh (PI (Pt !!! n))) as [|Hpi]; [discriminate|].
      destruct (Z.eqb_spec (BhID (B !!! PI (Pt !!! n))) (ID (Pt !!! n))) as [Hid|];
        cbn [negb] in Hrun; [|discriminate].
      injection Hrun as <-. split; [lia|].
      intros i Hi Hi5. destruct (decide (i = n)) as [->|Hne]; [now split|].
      apply IHok; [lia|exact Hi5].
    + injection Hrun as <-. split; [lia|].
      intros i Hi Hi5. destruct (decide (i = n)) as [->|Hne]; [contradiction|].
      apply IHok; [lia|exact Hi5].
Qed.

Lemma bh_indices_increasing (Pt : list particle_data) (n : nat) :
  StronglySorted lt (bh_indices Pt n).
Proof.
  induction n as [|n IH]; [constructor|].
  rewrite bh_indices_S. apply StronglySorted_app_2.
  - intros x1 x2 H1 H2. apply bh_indices_elem in H1 as [H1 _].
    destruct (decide (PType (Pt !!! n) = 5)); cbn in H2.
    + apply list_elem_of_singleton in H2 as ->. lia.
    + now apply elem_of_nil in H2.
  - exact IH.
  - destruct (decide (PType (Pt !!! n) = 5)); cbn; repeat constructor.
Qed.

Section BhFacts.

Variable MaxPartBh : nat.
Variable qsort :
  (bh_particle_data -> bh_particle_data -> Z) ->
  list bh_particle_data -> list bh_particle_data.

(** What [qsort] guarantees with this comparison: the entries are
    rearranged, and no entry stands before one it compares greater to. *)
Hypothesis qsort_Permutation : forall l, qsort bh_cmp_reverse_link l ≡ₚ l.
Hypothesis qsort_StronglySorted :
  forall l, StronglySorted bh_le (qsort bh_cmp_reverse_link l).

Abbreviation linked := (bh_linked_table MaxPartBh).
Abbreviation sorted := (bh_sorted_table MaxPartBh qsort).
Abbreviation bh_gc := (domain_bh_garbage_collection MaxPartBh qsort).

Lemma bh_linked_table_length (st : part_state) :
  length (linked st) = length (BhP st).
Proof.
  unfold bh_linked_table.
  apply (for_loop_ind (fun _ L => length L = length (BhP st))).
  - apply bh_reset_links_length.
  - intros i t _ Ht. unfold bh_link_write.
    destruct (PType (P st !!! i) =? 5); [now rewrite length_insert|exact Ht].
Qed.

Lemma bh_sorted_table_facts (st : part_state) :
  (N_bh_slots st <= length (BhP st))%nat ->
  length (sorted st) = length (BhP st) /\
  take (N_bh_slots st) (sorted st) ≡ₚ take (N_bh_slots st) (linked st) /\
  StronglySorted bh_le (take (N_bh_slots st) (sorted st)) /\
  drop (N_bh_slots st) (sorted st) = drop (N_bh_slots st) (linked st).
Proof.
  intros Hn. unfold bh_sorted_table.
  set (L := linked st). set (n := N_bh_slots st) in *.
  assert (HL : length L = length (BhP st)) by apply bh_linked_table_length.
  assert (Hq : length (qsort bh_cmp_reverse_link (take n L)) = n).
  { rewrite (Permutation_length (qsort_Permutation _)), length_take. lia. }
  split; [rewrite length_app, Hq, length_drop; lia|].
  rewrite take_app_length' by now rewrite Hq.
  split; [apply qsort_Permutation|]. split; [apply qsort_StronglySorted|].
  now rewrite drop_app_length' by now rewrite Hq.
Qed.

(** Behind the first [N_bh_slots] slots no link is written. *)
Lemma bh_linked_tail (st : part_state) (k : nat) :
  bh_wf MaxPartBh st ->
  (N_bh_slots st <= k < MaxPartBh)%nat ->
  ReverseLink (linked st !!! k) = -1.
Proof.
  intros Hwf Hk. pose proof Hwf as (Hn & Hlen & _ & Hslot & _).
  destruct (bh_linked_table_inv MaxPartBh st Hlen) as (_ & _ & Hown).
  destruct (decide (ReverseLink (linked st !!! k) = -1)) as [Hr|Hr]; [exact Hr|].
  destruct (Hown k) as (j & Hj & Hj5 & Hjk & _);
    [rewrite bh_reset_links_length; lia|exact Hr|].
  destruct (Hslot j Hj Hj5) as [Hlt _]. lia.
Qed.

(** After the sort and the trim the links of the slots kept are the
    indices of the black holes, in base order. *)
Lemma bh_sorted_links (st : part_state) :
  bh_wf MaxPartBh st ->
  ReverseLink <$> take (bh_trim (N_bh_slots st) (sorted st)) (sorted st)
    = Z.of_nat <$> bh_indices (P st) (NumPart st).
Proof.
  intros Hwf. pose proof Hwf as (Hn & Hlen & _).
  destruct (bh_sorted_table_facts st ltac:(lia)) as (HlenS & Hperm & Hsorted & _).
  destruct (bh_trim_sorted (sorted st) (N_bh_slots st) ltac:(lia) Hsorted)
    as (_ & _ & _ & Hfilter & HsortedT).
  destruct (bh_link_loop_wf MaxPartBh st Hwf) as [_ [_ Hlinks]].
  apply (StronglySorted_unique Z.le); [exact HsortedT|apply bh_indices_sorted|].
  rewrite <- Hfilter, Hperm, <- Hlinks.
  rewrite <- (take_drop (N_bh_slots st) (linked st)) at 2.
  rewrite fmap_app, filter_app.
  rewrite (filter_all_false _ (ReverseLink <$> drop _ _)); [now rewrite app_nil_r|].
  intros r Hr Hne. apply list_elem_of_fmap in Hr as (b & -> & Hb).
  apply list_elem_of_lookup in Hb as [k Hk]. rewrite lookup_drop in Hk.
  pose proof (lookup_lt_Some _ _ _ Hk) as Hlt.
  rewrite bh_linked_table_length in Hlt.
  apply list_lookup_total_correct in Hk. subst b.
  apply Hne, bh_linked_tail; [exact Hwf|lia].
Qed.

(** A sorted slot that links to black hole [i] is the slot [i] came with. *)
Lemma bh_sorted_slot (st : part_state) (i k : nat) :
  bh_wf MaxPartBh st ->
  (k < N_bh_slots st)%nat ->
  ReverseLink (sorted st !!! k) = Z.of_nat i ->
  (i < NumPart st)%nat /\ PType (P st !!! i) = 5 /\
  sorted st !!! k = set_ReverseLink (Z.of_nat i) (BhP st !!! PI (P st !!! i)).
Proof.
  intros Hwf Hk Hr. pose proof Hwf as (Hn & Hlen & _ & Hslot & _).
  destruct (bh_sorted_table_facts st ltac:(lia)) as (HlenS & Hperm & _ & _).
  destruct (bh_linked_table_inv MaxPartBh st Hlen) as (HlenL & Hfld & Hown).
  rewrite bh_reset_links_length in *.
  assert (Hin : sorted st !!! k ∈ take (N_bh_slots st) (linked st)).
  { rewrite <- Hperm. apply list_elem_of_lookup. exists k.
    rewrite lookup_take_lt by exact Hk. apply list_lookup_lookup_total_lt. lia. }
  apply list_elem_of_lookup in Hin as [m Hm].
  apply lookup_take_Some in Hm as [Hm Hmn].
  apply list_lookup_total_correct in Hm.
  destruct (Hown m ltac:(lia)) as (j & Hj & Hj5 & Hjm & Hjr);
    [rewrite Hm, Hr; lia|].
  rewrite Hm, Hr in Hjr. apply Nat2Z.inj in Hjr. subst j.
  split; [exact Hj|]. split; [exact Hj5|].
  rewrite <- Hm, Hjm, (Hfld m) by lia. rewrite Hm, Hr.
  rewrite bh_reset_links_lookup by lia.
  destruct (Nat.ltb_spec m MaxPartBh); [reflexivity|lia].
Qed.

Lemma bh_indices_ext (Pa Pb : list particle_data) (n : nat) :
  (forall i, (i < n)%nat -> PType (Pa !!! i) = PType (Pb !!! i)) ->
  bh_indices Pa n = bh_indices Pb n.
Proof.
  induction n as [|n IH]; intros Hext; [reflexivity|].
  rewrite !bh_indices_S, IH by (intros i Hi; apply Hext; lia).
  now rewrite (Hext n) by lia.
Qed.

(** The pass on a well-formed state: it comes through all its checks and
    returns 0, and this is the state it leaves. *)
Lemma bh_gc_wf (others0 : Z) (st : part_state) :
  bh_wf MaxPartBh st ->
  0 <= others0 ->
  exists st',
    bh_gc others0 st = OK (0, st') /\
    NumPart st' = NumPart st /\
    length (P st') = length (P st) /\
    (forall i, P st' !!! i = set_PI (PI (P st' !!! i)) (P st !!! i)) /\
    N_bh_slots st' = length (bh_indices (P st) (NumPart st)) /\
    (forall k, (k < N_bh_slots st')%nat ->
       PI (P st' !!! (bh_indices (P st) (NumPart st) !!! k)) = k) /\
    (forall k, (k < N_bh_slots st')%nat ->
       exists r, BhP st' !!! k =
         set_ReverseLink r
           (BhP st !!! PI (P st !!! (bh_indices (P st) (NumPart st) !!! k)))) /\
    (forall k, (k < N_bh_slots st')%nat -> ReverseLink (BhP st' !!! k) = -1) /\
    ReverseLink <$> take (N_bh_slots st') (sorted st)
      = Z.of_nat <$> bh_indices (P st) (NumPart st) /\
    (forall k, (N_bh_slots st' <= k < N_bh_slots st)%nat ->
       ReverseLink (sorted st !!! k) = -1).
Proof.
  intros Hwf Hoth. pose proof Hwf as (Hn & Hlen & HlenP & Hslot & Hinj).
  set (t := bh_indices (P st) (NumPart st)).
  unfold domain_bh_garbage_collection, sumup_large_ints.
  destruct (Z.eqb_spec (Z.of_nat (N_bh_slots st) + others0) 0) as [Hzero|Hnz].
  - (* no black-hole slot on any rank *)
    assert (Hn0 : N_bh_slots st = 0%nat) by lia.
    assert (Ht : t = []).
    { unfold t, bh_indices. apply filter_all_false. intros i Hi H5.
      apply elem_of_seq in Hi. destruct (Hslot i ltac:(lia) H5). lia. }
    exists st. fold t. rewrite Ht, Hn0. cbn [length].
    split; [reflexivity|]. split; [reflexivity|]. split; [reflexivity|].
    split; [intros i; now rewrite set_PI_eta|]. split; [reflexivity|].
    repeat split; intros; lia.
  - destruct (bh_link_loop_wf MaxPartBh st Hwf) as [-> _]. cbn [rbind].
    change (qsort bh_cmp_reverse_link (take (N_bh_slots st) (linked st))
              ++ drop (N_bh_slots st) (linked st)) with (sorted st).
    destruct (bh_sorted_table_facts st ltac:(lia)) as (HlenS & _ & Hsorted & _).
    destruct (bh_trim_sorted (sorted st) (N_bh_slots st) ltac:(lia) Hsorted)
      as (Hle & _ & Htail & _ & _).
    pose proof (bh_sorted_links st Hwf) as Hlinks. fold t in Hlinks.
    set (B3 := sorted st) in *. set (n' := bh_trim (N_bh_slots st) B3) in *.
    assert (Hn' : n' = length t).
    { apply (f_equal length) in Hlinks.
      rewrite !length_fmap, length_take in Hlinks. lia. }
    assert (Helem : forall k, (k < n')%nat ->
              (t !!! k < NumPart st)%nat /\ PType (P st !!! (t !!! k)) = 5 /\
              B3 !!! k = set_ReverseLink (Z.of_nat (t !!! k))
                           (BhP st !!! PI (P st !!! (t !!! k)))).
    { intros k Hk. apply (bh_sorted_slot st (t !!! k) k Hwf); [lia|].
      apply (links_lookup B3 n' t k Hlinks). lia. }
    destruct (bh_relink_frame n' B3 (P st)) as [HlenP1 Hframe].
    { intros k Hk. exists (t !!! k). split.
      - apply (links_lookup B3 n' t k Hlinks). lia.
      - now apply Helem. }
    assert (Hpi : forall k, (k < n')%nat -> PI (bh_relink n' B3 (P st) !!! (t !!! k)) = k).
    { intros k Hk. rewrite Hn' in *.
      apply (bh_relink_links B3 (P st) (length t) t); try assumption.
      - apply bh_indices_NoDup.
      - intros i Hi. apply bh_indices_elem in Hi. lia. }
    set (P1 := bh_relink n' B3 (P st)) in *.
    set (B4 := bh_reset_links n' B3).
    assert (HB4 : forall k, (k < n')%nat -> B4 !!! k = set_ReverseLink (-1) (B3 !!! k)).
    { intros k Hk. unfold B4. rewrite bh_reset_links_lookup by lia.
      destruct (Nat.ltb_spec k n'); [reflexivity|lia]. }
    assert (Hty : forall i, PType (P1 !!! i) = PType (P st !!! i)).
    { intros i. destruct (Hframe i) as [-> _]. reflexivity. }
    assert (Hpos : forall i, (i < NumPart st)%nat -> PType (P st !!! i) = 5 ->
              exists k, (k < n')%nat /\ t !!! k = i).
    { intros i Hi H5. assert (Hit : i ∈ t) by now apply bh_indices_elem.
      apply list_elem_of_lookup in Hit as [k Hk]. exists k.
      split; [rewrite Hn'; now apply lookup_lt_Some in Hk|].
      now apply list_lookup_total_correct. }
    rewrite (bh_check_loop_ok P1 B4 n' (NumPart st)).
    + cbn [rbind]. rewrite (bh_indices_ext P1 (P st)) by (intros; apply Hty).
      fold t. rewrite <- Hn', Nat.eqb_refl. cbn [negb].
      eexists. split; [reflexivity|].
      cbn [P BhP NumPart N_bh_slots].
      split; [reflexivity|]. split; [exact HlenP1|].
      split; [intros i; apply Hframe|]. split; [reflexivity|].
      split; [exact Hpi|]. split.
      { intros k Hk. exists (-1). rewrite HB4 by exact Hk.
        destruct (Helem k Hk) as (_ & _ & ->). reflexivity. }
      split; [intros k Hk; now rewrite HB4|].
      split; [exact Hlinks|exact Htail].
    + intros i Hi H5. rewrite Hty in H5.
      destruct (Hpos i Hi H5) as (k & Hk & <-).
      rewrite Hpi by exact Hk. split; [exact Hk|].
      rewrite HB4 by exact Hk. destruct (Helem k Hk) as (_ & _ & ->).
      cbn [BhID set_ReverseLink]. destruct (Hframe (t !!! k)) as [-> _].
      cbn [ID set_PI]. now apply Hslot.
Qed.

(** Whatever the state, a pass that comes through returns 0 and has
    touched the base table in the [PI] of black holes only. *)
Lemma bh_gc_returns (others0 : Z) (st : part_state) (r : Z) (st' : part_state) :
  length (BhP st) = MaxPartBh ->
  (N_bh_slots st <= MaxPartBh)%nat ->
  bh_gc others0 st = OK (r, st') ->
  r = 0 /\
  NumPart st' = NumPart st /\
  length (P st') = length (P st) /\
  (forall i,
     P st' !!! i = set_PI (PI (P st' !!! i)) (P st !!! i) /\
     (PType (P st !!! i) <> 5 -> P st' !!! i = P st !!! i)) /\
  SphP st' = SphP st /\ N_sph_slots st' = N_sph_slots st /\
  TimeBinCount st' = TimeBinCount st /\ TimeBinCountSph st' = TimeBinCountSph st /\
  NumActiveParticle st' = NumActiveParticle st /\
  ActiveParticle st' = ActiveParticle st /\
  Nextnode st' = Nextnode st /\ Father st' = Father st.
Proof.
  intros Hlen Hn Hrun.
  unfold domain_bh_garbage_collection in Hrun.
  destruct (sumup_large_ints others0 (N_bh_slots st) =? 0).
  { injection Hrun as <- <-. split; [reflexivity|]. split; [reflexivity|].
    split; [reflexivity|]. split; [|repeat split].
    intros i. split; [now rewrite set_PI_eta|auto]. }
  destruct (for_loopR (NumPart st) _ _) as [B2| |] eqn:HB2;
    cbn [rbind] in Hrun; try discriminate.
  apply bh_link_loop_writes in HB2. fold (linked st) in HB2. subst B2.
  change (qsort bh_cmp_reverse_link (take (N_bh_slots st) (linked st))
            ++ drop (N_bh_slots st) (linked st)) with (sorted st) in Hrun.
  destruct (for_loopR (NumPart st) _ 0%nat) as [j| |]; cbn [rbind] in Hrun;
    try discriminate.
  destruct (negb (j =? _)%nat); [discriminate|].
  injection Hrun as <- <-. cbn [P SphP NumPart N_sph_slots TimeBinCount
    TimeBinCountSph NumActiveParticle ActiveParticle Nextnode Father].
  destruct (bh_sorted_table_facts st ltac:(lia)) as (HlenS & Hperm & Hsorted & _).
  destruct (bh_trim_sorted (sorted st) (N_bh_slots st) ltac:(lia) Hsorted)
    as (Hle & Hhead & _).
  destruct (bh_linked_table_inv MaxPartBh st Hlen) as (HlenL & _ & Hown).
  rewrite bh_reset_links_length in *.
  destruct (bh_relink_frame (bh_trim (N_bh_slots st) (sorted st)) (sorted st) (P st))
    as [HlenP1 Hframe]; [|repeat split; try assumption; apply Hframe].
  intros k Hk.
  assert (Hin : sorted st !!! k ∈ take (N_bh_slots st) (linked st)).
  { rewrite <- Hperm. apply list_elem_of_lookup. exists k.
    rewrite lookup_take_lt by lia. apply list_lookup_lookup_total_lt. lia. }
  apply list_elem_of_lookup in Hin as [m Hm].
  apply lookup_take_Some in Hm as [Hm Hmn].
  apply list_lookup_total_correct in Hm.
  destruct (Hown m ltac:(lia)) as (i & _ & Hi5 & _ & Hir).
  - rewrite Hm. now apply Hhead.
  - exists i. split; [now rewrite <- Hm|exact Hi5].
Qed.

(** C3. The black-hole compaction pass on a state in which every live black
    hole has a slot of its own carrying its identifier, with [others0 >= 0]
    black-hole slots on the other ranks: the pass comes through; afterwards
    every base entry [i] of type 5 has [P[i].PI < N_bh_slots] and
    [BhP[P[i].PI].ID = P[i].ID]; [N_bh_slots] is the number of base entries
    of type 5; in the sorted table the slots with a link stand first, in
    increasing order of their non-negative links (these are the indices of
    the black holes in base order), and the slots cut off all have link -1;
    every slot kept has its link back at -1; and the table that is left has
    the slots in that order: slot [k] is the slot of the [k]-th black hole
    in base order, which points to it, so the slots of two black holes
    stand in the order of the black holes' base indices, the links they
    carried. *)
Theorem bh_gc_compacts (others0 : Z) (st : part_state) :
  bh_wf MaxPartBh st ->
  0 <= others0 ->
  exists st',
    bh_gc others0 st = OK (0, st') /\
    (forall i, (i < NumPart st')%nat -> PType (P st' !!! i) = 5 ->
       (PI (P st' !!! i) < N_bh_slots st')%nat /\
       BhID (BhP st' !!! PI (P st' !!! i)) = ID (P st' !!! i)) /\
    N_bh_slots st' = length (bh_indices (P st') (NumPart st')) /\
    ReverseLink <$> take (N_bh_slots st') (sorted st)
      = Z.of_nat <$> bh_indices (P st) (NumPart st) /\
    (forall k k', (k < k' < N_bh_slots st')%nat ->
       0 <= ReverseLink (sorted st !!! k) < ReverseLink (sorted st !!! k')) /\
    (forall k, (N_bh_slots st' <= k < N_bh_slots st)%nat ->
       ReverseLink (sorted st !!! k) = -1) /\
    (forall k, (k < N_bh_slots st')%nat -> ReverseLink (BhP st' !!! k) = -1) /\
    (forall k, (k < N_bh_slots st')%nat ->
       let i := bh_indices (P st) (NumPart st) !!! k in
       PI (P st' !!! i) = k /\
       BhP st' !!! k = set_ReverseLink (-1) (BhP st !!! PI (P st !!! i))) /\
    (forall i i', (i < i' < NumPart st')%nat ->
       PType (P st' !!! i) = 5 -> PType (P st' !!! i') = 5 ->
       (PI (P st' !!! i) < PI (P st' !!! i'))%nat).
Proof.
  intros Hwf Hoth. pose proof Hwf as (_ & _ & _ & Hslot & _).
  destruct (bh_gc_wf others0 st Hwf Hoth)
    as (st' & Hrun & HN & HlenP & Hframe & Hn' & Hpi & Hslots & Hreset & Hlinks & Htail).
  set (t := bh_indices (P st) (NumPart st)) in *.
  assert (Hext : bh_indices (P st') (NumPart st') = t).
  { rewrite HN. apply bh_indices_ext. intros i _. now rewrite (Hframe i). }
  exists st'. split; [exact Hrun|]. split.
  { intros i Hi H5. rewrite (Hframe i) in H5. cbn [PType set_PI] in H5.
    assert (Hit : i ∈ t) by (apply bh_indices_elem; split; [lia|exact H5]).
    apply list_elem_of_lookup in Hit as [k Hk].
    pose proof (lookup_lt_Some _ _ _ Hk) as Hkt. rewrite <- Hn' in Hkt.
    apply list_lookup_total_correct in Hk.
    rewrite <- Hk, Hpi by exact Hkt. split; [exact Hkt|].
    destruct (Hslots k Hkt) as [r ->]. cbn [BhID set_ReverseLink].
    rewrite Hk, (Hframe i). cbn [ID set_PI]. apply Hslot; [lia|exact H5]. }
  split; [now rewrite Hext|]. split; [exact Hlinks|]. split.
  { intros k k' Hk.
    rewrite (links_lookup _ _ _ k Hlinks), (links_lookup _ _ _ k' Hlinks) by lia.
    assert (Hlt : (t !!! k < t !!! k')%nat); [|lia].
    apply (StronglySorted_lookup lt t k k'); [apply bh_indices_increasing|lia| |];
      apply list_lookup_lookup_total_lt; lia. }
  split; [exact Htail|]. split; [exact Hreset|]. split.
  { intros k Hk. cbv zeta. fold t. split; [apply Hpi; exact Hk|].
    destruct (Hslots k Hk) as [r Hr]. pose proof (Hreset k Hk) as Hm.
    rewrite Hr in Hm. cbn [ReverseLink set_ReverseLink] in Hm.
    rewrite Hr, Hm. reflexivity. }
  intros i i' Hii H5 H5'.
  rewrite (Hframe i) in H5. rewrite (Hframe i') in H5'. cbn [PType set_PI] in H5, H5'.
  assert (Hit : i ∈ t) by (apply bh_indices_elem; split; [lia|exact H5]).
  assert (Hit' : i' ∈ t) by (apply bh_indices_elem; split; [lia|exact H5']).
  apply list_elem_of_lookup in Hit as [k Hk].
  apply list_elem_of_lookup in Hit' as [k' Hk'].
  pose proof (lookup_lt_Some _ _ _ Hk) as Hkt.
  pose proof (lookup_lt_Some _ _ _ Hk') as Hkt'.
  rewrite <- Hn' in Hkt, Hkt'.
  pose proof (Hpi k Hkt) as Hpik. pose proof (Hpi k' Hkt') as Hpik'.
  rewrite (list_lookup_total_correct _ _ _ Hk) in Hpik.
  rewrite (list_lookup_total_correct _ _ _ Hk') in Hpik'.
  rewrite Hpik, Hpik'.
  destruct (Nat.lt_trichotomy k k') as [Hlt|[Heq|Hgt]]; [exact Hlt| |].
  - subst k'. assert (i = i') by congruence. lia.
  - pose proof (StronglySorted_lookup lt t k' k i' i
                  (bh_indices_increasing _ _) Hgt Hk' Hk). lia.
Qed.

(** C9. The black-hole compaction pass has one return value, 0: a pass
    that returns leaves [NumPart] and the order of the base table as they
    were, each base entry keeps all its fields but [PI], entries of a type
    other than 5 are not touched at all, and gas slots, time-bin counters
    and tree links stay as they were; what changes is the black-hole slot
    table, [N_bh_slots] and the [PI] of black holes.  On a well-formed
    state the pass does return. *)
Theorem bh_gc_frame (others0 : Z) (st : part_state) :
  length (BhP st) = MaxPartBh ->
  (N_bh_slots st <= MaxPartBh)%nat ->
  (forall r st', bh_gc others0 st = OK (r, st') ->
     r = 0 /\
     NumPart st' = NumPart st /\
     length (P st') = length (P st) /\
     (forall i,
        P st' !!! i = set_PI (PI (P st' !!! i)) (P st !!! i) /\
        (PType (P st !!! i) <> 5 -> P st' !!! i = P st !!! i)) /\
     SphP st' = SphP st /\ N_sph_slots st' = N_sph_slots st /\
     TimeBinCount st' = TimeBinCount st /\
     TimeBinCountSph st' = TimeBinCountSph st /\
     Nextnode st' = Nextnode st /\ Father st' = Father st) /\
  (bh_wf MaxPartBh st -> 0 <= others0 ->
   exists st', bh_gc others0 st = OK (0, st')).
Proof.
  intros Hlen Hn. split.
  - intros r st' Hrun.
    destruct (bh_gc_returns others0 st r st' Hlen Hn Hrun)
      as (H1 & H2 & H3 & H4 & H5 & H6 & H7 & H8 & _ & _ & H9 & H10).
    repeat split; try assumption; apply H4.
  - intros Hwf Hoth.
    destruct (bh_gc_wf others0 st Hwf Hoth) as (st' & Hrun & _).
    now exists st'.
Qed.

End BhFacts.

(** ** The functions run on the sample tables *)

Global Instance bh_le_total : Total bh_le.
Proof.
  intros a b. rewrite !bh_le_spec.
  destruct (decide (ReverseLink a = -1)), (decide (ReverseLink b = -1)); lia.
Qed.

Global Instance bh_le_trans : Transitive bh_le.
Proof. intros a b c. rewrite !bh_le_spec. lia. Qed.

Lemma merge_qsort_Permutation (l : list bh_particle_data) :
  merge_qsort bh_cmp_reverse_link l ≡ₚ l.
Proof. apply merge_sort_Permutation. Qed.

Lemma merge_qsort_StronglySorted (l : list bh_particle_data) :
  StronglySorted bh_le (merge_qsort bh_cmp_reverse_link l).
Proof. apply (StronglySorted_merge_sort bh_le). Qed.

Example sample_bh_gc :
  domain_bh_garbage_collection 4 merge_qsort 0 sample_bh_state =
  OK (0,
      mk_state
        [sample_particle 0 100 1%Q 0 0; sample_particle 5 11 1%Q 0 0;
         sample_particle 1 102 1%Q 0 0; sample_particle 5 10 1%Q 1 0;
         particle0; particle0]
        [mk_sph 7; mk_sph 0; mk_sph 0; mk_sph 0; mk_sph 0; mk_sph 0]
        [mk_bh (-1) 11 71; mk_bh (-1) 10 70; mk_bh (-1) 99 72; mk_bh (-1) 0 0]
        4 1 2
        [10; 10; 10] [5; 5; 5] 0 [] None []).
Proof. vm_compute. reflexivity. Qed.

Example sample_all_gc :
  domain_all_garbage_collection 0 0 sample_gas_state =
  (1,
   mk_state
     [sample_particle 0 100 1%Q 0 1; sample_particle 1 103 2%Q 0 0;
      sample_particle 1 102 0%Q 0 1; sample_particle 1 103 2%Q 0 0;
      particle0; particle0]
     [mk_sph 7; mk_sph 8; mk_sph 0; mk_sph 0; mk_sph 0; mk_sph 0]
     []
     2 1 0
     [10; 9; 9] [5; 5; 4] 0 [] None []).
Proof. vm_compute. reflexivity. Qed.

Lemma sample_bh_wf : bh_wf 4 sample_bh_state.
Proof.
  unfold bh_wf. cbn [N_bh_slots NumPart BhP P sample_bh_state length].
  split; [lia|]. split; [reflexivity|]. split; [lia|]. split.
  - intros i Hi H5.
    destruct i as [|[|[|[|i]]]]; cbn in H5 |- *; try discriminate; try lia.
  - intros i j Hi Hj H5i H5j Hpi.
    destruct i as [|[|[|[|i]]]]; cbn in H5i; try discriminate; try lia;
      destruct j as [|[|[|[|j]]]]; cbn in H5j; try discriminate; try lia;
      cbn in Hpi; congruence.
Qed.

Lemma sample_gas_prefix : gas_prefix sample_gas_state.
Proof.
  split; [cbn; lia|]. cbn [NumPart N_sph_slots sample_gas_state P].
  intros k Hk. destruct k as [|[|[|[|k]]]]; cbn; split; intros; try lia; discriminate.
Qed.

Lemma fork_appends_child_witness :
  exists st',
    domain_fork_particle 6 timebin_keep 0 sample_gas_state = OK (4%nat, st') /\
    NumPart st' = 5%nat.
Proof.
  destruct (fork_appends_child 6 timebin_keep 0 sample_gas_state eq_refl
              ltac:(cbn; lia)) as [Hfork _].
  destruct (Hfork ltac:(cbn; lia)) as (st' & Hrun & Hn & _).
  exists st'. split; [exact Hrun|exact Hn].
Defined.

Lemma fork_frame_witness :
  exists st',
    domain_fork_particle 6 timebin_keep 0 sample_gas_state = OK (4%nat, st') /\
    PI (P st' !!! 4%nat) = PI (P sample_gas_state !!! 0%nat).
Proof.
  destruct (fork_frame 6 timebin_keep 0 sample_gas_state eq_refl
              ltac:(cbn; lia) ltac:(cbn; lia)) as (st' & Hrun & Hsame & _).
  exists st'. split; [exact Hrun|]. apply Hsame.
Defined.

Lemma all_gc_eliminates_massless_witness :
  exists tree_invalid st',
    domain_all_garbage_collection 0 0 sample_gas_state = (tree_invalid, st') /\
    gas_prefix st'.
Proof.
  destruct (all_gc_eliminates_massless 0 0 sample_gas_state
              ltac:(cbn; lia) sample_gas_prefix ltac:(lia))
    as (ti & st' & Hrun & _ & _ & Hgas & _).
  exists ti, st'. split; [exact Hrun|exact Hgas].
Defined.

Lemma bh_gc_compacts_witness :
  exists st',
    domain_bh_garbage_collection 4 merge_qsort 0 sample_bh_state = OK (0, st') /\
    forall k, (k < N_bh_slots st')%nat -> ReverseLink (BhP st' !!! k) = -1.
Proof.
  destruct (bh_gc_compacts 4 merge_qsort merge_qsort_Permutation
              merge_qsort_StronglySorted 0 sample_bh_state sample_bh_wf
              ltac:(lia))
    as (st' & Hrun & _ & _ & _ & _ & _ & Hreset & _).
  exists st'. split; [exact Hrun|exact Hreset].
Defined.

Lemma bh_gc_frame_witness :
  exists st',
    domain_bh_garbage_collection 4 merge_qsort 0 sample_bh_state = OK (0, st') /\
    NumPart st' = NumPart sample_bh_state.
Proof.
  destruct (bh_gc_frame 4 merge_qsort merge_qsort_Permutation
              merge_qsort_StronglySorted 0 sample_bh_state eq_refl
              ltac:(cbn; lia)) as [Hret Htotal].
  destruct (Htotal sample_bh_wf ltac:(lia)) as [st' Hrun].
  exists st'. split; [exact Hrun|]. apply (Hret 0 st' Hrun).
Defined.

(** ** The splitter *)

Example sample_split :
  domain_findSplit_work_balanced 3 6 [1; 1; 1; 1; 1; 1]%Q (mk_layout [0; 0; 0] [0; 0; 0])
  = mk_layout [0; 2; 4] [1; 3; 5].
Proof. vm_compute. reflexivity. Qed.

Example sample_split_skewed :
  domain_findSplit_work_balanced 3 5 [9; 0; 0; 0; 0]%Q (mk_layout [0; 0; 0] [0; 0; 0])
  = mk_layout [0; 1; 2] [0; 1; 4].
Proof. vm_compute. reflexivity. Qed.

Lemma Qltb_spec (a b : Q) : Qltb a b = true <-> (a < b)%Q.
Proof.
  unfold Qltb. rewrite negb_true_iff. split.
  - intros H. apply Qnot_le_lt. intros Hle.
    apply Qle_bool_iff in Hle. congruence.
  - intros H. destruct (Qle_bool b a) eqn:Hb; [|reflexivity].
    apply Qle_bool_iff in Hb. exfalso. now apply (Qlt_not_le a b).
Qed.

Lemma seg_work_start (dw : list Q) (s : Z) :
  seg_work dw s s = double_add 0 (cost_at dw s).
Proof. unfold seg_work. rewrite Z.sub_diag. reflexivity. Qed.

Lemma seg_work_S (dw : list Q) (s e : Z) :
  s <= e ->
  seg_work dw s (e + 1) = double_add (seg_work dw s e) (cost_at dw (e + 1)).
Proof.
  intros Hse. unfold seg_work.
  replace (Z.to_nat (e + 1 - s)) with (S (Z.to_nat (e - s))) by lia.
  cbn [for_loop].
  replace (s + 1 + Z.of_nat (Z.to_nat (e - s))) with (e + 1) by lia.
  reflexivity.
Qed.

(** The work committed before segment [j] is read off the segments before
    it. *)
Lemma work_before_ext (dw : list Q) (L L' : layout) (j : nat) :
  (forall j', (j' < j)%nat ->
     DomainStartList L' !!! j' = DomainStartList L !!! j' /\
     DomainEndList L' !!! j' = DomainEndList L !!! j') ->
  work_before dw L' j = work_before dw L j.
Proof.
  intros Hext. unfold work_before. induction j as [|j IH]; [reflexivity|].
  cbn [for_loop]. rewrite IH by (intros j' Hj'; apply Hext; lia).
  destruct (Hext j ltac:(lia)) as [-> ->]. reflexivity.
Qed.

Lemma segment_ok_ext (ncpu ndomain : Z) (dw : list Q) (workavg : Q)
    (L L' : layout) (j : nat) :
  (forall j', (j' <= j)%nat ->
     DomainStartList L' !!! j' = DomainStartList L !!! j' /\
     DomainEndList L' !!! j' = DomainEndList L !!! j') ->
  segment_ok ncpu ndomain dw workavg L j ->
  segment_ok ncpu ndomain dw workavg L' j.
Proof.
  intros Hext. unfold segment_ok, seg_open.
  rewrite (work_before_ext dw L L' j) by (intros j' Hj'; apply Hext; lia).
  destruct (Hext j ltac:(lia)) as [-> ->]. exact (fun H => H).
Qed.

(** The [while] loop: where it stops, what it has summed, and why it went
    on before and stopped there. *)
Lemma split_extend_spec (ncpu ndomain i : Z) (dw : list Q)
    (avg avgb wb : Q) (start : Z) (fuel : nat) :
  forall end_,
    0 <= i < ncpu ->
    0 <= start <= end_ ->
    end_ <= ndomain - (ncpu - i) ->
    (Z.to_nat (ndomain - end_) <= fuel)%nat ->
    exists e',
      split_extend fuel ncpu ndomain i dw avg avgb wb end_ (seg_work dw start end_)
        = (e', seg_work dw start e') /\
      end_ <= e' <= ndomain - (ncpu - i) /\
      (forall e, end_ <= e < e' ->
         ndomain - e > ncpu - i /\
         ((double_add (seg_work dw start e) wb < double_add avg avgb)%Q \/
          (i = ncpu - 1 /\ e < ndomain - 1))) /\
      (~ ((double_add (seg_work dw start e') wb < double_add avg avgb)%Q \/
          (i = ncpu - 1 /\ e' < ndomain - 1)) \/
       ndomain - e' <= ncpu - i).
Proof.
  induction fuel as [|fuel IH]; intros end_ Hi Hse Hend Hfuel; [lia|].
  cbn [split_extend].
  set (work := seg_work dw start end_).
  assert (Hopen : Qltb (double_add work wb) (double_add avg avgb)
                  || ((i =? ncpu - 1) && (end_ <? ndomain - 1)) = true
                  <-> (double_add work wb < double_add avg avgb)%Q \/
                      (i = ncpu - 1 /\ end_ < ndomain - 1)).
  { rewrite orb_true_iff, andb_true_iff, Qltb_spec, Z.eqb_eq, Z.ltb_lt.
    reflexivity. }
  destruct (Qltb (double_add work wb) (double_add avg avgb)
            || ((i =? ncpu - 1) && (end_ <? ndomain - 1))) eqn:Hc.
  - destruct (Z.gtb_spec (ndomain - end_) (ncpu - i)) as [Hroom|Hroom].
    + unfold work. rewrite <- (seg_work_S dw start end_) by lia.
      destruct (IH (end_ + 1)) as (e' & Hrun & He' & Hbefore & Hstop); try lia.
      exists e'. split; [exact Hrun|]. split; [lia|].
      split; [|exact Hstop]. intros e He.
      destruct (Z.eq_dec e end_) as [->|Hne].
      * split; [lia|]. apply Hopen. reflexivity.
      * apply Hbefore. lia.
    + exists end_. split; [reflexivity|]. split; [lia|].
      split; [intros e He; lia|]. right. lia.
  - exists end_. split; [reflexivity|]. split; [lia|].
    split; [intros e He; lia|]. left.
    intros Ho. apply Hopen in Ho. discriminate.
Qed.

Lemma split_inv_step (ncpu ndomain : Z) (dw : list Q) (avg : Q) (n0 i : nat)
    (s : split_state) :
  Z.of_nat n0 = ncpu ->
  (i < n0)%nat ->
  split_inv ncpu ndomain dw avg n0 i s ->
  split_inv ncpu ndomain dw avg n0 (S i) (split_body ncpu ndomain dw avg i s).
Proof.
  intros Hn0 Hi (Hstart & Hwb & Havgb & Hl1 & Hl2 & Hzero & Hsegs).
  unfold split_body. rewrite <- seg_work_start.
  destruct (split_extend_spec ncpu ndomain (Z.of_nat i) dw avg
              (split_workavg_before s) (split_work_before s) (split_start s)
              (Z.to_nat ndomain) (split_start s))
    as (e' & Hrun & He' & Hbefore & Hstop); try lia.
  rewrite Hrun.
  set (start := split_start s) in *. set (L := split_layout s) in *.
  set (L' := mk_layout (<[i := start]> (DomainStartList L))
                       (<[i := e']> (DomainEndList L))).
  assert (Hext : forall j, (j < i)%nat ->
            DomainStartList L' !!! j = DomainStartList L !!! j /\
            DomainEndList L' !!! j = DomainEndList L !!! j).
  { intros j Hj. unfold L'. cbn [DomainStartList DomainEndList].
    rewrite !(list_lookup_total_insert_ne _ i j) by lia. split; reflexivity. }
  assert (HSi : DomainStartList L' !!! i = start).
  { unfold L'. cbn [DomainStartList]. apply list_lookup_total_insert_eq. lia. }
  assert (HEi : DomainEndList L' !!! i = e').
  { unfold L'. cbn [DomainEndList]. apply list_lookup_total_insert_eq. lia. }
  pose proof (work_before_ext dw L L' i Hext) as Hwb'.
  unfold split_inv.
  cbn [split_start split_work_before split_workavg_before split_layout].
  fold L'.
  split; [lia|]. split.
  { unfold work_before at 1. cbn [for_loop]. fold (work_before dw L' i).
    rewrite HSi, HEi, Hwb', Hwb. reflexivity. }
  split.
  { unfold workavg_before. cbn [for_loop]. fold (workavg_before avg i).
    rewrite Havgb. reflexivity. }
  split; [unfold L'; cbn [DomainStartList]; now rewrite length_insert|].
  split; [unfold L'; cbn [DomainEndList]; now rewrite length_insert|].
  split; [discriminate|].
  intros j Hj. destruct (decide (j = i)) as [->|Hji].
  - split; [|split; [|split]].
    + unfold segment_ok, seg_open. rewrite HSi, HEi, Hwb', <- Hwb, <- Havgb.
      split; [lia|]. split.
      { intros Hlast. destruct Hstop as [Hclosed|Hroom]; [|lia].
        destruct (Z_lt_le_dec e' (ndomain - 1)) as [Hlt|Hge]; [|lia].
        exfalso. apply Hclosed. right. split; [exact Hlast|exact Hlt]. }
      split.
      { intros e Hee. destruct (Hbefore e Hee) as [Hroom Ho]. split; [exact Hroom|].
        intros Hnl. destruct Ho as [Ho|[Ho _]]; [exact Ho|lia]. }
      intros Hnl. destruct Hstop as [Hclosed|Hroom]; [left|right; exact Hroom].
      intros Ho. apply Hclosed. left. exact Ho.
    + intros ->. rewrite HSi. now apply Hzero.
    + intros Hlt. lia.
    + intros _. rewrite HEi. reflexivity.
  - assert (Hj' : (j < i)%nat) by lia.
    destruct (Hsegs j Hj') as (Hok & Hfirst & Hnext & Hlast).
    destruct (Hext j Hj') as [HSj HEj].
    split; [|split; [|split]].
    + apply (segment_ok_ext ncpu ndomain dw avg L L' j); [|exact Hok].
      intros j' Hj''. apply Hext. lia.
    + rewrite HSj. exact Hfirst.
    + intros Hlt. rewrite HEj. destruct (decide (S j = i)) as [Heq|Hne].
      * rewrite Heq, HSi. now apply Hlast.
      * destruct (Hext (S j) ltac:(lia)) as [-> _]. apply Hnext. lia.
    + intros Heq. lia.
Qed.

Lemma split_inv_final (ncpu ndomain : Z) (dw : list Q) (L : layout) (avg : Q) :
  1 <= ncpu <= ndomain ->
  length (DomainStartList L) = Z.to_nat ncpu ->
  length (DomainEndList L) = Z.to_nat ncpu ->
  split_inv ncpu ndomain dw avg (Z.to_nat ncpu) (Z.to_nat ncpu)
    (for_loop (Z.to_nat ncpu) (split_body ncpu ndomain dw avg)
       (mk_split 0 0%Q 0%Q L)).
Proof.
  intros Hn Hl1 Hl2.
  apply (for_loop_ind (split_inv ncpu ndomain dw avg (Z.to_nat ncpu))).
  - unfold split_inv. cbn. split; [lia|]. split; [reflexivity|].
    split; [reflexivity|]. repeat split; try assumption; intros; lia.
  - intros i s Hi. apply split_inv_step; [lia|exact Hi].
Qed.

(** The segments of a split, for both splitters. *)
Lemma split_segments (ncpu ndomain : Z) (dw : list Q) (L : layout) :
  1 <= ncpu <= ndomain ->
  length (DomainStartList L) = Z.to_nat ncpu ->
  length (DomainEndList L) = Z.to_nat ncpu ->
  let L' := domain_findSplit_work_balanced ncpu ndomain dw L in
  let workavg := double_div (sum_cost dw 0 (Z.to_nat ndomain)) (inject_Z ncpu) in
  DomainStartList L' !!! 0%nat = 0 /\
  DomainEndList L' !!! Z.to_nat (ncpu - 1) = ndomain - 1 /\
  forall j, (j < Z.to_nat ncpu)%nat ->
    segment_ok ncpu ndomain dw workavg L' j /\
    ((S j < Z.to_nat ncpu)%nat ->
     DomainStartList L' !!! S j = DomainEndList L' !!! j + 1).
Proof.
  intros Hn Hl1 Hl2. cbv zeta. unfold domain_findSplit_work_balanced.
  pose proof (split_inv_final ncpu ndomain dw L
                (double_div (sum_cost dw 0 (Z.to_nat ndomain)) (inject_Z ncpu))
                Hn Hl1 Hl2)
    as (_ & _ & _ & _ & _ & _ & Hsegs).
  split; [|split].
  - destruct (Hsegs 0%nat ltac:(lia)) as (_ & Hfirst & _). now apply Hfirst.
  - destruct (Hsegs (Z.to_nat (ncpu - 1)) ltac:(lia)) as ((_ & Hlast & _) & _).
    apply Hlast. lia.
  - intros j Hj. destruct (Hsegs j Hj) as (Hok & _ & Hnext & _).
    split; [exact Hok|exact Hnext].
Qed.

(** C6, as the code has it.  The work-balanced split of [ndomain] leaves
    into [ncpu] segments, [1 <= ncpu <= ndomain], with all sums taken in
    [double] arithmetic and [workavg] the total work divided by [ncpu]: the
    segments follow one another from leaf 0; segment [j] is extended past
    leaf [e'] only while [ndomain - e' > ncpu - j] and, unless it is the
    last, only while its work up to [e'] added to the work committed is
    below [workavg] added to the sum of [j] averages; a segment other than
    the last ends at the first leaf where that is no longer so, or where
    the leaves left are just enough for the segments left; and the last
    segment ends at the last leaf. *)
Theorem findSplit_work_balanced_spec (ncpu ndomain : Z) (dw : list Q) (L : layout) :
  1 <= ncpu <= ndomain ->
  length (DomainStartList L) = Z.to_nat ncpu ->
  length (DomainEndList L) = Z.to_nat ncpu ->
  let L' := domain_findSplit_work_balanced ncpu ndomain dw L in
  let workavg := double_div (sum_cost dw 0 (Z.to_nat ndomain)) (inject_Z ncpu) in
  DomainStartList L' !!! 0%nat = 0 /\
  DomainEndList L' !!! Z.to_nat (ncpu - 1) = ndomain - 1 /\
  forall j, (j < Z.to_nat ncpu)%nat ->
    let s := DomainStartList L' !!! j in
    let e := DomainEndList L' !!! j in
    s <= e <= ndomain - (ncpu - Z.of_nat j) /\
    ((S j < Z.to_nat ncpu)%nat -> DomainStartList L' !!! S j = e + 1) /\
    (forall e', s <= e' < e ->
       ndomain - e' > ncpu - Z.of_nat j /\
       (Z.of_nat j < ncpu - 1 ->
        (double_add (seg_work dw s e') (work_before dw L' j)
         < double_add workavg (workavg_before workavg j))%Q)) /\
    (Z.of_nat j < ncpu - 1 ->
       (double_add workavg (workavg_before workavg j)
        <= double_add (seg_work dw s e) (work_before dw L' j))%Q \/
       ndomain - e <= ncpu - Z.of_nat j).
Proof.
  intros Hn Hl1 Hl2. cbv zeta.
  destruct (split_segments ncpu ndomain dw L Hn Hl1 Hl2) as (Hfirst & Hlast & Hsegs).
  split; [exact Hfirst|]. split; [exact Hlast|].
  intros j Hj. destruct (Hsegs j Hj) as ((Hrange & _ & Hbefore & Hclose) & Hnext).
  split; [exact Hrange|]. split; [exact Hnext|]. split; [exact Hbefore|].
  intros Hnl. destruct (Hclose Hnl) as [Hclosed|Hroom]; [left|right; exact Hroom].
  apply Qnot_lt_le. exact Hclosed.
Qed.

(** ** The memory check *)

Lemma wrap_int_small (x : Z) : - 2 ^ 31 <= x < 2 ^ 31 -> wrap_int x = x.
Proof. intros Hx. unfold wrap_int. rewrite Z.mod_small by lia. lia. Qed.

Lemma add_counts_le (dc : list Z) (a b n : Z) :
  (forall k, 0 <= count_at dc k) -> n <= add_counts dc a b n.
Proof.
  intros Hpos. unfold add_counts.
  induction (Z.to_nat (b - a + 1)) as [|m IH]; cbn [for_loop]; [lia|].
  specialize (Hpos (a + Z.of_nat m)). lia.
Qed.

(** While the sum stays within [int] the code adds up what there is. *)
Lemma sum_count_exact (dc : list Z) (a b n : Z) :
  (forall k, 0 <= count_at dc k) ->
  0 <= n -> add_counts dc a b n < 2 ^ 31 ->
  sum_count dc a b n = add_counts dc a b n.
Proof.
  intros Hpos Hn. unfold sum_count, add_counts.
  induction (Z.to_nat (b - a + 1)) as [|m IH]; cbn [for_loop]; [reflexivity|].
  intros Hfit.
  assert (Hle : n <= for_loop m (fun k l => l + count_at dc (a + Z.of_nat k)) n).
  { clear IH Hfit. induction m as [|m IH]; cbn [for_loop]; [lia|].
    specialize (Hpos (a + Z.of_nat m)). lia. }
  pose proof (Hpos (a + Z.of_nat m)) as Hm.
  rewrite IH by lia. apply wrap_int_small. lia.
Qed.

Section DecomposeFacts.

Variable NTask : nat.
Variable DomainOverDecompositionFactor : nat.
Variable MaxPart : Z.
Variable domain_assign_balanced :
  option (list Q) -> option (list Z) -> layout -> layout.

Hypothesis MaxPart_nonneg : 0 <= MaxPart.

Abbreviation load := (rank_load DomainOverDecompositionFactor).
Abbreviation count := (assigned_count DomainOverDecompositionFactor).
Abbreviation over := (over_memory NTask DomainOverDecompositionFactor MaxPart).
Abbreviation fit := (loads_fit NTask DomainOverDecompositionFactor).
Abbreviation check :=
  (domain_check_memory_bound NTask DomainOverDecompositionFactor MaxPart).

(** The [int] load of a rank is the number of particles it is given, as
    long as that number fits. *)
Lemma rank_load_exact (L : layout) (dc : list Z) (ta : nat) :
  (forall k, 0 <= count_at dc k) ->
  count L dc ta < 2 ^ 31 ->
  load L dc ta = count L dc ta.
Proof.
  intros Hpos. unfold rank_load, assigned_count.
  remember (fun (m : nat) (l : Z) =>
              sum_count dc
                (DomainStartList L !!! (ta * DomainOverDecompositionFactor + m)%nat)
                (DomainEndList L !!! (ta * DomainOverDecompositionFactor + m)%nat) l)
    as f eqn:Hf.
  remember (fun (m : nat) (l : Z) =>
              add_counts dc
                (DomainStartList L !!! (ta * DomainOverDecompositionFactor + m)%nat)
                (DomainEndList L !!! (ta * DomainOverDecompositionFactor + m)%nat) l)
    as g eqn:Hg.
  generalize DomainOverDecompositionFactor as n.
  assert (Hmono : forall m l, l <= g m l).
  { intros m l. rewrite Hg. apply add_counts_le. exact Hpos. }
  assert (Hnonneg : forall n, 0 <= for_loop n g 0).
  { induction n as [|n IHn]; cbn [for_loop]; [lia|].
    specialize (Hmono n (for_loop n g 0)). lia. }
  assert (Hfg : forall m l, 0 <= l -> g m l < 2 ^ 31 -> f m l = g m l).
  { intros m l Hl. rewrite Hf, Hg. apply sum_count_exact; [exact Hpos|exact Hl]. }
  induction n as [|n IH]; cbn [for_loop]; [reflexivity|].
  intros Hfit. pose proof (Hmono n (for_loop n g 0)) as Hle.
  rewrite IH by lia. apply Hfg; [apply Hnonneg|exact Hfit].
Qed.

Lemma max_load_spec (L : layout) (dc : list Z) (n : nat) (M : Z) :
  0 <= M ->
  max_load_upto DomainOverDecompositionFactor n L dc > M
  <-> exists ta, (ta < n)%nat /\ load L dc ta > M.
Proof.
  intros HM. induction n as [|n IH].
  - cbn. split; [lia|]. intros (ta & Hta & _). lia.
  - unfold max_load_upto in *. cbn [for_loop]. cbv zeta.
    set (m := for_loop n _ 0) in *.
    destruct (Z.gtb_spec (load L dc n) m) as [Hgt|Hle].
    + split.
      * intros H. exists n. split; [lia|exact H].
      * intros (ta & Hta & Hl). destruct (decide (ta = n)) as [->|Hne]; [exact Hl|].
        assert (m > M); [|lia]. apply IH. exists ta. split; [lia|exact Hl].
    + rewrite IH. split.
      * intros (ta & Hta & Hl). exists ta. split; [lia|exact Hl].
      * intros (ta & Hta & Hl). destruct (decide (ta = n)) as [->|Hne].
        -- apply IH. lia.
        -- exists ta. split; [lia|exact Hl].
Qed.

(** The largest [int] load is over [M] exactly when some rank is given
    more than [M] particles. *)
Lemma max_load_counts (L : layout) (dc : list Z) (M : Z) :
  0 <= M -> fit L dc ->
  max_load_upto DomainOverDecompositionFactor NTask L dc > M
  <-> exists ta, (ta < NTask)%nat /\ count L dc ta > M.
Proof.
  intros HM [Hpos Hfit]. rewrite (max_load_spec L dc NTask M HM).
  split; intros (ta & Hta & Hl); exists ta; (split; [exact Hta|]).
  - rewrite <- (rank_load_exact L dc ta Hpos (Hfit ta Hta)). exact Hl.
  - rewrite (rank_load_exact L dc ta Hpos (Hfit ta Hta)). exact Hl.
Qed.

Lemma over_memory_dec (L : layout) (dc : list Z) :
  fit L dc -> over L dc \/ ~ over L dc.
Proof using MaxPart_nonneg.
  intros Hfit. unfold over_memory.
  pose proof (max_load_counts L dc MaxPart MaxPart_nonneg Hfit) as Hspec.
  destruct (Z_gt_le_dec (max_load_upto DomainOverDecompositionFactor NTask L dc) MaxPart)
    as [Hgt|Hle].
  - left. now apply Hspec.
  - right. intros Hov. apply Hspec in Hov. lia.
Qed.

Lemma check_memory_bound_spec (pd : bool) (dw : list Q) (dc : list Z) (L : layout) :
  fit L dc ->
  (over L dc -> check pd dw dc L = 1) /\
  (~ over L dc -> check pd dw dc L = 0).
Proof using MaxPart_nonneg.
  intros Hfit. unfold domain_check_memory_bound, max_load, over_memory.
  pose proof (max_load_counts L dc MaxPart MaxPart_nonneg Hfit) as Hspec.
  destruct (Z.gtb_spec (max_load_upto DomainOverDecompositionFactor NTask L dc) MaxPart)
    as [Hgt|Hle].
  - split; [reflexivity|]. intros Hno. exfalso. apply Hno, Hspec. lia.
  - split; [|reflexivity]. intros Hov. apply Hspec in Hov. lia.
Qed.


End DecomposeFacts.

(** ** The driver loop *)

Section DriverFacts.

Variable ThisTask : nat.
Variable decompose_retsum : Q -> Z.

Abbreviation driver := (domain_Decomposition_loop ThisTask decompose_retsum).

(** [k] failed attempts that leave the factor at or below 1000 bring the
    loop to its next attempt with the factor grown [k] times. *)
Lemma driver_recovers (k : nat) :
  forall fuel f calls flag,
    (forall j, (j < k)%nat -> decompose_retsum (grown_factor j f) <> 0) ->
    (forall j, (1 <= j <= k)%nat ->
       ThisTask = 0%nat -> (grown_factor j f <= 1000)%Q) ->
    driver (k + fuel) (mk_driver f flag calls) =
    driver fuel (mk_driver (grown_factor k f)
                   (match k with O => flag | S _ => false end)
                   (calls ++ failed_attempts k f)).
Proof.
  induction k as [|k IH]; intros fuel f calls flag Hfail Hsmall.
  - cbn. now rewrite app_nil_r.
  - replace (S k + fuel)%nat with (k + S fuel)%nat by lia.
    rewrite (IH (S fuel) f calls flag);
      [|intros j Hj; apply Hfail; lia|intros j Hj; apply Hsmall; lia].
    cbn [domain_Decomposition_loop domain_allocate TopNodeAllocFactor
         domain_allocated_flag driver_calls].
    destruct (Z.eqb_spec (decompose_retsum (grown_factor k f)) 0) as [Hz|_];
      [exfalso; now apply (Hfail k ltac:(lia))|].
    cbn [negb domain_free domain_allocated_flag TopNodeAllocFactor driver_calls].
    assert (Hguard : Qltb 1000 (double_mul (grown_factor k f) (round_double (13 # 10)))
                       && (ThisTask =? 0)%nat
                     = false).
    { destruct (Nat.eqb_spec ThisTask 0) as [H0|H0]; [|apply andb_false_r].
      rewrite andb_true_r. destruct (Qltb _ _) eqn:Hlt; [|reflexivity].
      apply Qltb_spec in Hlt. exfalso.
      apply (Qlt_not_le _ _ Hlt). apply (Hsmall (S k)); [lia|exact H0]. }
    rewrite Hguard. cbn [grown_factor failed_attempts].
    rewrite <- !app_assoc. reflexivity.
Qed.

(** C2, as the code has it.  Each failed attempt makes the driver free the
    domain structures, multiply [TopNodeAllocFactor] by 1.3, a product of
    [double]s that is rounded, and run the decomposition again from
    [domain_allocate]; after [k] failed attempts the factor is
    [grown_factor k f].  The run ends well with the first attempt that
    succeeds, and on rank 0 it ends in the fatal error 781 as soon as the
    factor just multiplied exceeds 1000; the number of recoveries plays no
    part. *)
Theorem driver_grows_until_fits (k fuel : nat) (f : Q) (flag : bool)
    (calls : list driver_call) :
  (forall j, (j < k)%nat -> decompose_retsum (grown_factor j f) <> 0) ->
  (forall j, (1 <= j <= k)%nat ->
     ThisTask = 0%nat -> (grown_factor j f <= 1000)%Q) ->
  (decompose_retsum (grown_factor k f) = 0 ->
   driver (S k + fuel) (mk_driver f flag calls) =
   OK (mk_driver (grown_factor k f) true
         (calls ++ failed_attempts k f
          ++ [Call_allocate; Call_decompose (grown_factor k f)]))) /\
  (decompose_retsum (grown_factor k f) <> 0 ->
   (1000 < grown_factor (S k) f)%Q -> ThisTask = 0%nat ->
   driver (S k + fuel) (mk_driver f flag calls) = Fatal 781).
Proof.
  intros Hfail Hsmall.
  replace (S k + fuel)%nat with (k + S fuel)%nat by lia.
  rewrite (driver_recovers k (S fuel) f calls flag Hfail Hsmall).
  cbn [domain_Decomposition_loop domain_allocate TopNodeAllocFactor
       domain_allocated_flag driver_calls].
  split.
  - intros ->. cbn [Z.eqb negb]. now rewrite <- !app_assoc.
  - intros Hnz Hbig H0.
    destruct (Z.eqb_spec (decompose_retsum (grown_factor k f)) 0) as [Hz|_];
      [contradiction|].
    cbn [negb domain_free domain_allocated_flag TopNodeAllocFactor driver_calls].
    cbn [grown_factor] in Hbig. apply Qltb_spec in Hbig.
    rewrite Hbig, H0. reflexivity.
Qed.

End DriverFacts.

(** Ten recoveries in a row from the factor 0.001, after which the
    eleventh attempt succeeds: the run ends well. *)
Lemma ten_recoveries_not_fatal :
  forallb (fun j => negb (sample_retsum (grown_factor j (round_double (1 # 1000))) =? 0))
    (seq 0 10) = true /\
  domain_Decomposition_loop 0 sample_retsum 11
    (mk_driver (round_double (1 # 1000)) false []) =
  OK (mk_driver (grown_factor 10 (round_double (1 # 1000))) true
        (failed_attempts 10 (round_double (1 # 1000))
         ++ [Call_allocate;
             Call_decompose (grown_factor 10 (round_double (1 # 1000)))])).
Proof. split; vm_compute; reflexivity. Qed.

Lemma driver_grows_until_fits_witness :
  domain_Decomposition_loop 0 sample_retsum 3
    (mk_driver (round_double (1 # 100)) false []) =
  OK (mk_driver (grown_factor 2 (round_double (1 # 100))) true
        ([] ++ failed_attempts 2 (round_double (1 # 100))
         ++ [Call_allocate; Call_decompose (grown_factor 2 (round_double (1 # 100)))])).
Proof.
  apply (driver_grows_until_fits 0 sample_retsum 2 0 (round_double (1 # 100)) false []).
  - intros j Hj. destruct j as [|[|j]]; [vm_compute; discriminate..|lia].
  - intros j Hj _. destruct j as [|[|[|j]]]; [lia|vm_compute; discriminate..|lia].
  - vm_compute. reflexivity.
Defined.

(** The factor the code writes as [1.3], and ten products from 0.001. *)
Example thirteen_tenths_as_double :
  round_double (13 # 10) = (5854679515581645 # 4503599627370496)%Q /\
  (13 # 10 < round_double (13 # 10))%Q /\
  (13785849184900006 # 1000000000000000000
   < grown_factor 10 (round_double (1 # 1000))
   < 13785849184900007 # 1000000000000000000)%Q.
Proof. repeat split; vm_compute; reflexivity. Qed.

(** The products are rounded: from the factor 591.7159763313609 two
    recoveries give 1000.0000000000001 and the run ends in the fatal error,
    although the factor times 1.69 is below 1000. *)
Example rounding_decides_the_guard :
  let f := round_double (5917159763313609 # 10000000000000) in
  (f * (13 # 10) * (13 # 10) < 1000)%Q /\
  (grown_factor 1 f <= 1000)%Q /\
  (1000 < grown_factor 2 f)%Q /\
  domain_Decomposition_loop 0 (fun _ => 1) 5 (mk_driver f false []) = Fatal 781.
Proof. cbv zeta. repeat split; vm_compute; congruence. Qed.

(** ** The top tree: local refinement *)

(** The cost of a particle is a [float]: with [GravCost] [2 ^ -30] in time
    bin 1 the quotient [(1 + 2 ^ -30) / 2] is returned as 1/2. *)
Example costfactor_is_a_float :
  let p := mk_particle (0, 0, 0)%Q (0, 0, 0)%Q 1%Q 7 0 1 1%nat (1 # 1073741824)%Q
             0 0%nat false false in
  domain_particle_costfactor (2 ^ 29) [p] 0 = (1 # 2)%Q /\
  ~ ((1 + GravCost p) / 2 == 1 # 2)%Q.
Proof. cbv zeta. split; vm_compute; congruence. Qed.

Lemma node_at_set_eq (tn : list local_topnode_data) (i : Z) (x : local_topnode_data) :
  (Z.to_nat i < length tn)%nat -> node_at (node_set tn i x) i = x.
Proof. intros Hi. unfold node_at, node_set. now apply list_lookup_total_insert_eq. Qed.

Lemma node_at_set_ne (tn : list local_topnode_data) (i k : Z) (x : local_topnode_data) :
  0 <= i -> 0 <= k -> i <> k -> node_at (node_set tn i x) k = node_at tn k.
Proof.
  intros Hi Hk Hne. unfold node_at, node_set.
  apply list_lookup_total_insert_ne. lia.
Qed.

Lemma node_set_length (tn : list local_topnode_data) (i : Z) (x : local_topnode_data) :
  length (node_set tn i x) = length tn.
Proof. apply length_insert. Qed.

Lemma node_set_set (tn : list local_topnode_data) (i : Z) (x y : local_topnode_data) :
  node_set (node_set tn i y) i x = node_set tn i x.
Proof. apply list_insert_insert_eq. Qed.

(** Rewriting a node by a function that keeps its place keeps the place of
    every node, whatever the index. *)
Lemma node_update_place (tn : list local_topnode_data) (a k : Z)
    (f : local_topnode_data -> local_topnode_data) :
  (forall x, same_place (f x) x) ->
  same_place (node_at (node_set tn a (f (node_at tn a))) k) (node_at tn k).
Proof.
  intros Hf. unfold node_at, node_set.
  destruct (Nat.lt_ge_cases (Z.to_nat a) (length tn)) as [Hlt|Hge].
  - rewrite lookup_total_insert_lt by exact Hlt.
    destruct (decide (Z.to_nat a = Z.to_nat k)) as [->|_]; [apply Hf|].
    repeat split.
  - rewrite list_insert_ge by exact Hge. repeat split.
Qed.

Lemma same_place_trans (x y z : local_topnode_data) :
  same_place x y -> same_place y z -> same_place x z.
Proof. unfold same_place. intuition congruence. Qed.

Lemma same_place_refl (x : local_topnode_data) : same_place x x.
Proof. repeat split. Qed.

Lemma init_daughter_eq (i : Z) (j : nat) (tn : list local_topnode_data) :
  0 <= i < Daughter (node_at tn i) ->
  (Z.to_nat (Daughter (node_at tn i) + Z.of_nat j) < length tn)%nat ->
  init_daughter i j tn =
  node_set tn (Daughter (node_at tn i) + Z.of_nat j)
    (new_daughter i (node_at tn i)
       (node_at tn (Daughter (node_at tn i) + Z.of_nat j)) j).
Proof.
  intros Hi Hin. unfold init_daughter, new_daughter. cbv zeta.
  set (sub := Daughter (node_at tn i) + Z.of_nat j) in *.
  repeat (rewrite ?node_set_set;
          rewrite ?node_at_set_eq by (rewrite ?node_set_length; exact Hin);
          rewrite ?(node_at_set_ne _ sub i) by lia).
  reflexivity.
Qed.

(** The eight daughters of node [i] once the first loop is through. *)
Lemma init_daughters_spec (i : Z) (tn : list local_topnode_data) (m : nat) :
  0 <= i < Daughter (node_at tn i) ->
  Daughter (node_at tn i) + Z.of_nat m <= Z.of_nat (length tn) ->
  length (for_loop m (init_daughter i) tn) = length tn /\
  (forall k, 0 <= k ->
     k < Daughter (node_at tn i) \/ Daughter (node_at tn i) + Z.of_nat m <= k ->
     node_at (for_loop m (init_daughter i) tn) k = node_at tn k) /\
  (forall j, (j < m)%nat ->
     node_at (for_loop m (init_daughter i) tn) (Daughter (node_at tn i) + Z.of_nat j)
     = new_daughter i (node_at tn i)
         (node_at tn (Daughter (node_at tn i) + Z.of_nat j)) j).
Proof.
  intros Hi. induction m as [|m IH]; intros Hroom.
  - cbn. split; [reflexivity|]. split; [reflexivity|]. intros j Hj. lia.
  - destruct IH as (Hlen & Hout & Hin); [lia|]. cbn [for_loop].
    set (tn' := for_loop m (init_daughter i) tn) in *.
    assert (Hi' : node_at tn' i = node_at tn i) by (apply Hout; lia).
    rewrite init_daughter_eq; rewrite Hi'; [|exact Hi|rewrite Hlen; lia].
    split; [now rewrite node_set_length|]. split.
    + intros k Hk Hrange. rewrite node_at_set_ne by lia. apply Hout; lia.
    + intros j Hj. destruct (decide (j = m)) as [->|Hne].
      * rewrite node_at_set_eq by (rewrite Hlen; lia).
        rewrite Hout by lia. reflexivity.
      * rewrite node_at_set_ne by lia. apply Hin. lia.
Qed.

Section LocalRefineFacts.

Variable MaxTopNodes : Z.
Variable mp : list peano_hilbert_data.
Variable costfactor : Z -> Q.

Abbreviation advance := (advance_daughter mp).
Abbreviation distribute := (distribute_particles mp costfactor).
Abbreviation refine := (local_refine MaxTopNodes mp costfactor).

(** The walk over the daughters writes [PIndex] only and never moves [j]
    back. *)
Lemma advance_daughter_spec (fuel : nat) (i sub p : Z) :
  forall j tn,
    j <= fst (advance fuel i sub p j tn) /\
    length (snd (advance fuel i sub p j tn)) = length tn /\
    forall k,
      same_place (node_at (snd (advance fuel i sub p j tn)) k) (node_at tn k) /\
      Count (node_at (snd (advance fuel i sub p j tn)) k) = Count (node_at tn k).
Proof.
  induction fuel as [|fuel IH]; intros j tn; cbn [advance_daughter].
  - cbn. split; [lia|]. split; [reflexivity|]. intros k. split; [apply same_place_refl|reflexivity].
  - destruct (StartKey (node_at tn (sub + j + 1)) <=? _).
    + set (tn1 := node_set tn (sub + j + 1) (set_PIndex p (node_at tn (sub + j + 1)))).
      assert (H1 : length tn1 = length tn) by apply node_set_length.
      assert (H2 : forall k, same_place (node_at tn1 k) (node_at tn k) /\
                             Count (node_at tn1 k) = Count (node_at tn k)).
      { intros k. split.
        - apply (node_update_place tn (sub + j + 1) k (set_PIndex p)).
          intros x. repeat split.
        - unfold tn1, node_at, node_set.
          destruct (Nat.lt_ge_cases (Z.to_nat (sub + j + 1)) (length tn)) as [Hlt|Hge].
          + rewrite lookup_total_insert_lt by exact Hlt.
            destruct (decide (Z.to_nat (sub + j + 1) = Z.to_nat k)) as [->|_];
              reflexivity.
          + now rewrite list_insert_ge by exact Hge. }
      destruct (j + 1 >=? 7).
      * cbn. split; [lia|]. split; [exact H1|exact H2].
      * destruct (IH (j + 1) tn1) as (Hj & Hlen & Hk).
        split; [lia|]. split; [congruence|]. intros k.
        destruct (Hk k) as [Hp Hc]. destruct (H2 k) as [Hp' Hc'].
        split; [eapply same_place_trans; eassumption|congruence].
    + cbn. split; [lia|]. split; [reflexivity|]. intros k.
      split; [apply same_place_refl|reflexivity].
Qed.

(** The loop over the particles of a node whose daughters lie behind it
    comes to its end, and leaves every node in its place. *)
Lemma distribute_particles_spec (fuel : nat) (i : Z) :
  forall p j tn,
    0 <= i < Daughter (node_at tn i) ->
    0 <= j -> 0 <= p ->
    (Z.to_nat (Count (node_at tn i) - p) < fuel)%nat ->
    exists tn',
      distribute fuel i p j tn = OK tn' /\
      length tn' = length tn /\
      forall k, same_place (node_at tn' k) (node_at tn k).
Proof.
  induction fuel as [|fuel IH]; intros p j tn Hi Hj Hp Hfuel; [lia|].
  cbn [distribute_particles].
  destruct (Z.ltb_spec p (Count (node_at tn i))) as [Hlt|Hge].
  - set (sub := Daughter (node_at tn i)) in *.
    destruct (if j <? 7 then advance 7 i sub p j tn else (j, tn)) as [j1 tn1] eqn:Hadv.
    assert (Hadv' : j <= j1 /\ length tn1 = length tn /\
              forall k, same_place (node_at tn1 k) (node_at tn k) /\
                        Count (node_at tn1 k) = Count (node_at tn k)).
    { destruct (j <? 7).
      - pose proof (advance_daughter_spec 7 i sub p j tn) as H.
        rewrite Hadv in H. exact H.
      - injection Hadv as <- <-. split; [lia|]. split; [reflexivity|].
        intros k. split; [apply same_place_refl|reflexivity]. }
    destruct Hadv' as (Hj1 & Hlen1 & Hk1).
    set (tn2 := node_set tn1 (sub + j1) _).
    assert (Hplace2 : forall k, same_place (node_at tn2 k) (node_at tn1 k)).
    { intros k. unfold tn2.
      apply (node_update_place tn1 (sub + j1) k
               (add_particle (costfactor (index (mp !!! Z.to_nat (p + PIndex (node_at tn1 i))))))).
      intros x. repeat split. }
    assert (Hi2 : node_at tn2 i = node_at tn1 i).
    { unfold tn2. apply node_at_set_ne; lia. }
    destruct (IH (p + 1) j1 tn2) as (tn' & Hrun & Hlen & Hk); try lia.
    + rewrite Hi2. destruct (Hk1 i) as [(_ & _ & _ & ->) _]. exact Hi.
    + rewrite Hi2. destruct (Hk1 i) as [_ ->]. lia.
    + exists tn'. split; [exact Hrun|]. split.
      * rewrite Hlen. unfold tn2. now rewrite node_set_length.
      * intros k. eapply same_place_trans; [apply Hk|].
        eapply same_place_trans; [apply Hplace2|apply Hk1].
  - exists tn. split; [reflexivity|]. split; [reflexivity|].
    intros k. apply same_place_refl.
Qed.

(** The loop over the daughters [N0 + j], ..., [N0 + 7] of node [i]. *)
Lemma refine_daughters_spec (rec : Z -> toptree -> result (Z * toptree))
    (okS : Z -> Prop) (i N0 : Z) (n : nat) :
  rec_ok MaxTopNodes rec okS ->
  forall j t,
    tree_wf MaxTopNodes t ->
    0 <= i < N0 ->
    Daughter (node_at (topNodes t) i) = N0 ->
    N0 + 8 <= NTopnodes t ->
    0 <= j -> j + Z.of_nat n = 8 ->
    (forall j', j <= j' < 8 -> okS (Size (node_at (topNodes t) (N0 + j')))) ->
    exists r t',
      refine_daughters rec n i j t = OK (r, t') /\ (r = 0 \/ r = 1) /\
      tree_wf MaxTopNodes t' /\
      NTopnodes t <= NTopnodes t' /\
      length (topNodes t') = length (topNodes t) /\
      (forall k, 0 <= k < NTopnodes t ->
         Size (node_at (topNodes t') k) = Size (node_at (topNodes t) k) /\
         StartKey (node_at (topNodes t') k) = StartKey (node_at (topNodes t) k) /\
         Parent (node_at (topNodes t') k) = Parent (node_at (topNodes t) k)) /\
      (forall k, 0 <= k < N0 ->
         Daughter (node_at (topNodes t') k) = Daughter (node_at (topNodes t) k)).
Proof.
  intros Hrec. induction n as [|n IH]; intros j t Hwf Hi HN0 Hroom Hj Hjn Hsizes;
    cbn [refine_daughters].
  - exists 0, t. split; [reflexivity|]. split; [now left|]. split; [exact Hwf|].
    split; [lia|]. split; [reflexivity|]. split; intros k Hk; repeat split.
  - rewrite HN0.
    destruct (Hrec (N0 + j) t Hwf ltac:(lia) (Hsizes j ltac:(lia)))
      as (r1 & t1 & Hrun & Hr1 & Hwf1 & (Hn1 & Hlen1 & Hkeys1 & Hd1)).
    rewrite Hrun. cbn [rbind fst snd].
    destruct (Z.eqb_spec r1 0) as [Hz|Hnz]; cbn [negb].
    + destruct (IH (j + 1) t1) as (r & t' & Hrun' & Hr & Hwf' & Hn' & Hlen' & Hkeys' & Hd');
        try assumption; try lia.
      * rewrite Hd1 by lia. exact HN0.
      * intros j' Hj'. destruct (Hkeys1 (N0 + j') ltac:(lia)) as [-> _].
        apply Hsizes. lia.
      * exists r, t'. split; [exact Hrun'|]. split; [exact Hr|]. split; [exact Hwf'|].
        split; [lia|]. split; [congruence|]. split.
        -- intros k Hk. destruct (Hkeys' k ltac:(lia)) as (-> & -> & ->).
           now apply Hkeys1.
        -- intros k Hk. rewrite Hd' by lia. apply Hd1; lia.
    + exists 1, t1. split; [reflexivity|]. split; [now right|]. split; [exact Hwf1|].
      split; [exact Hn1|]. split; [exact Hlen1|]. split; [exact Hkeys1|].
      intros k Hk. apply Hd1; lia.
Qed.

Lemma refine_frame_refl (i : Z) (t : toptree) : refine_frame i t t.
Proof. unfold refine_frame. split; [lia|]. repeat split. Qed.

Lemma log2_daughter (s : Z) (f : nat) :
  8 <= s -> Z.log2 s < Z.of_nat (S f) ->
  (0 < f)%nat /\ (Z.shiftr s 3 < 8 \/ Z.log2 (Z.shiftr s 3) < Z.of_nat f).
Proof.
  intros Hs Hlog.
  assert (H3 : 3 <= Z.log2 s) by (apply (Z.log2_le_mono 8 s); lia).
  split; [lia|]. right. rewrite Z.log2_shiftr by lia. lia.
Qed.

(** The function on a node of the tree: it returns 0 or 1 and keeps the
    nodes that were there in place; a node it opens gets the next eight
    free nodes as daughters. *)
Lemma local_refine_spec (fuel : nat) :
  forall i t,
    tree_wf MaxTopNodes t ->
    0 <= i < NTopnodes t ->
    (0 < fuel)%nat ->
    Size (node_at (topNodes t) i) < 8 \/
    Z.log2 (Size (node_at (topNodes t) i)) < Z.of_nat fuel ->
    exists r t',
      refine fuel i t = OK (r, t') /\ (r = 0 \/ r = 1) /\
      tree_wf MaxTopNodes t' /\ refine_frame i t t' /\
      (to_refine MaxTopNodes i t ->
       NTopnodes t + 8 <= NTopnodes t' /\
       Daughter (node_at (topNodes t') i) = NTopnodes t /\
       forall j, (j < 8)%nat ->
         let d := node_at (topNodes t') (NTopnodes t + Z.of_nat j) in
         let x := node_at (topNodes t) i in
         Size d = Z.shiftr (Size x) 3 /\
         StartKey d =
           peanokey_wrap (StartKey x + peanokey_wrap (Z.of_nat j * Z.shiftr (Size x) 3)) /\
         Parent d = i).
Proof.
  induction fuel as [|fuel IH]; intros i t Hwf Hi Hpos Hfuel; [lia|].
  cbn [local_refine].
  set (tn := topNodes t) in *. set (N := NTopnodes t) in *.
  destruct (Z.ltb_spec (Size (node_at tn i)) 8) as [Hsmall|Hbig].
  { exists 0, t. split; [reflexivity|]. split; [now left|]. split; [exact Hwf|].
    split; [apply refine_frame_refl|]. intros (Hs & _). fold tn in Hs. lia. }
  destruct ((Parent (node_at tn i) <? 0)
            || within_parent_share (node_at tn i) (node_at tn (Parent (node_at tn i))))
    eqn:Hstop.
  { exists 0, t. split; [reflexivity|]. split; [now left|]. split; [exact Hwf|].
    split; [apply refine_frame_refl|]. intros (_ & Hp & Hw & _). fold tn in Hp, Hw.
    apply orb_true_iff in Hstop as [Hneg|Hin]; [apply Z.ltb_lt in Hneg; lia|].
    congruence. }
  destruct (Z.gtb_spec (N + 8) MaxTopNodes) as [Hfull|Hroom].
  { exists 1, t. split; [reflexivity|]. split; [now right|]. split; [exact Hwf|].
    split; [apply refine_frame_refl|]. intros (_ & _ & _ & Hr). fold N in Hr. lia. }
  destruct Hwf as [HN Hlen]. fold tn in Hlen. fold N in HN.
  destruct Hfuel as [Hlt|Hlog]; [lia|].
  destruct (log2_daughter _ fuel Hbig Hlog) as [Hfpos Hdsize].
  set (tn1 := node_set tn i (set_Daughter N (node_at tn i))).
  assert (Hi1 : node_at tn1 i = set_Daughter N (node_at tn i))
    by (apply node_at_set_eq; lia).
  assert (Hk1 : forall k, 0 <= k -> k <> i -> node_at tn1 k = node_at tn k)
    by (intros k Hk Hne; apply node_at_set_ne; lia).
  assert (Hlen1 : length tn1 = length tn) by apply node_set_length.
  destruct (init_daughters_spec i tn1 8) as (Hlen2 & Hout2 & Hin2);
    [rewrite Hi1; cbn; lia|rewrite Hi1, Hlen1; cbn [Daughter set_Daughter]; lia|].
  rewrite Hi1 in Hout2, Hin2. cbn [Daughter set_Daughter] in Hout2, Hin2.
  set (tn2 := for_loop 8 (init_daughter i) tn1) in *.
  assert (Hi2 : node_at tn2 i = set_Daughter N (node_at tn i))
    by (rewrite Hout2 by lia; exact Hi1).
  destruct (distribute_particles_spec (S (Z.to_nat (Count (node_at tn2 i)))) i 0 0 tn2)
    as (tn3 & Hrun3 & Hlen3 & Hplace3); try lia.
  { rewrite Hi2. cbn. lia. }
  rewrite Hrun3. cbn [rbind].
  assert (Hrec : rec_ok MaxTopNodes (refine fuel)
                   (fun s => s < 8 \/ Z.log2 s < Z.of_nat fuel)).
  { intros sub u Hwfu Hsub Hok.
    destruct (IH sub u Hwfu Hsub Hfpos Hok) as (r & u' & H1 & H2 & H3 & H4 & _).
    exists r, u'. split; [exact H1|]. split; [exact H2|]. split; [exact H3|exact H4]. }
  destruct (refine_daughters_spec (refine fuel) _ i N 8 Hrec 0 (mk_toptree tn3 (N + 8)))
    as (r & t' & Hrun & Hr & Hwf' & Hn' & Hlen' & Hkeys' & Hd'); try lia.
  { split; cbn [NTopnodes topNodes]; [lia|]. now rewrite Hlen3, Hlen2, Hlen1. }
  { cbn [topNodes]. destruct (Hplace3 i) as (_ & _ & _ & ->). now rewrite Hi2. }
  { cbn [NTopnodes]. lia. }
  { intros j' Hj'. cbn [topNodes].
    destruct (Hplace3 (N + j')) as (-> & _).
    replace j' with (Z.of_nat (Z.to_nat j')) by lia.
    rewrite Hin2 by lia. cbn [Size new_daughter set_Daughter]. exact Hdsize. }
  cbn [NTopnodes topNodes] in Hn', Hlen', Hkeys', Hd'.
  exists r, t'. split; [exact Hrun|]. split; [exact Hr|]. split; [exact Hwf'|].
  assert (Hold : forall k, 0 <= k < N ->
            same_place (node_at tn3 k)
              (if decide (k = i) then set_Daughter N (node_at tn k) else node_at tn k)).
  { intros k Hk. eapply same_place_trans; [apply Hplace3|].
    rewrite Hout2 by lia. destruct (decide (k = i)) as [->|Hne].
    - rewrite Hi1. apply same_place_refl.
    - rewrite Hk1 by lia. apply same_place_refl. }
  split; [|].
  - split; [lia|]. split; [now rewrite Hlen', Hlen3, Hlen2, Hlen1|]. split.
    + intros k Hk. destruct (Hkeys' k ltac:(lia)) as (-> & -> & ->).
      destruct (Hold k Hk) as (H1 & H2 & H3 & _).
      destruct (decide (k = i)); rewrite H1, H2, H3;
        (split; [reflexivity|split; reflexivity]).
    + intros k Hk Hne. rewrite Hd' by lia.
      destruct (Hold k Hk) as (_ & _ & _ & H4).
      destruct (decide (k = i)); [contradiction|exact H4].
  - intros _. split; [exact Hn'|]. split.
    + rewrite Hd' by lia. destruct (Hold i Hi) as (_ & _ & _ & H4).
      destruct (decide (i = i)); [exact H4|contradiction].
    + intros j Hj.
      destruct (Hkeys' (N + Z.of_nat j) ltac:(lia)) as (H1 & H2 & H3).
      destruct (Hplace3 (N + Z.of_nat j)) as (H1' & H2' & H3' & _).
      rewrite Hin2 in H1', H2', H3' by exact Hj.
      cbv zeta. rewrite H1, H2, H3, H1', H2', H3'.
      cbn [Size StartKey Parent Daughter new_daughter set_Daughter].
      repeat split.
Qed.

Lemma daughter_key_no_wrap (start size : Z) (j : nat) :
  size mod 8 = 0 -> 0 <= start -> 0 < size -> start + size <= 2 ^ 64 ->
  (j < 8)%nat ->
  Z.shiftr size 3 = size / 8 /\
  peanokey_wrap (start + peanokey_wrap (Z.of_nat j * Z.shiftr size 3))
  = start + Z.of_nat j * (size / 8).
Proof.
  intros Hmod Hstart Hsize Hfit Hj.
  assert (Hs : Z.shiftr size 3 = size / 8) by (now rewrite Z.shiftr_div_pow2 by lia).
  split; [exact Hs|]. rewrite Hs. unfold peanokey_wrap.
  assert (H8 : size = 8 * (size / 8)) by (apply Z.div_exact; lia).
  assert (Hq : 0 <= size / 8) by (apply Z.div_pos; lia).
  set (q := size / 8) in *. clearbody q.
  assert (Hjq : 0 <= Z.of_nat j * q <= 7 * q).
  { split; [apply Z.mul_nonneg_nonneg; lia|].
    apply Z.mul_le_mono_nonneg_r; lia. }
  rewrite (Z.mod_small (Z.of_nat j * q)) by lia.
  apply Z.mod_small. lia.
Qed.

(** What a call does on a node [i] of the tree that has a parent and holds
    more than the share of the parent's count or cost that ends the
    refinement: with fewer than 8 cells the node is never opened; with at
    least 8 cells and no room for 8 more nodes the call returns 1 and leaves
    the node closed; with at least 8 cells and room for 8 more nodes the
    node is opened into the next eight free nodes, each of an eighth of its
    size and with itself as parent, and for a size that is a multiple of 8
    their key ranges follow one another and fill that of the node. *)
Lemma local_refine_opens (i : Z) (t : toptree) :
  tree_wf MaxTopNodes t ->
  0 <= i < NTopnodes t ->
  let x := node_at (topNodes t) i in
  let par := node_at (topNodes t) (Parent x) in
  0 <= Parent x ->
  within_parent_share x par = false ->
  (Size x < 8 ->
   domain_check_for_local_refine MaxTopNodes mp costfactor i t = OK (0, t)) /\
  (8 <= Size x -> MaxTopNodes < NTopnodes t + 8 ->
   domain_check_for_local_refine MaxTopNodes mp costfactor i t = OK (1, t)) /\
  (8 <= Size x -> NTopnodes t + 8 <= MaxTopNodes ->
   exists r t',
     domain_check_for_local_refine MaxTopNodes mp costfactor i t = OK (r, t') /\
     (r = 0 \/ r = 1) /\
     NTopnodes t + 8 <= NTopnodes t' /\
     Daughter (node_at (topNodes t') i) = NTopnodes t /\
     Size (node_at (topNodes t') i) = Size x /\
     StartKey (node_at (topNodes t') i) = StartKey x /\
     (forall j, (j < 8)%nat ->
        let d := node_at (topNodes t') (NTopnodes t + Z.of_nat j) in
        Size d = Z.shiftr (Size x) 3 /\ Parent d = i /\
        (Size x mod 8 = 0 -> 0 <= StartKey x -> StartKey x + Size x <= 2 ^ 64 ->
         Size d = Size x / 8 /\
         StartKey d = StartKey x + Z.of_nat j * (Size x / 8) /\
         8 * (Size x / 8) = Size x))).
Proof.
  intros Hwf Hi x par Hpar Hshare.
  unfold domain_check_for_local_refine. fold x.
  set (fuel := Z.to_nat (Z.log2 (Size x))). cbn [Nat.add].
  split; [|split].
  - intros Hsmall. cbn [local_refine]. fold x.
    destruct (Z.ltb_spec (Size x) 8); [reflexivity|lia].
  - intros Hbig Hfull. cbn [local_refine]. fold x. fold par.
    destruct (Z.ltb_spec (Size x) 8); [lia|].
    destruct (Z.ltb_spec (Parent x) 0); [lia|]. rewrite Hshare. cbn [orb].
    destruct (Z.gtb_spec (NTopnodes t + 8) MaxTopNodes); [reflexivity|lia].
  - intros Hbig Hroom.
    destruct (local_refine_spec (S (S fuel)) i t Hwf Hi ltac:(lia))
      as (r & t' & Hrun & Hr & Hwf' & (Hn & _ & Hkeys & _) & Hopen).
    { right. fold x. unfold fuel. pose proof (Z.log2_nonneg (Size x)). lia. }
    destruct Hopen as (Hgrow & Hd & Hdaughters); [repeat split; assumption|].
    destruct (Hkeys i Hi) as (HS & HK & _).
    exists r, t'. split; [exact Hrun|]. split; [exact Hr|]. split; [exact Hgrow|].
    split; [exact Hd|]. split; [exact HS|]. split; [exact HK|].
    intros j Hj. destruct (Hdaughters j Hj) as (H1 & H2 & H3). cbv zeta.
    split; [exact H1|]. split; [exact H3|].
    intros Hmod Hstart Hfit. fold x in H1, H2.
    destruct (daughter_key_no_wrap (StartKey x) (Size x) j Hmod Hstart ltac:(lia) Hfit Hj)
      as [Hs Hk].
    rewrite H1, H2, Hs. rewrite Hs in Hk. split; [reflexivity|]. split; [exact Hk|].
    symmetry. apply Z.div_exact; lia.
Qed.

End LocalRefineFacts.

(** A node without a parent is left as it is, whatever it holds: this is
    the call [domain_determineTopTree] makes on the root. *)
Lemma local_refine_root (MaxTopNodes : Z) (mp : list peano_hilbert_data)
    (costfactor : Z -> Q) (i : Z) (t : toptree) :
  Parent (node_at (topNodes t) i) < 0 ->
  domain_check_for_local_refine MaxTopNodes mp costfactor i t = OK (0, t).
Proof.
  intros Hroot. unfold domain_check_for_local_refine. cbn [Nat.add local_refine].
  destruct (Size (node_at (topNodes t) i) <? 8); [reflexivity|].
  destruct (Z.ltb_spec (Parent (node_at (topNodes t) i)) 0); [reflexivity|lia].
Qed.

(** A node that holds all the particles of its parent and spans 64 cells,
    in a tree that fills its array: the call returns 1 and the node stays
    closed. *)
Lemma refine_without_room :
  let x := node_at (topNodes sample_full_tree) 1 in
  let par := node_at (topNodes sample_full_tree) (Parent x) in
  8 <= Size x /\
  within_parent_share x par = false /\
  domain_check_for_local_refine 9 sample_keys unit_cost 1 sample_full_tree
    = OK (1, sample_full_tree) /\
  Daughter (node_at (topNodes sample_full_tree) 1) = -1.
Proof. cbv zeta. repeat split; vm_compute; congruence. Qed.

Example sample_local_refine_opens :
  exists r t',
    domain_check_for_local_refine 25 sample_keys unit_cost 1 sample_tree = OK (r, t') /\
    Daughter (node_at (topNodes t') 1) = 9.
Proof.
  destruct (local_refine_opens 25 sample_keys unit_cost 1 sample_tree) as (_ & _ & Hopen).
  - split; [split|]; vm_compute; congruence.
  - split; vm_compute; congruence.
  - vm_compute. congruence.
  - vm_compute. reflexivity.
  - destruct Hopen as (r & t' & Hrun & _ & _ & Hd & _); [vm_compute; congruence..|].
    exists r, t'. split; [exact Hrun|exact Hd].
Qed.

(** C1. The call [domain_determineTopTree] makes, on the root it has just
    set up: whatever the particles, their keys and costs, the size of the
    root and the room in the array, the call returns 0 at once, since the
    root has no parent; the root keeps all the particles and stays without
    daughters, and the tree has one node.  The recursion starts nowhere
    else, so no node is ever opened by it. *)
Theorem root_is_never_refined (MaxTopNodes : Z) (mp : list peano_hilbert_data)
    (costfactor : Z -> Q) (PEANOCELLS NumPart : Z) (gravcost : Q) (t : toptree) :
  (0 < length (topNodes t))%nat ->
  exists t',
    domain_determineTopTree_root MaxTopNodes mp costfactor PEANOCELLS NumPart
      gravcost t = OK (0, t') /\
    NTopnodes t' = 1 /\
    Size (node_at (topNodes t') 0) = PEANOCELLS /\
    StartKey (node_at (topNodes t') 0) = 0 /\
    Count (node_at (topNodes t') 0) = NumPart /\
    Cost (node_at (topNodes t') 0) = gravcost /\
    Parent (node_at (topNodes t') 0) = -1 /\
    Daughter (node_at (topNodes t') 0) = -1.
Proof.
  intros Hlen. unfold domain_determineTopTree_root.
  set (root := mk_topnode PEANOCELLS 0 NumPart (-1) _ (-1) 0 gravcost).
  set (t0 := mk_toptree (node_set (topNodes t) 0 root) 1).
  assert (Hroot : node_at (topNodes t0) 0 = root).
  { unfold t0. cbn [topNodes]. apply node_at_set_eq. cbn. exact Hlen. }
  exists t0. split.
  - apply local_refine_root. rewrite Hroot. cbn. lia.
  - rewrite Hroot. cbn. repeat split; reflexivity.
Qed.

(** Five particles in the first eight of [2 ^ 63] cells, and room for 24
    more nodes: the root is left as it is. *)
Lemma root_is_never_refined_witness :
  exists t',
    domain_determineTopTree_root 25 sample_keys unit_cost (2 ^ 63) 5 5 sample_tree
      = OK (0, t') /\
    NTopnodes t' = 1 /\
    Daughter (node_at (topNodes t') 0) = -1.
Proof.
  destruct (root_is_never_refined 25 sample_keys unit_cost (2 ^ 63) 5 5 sample_tree
              ltac:(cbn; lia))
    as (t' & Hrun & Hn & _ & _ & _ & _ & _ & Hd).
  exists t'. split; [exact Hrun|]. split; [exact Hn|exact Hd].
Defined.

(** ** The exchange: the receive-side loop *)

(** The first turn sheds the one particle too many: rank 0 is then to
    receive 199 particles and would hold 1000. *)
Example sample_exchange_first_pass :
  overflow_pass 2 1000 1000 [801; 500] [0; 0] [0; 0] 1000 0 sample_exchange
  = OK (mk_counts [[0; 0]; [199; 0]] [[0; 0]; [0; 0]] [[0; 0]; [0; 0]]
          [[0; 200]; [0; 0]] [[0; 0]; [0; 0]] [[0; 0]; [0; 0]], 1).
Proof. vm_compute. reflexivity. Qed.

(** C8. The loop does not stop there: the next turn finds the same
    overflow in the receiver's unchanged [toGet], and so does every turn
    after it, until [flagsum] passes 100 and the run ends in the fatal
    error 1013. *)
Theorem exchange_overflow_fatal :
  safety_loop 2 1000 1000 [801; 500] [0; 0] [0; 0] (fun c => c) 10 1000
    sample_exchange
  = Fatal 1013.
Proof. vm_compute. reflexivity. Qed.

(** With 100 particles too many the senders run out of particles to shed
    in the third turn, and that turn has no end. *)
Example sample_exchange_spins :
  forallb
    (fun fuel =>
       match
         safety_loop 2 1000 1000 [900; 500] [0; 0] [0; 0] (fun c => c) 10 fuel
           sample_exchange
       with
       | OutOfFuel => true
       | _ => false
       end)
    [1000%nat; 2000%nat; 4000%nat] = true.
Proof. vm_compute. reflexivity. Qed.

(** ** The splitter and the memory check run on small inputs *)

Lemma findSplit_work_balanced_spec_witness :
  DomainEndList
    (domain_findSplit_work_balanced 3 6 [1; 1; 1; 1; 1; 1]%Q
       (mk_layout [0; 0; 0] [0; 0; 0])) !!! Z.to_nat (3 - 1)
  = 6 - 1.
Proof.
  destruct (findSplit_work_balanced_spec 3 6 [1; 1; 1; 1; 1; 1]%Q
              (mk_layout [0; 0; 0] [0; 0; 0]) ltac:(lia) eq_refl eq_refl)
    as (_ & Hlast & _).
  exact Hlast.
Defined.

(** Fourteen leaves of cost 1 for twelve segments.  The average 14/12 is
    rounded up to a [double], and so is the sum of six of them: with leaf 6
    the cost of the leaves has reached six times the average, 7, but the
    sum of the test is a little above 7 and segment 5 goes on to leaf 7. *)
Lemma split_overshoots_multiple :
  let dw := replicate 14 1%Q in
  let L' := domain_findSplit_work_balanced 12 14 dw
              (mk_layout (replicate 12 0) (replicate 12 0)) in
  let avg := (exact_cost_before dw 14 / 12)%Q in
  DomainStartList L' !!! 5%nat = 6 /\
  (inject_Z (5 + 1) * avg <= exact_cost_before dw (6 + 1))%Q /\
  DomainEndList L' !!! 5%nat = 7 /\
  DomainEndList L' = [1; 2; 3; 4; 5; 7; 8; 9; 10; 11; 12; 13].
Proof. cbv zeta. repeat split; vm_compute; congruence. Qed.

(** Three leaves of [2 ^ 30] particles on one rank: the [int] load wraps
    around to a negative number and the check lets the layout pass. *)
Example load_wraps_around :
  rank_load 1 (mk_layout [0] [2]) [2 ^ 30; 2 ^ 30; 2 ^ 30] 0 = - 2 ^ 30 /\
  domain_check_memory_bound 1 1 2000000000 false [1; 1; 1]%Q
    [2 ^ 30; 2 ^ 30; 2 ^ 30] (mk_layout [0] [2]) = 0.
Proof. split; vm_compute; reflexivity. Qed.


Lemma sample_counts_nonneg : forall k, 0 <= count_at [5; 1; 1; 1] k.
Proof.
  intros k. unfold count_at.
  destruct (Z.to_nat k) as [|[|[|[|[|n]]]]]; cbn; lia.
Qed.

(** * Further properties of the code *)

(** ** The comparison function of the black-hole sort *)

(** X1. [bh_cmp_reverse_link] is a consistent three-way comparison: swapping
    the arguments flips the sign, the value is -1, 0 or 1, it is 0 exactly
    for equal links, [<= 0] is transitive, and a slot with link -1 comes
    after every slot with another link. *)
Theorem bh_cmp_reverse_link_order (a b c : bh_particle_data) :
  bh_cmp_reverse_link b a = - bh_cmp_reverse_link a b /\
  (bh_cmp_reverse_link a b = -1 \/ bh_cmp_reverse_link a b = 0 \/
   bh_cmp_reverse_link a b = 1) /\
  (bh_cmp_reverse_link a b = 0 <-> ReverseLink a = ReverseLink b) /\
  (bh_cmp_reverse_link a b <= 0 -> bh_cmp_reverse_link b c <= 0 ->
   bh_cmp_reverse_link a c <= 0) /\
  (ReverseLink a = -1 -> ReverseLink b <> -1 ->
   bh_cmp_reverse_link a b = 1 /\ bh_cmp_reverse_link b a = -1).
Proof.
  unfold bh_cmp_reverse_link.
  destruct (Z.eqb_spec (ReverseLink a) (-1)) as [Ha|Ha],
           (Z.eqb_spec (ReverseLink b) (-1)) as [Hb|Hb],
           (Z.eqb_spec (ReverseLink c) (-1)) as [Hc|Hc]; cbn [andb];
    destruct (Z.gtb_spec (ReverseLink a) (ReverseLink b)),
             (Z.ltb_spec (ReverseLink a) (ReverseLink b)),
             (Z.gtb_spec (ReverseLink b) (ReverseLink a)),
             (Z.ltb_spec (ReverseLink b) (ReverseLink a)),
             (Z.gtb_spec (ReverseLink b) (ReverseLink c)),
             (Z.ltb_spec (ReverseLink b) (ReverseLink c)),
             (Z.gtb_spec (ReverseLink a) (ReverseLink c)),
             (Z.ltb_spec (ReverseLink a) (ReverseLink c));
    cbn [Z.b2z]; try lia; repeat split; try lia; try tauto.
Qed.

(** ** Forks that follow one another *)

Lemma fork_ID_generation (id g1 g2 : Z) :
  0 <= g1 < 2 ^ 8 -> 0 <= g2 < 2 ^ 8 ->
  fork_ID id g1 = fork_ID id g2 -> g1 = g2.
Proof.
  intros H1 H2 Heq. apply Z.bits_inj'. intros n Hn.
  pose proof (fork_ID_high_bits id g1 (n + 56) H1 ltac:(lia)) as E1.
  pose proof (fork_ID_high_bits id g2 (n + 56) H2 ltac:(lia)) as E2.
  rewrite Z.add_simpl_r in E1, E2. now rewrite <- E1, <- E2, Heq.
Qed.

Lemma incr_Generation_moves (g : Z) :
  0 <= g < 2 ^ 8 -> incr_Generation g <> g.
Proof.
  intros Hg. unfold incr_Generation.
  destruct (Z.eq_dec g 255) as [->|Hne]; [discriminate|].
  rewrite Z.mod_small by lia. lia.
Qed.

Section ForkTwice.

Variable MaxPart : nat.
Variable timebin_add_particle_to_active :
  nat -> nat -> nat -> list Z * list Z -> list Z * list Z.

Abbreviation fork2 := (domain_fork_particle MaxPart timebin_add_particle_to_active).

(** X2. Two forks of the same parent in a row: the children stand at the
    old [NumPart] and behind it, their identifiers differ from one another,
    both keep the low 56 bits of the parent's, and the parent keeps its
    identifier and has its generation incremented twice. *)
Theorem fork_twice_distinct (parent : nat) (st : part_state) :
  length (P st) = MaxPart ->
  (parent < NumPart st)%nat ->
  (S (NumPart st) < MaxPart)%nat ->
  exists st1 st2,
    fork2 parent st = OK (NumPart st, st1) /\
    fork2 parent st1 = OK (S (NumPart st), st2) /\
    NumPart st2 = S (S (NumPart st)) /\
    ID (P st2 !!! NumPart st) <> ID (P st2 !!! S (NumPart st)) /\
    (forall n, 0 <= n < 56 ->
       Z.testbit (ID (P st2 !!! NumPart st)) n = Z.testbit (ID (P st !!! parent)) n /\
       Z.testbit (ID (P st2 !!! S (NumPart st))) n = Z.testbit (ID (P st !!! parent)) n) /\
    ID (P st2 !!! parent) = ID (P st !!! parent) /\
    Generation (P st2 !!! parent)
      = incr_Generation (incr_Generation (Generation (P st !!! parent))).
Proof.
  intros Hlen Hpar Hroom.
  destruct (fork_full_lookup MaxPart timebin_add_particle_to_active parent st Hlen Hpar
              ltac:(lia))
    as (st1 & Hf1 & Hc1 & Hp1 & Hoth1 & Hlen1 & Hn1 & _).
  destruct (fork_full_lookup MaxPart timebin_add_particle_to_active parent st1
              ltac:(congruence) ltac:(lia) ltac:(lia))
    as (st2 & Hf2 & Hc2 & Hp2 & Hoth2 & Hlen2 & Hn2 & _).
  rewrite Hn1 in Hf2, Hc2, Hoth2, Hn2.
  exists st1, st2. split; [exact Hf1|]. split; [exact Hf2|]. split; [exact Hn2|].
  assert (Hc1' : P st2 !!! NumPart st = forked_child (P st !!! parent)).
  { rewrite <- Hc1. apply list_lookup_total_correct.
    rewrite Hoth2 by lia. apply list_lookup_lookup_total_lt. lia. }
  rewrite Hc1', Hc2, Hp2, Hp1.
  set (p := P st !!! parent).
  pose proof (incr_Generation_range (Generation p)) as Hg1.
  pose proof (incr_Generation_range (incr_Generation (Generation p))) as Hg2.
  cbn [forked_child forked_parent ID Generation set_Mass set_ID set_Generation].
  split; [|split; [|split; reflexivity]].
  - intros Heq. apply fork_ID_generation in Heq; [|assumption..].
    symmetry in Heq. now apply incr_Generation_moves in Heq.
  - intros n Hn. split; now apply fork_ID_low_bits.
Qed.

(** X3. The generation is an 8-bit counter: the fork of a parent at
    generation 255 whose identifier fits in 56 bits leaves a child with
    generation 0 and the identifier of the parent itself. *)
Theorem fork_generation_wraps (parent : nat) (st : part_state) :
  length (P st) = MaxPart ->
  (parent < NumPart st)%nat ->
  (NumPart st < MaxPart)%nat ->
  Generation (P st !!! parent) = 255 ->
  0 <= ID (P st !!! parent) < 2 ^ 56 ->
  exists st',
    fork2 parent st = OK (NumPart st, st') /\
    Generation (P st' !!! parent) = 0 /\
    Generation (P st' !!! NumPart st) = 0 /\
    ID (P st' !!! NumPart st) = ID (P st' !!! parent).
Proof.
  intros Hlen Hpar Hroom Hgen Hid.
  destruct (fork_full_lookup MaxPart timebin_add_particle_to_active parent st Hlen Hpar
              Hroom)
    as (st' & Hf & Hc & Hp & _).
  exists st'. split; [exact Hf|]. rewrite Hc, Hp.
  cbn [forked_child forked_parent ID Generation set_Mass set_ID set_Generation].
  rewrite Hgen. change (incr_Generation 255) with 0.
  split; [reflexivity|]. split; [reflexivity|].
  unfold fork_ID. change (Z.shiftl 0 56) with 0. rewrite Z.add_0_r.
  change 0x00ffffffffffffff with (Z.ones 56).
  rewrite Z.land_ones by lia. rewrite (Z.mod_small _ (2 ^ 56)) by lia.
  apply Z.mod_small. lia.
Qed.

End ForkTwice.

(** ** Mass-zero elimination on tables with little or nothing to remove *)

(** The loop walks over entries of non-zero mass without touching the
    state. *)
Lemma all_gc_loop_skip (m : nat) (st : part_state) (ce cg : nat) :
  forall d i fuel,
    (i + d = m)%nat -> (m <= NumPart st)%nat ->
    (forall k, (i <= k < m)%nat -> massless (P st !!! k) = false) ->
    all_gc_loop (d + fuel) i st ce cg = all_gc_loop fuel m st ce cg.
Proof.
  induction d as [|d IH]; intros i fuel Hid Hm Hclean.
  - replace i with m by lia. reflexivity.
  - cbn [Nat.add all_gc_loop].
    destruct (Nat.ltb_spec i (NumPart st)) as [_|Hge]; [|lia].
    pose proof (Hclean i ltac:(lia)) as Hi. unfold massless in Hi. rewrite Hi.
    apply IH; [lia|exact Hm|]. intros k Hk. apply Hclean. lia.
Qed.

Lemma all_gc_loop_done (fuel : nat) (st : part_state) (ce cg : nat) :
  all_gc_loop fuel (NumPart st) st ce cg = (st, ce, cg).
Proof.
  destruct fuel as [|fuel]; cbn [all_gc_loop]; [reflexivity|].
  now rewrite Nat.ltb_irrefl.
Qed.

(** X4. Without a massless live entry the pass leaves the whole state as
    it is, and it reports the tree invalid exactly when the number of
    particles on the other ranks changed. *)
Theorem all_gc_without_massless (others0 others : Z) (st : part_state) :
  (forall k, (k < NumPart st)%nat -> massless (P st !!! k) = false) ->
  domain_all_garbage_collection others0 others st
  = ((if others =? others0 then 0 else 1), st).
Proof.
  intros Hclean. unfold domain_all_garbage_collection.
  pose proof (all_gc_loop_skip (NumPart st) st 0 0 (NumPart st) 0 0 eq_refl (le_n _))
    as Hskip.
  rewrite Nat.add_0_r in Hskip.
  rewrite Hskip by (intros k Hk; apply Hclean; lia).
  rewrite all_gc_loop_done. unfold sumup_large_ints.
  destruct (Z.eqb_spec others others0),
           (Z.eqb_spec (Z.of_nat (NumPart st) + others) (Z.of_nat (NumPart st) + others0));
    try lia; reflexivity.
Qed.

Section ForkCollect.

Variable MaxPart : nat.
Variable timebin_add_particle_to_active :
  nat -> nat -> nat -> list Z * list Z -> list Z * list Z.

(** X5. A fork followed by the mass-zero elimination, for a parent that is
    not gas, on a table without massless entries: the pass removes the child
    and nothing else.  [NumPart] and [N_sph_slots] are back at their values,
    the live entries are in the order they had, the parent with its
    generation incremented, and the tree is reported invalid. *)
Theorem fork_then_collect (parent : nat) (st : part_state) (others : Z) :
  length (P st) = MaxPart ->
  (parent < NumPart st)%nat ->
  (NumPart st < MaxPart)%nat ->
  PType (P st !!! parent) <> 0 ->
  (forall k, (k < NumPart st)%nat -> massless (P st !!! k) = false) ->
  exists st1 st2,
    domain_fork_particle MaxPart timebin_add_particle_to_active parent st
      = OK (NumPart st, st1) /\
    domain_all_garbage_collection others others st1 = (1, st2) /\
    NumPart st2 = NumPart st /\
    N_sph_slots st2 = N_sph_slots st /\
    live st2 = <[parent := forked_parent (P st !!! parent)]> (live st) /\
    SphP st2 = SphP st /\ BhP st2 = BhP st /\ N_bh_slots st2 = N_bh_slots st.
Proof.
  intros Hlen Hpar Hroom Hty Hclean.
  destruct (fork_full MaxPart timebin_add_particle_to_active parent st Hlen Hpar Hroom)
    as (st1 & Hf & HP & Hn & Hs & Hb & Hns & Hnb).
  set (n := NumPart st) in *. set (p := P st !!! parent) in *.
  assert (Hchild : P st1 !!! n = forked_child p).
  { rewrite HP. apply list_lookup_total_insert_eq. rewrite length_insert. lia. }
  assert (Hold : forall k, (k < n)%nat -> massless (P st1 !!! k) = false).
  { intros k Hk. rewrite HP. rewrite list_lookup_total_insert_ne by lia.
    destruct (decide (k = parent)) as [->|Hne].
    - rewrite list_lookup_total_insert_eq by lia.
      apply (Hclean parent Hpar).
    - rewrite list_lookup_total_insert_ne by congruence. now apply Hclean. }
  assert (Hrun : all_gc_loop (NumPart st1) 0 st1 0 0 = (gc_eliminate n st1, 1%nat, 0%nat)).
  { rewrite Hn. replace (S n) with (n + 1)%nat by lia.
    rewrite (all_gc_loop_skip n st1 0 0 n 0 1)
      by (try lia; intros k Hk; apply Hold; lia).
    cbn [all_gc_loop]. rewrite Hn.
    destruct (Nat.ltb_spec n (S n)) as [_|]; [|lia].
    rewrite Hchild. cbn [forked_child Mass set_Mass PType set_ID forked_parent
                         set_Generation].
    destruct (Z.eqb_spec (PType p) 0); [contradiction|]. reflexivity. }
  exists st1, (gc_eliminate n st1). split; [exact Hf|].
  assert (Hst2 : P (gc_eliminate n st1) = P st1 /\
                 NumPart (gc_eliminate n st1) = n /\
                 N_sph_slots (gc_eliminate n st1) = N_sph_slots st1 /\
                 SphP (gc_eliminate n st1) = SphP st1 /\
                 BhP (gc_eliminate n st1) = BhP st1 /\
                 N_bh_slots (gc_eliminate n st1) = N_bh_slots st1).
  { unfold gc_eliminate. rewrite Hchild.
    cbn [forked_child Mass set_Mass PType set_ID forked_parent set_Generation].
    destruct (Z.eqb_spec (PType p) 0); [contradiction|].
    cbn [P NumPart N_sph_slots SphP BhP N_bh_slots]. rewrite Hn.
    replace (S n - 1)%nat with n by lia.
    split; [|repeat split].
    apply list_insert_id. apply list_lookup_lookup_total_lt.
    rewrite HP, !length_insert. lia. }
  destruct Hst2 as (HP2 & Hn2 & Hs2 & Hsph2 & Hb2 & Hnb2).
  split.
  { unfold domain_all_garbage_collection. rewrite Hrun, Hn2, Hn.
    unfold sumup_large_ints.
    destruct (Z.eqb_spec (Z.of_nat n + others) (Z.of_nat (S n) + others)); [lia|].
    reflexivity. }
  split; [exact Hn2|]. split; [congruence|].
  split; [|repeat split; congruence].
  unfold live. rewrite Hn2, HP2, HP. fold n.
  rewrite take_insert_ge by lia. rewrite take_insert_lt by lia. reflexivity.
Qed.

End ForkCollect.

(** ** The load-balanced split, in whole numbers *)

Lemma Qred_inject_Z (n : Z) : Qred (inject_Z n) = inject_Z n.
Proof.
  unfold Qred, inject_Z. cbn [Qnum Qden].
  pose proof (Z.ggcd_gcd n 1) as Hg. pose proof (Z.ggcd_correct_divisors n 1) as Hd.
  destruct (Z.ggcd n 1) as (g & aa & bb). cbn [fst snd] in *.
  rewrite Z.gcd_1_r in Hg. subst g. destruct Hd as [Ha Hb].
  rewrite Z.mul_1_l in Ha, Hb. rewrite Ha, <- Hb. reflexivity.
Qed.

Lemma Qred_of_Z (q : Q) (n : Z) : (q == inject_Z n)%Q -> Qred q = inject_Z n.
Proof. intros H. rewrite (Qred_complete _ _ H). apply Qred_inject_Z. Qed.

Lemma round_even_Z (q : Q) (k : Z) : (q == inject_Z k)%Q -> round_even q = k.
Proof.
  intros H. unfold round_even. cbv zeta.
  rewrite (Qfloor_comp q (inject_Z k) H), Qfloor_Z.
  assert (Hc : Qcompare (q - inject_Z k) (1 # 2) = Lt).
  { rewrite H. apply (proj1 (Qlt_alt _ _)).
    unfold Qlt, Qminus, Qplus, Qopp, inject_Z. cbn [Qnum Qden]. lia. }
  rewrite Hc. reflexivity.
Qed.

Lemma Qpower_2_nonneg (s : Z) : 0 <= s -> (Qpower 2 s == inject_Z (2 ^ s))%Q.
Proof. intros Hs. rewrite Zpower_Qpower by exact Hs. reflexivity. Qed.

Lemma Qlog2_pos (p : positive) : Qlog2 (Zpos p # 1) = Z.log2 (Zpos p).
Proof.
  unfold Qlog2. cbn [Qnum Qden]. change (Z.log2 1) with 0. rewrite Z.sub_0_r.
  assert (Hle : Qle_bool (Qpower 2 (Z.log2 (Zpos p))) (Zpos p # 1) = true).
  { apply Qle_bool_iff. rewrite Qpower_2_nonneg by apply Z.log2_nonneg.
    change (Zpos p # 1) with (inject_Z (Zpos p)). rewrite <- Zle_Qle.
    apply Z.log2_spec. lia. }
  rewrite Hle. reflexivity.
Qed.

(** A whole number below [2 ^ 53] is a [double]: rounding leaves it as it
    is. *)
Lemma round_double_Z (q : Q) (n : Z) :
  (q == inject_Z n)%Q -> Z.abs n < 2 ^ 53 -> round_double q = inject_Z n.
Proof.
  intros Hq Hn. unfold round_double, round_float. cbv zeta.
  rewrite (Qred_of_Z q n Hq).
  assert (Hpos : forall p : positive, Zpos p < 2 ^ 53 ->
            Qred (inject_Z (round_even ((Zpos p # 1)
                    / Qpower 2 (Z.max (Qlog2 (Zpos p # 1)) (-1022) - (53 - 1))))
                  * Qpower 2 (Z.max (Qlog2 (Zpos p # 1)) (-1022) - (53 - 1)))
            = inject_Z (Zpos p)).
  { intros p Hp. rewrite Qlog2_pos.
    pose proof (Z.log2_nonneg (Zpos p)) as H0.
    assert (H52 : Z.log2 (Zpos p) < 53) by (apply Z.log2_lt_pow2; lia).
    rewrite Z.max_l by lia.
    set (s := 52 - Z.log2 (Zpos p)).
    replace (Z.log2 (Zpos p) - (53 - 1)) with (- s) by (unfold s; lia).
    assert (Hs : 0 <= s) by (unfold s; lia).
    assert (Hpow : (Qpower 2 (- s) == / inject_Z (2 ^ s))%Q).
    { rewrite Qpower_opp, Qpower_2_nonneg by exact Hs. reflexivity. }
    assert (Hnz : ~ (inject_Z (2 ^ s) == 0)%Q).
    { change 0%Q with (inject_Z 0). rewrite inject_Z_injective.
      pose proof (Z.pow_pos_nonneg 2 s ltac:(lia) Hs). lia. }
    assert (Hquot : ((Zpos p # 1) / Qpower 2 (- s) == inject_Z (Zpos p * 2 ^ s))%Q).
    { rewrite Hpow, inject_Z_mult. change (Zpos p # 1) with (inject_Z (Zpos p)).
      field. exact Hnz. }
    rewrite (round_even_Z _ _ Hquot).
    apply Qred_of_Z. rewrite Hpow, inject_Z_mult. field. exact Hnz. }
  destruct n as [|p|p].
  - reflexivity.
  - change (Qcompare (inject_Z (Zpos p)) 0) with Gt. cbv iota.
    change (Qabs (inject_Z (Zpos p))) with (Zpos p # 1).
    apply Hpos. lia.
  - change (Qcompare (inject_Z (Zneg p)) 0) with Lt. cbv iota.
    change (Qabs (inject_Z (Zneg p))) with (Zpos p # 1).
    rewrite Hpos by lia. reflexivity.
Qed.

Lemma double_add_Z (a b : Z) :
  Z.abs (a + b) < 2 ^ 53 ->
  double_add (inject_Z a) (inject_Z b) = inject_Z (a + b).
Proof.
  intros H. unfold double_add. apply round_double_Z; [|exact H].
  rewrite inject_Z_plus. reflexivity.
Qed.

Lemma cost_at_counts (dc : list Z) (k : Z) :
  cost_at (inject_Z <$> dc) k = inject_Z (count_at dc k).
Proof.
  unfold cost_at, count_at. generalize (Z.to_nat k) as n.
  induction dc as [|a dc IH]; intros [|n]; cbn; try reflexivity. apply IH.
Qed.

Lemma count_before_S (dc : list Z) (k : Z) :
  0 <= k -> count_before dc (k + 1) = count_before dc k + count_at dc k.
Proof.
  intros Hk. unfold count_before.
  replace (Z.to_nat (k + 1)) with (S (Z.to_nat k)) by lia.
  cbn [for_loop]. rewrite Z2Nat.id by exact Hk. reflexivity.
Qed.

Lemma count_before_mono (dc : list Z) (a b : Z) :
  (forall k, 0 <= count_at dc k) -> a <= b -> count_before dc a <= count_before dc b.
Proof.
  intros Hpos Hab. unfold count_before.
  assert (Hn : (Z.to_nat a <= Z.to_nat b)%nat) by lia.
  induction Hn as [|m Hm IH]; [lia|].
  cbn [for_loop]. specialize (Hpos (Z.of_nat m)). lia.
Qed.

Lemma count_before_nonneg (dc : list Z) (a : Z) :
  (forall k, 0 <= count_at dc k) -> 0 <= count_before dc a.
Proof.
  intros Hpos. unfold count_before.
  induction (Z.to_nat a) as [|m IH]; cbn [for_loop]; [lia|].
  specialize (Hpos (Z.of_nat m)). lia.
Qed.

Section ExactSplit.

Variable ncpu ndomain : Z.
Variable dc : list Z.

Hypothesis counts_nonneg : forall k, 0 <= count_at dc k.
Hypothesis total_small : count_before dc ndomain < 2 ^ 53.

Abbreviation dw := (inject_Z <$> dc).
Abbreviation total := (count_before dc ndomain).

(** With whole numbers below [2 ^ 53] all sums of the splitter are exact. *)
Lemma sum_cost_counts (n : nat) :
  Z.of_nat n <= ndomain ->
  sum_cost dw 0 n = inject_Z (count_before dc (Z.of_nat n)).
Proof using counts_nonneg total_small.
  induction n as [|n IH]; intros Hn; [reflexivity|].
  unfold sum_cost in *. cbn [for_loop]. rewrite IH by lia.
  rewrite cost_at_counts, Z.add_0_l.
  pose proof (count_before_S dc (Z.of_nat n) ltac:(lia)) as HS.
  pose proof (count_before_mono dc (Z.of_nat n + 1) ndomain counts_nonneg ltac:(lia)).
  pose proof (count_before_nonneg dc (Z.of_nat n + 1) counts_nonneg).
  rewrite double_add_Z by lia.
  rewrite Nat2Z.inj_succ. unfold Z.succ. rewrite HS. reflexivity.
Qed.

Lemma seg_work_counts (s e : Z) :
  0 <= s <= e -> e < ndomain ->
  seg_work dw s e = inject_Z (count_before dc (e + 1) - count_before dc s).
Proof using counts_nonneg total_small.
  intros Hse He.
  assert (Hgen : forall n : nat, s + Z.of_nat n < ndomain ->
            seg_work dw s (s + Z.of_nat n)
            = inject_Z (count_before dc (s + Z.of_nat n + 1) - count_before dc s)).
  { induction n as [|n IH]; intros Hn.
    - rewrite Z.add_0_r, seg_work_start, cost_at_counts.
      change 0%Q with (inject_Z 0).
      pose proof (counts_nonneg s).
      pose proof (count_before_mono dc (s + 1) ndomain counts_nonneg ltac:(lia)).
      pose proof (count_before_nonneg dc s counts_nonneg).
      pose proof (count_before_S dc s ltac:(lia)) as HS.
      rewrite double_add_Z by lia. f_equal. lia.
    - replace (s + Z.of_nat (S n)) with (s + Z.of_nat n + 1) by lia.
      rewrite seg_work_S by lia. rewrite IH by lia. rewrite cost_at_counts.
      pose proof (count_before_S dc (s + Z.of_nat n + 1) ltac:(lia)) as HS.
      pose proof (count_before_mono dc (s + Z.of_nat n + 1 + 1) ndomain
                    counts_nonneg ltac:(lia)).
      pose proof (count_before_mono dc s (s + Z.of_nat n + 1 + 1)
                    counts_nonneg ltac:(lia)).
      pose proof (count_before_nonneg dc s counts_nonneg).
      rewrite double_add_Z by lia. f_equal. lia. }
  specialize (Hgen (Z.to_nat (e - s))).
  replace (s + Z.of_nat (Z.to_nat (e - s))) with e in Hgen by lia.
  apply Hgen. exact He.
Qed.

Lemma workavg_before_counts (A : Z) (j : nat) :
  0 <= A -> Z.of_nat j * A < 2 ^ 53 ->
  workavg_before (inject_Z A) j = inject_Z (Z.of_nat j * A).
Proof.
  intros HA. unfold workavg_before.
  induction j as [|j IH]; intros Hj; [reflexivity|].
  cbn [for_loop]. rewrite IH by nia. rewrite double_add_Z by nia.
  f_equal. lia.
Qed.

End ExactSplit.


(** X6. The load-balanced split of [ndomain] leaves into [ncpu] segments,
    [1 <= ncpu <= ndomain], when the [double] arithmetic is exact: no leaf
    has a negative count and the number [total] of particles in all leaves
    is below [2 ^ 53] and a multiple of [ncpu].  The segments follow one
    another from leaf 0 to the last leaf; a segment [j] other than the last
    is extended past leaf [e'] only while [ncpu] times the number of
    particles up to [e'] is below [(j + 1) * total], and it ends at the
    first leaf where that product reaches [(j + 1) * total], or where the
    leaves left are just enough for the segments left. *)
Theorem findSplit_load_balanced_spec (ncpu ndomain : Z) (dc : list Z) (L : layout) :
  1 <= ncpu <= ndomain ->
  length (DomainStartList L) = Z.to_nat ncpu ->
  length (DomainEndList L) = Z.to_nat ncpu ->
  (forall k, 0 <= count_at dc k) ->
  count_before dc ndomain < 2 ^ 53 ->
  (ncpu | count_before dc ndomain) ->
  let L' := domain_findSplit_load_balanced ncpu ndomain dc L in
  let total := count_before dc ndomain in
  DomainStartList L' !!! 0%nat = 0 /\
  DomainEndList L' !!! Z.to_nat (ncpu - 1) = ndomain - 1 /\
  forall j, (j < Z.to_nat ncpu)%nat ->
    let s := DomainStartList L' !!! j in
    let e := DomainEndList L' !!! j in
    s <= e <= ndomain - (ncpu - Z.of_nat j) /\
    ((S j < Z.to_nat ncpu)%nat -> DomainStartList L' !!! S j = e + 1) /\
    (forall e', s <= e' < e -> Z.of_nat j < ncpu - 1 ->
       ncpu * count_before dc (e' + 1) < (Z.of_nat j + 1) * total) /\
    (Z.of_nat j < ncpu - 1 ->
       (Z.of_nat j + 1) * total <= ncpu * count_before dc (e + 1) \/
       ndomain - e <= ncpu - Z.of_nat j).
Proof.
  intros Hn Hl1 Hl2 Hpos Hsmall [A HA]. cbv zeta.
  unfold domain_findSplit_load_balanced.
  set (dw := inject_Z <$> dc). set (total := count_before dc ndomain) in *.
  destruct (split_segments ncpu ndomain dw L Hn Hl1 Hl2) as (Hfirst & Hlast & Hsegs).
  set (L' := domain_findSplit_work_balanced ncpu ndomain dw L) in *.
  pose proof (count_before_nonneg dc ndomain Hpos) as Htot. fold total in Htot.
  assert (HA0 : 0 <= A) by nia.
  assert (HAle : A <= total) by nia.
  assert (Hwa : double_div (sum_cost dw 0 (Z.to_nat ndomain)) (inject_Z ncpu)
                = inject_Z A).
  { unfold dw. rewrite (sum_cost_counts ndomain dc Hpos Hsmall) by lia.
    rewrite Z2Nat.id by lia. fold total. unfold double_div.
    apply round_double_Z; [|lia].
    rewrite HA, inject_Z_mult. field.
    change 0%Q with (inject_Z 0). rewrite inject_Z_injective. lia. }
  rewrite Hwa in Hsegs.
  assert (Hwb : forall j, (j < Z.to_nat ncpu)%nat ->
            0 <= DomainStartList L' !!! j /\
            work_before dw L' j
            = inject_Z (count_before dc (DomainStartList L' !!! j))).
  { induction j as [|j IH]; intros Hj.
    - rewrite Hfirst. split; [lia|reflexivity].
    - destruct (IH ltac:(lia)) as [Hs0 IHw].
      pose proof (Hsegs j ltac:(lia)) as Hseg.
      unfold segment_ok in Hseg. cbv zeta in Hseg.
      destruct Hseg as ((Hrange & _) & Hnext).
      rewrite (Hnext Hj). split; [lia|].
      unfold work_before. cbn [for_loop]. fold (work_before dw L' j).
      rewrite IHw. unfold dw.
      rewrite (seg_work_counts ndomain dc Hpos Hsmall) by lia.
      assert (He : DomainEndList L' !!! j + 1 <= ndomain) by lia.
      pose proof (count_before_mono dc _ _ Hpos He) as Hmono.
      pose proof (count_before_nonneg dc (DomainEndList L' !!! j + 1) Hpos).
      fold total in Hmono.
      rewrite double_add_Z by lia. f_equal. lia. }
  assert (Hsum : forall j e, (j < Z.to_nat ncpu)%nat ->
            DomainStartList L' !!! j <= e -> e < ndomain ->
            double_add (seg_work dw (DomainStartList L' !!! j) e) (work_before dw L' j)
            = inject_Z (count_before dc (e + 1))).
  { intros j e Hj Hse He. destruct (Hwb j Hj) as [Hs0 ->]. unfold dw.
    rewrite (seg_work_counts ndomain dc Hpos Hsmall) by lia.
    assert (He1 : e + 1 <= ndomain) by lia.
    pose proof (count_before_mono dc _ _ Hpos He1) as Hmono.
    pose proof (count_before_nonneg dc (e + 1) Hpos).
    fold total in Hmono.
    rewrite double_add_Z by lia. f_equal. lia. }
  assert (Havg : forall j, (j < Z.to_nat ncpu)%nat ->
            double_add (inject_Z A) (workavg_before (inject_Z A) j)
            = inject_Z ((Z.of_nat j + 1) * A)).
  { intros j Hj. rewrite workavg_before_counts by nia.
    rewrite double_add_Z by nia. f_equal. lia. }
  split; [exact Hfirst|]. split; [exact Hlast|].
  intros j Hj. pose proof (Hsegs j Hj) as Hseg.
  unfold segment_ok in Hseg. cbv zeta in Hseg.
  destruct Hseg as ((Hrange & _ & Hbefore & Hclose) & Hnext).
  split; [exact Hrange|]. split; [exact Hnext|]. split.
  - intros e' He' Hnotlast. destruct (Hbefore e' He') as [_ Hopen].
    specialize (Hopen Hnotlast). unfold seg_open in Hopen.
    rewrite (Hsum j e' Hj) in Hopen by lia. rewrite (Havg j Hj) in Hopen.
    rewrite <- Zlt_Qlt in Hopen. nia.
  - intros Hnotlast. destruct (Hclose Hnotlast) as [Hclosed|Hfew]; [left|now right].
    unfold seg_open in Hclosed.
    rewrite (Hsum j _ Hj) in Hclosed by lia. rewrite (Havg j Hj) in Hclosed.
    rewrite <- Zlt_Qlt in Hclosed. nia.
Qed.

(** ** The memory check by itself *)

(** X7. [domain_check_memory_bound], when no leaf has a negative count and
    what every rank is given fits the [int] it is added up in: the function
    returns 1 exactly when some rank is assigned more than [MaxPart]
    particles by the layout and 0 exactly when every rank is assigned at
    most [MaxPart]; whether it prints the details makes no difference. *)
Theorem check_memory_bound_flags (NTask DomainOverDecompositionFactor : nat)
    (MaxPart : Z) (pd : bool) (dw : list Q) (dc : list Z) (L : layout) :
  0 <= MaxPart ->
  loads_fit NTask DomainOverDecompositionFactor L dc ->
  let check := domain_check_memory_bound NTask DomainOverDecompositionFactor MaxPart in
  let load := assigned_count DomainOverDecompositionFactor L dc in
  (check pd dw dc L = 1 <-> exists ta, (ta < NTask)%nat /\ load ta > MaxPart) /\
  (check pd dw dc L = 0 <-> forall ta, (ta < NTask)%nat -> load ta <= MaxPart) /\
  check true dw dc L = check false dw dc L.
Proof.
  intros Hpos Hfit. cbv zeta. unfold domain_check_memory_bound, max_load.
  pose proof (max_load_counts NTask DomainOverDecompositionFactor L dc MaxPart Hpos Hfit)
    as Hspec.
  destruct (Z.gtb_spec (max_load_upto DomainOverDecompositionFactor NTask L dc) MaxPart)
    as [Hgt|Hle].
  - split; [|split; [|reflexivity]].
    + split; [intros _; apply Hspec; lia|reflexivity].
    + split; [discriminate|]. intros Hall.
      destruct (proj1 Hspec ltac:(lia)) as (ta & Hta & Hl).
      specialize (Hall ta Hta). lia.
  - split; [|split; [|reflexivity]].
    + split; [discriminate|]. intros Hex. apply Hspec in Hex. lia.
    + split; [|reflexivity]. intros _ ta Hta.
      destruct (Z_gt_le_dec (assigned_count DomainOverDecompositionFactor L dc ta) MaxPart)
        as [Hbig|Hok]; [|exact Hok].
      assert (max_load_upto DomainOverDecompositionFactor NTask L dc > MaxPart); [|lia].
      apply Hspec. exists ta. split; [exact Hta|exact Hbig].
Qed.

(** ** The receive-side loop of the exchange *)

Lemma mget_mdec (m : list (list Z)) (r c r' c' : nat) :
  mget (mdec m r c) r' c' =
    if decide (r = r' /\ c = c' /\ (r < length m)%nat /\ (c < length (m !!! r))%nat)
    then mget m r c - 1 else mget m r' c'.
Proof.
  unfold mget, mdec.
  destruct (Nat.lt_ge_cases r (length m)) as [Hr|Hr].
  - rewrite lookup_total_insert_lt by exact Hr.
    destruct (decide (r = r')) as [<-|Hne].
    + destruct (Nat.lt_ge_cases c (length (m !!! r))) as [Hc|Hc].
      * rewrite lookup_total_insert_lt by exact Hc.
        destruct (decide (c = c')) as [<-|Hnc].
        -- rewrite decide_True by auto. reflexivity.
        -- rewrite decide_False by tauto. reflexivity.
      * rewrite list_insert_ge by exact Hc.
        rewrite decide_False by lia. reflexivity.
    + rewrite decide_False by tauto. reflexivity.
  - rewrite list_insert_ge by exact Hr.
    rewrite decide_False by lia. reflexivity.
Qed.

Lemma mget_mdec_le (m : list (list Z)) (r c r' c' : nat) :
  mget (mdec m r c) r' c' <= mget m r' c'.
Proof.
  rewrite mget_mdec. destruct (decide _) as [(<- & <- & _)|_]; lia.
Qed.

Section ExchangeFacts.

Variable NTask : nat.
Variable MaxPart MaxPartBh : Z.
Variable list_NumPart list_N_sph list_N_bh : list Z.

Abbreviation xshed := (shed NTask).
Abbreviation xcheck :=
  (check_rank NTask MaxPart MaxPartBh list_NumPart list_N_sph list_N_bh).
Abbreviation xpass :=
  (overflow_pass NTask MaxPart MaxPartBh list_NumPart list_N_sph list_N_bh).
Abbreviation xloop :=
  (overflow_loop NTask MaxPart MaxPartBh list_NumPart list_N_sph list_N_bh).
Abbreviation xsafety :=
  (safety_loop NTask MaxPart MaxPartBh list_NumPart list_N_sph list_N_bh).
Abbreviation over :=
  (rank_over NTask MaxPart MaxPartBh list_NumPart list_N_sph list_N_bh).

Lemma row_sum_mono (m' m : list (list Z)) (r : nat) :
  (forall k, mget m' r k <= mget m r k) -> row_sum NTask m' r <= row_sum NTask m r.
Proof.
  intros Hle. unfold row_sum. induction NTask as [|n IH]; cbn [for_loop]; [lia|].
  specialize (Hle n). lia.
Qed.

(** A [while(ntoomany)] loop that ends has lowered send counts only, and
    [count_toget] by what it was asked to shed. *)
Lemma shed_lowers (fuel : nat) (ta : nat) :
  forall i n tg ct tg' ct',
    xshed fuel ta i n tg ct = OK (tg', ct') ->
    (forall r k, mget tg' r k <= mget tg r k) /\ ct' = ct - n /\ 0 <= n.
Proof.
  induction fuel as [|fuel IH]; intros i n tg ct tg' ct' Hrun; cbn [shed] in Hrun;
    destruct (Z.eqb_spec n 0) as [->|Hn]; try discriminate;
    try (injection Hrun as <- <-; split; [intros; lia|lia]).
  destruct (mget tg i ta >? 0).
  - apply IH in Hrun as (Hle & -> & Hpos). split; [|lia].
    intros r k. specialize (Hle r k). pose proof (mget_mdec_le tg i ta r k). lia.
  - apply IH in Hrun as (Hle & -> & Hpos). split; [exact Hle|lia].
Qed.

Lemma shed_not_fatal (fuel : nat) (ta : nat) :
  forall i n tg ct code, xshed fuel ta i n tg ct <> Fatal code.
Proof.
  induction fuel as [|fuel IH]; intros i n tg ct code; cbn [shed];
    destruct (n =? 0); try discriminate.
  destruct (mget tg i ta >? 0); apply IH.
Qed.

Lemma counts_le_refl (c : exchange_counts) : counts_le c c.
Proof. unfold counts_le. repeat split; intros; lia. Qed.

Lemma counts_le_trans (c1 c2 c3 : exchange_counts) :
  counts_le c1 c2 -> counts_le c2 c3 -> counts_le c1 c3.
Proof.
  intros (H1 & H2 & H3 & H4 & H5 & H6) (K1 & K2 & K3 & K4 & K5 & K6).
  unfold counts_le. repeat split; try congruence; intros r k.
  - specialize (H1 r k). specialize (K1 r k). lia.
  - specialize (H2 r k). specialize (K2 r k). lia.
  - specialize (H3 r k). specialize (K3 r k). lia.
Qed.

(** Lower send counts leave an overflow in place. *)
Lemma rank_over_mono (c' c : exchange_counts) (ta : nat) :
  counts_le c' c -> over c ta -> over c' ta.
Proof.
  intros (H1 & H2 & H3 & H4 & H5 & H6). unfold rank_over.
  rewrite H4, H5, H6.
  pose proof (row_sum_mono (toGo c') (toGo c) ta (fun k => H1 ta k)).
  pose proof (row_sum_mono (toGoSph c') (toGoSph c) ta (fun k => H2 ta k)).
  pose proof (row_sum_mono (toGoBh c') (toGoBh c) ta (fun k => H3 ta k)).
  lia.
Qed.

(** One of the three tests with its [while(ntoomany)] loop. *)
Lemma check_stage_spec (fuel ta i0 : nat) (n : Z) (tg : list (list Z)) (ct f : Z)
    (tg1 : list (list Z)) (ct1 f1 : Z) :
  (if n >? 0
   then do r <- xshed fuel ta i0 n tg ct; OK (fst r, snd r, 1)
   else OK (tg, ct, f)) = OK (tg1, ct1, f1) ->
  (forall r k, mget tg1 r k <= mget tg r k) /\ ct1 <= ct /\
  (n > 0 -> f1 = 1) /\ (n <= 0 -> tg1 = tg /\ ct1 = ct /\ f1 = f).
Proof.
  destruct (Z.gtb_spec n 0) as [Hn|Hn].
  - destruct (xshed fuel ta i0 n tg ct) as [[tg2 ct2]| |] eqn:Hshed;
      cbn [rbind fst snd]; try discriminate.
    intros [= <- <- <-].
    apply shed_lowers in Hshed as (Hle & -> & Hpos).
    split; [exact Hle|]. split; [lia|]. split; [reflexivity|lia].
  - intros [= <- <- <-]. split; [intros; lia|].
    split; [lia|]. split; [lia|auto].
Qed.

(** The check of one rank. *)
Lemma check_rank_spec (fuel : nat) (flagsum : Z) (ta : nat)
    (c c' : exchange_counts) (flag flag' : Z) :
  xcheck fuel flagsum ta (c, flag) = OK (c', flag') ->
  counts_le c' c /\
  (flag' = 1 \/ flag' = flag) /\
  (over c ta -> flag' = 1) /\
  (~ over c ta -> c' = c /\ flag' = flag).
Proof.
  unfold check_rank, rank_over.
  set (i0 := Z.to_nat (flagsum mod Z.of_nat NTask)).
  set (nsph := list_N_sph !!! ta + row_sum NTask (toGetSph c) ta
               - row_sum NTask (toGoSph c) ta - MaxPart).
  set (nbh := list_N_bh !!! ta + row_sum NTask (toGetBh c) ta
              - row_sum NTask (toGoBh c) ta - MaxPartBh).
  intros Hrun.
  destruct (if nsph >? 0 then _ else _) as [[[tg1 ct1] f1]| |] eqn:E1;
    cbn [rbind] in Hrun; try discriminate.
  apply check_stage_spec in E1 as (L1 & C1 & F1 & N1).
  destruct (if nbh >? 0 then _ else _) as [[[tg2 ct2] f2]| |] eqn:E2;
    cbn [rbind] in Hrun; try discriminate.
  apply check_stage_spec in E2 as (L2 & C2 & F2 & N2).
  set (nall := list_NumPart !!! ta + ct2 - row_sum NTask (toGo c) ta - MaxPart) in *.
  destruct (if nall >? 0 then _ else _) as [[[tg3 ct3] f3]| |] eqn:E3;
    cbn [rbind] in Hrun; try discriminate.
  apply check_stage_spec in E3 as (L3 & C3 & F3 & N3).
  injection Hrun as <- <-.
  split; [unfold counts_le; cbn [toGo toGoSph toGoBh toGet toGetSph toGetBh];
          repeat split; assumption|].
  destruct (Z_gt_le_dec nsph 0) as [H1|H1], (Z_gt_le_dec nbh 0) as [H2|H2],
           (Z_gt_le_dec nall 0) as [H3|H3];
    repeat match goal with
           | H : ?n > 0, F : ?n > 0 -> _ |- _ => specialize (F H)
           | H : ?n <= 0, F : ?n <= 0 -> _ |- _ => destruct (F H) as (? & ? & ?); clear F
           end; subst;
    (split; [auto|]); (split; [try reflexivity; intros [?|[?|?]]; try lia|]);
    try (intros Hno; exfalso; apply Hno; lia).
  all: try (intros _; split; [destruct c|]; reflexivity).
Qed.

Lemma classic_over (c : exchange_counts) (ta : nat) : over c ta \/ ~ over c ta.
Proof. unfold rank_over. lia. Qed.

(** One turn of the inner loop: the flag it ends with tells whether some
    rank was over, and a rank that was over is still over afterwards. *)
Lemma overflow_pass_spec (fuel : nat) (flagsum : Z) (c c' : exchange_counts) (f : Z) :
  xpass fuel flagsum c = OK (c', f) ->
  counts_le c' c /\
  (f = 0 \/ f = 1) /\
  (f = 1 -> exists ta, (ta < NTask)%nat /\ over c' ta) /\
  (f = 0 -> c' = c) /\
  (forall ta, (ta < NTask)%nat -> over c ta -> f = 1).
Proof.
  unfold overflow_pass. intros Hrun.
  apply (for_loopR_ind
           (fun n (s : exchange_counts * Z) =>
              counts_le (fst s) c /\
              (snd s = 0 \/ snd s = 1) /\
              (snd s = 1 -> exists ta, (ta < n)%nat /\ over (fst s) ta) /\
              (snd s = 0 -> fst s = c) /\
              (forall ta, (ta < n)%nat -> over c ta -> snd s = 1))
           NTask _ (c, 0) (c', f)) in Hrun; [exact Hrun| |].
  - cbn [fst snd]. split; [apply counts_le_refl|]. split; [now left|].
    split; [discriminate|]. split; [reflexivity|]. intros ta Hta. lia.
  - intros n [cn fn] [c1 f1] Hn (Hle & Hf & Hone & Hzero & Hall) Hstep.
    cbn [fst snd] in *.
    apply check_rank_spec in Hstep as (Hle1 & Hf1 & Hover & Hclean).
    split; [eapply counts_le_trans; eassumption|].
    split; [lia|]. split; [|split].
    + intros ->. destruct (decide (fn = 1)) as [Hfn|Hfn].
      * destruct (Hone Hfn) as (ta & Hta & Hov).
        exists ta. split; [lia|]. now apply (rank_over_mono c1 cn).
      * exists n. split; [lia|].
        destruct (classic_over cn n) as [Hov|Hno].
        -- now apply (rank_over_mono c1 cn).
        -- destruct (Hclean Hno) as [_ Heq]. lia.
    + intros ->. destruct (classic_over cn n) as [Hov|Hno].
      * specialize (Hover Hov). lia.
      * destruct (Hclean Hno) as [-> Heq]. apply Hzero. lia.
    + intros ta Hta Hov. destruct (decide (ta = n)) as [->|Hne].
      * apply Hover. now apply (rank_over_mono cn c).
      * assert (fn = 1) by (apply (Hall ta); [lia|exact Hov]). lia.
Qed.

Lemma for_loopR_fatal {S : Type} (n : nat) (body : nat -> S -> result S) (s : S)
    (code : Z) :
  for_loopR n body s = Fatal code -> exists i t, body i t = Fatal code.
Proof.
  induction n as [|n IH]; cbn [for_loopR]; [discriminate|].
  destruct (for_loopR n body s) as [t| |]; cbn [rbind].
  - intros H. now exists n, t.
  - intros [= ->]. now apply IH.
  - discriminate.
Qed.

Lemma check_stage_not_fatal (fuel ta i0 : nat) (n : Z) (tg : list (list Z)) (ct f : Z)
    (code : Z) :
  (if n >? 0
   then do r <- xshed fuel ta i0 n tg ct; OK (fst r, snd r, 1)
   else OK (tg, ct, f)) <> Fatal code.
Proof.
  destruct (n >? 0); [|discriminate].
  destruct (xshed fuel ta i0 n tg ct) as [[tg2 ct2]| |] eqn:Hshed; cbn [rbind];
    try discriminate.
  exfalso. now apply shed_not_fatal in Hshed.
Qed.

Lemma check_rank_not_fatal (fuel : nat) (flagsum : Z) (ta : nat)
    (s : exchange_counts * Z) (code : Z) :
  xcheck fuel flagsum ta s <> Fatal code.
Proof.
  destruct s as [c flag]. unfold check_rank.
  destruct (if _ >? 0 then _ else _) as [[[tg1 ct1] f1]| |] eqn:E1; cbn [rbind];
    [clear E1|now apply check_stage_not_fatal in E1|discriminate].
  destruct (if _ >? 0 then _ else _) as [[[tg2 ct2] f2]| |] eqn:E2; cbn [rbind];
    [clear E2|now apply check_stage_not_fatal in E2|discriminate].
  destruct (if _ >? 0 then _ else _) as [[[tg3 ct3] f3]| |] eqn:E3; cbn [rbind];
    [clear E3|now apply check_stage_not_fatal in E3|discriminate].
  discriminate.
Qed.

(** Once a rank is over, the inner loop has no good end. *)
Lemma overflow_loop_stuck (passes fuel : nat) :
  forall flagsum c,
    (exists ta, (ta < NTask)%nat /\ over c ta) ->
    xloop passes fuel flagsum c = Fatal 1013 \/
    xloop passes fuel flagsum c = OutOfFuel.
Proof.
  induction passes as [|passes IH]; intros flagsum c Hov; cbn [overflow_loop];
    [now right|].
  destruct (xpass fuel flagsum c) as [[c1 f]|code|] eqn:Hpass; cbn [rbind fst snd].
  - apply overflow_pass_spec in Hpass as (_ & _ & Hone & _ & Hall).
    destruct Hov as (ta & Hta & Hov). pose proof (Hall ta Hta Hov) as ->.
    destruct (flagsum + 1 >? 100); [now left|]. cbn [Z.eqb negb].
    apply IH. now apply Hone.
  - exfalso. unfold overflow_pass in Hpass.
    apply for_loopR_fatal in Hpass as (i & t & Hbad).
    now apply check_rank_not_fatal in Hbad.
  - now right.
Qed.

Lemma overflow_loop_S (passes fuel : nat) (flagsum : Z) (c : exchange_counts) :
  xloop (S passes) fuel flagsum c =
  do r <- xpass fuel flagsum c;
  if flagsum + snd r >? 100 then Fatal 1013
  else if negb (snd r =? 0) then xloop passes fuel (flagsum + snd r) (fst r)
  else OK (fst r, flagsum + snd r).
Proof. reflexivity. Qed.

Lemma safety_loop_S (reconcile : exchange_counts -> exchange_counts)
    (rounds fuel : nat) (c : exchange_counts) :
  xsafety reconcile (S rounds) fuel c =
  do r <- xloop 101 fuel 0 c;
  if negb (snd r =? 0) then xsafety reconcile rounds fuel (reconcile (fst r))
  else OK (fst r).
Proof. reflexivity. Qed.

Lemma safety_loop_stuck (reconcile : exchange_counts -> exchange_counts)
    (rounds fuel : nat) (c : exchange_counts) :
  (exists ta, (ta < NTask)%nat /\ over c ta) ->
  xsafety reconcile rounds fuel c = Fatal 1013 \/
  xsafety reconcile rounds fuel c = OutOfFuel.
Proof.
  intros Hov. destruct rounds as [|rounds]; [now right|].
  rewrite safety_loop_S.
  destruct (overflow_loop_stuck 101 fuel 0 c Hov) as [-> | ->];
    [now left|now right].
Qed.

(** X8. When some rank cannot take what the counts send it, the receive-side
    loop never comes to a good end, whatever the block that recounts the
    exports does: every turn of the inner loop finds an overflow again,
    since the counts to receive are not updated, and the run ends in the
    fatal error 1013 or stays in a [while(ntoomany)] loop. *)
Theorem exchange_overflow_never_settles (reconcile : exchange_counts -> exchange_counts)
    (rounds fuel : nat) (c : exchange_counts) (ta : nat) :
  (ta < NTask)%nat ->
  over c ta ->
  xsafety reconcile rounds fuel c = Fatal 1013 \/
  xsafety reconcile rounds fuel c = OutOfFuel.
Proof.
  intros Hta Hov. apply safety_loop_stuck. exists ta. split; assumption.
Qed.

(** X9. When no rank is over, the loop ends after one turn and leaves all
    counts as they were; and a run of the loop that ends well has changed
    nothing and never reached the block that recounts the exports. *)
Theorem exchange_settles_untouched (reconcile : exchange_counts -> exchange_counts)
    (rounds fuel : nat) (c : exchange_counts) :
  ((forall ta, (ta < NTask)%nat -> ~ over c ta) ->
   xsafety reconcile (S rounds) fuel c = OK c) /\
  (forall c', xsafety reconcile rounds fuel c = OK c' ->
     c' = c /\ forall ta, (ta < NTask)%nat -> ~ over c ta).
Proof.
  split.
  - intros Hclean. rewrite safety_loop_S.
    change 101%nat with (S 100). rewrite overflow_loop_S.
    assert (Hpass : xpass fuel 0 c = OK (c, 0)).
    { unfold overflow_pass.
      destruct (for_loopR_pure
                  (fun _ (s : exchange_counts * Z) => s = (c, 0)) NTask
                  (xcheck fuel 0) (fun _ s => s) (c, 0) eq_refl) as [Hrun _].
      - intros i t Hi ->. split; [|reflexivity].
        unfold check_rank. pose proof (Hclean i Hi) as Hno. unfold rank_over in Hno.
        destruct (Z.gtb_spec
                    (list_N_sph !!! i + row_sum NTask (toGetSph c) i
                     - row_sum NTask (toGoSph c) i - MaxPart) 0); [lia|].
        cbn [rbind].
        destruct (Z.gtb_spec
                    (list_N_bh !!! i + row_sum NTask (toGetBh c) i
                     - row_sum NTask (toGoBh c) i - MaxPartBh) 0); [lia|].
        cbn [rbind].
        destruct (Z.gtb_spec
                    (list_NumPart !!! i + row_sum NTask (toGet c) i
                     - row_sum NTask (toGo c) i - MaxPart) 0); [lia|].
        cbn [rbind]. destruct c; reflexivity.
      - rewrite Hrun. f_equal.
        clear. induction NTask as [|n IH]; [reflexivity|exact IH]. }
    rewrite Hpass. cbn [rbind fst snd]. change (0 + 0 >? 100) with false. change (negb (0 =? 0)) with false. cbv iota. cbn [rbind fst snd]. change (negb (0 + 0 =? 0)) with false. reflexivity.
  - intros c' Hrun.
    assert (Hclean : forall ta, (ta < NTask)%nat -> ~ over c ta).
    { intros ta Hta Hov.
      destruct (safety_loop_stuck reconcile rounds fuel c) as [H|H];
        [exists ta; split; assumption|rewrite H in Hrun; discriminate Hrun..]. }
    split; [|exact Hclean].
    destruct rounds as [|rounds]; [discriminate|].
    rewrite safety_loop_S in Hrun.
    change 101%nat with (S 100) in Hrun. rewrite overflow_loop_S in Hrun.
    destruct (xpass fuel 0 c) as [[c1 f]| |] eqn:Hpass; cbn [rbind fst snd] in Hrun;
      try discriminate.
    apply overflow_pass_spec in Hpass as (_ & Hf & Hone & Hzero & _).
    destruct Hf as [-> | ->].
    + change (0 + 0 >? 100) with false in Hrun.
      change (negb (0 =? 0)) with false in Hrun.
      cbn [rbind fst snd] in Hrun. change (negb (0 + 0 =? 0)) with false in Hrun.
      injection Hrun as <-. now apply Hzero.
    + exfalso. destruct (Hone eq_refl) as (ta & Hta & Hov).
      change (0 + 1 >? 100) with false in Hrun.
      change (negb (1 =? 0)) with true in Hrun. cbv iota in Hrun.
      destruct (overflow_loop_stuck 100 fuel (0 + 1) c1) as [H|H];
        [exists ta; split; assumption|rewrite H in Hrun; discriminate Hrun..].
Qed.

Lemma mdec_length (m : list (list Z)) (r c : nat) : length (mdec m r c) = length m.
Proof. unfold mdec. apply length_insert. Qed.

Lemma mdec_row_length (m : list (list Z)) (r c r' : nat) :
  length (mdec m r c !!! r') = length (m !!! r').
Proof.
  unfold mdec. destruct (Nat.lt_ge_cases r (length m)) as [Hr|Hr].
  - rewrite lookup_total_insert_lt by exact Hr.
    destruct (decide (r = r')) as [<-|_]; [apply length_insert|reflexivity].
  - now rewrite list_insert_ge by exact Hr.
Qed.

Lemma col_sum_mdec (m : list (list Z)) (i ta : nat) (n : nat) :
  (i < length m)%nat -> (ta < length (m !!! i))%nat ->
  for_loop n (fun r s => s + mget (mdec m i ta) r ta) 0 =
  for_loop n (fun r s => s + mget m r ta) 0 - (if (i <? n)%nat then 1 else 0).
Proof.
  intros Hi Hta. induction n as [|n IH]; [reflexivity|].
  cbn [for_loop]. rewrite IH, mget_mdec.
  destruct (Nat.ltb_spec i n), (Nat.ltb_spec i (S n));
    destruct (decide (i = n /\ ta = ta /\ (i < length m)%nat /\
                      (ta < length (m !!! i))%nat)) as [(Heq & _)|Hne]; try lia.
  subst i. lia.
Qed.

(** X10. A [while(ntoomany)] loop that ends has taken exactly [ntoomany]
    particles bound for rank [ta] off the send lists, one at a time and only
    from ranks that had one to give; it has lowered [count_toget] by as
    much and left what the ranks send elsewhere as it was. *)
Theorem shed_takes_ntoomany (fuel ta i : nat) (n : Z) (tg tg' : list (list Z))
    (ct ct' : Z) :
  (i < NTask)%nat ->
  length tg = NTask ->
  (forall r, (r < NTask)%nat -> (ta < length (tg !!! r))%nat) ->
  xshed fuel ta i n tg ct = OK (tg', ct') ->
  col_sum NTask tg' ta = col_sum NTask tg ta - n /\
  ct' = ct - n /\ 0 <= n /\
  (forall r k, k <> ta -> mget tg' r k = mget tg r k) /\
  (forall r, mget tg' r ta <= mget tg r ta) /\
  (forall r, 0 <= mget tg r ta -> 0 <= mget tg' r ta).
Proof.
  revert i n tg ct.
  induction fuel as [|fuel IH]; intros i n tg ct Hi Hlen Hrows Hrun; cbn [shed] in Hrun;
    destruct (Z.eqb_spec n 0) as [->|Hn]; try discriminate;
    try (injection Hrun as <- <-; repeat split; intros; lia).
  assert (Hi' : ((if (NTask <=? i + 1)%nat then 0 else i + 1) < NTask)%nat)
    by (destruct (Nat.leb_spec NTask (i + 1)); lia).
  destruct (Z.gtb_spec (mget tg i ta) 0) as [Hpos|Hnone].
  - apply IH in Hrun as (Hsum & -> & Hn0 & Hother & Hle & Hnn);
      [|exact Hi'|now rewrite mdec_length|intros r Hr; rewrite mdec_row_length; auto].
    split.
    { rewrite Hsum. unfold col_sum. rewrite col_sum_mdec by (rewrite ?Hlen; auto).
      destruct (Nat.ltb_spec i NTask); lia. }
    split; [lia|]. split; [lia|]. split; [|split].
    + intros r k Hk. rewrite Hother by exact Hk. rewrite mget_mdec.
      rewrite decide_False by (intros (_ & <- & _); congruence). reflexivity.
    + intros r. specialize (Hle r). pose proof (mget_mdec_le tg i ta r ta). lia.
    + intros r Hr. apply Hnn. rewrite mget_mdec.
      destruct (decide _) as [(<- & _)|_]; lia.
  - apply IH in Hrun as (Hsum & -> & Hn0 & Hother & Hle & Hnn); try assumption.
    repeat split; try assumption; lia.
Qed.

(** X11. When no rank has a particle bound for [ta] left on its send list,
    a [while(ntoomany)] loop with something to shed has no end. *)
Theorem shed_without_senders (fuel ta i : nat) (n : Z) (tg : list (list Z)) (ct : Z) :
  (i < NTask)%nat ->
  n <> 0 ->
  (forall r, (r < NTask)%nat -> mget tg r ta <= 0) ->
  xshed fuel ta i n tg ct = OutOfFuel.
Proof.
  intros Hi Hn Hnone. revert i Hi.
  induction fuel as [|fuel IH]; intros i Hi; cbn [shed];
    destruct (Z.eqb_spec n 0) as [|_]; try contradiction; [reflexivity|].
  destruct (Z.gtb_spec (mget tg i ta) 0) as [Hpos|_].
  - specialize (Hnone i Hi). lia.
  - apply IH. destruct (Nat.leb_spec NTask (i + 1)); lia.
Qed.

Abbreviation next := (next_rank NTask).

Lemma shed_step_pos (fuel ta i : nat) (n : Z) (tg : list (list Z)) (ct : Z) :
  n <> 0 -> mget tg i ta > 0 ->
  xshed (S fuel) ta i n tg ct = xshed fuel ta (next i) (n - 1) (mdec tg i ta) (ct - 1).
Proof.
  intros Hn Hpos. cbn [shed]. destruct (Z.eqb_spec n 0); [contradiction|].
  destruct (Z.gtb_spec (mget tg i ta) 0); [reflexivity|lia].
Qed.

Lemma shed_step_none (fuel ta i : nat) (n : Z) (tg : list (list Z)) (ct : Z) :
  n <> 0 -> mget tg i ta <= 0 ->
  xshed (S fuel) ta i n tg ct = xshed fuel ta (next i) n tg ct.
Proof.
  intros Hn Hpos. cbn [shed]. destruct (Z.eqb_spec n 0); [contradiction|].
  destruct (Z.gtb_spec (mget tg i ta) 0); [lia|reflexivity].
Qed.

Lemma next_rank_lt (i : nat) : (0 < NTask)%nat -> (next i < NTask)%nat.
Proof. intros H. unfold next_rank. destruct (Nat.leb_spec NTask (i + 1)); lia. Qed.

Lemma iter_next_small (d i : nat) :
  (i + d < NTask)%nat -> Nat.iter d next i = (i + d)%nat.
Proof.
  induction d as [|d IH]; intros Hd; [cbn; lia|].
  rewrite Nat.iter_succ, IH by lia. unfold next_rank.
  destruct (Nat.leb_spec NTask (i + d + 1)); lia.
Qed.

(** The turns go round: from any rank every rank comes up within [NTask]
    turns. *)
Lemma next_rank_reaches (i r : nat) :
  (i < NTask)%nat -> (r < NTask)%nat ->
  exists d, (d < NTask)%nat /\ Nat.iter d next i = r.
Proof.
  intros Hi Hr. destruct (Nat.le_gt_cases i r) as [Hle|Hgt].
  - exists (r - i)%nat. split; [lia|]. rewrite iter_next_small by lia. lia.
  - exists (r + S (NTask - 1 - i))%nat. split; [lia|].
    rewrite Nat.iter_add, Nat.iter_succ.
    rewrite (iter_next_small (NTask - 1 - i) i) by lia.
    replace (next (i + (NTask - 1 - i))) with 0%nat.
    + rewrite iter_next_small by lia. lia.
    + unfold next_rank. destruct (Nat.leb_spec NTask (i + (NTask - 1 - i) + 1)); lia.
Qed.

(** With something to shed, the loop comes to the next rank that has a
    particle to give up and takes it. *)
Lemma shed_finds_sender (ta : nat) (n : Z) (tg : list (list Z)) (ct : Z) :
  n <> 0 ->
  forall d i,
    mget tg (Nat.iter d next i) ta > 0 ->
    exists d' j,
      (d' <= d)%nat /\ j = Nat.iter d' next i /\ mget tg j ta > 0 /\
      forall fuel,
        xshed (S d' + fuel) ta i n tg ct =
        xshed fuel ta (next j) (n - 1) (mdec tg j ta) (ct - 1).
Proof.
  intros Hn. induction d as [|d IH]; intros i Hpos.
  - exists 0%nat, i. split; [lia|]. split; [reflexivity|]. split; [exact Hpos|].
    intros fuel. now apply shed_step_pos.
  - destruct (Z_gt_le_dec (mget tg i ta) 0) as [Hi|Hi].
    + exists 0%nat, i. split; [lia|]. split; [reflexivity|]. split; [exact Hi|].
      intros fuel. now apply shed_step_pos.
    + rewrite Nat.iter_succ_r in Hpos.
      destruct (IH (next i) Hpos) as (d' & j & Hd' & Hj & Hjpos & Hrun).
      exists (S d'), j. split; [lia|]. split; [now rewrite Nat.iter_succ_r|].
      split; [exact Hjpos|]. intros fuel.
      change (S (S d') + fuel)%nat with (S (S d' + fuel)).
      rewrite shed_step_none by assumption. apply Hrun.
Qed.

Lemma iter_next_lt (d i : nat) : (i < NTask)%nat -> (Nat.iter d next i < NTask)%nat.
Proof.
  intros Hi. induction d as [|d IH]; [exact Hi|].
  rewrite Nat.iter_succ. apply next_rank_lt. lia.
Qed.

Lemma col_avail_pos (m : list (list Z)) (ta : nat) :
  0 < col_avail NTask m ta -> exists r, (r < NTask)%nat /\ mget m r ta > 0.
Proof.
  unfold col_avail. induction NTask as [|n IH]; cbn [for_loop]; [lia|].
  intros Hpos. destruct (Z_gt_le_dec (mget m n ta) 0) as [Hn|Hn].
  - exists n. split; [lia|exact Hn].
  - destruct IH as (r & Hr & Hm); [lia|]. exists r. split; [lia|exact Hm].
Qed.

Lemma col_avail_mdec (m : list (list Z)) (j ta : nat) (n : nat) :
  (j < length m)%nat -> (ta < length (m !!! j))%nat -> mget m j ta > 0 ->
  for_loop n (fun r s => s + Z.max 0 (mget (mdec m j ta) r ta)) 0 =
  for_loop n (fun r s => s + Z.max 0 (mget m r ta)) 0 - (if (j <? n)%nat then 1 else 0).
Proof.
  intros Hj Hta Hpos. induction n as [|n IH]; [reflexivity|].
  cbn [for_loop]. rewrite IH, mget_mdec.
  destruct (Nat.ltb_spec j n), (Nat.ltb_spec j (S n));
    destruct (decide (j = n /\ ta = ta /\ (j < length m)%nat /\
                      (ta < length (m !!! j))%nat)) as [(Heq & _)|Hne]; try lia.
  subst j. lia.
Qed.

Lemma shed_ends (ta : nat) (k : nat) :
  forall fuel i tg ct,
    (i < NTask)%nat ->
    length tg = NTask ->
    (forall r, (r < NTask)%nat -> (ta < length (tg !!! r))%nat) ->
    Z.of_nat k <= col_avail NTask tg ta ->
    (NTask * k <= fuel)%nat ->
    exists res, xshed fuel ta i (Z.of_nat k) tg ct = OK res.
Proof.
  induction k as [|k IH]; intros fuel i tg ct Hi Hlen Hrows Hav Hfuel.
  - exists (tg, ct). destruct fuel; reflexivity.
  - destruct (col_avail_pos tg ta ltac:(lia)) as (r & Hr & Hrpos).
    destruct (next_rank_reaches i r Hi Hr) as (d & Hd & Hreach).
    destruct (shed_finds_sender ta (Z.of_nat (S k)) tg ct ltac:(lia) d i)
      as (d' & j & Hd' & Hj & Hjpos & Hrun); [now rewrite Hreach|].
    assert (Hjn : (j < NTask)%nat) by (rewrite Hj; now apply iter_next_lt).
    replace fuel with (S d' + (fuel - S d'))%nat by lia.
    rewrite Hrun. replace (Z.of_nat (S k) - 1) with (Z.of_nat k) by lia.
    apply IH.
    + apply next_rank_lt. lia.
    + now rewrite mdec_length.
    + intros r' Hr'. rewrite mdec_row_length. auto.
    + unfold col_avail. rewrite col_avail_mdec by (rewrite ?Hlen; auto).
      fold (col_avail NTask tg ta). destruct (Nat.ltb_spec j NTask); lia.
    + lia.
Qed.

(** X12. With at least [ntoomany] particles bound for [ta] on the send
    lists of the ranks together, the [while(ntoomany)] loop ends, after at
    most [NTask] turns for each particle shed. *)
Theorem shed_ends_with_enough_senders (fuel ta i : nat) (n : Z)
    (tg : list (list Z)) (ct : Z) :
  (i < NTask)%nat ->
  length tg = NTask ->
  (forall r, (r < NTask)%nat -> (ta < length (tg !!! r))%nat) ->
  0 <= n <= col_avail NTask tg ta ->
  (NTask * Z.to_nat n <= fuel)%nat ->
  exists tg', xshed fuel ta i n tg ct = OK (tg', ct - n).
Proof.
  intros Hi Hlen Hrows Hn Hfuel.
  destruct (shed_ends ta (Z.to_nat n) fuel i tg ct Hi Hlen Hrows ltac:(lia) Hfuel)
    as ([tg' ct'] & Hrun).
  rewrite Z2Nat.id in Hrun by lia.
  exists tg'. rewrite Hrun. f_equal. f_equal.
  now apply shed_lowers in Hrun as (_ & -> & _).
Qed.

End ExchangeFacts.

(** ** Counting the particles by type *)

Lemma for_loop_S {S : Type} (n : nat) (body : nat -> S -> S) (s : S) :
  for_loop (Datatypes.S n) body s = body n (for_loop n body s).
Proof. reflexivity. Qed.

Lemma sum6_insert (nl : list Z) (a : nat) (v : Z) :
  length nl = 6%nat -> (a < 6)%nat ->
  for_loop 6 (fun t s => s + <[a := v]> nl !!! t) 0 =
  for_loop 6 (fun t s => s + nl !!! t) 0 + (v - nl !!! a).
Proof.
  intros Hlen Ha. cbn [for_loop].
  rewrite !lookup_total_insert_lt by lia.
  repeat case_decide; subst; lia.
Qed.

Lemma count_local_inv (st : part_state) (n : nat) :
  (n <= length (P st))%nat ->
  (forall k, (k < n)%nat -> 0 <= PType (P st !!! k) < 6) ->
  let nl :=
    for_loop n
      (fun i nl =>
         <[Z.to_nat (PType (P st !!! i)) :=
             nl !!! Z.to_nat (PType (P st !!! i)) + 1]> nl)
      (replicate 6 0) in
  length nl = 6%nat /\
  (forall t, 0 <= t < 6 -> nl !!! Z.to_nat t = count_type t (take n (P st))) /\
  for_loop 6 (fun t s => s + nl !!! t) 0 = Z.of_nat n.
Proof.
  intros Hn Hty. cbv zeta. induction n as [|n IH].
  - cbn [for_loop]. split; [reflexivity|]. split; [|reflexivity].
    intros t Ht. unfold count_type. rewrite take_0. cbn.
    assert (Hc : (Z.to_nat t < 6)%nat) by lia.
    revert Hc. generalize (Z.to_nat t) as m. intros m Hm.
    do 6 (destruct m as [|m]; [reflexivity|]). lia.
  - destruct IH as (Hlen & Hcount & Hsum); [lia|intros k Hk; apply Hty; lia|].
    rewrite (for_loop_S n _ (replicate 6 0)). set (nl := for_loop n _ _) in *.
    pose proof (Hty n ltac:(lia)) as Htn.
    set (a := PType (P st !!! n)) in *.
    split; [now rewrite length_insert|]. split.
    + intros t Ht. unfold count_type.
      rewrite (take_S_r (P st) n (P st !!! n))
        by (apply list_lookup_lookup_total_lt; lia).
      rewrite filter_app, length_app, Nat2Z.inj_add.
      fold (count_type t (take n (P st))). rewrite <- (Hcount t Ht).
      rewrite lookup_total_insert_lt by lia.
      destruct (decide (Z.to_nat a = Z.to_nat t)) as [Heq|Hne].
      * assert (a = t) by lia. subst t.
        rewrite filter_cons_True by reflexivity. cbn. lia.
      * rewrite filter_cons_False by (fold a; lia). cbn. lia.
    + rewrite sum6_insert by lia. lia.
Qed.

(** X13. [domain_count_particles], for live entries of the six types:
    [NLocal[t]] is the number of live entries of type [t], the six counts
    add up to [NumPart], [NTotal[t]] adds what the other ranks count, and
    [TotNumPart] is the sum of the six totals. *)
Theorem count_particles_by_type (others : list Z) (st : part_state) :
  (NumPart st <= length (P st))%nat ->
  (forall k, (k < NumPart st)%nat -> 0 <= PType (P st !!! k) < 6) ->
  length others = 6%nat ->
  exists NLocal NTotal TotNumPart,
    domain_count_particles others st = (NLocal, NTotal, TotNumPart) /\
    length NLocal = 6%nat /\
    (forall t, 0 <= t < 6 ->
       NLocal !!! Z.to_nat t = count_type t (live st) /\
       NTotal !!! Z.to_nat t = count_type t (live st) + others !!! Z.to_nat t) /\
    for_loop 6 (fun t s => s + NLocal !!! t) 0 = Z.of_nat (NumPart st) /\
    TotNumPart =
      Z.of_nat (NumPart st) + for_loop 6 (fun t s => s + others !!! t) 0.
Proof.
  intros Hn Hty Hoth.
  destruct (count_local_inv st (NumPart st) Hn Hty) as (Hlen & Hcount & Hsum).
  unfold domain_count_particles, domain_refresh_totals.
  fold (domain_count_local st) in *. set (NLocal := domain_count_local st) in *.
  eexists NLocal, (zip_with Z.add NLocal others), _.
  split; [reflexivity|]. split; [exact Hlen|].
  assert (Hz : forall t, (t < 6)%nat ->
            zip_with Z.add NLocal others !!! t = NLocal !!! t + others !!! t).
  { intros t Ht. apply list_lookup_total_correct.
    rewrite lookup_zip_with.
    rewrite (list_lookup_lookup_total_lt NLocal t) by lia.
    rewrite (list_lookup_lookup_total_lt others t) by lia. reflexivity. }
  split; [|split; [exact Hsum|]].
  - intros t Ht. split; [now apply Hcount|].
    rewrite Hz by lia. f_equal. now apply Hcount.
  - rewrite <- Hsum. cbn [for_loop]. rewrite !Hz by lia. lia.
Qed.

(** ** Reclaiming the gas slots of entries that are no longer gas *)

Lemma swap_Permutation {A : Type} `{!Inhabited A} (l : list A) (i j : nat) :
  (i < length l)%nat -> (j < length l)%nat ->
  <[j := l !!! i]> (<[i := l !!! j]> l) ≡ₚ l.
Proof.
  intros Hi Hj. set (l1 := <[i := l !!! j]> l).
  assert (Hl1 : length l1 = length l) by apply length_insert.
  assert (H1 : (l !!! i) :: l1 ≡ₚ (l !!! j) :: l)
    by (apply insert_Permutation_cons; exact Hi).
  assert (H2 : (l1 !!! j) :: <[j := l !!! i]> l1 ≡ₚ (l !!! i) :: l1)
    by (apply insert_Permutation_cons; lia).
  assert (Hj1 : l1 !!! j = l !!! j).
  { unfold l1. rewrite lookup_total_insert_lt by exact Hi.
    destruct (decide (i = j)); reflexivity. }
  rewrite Hj1, H1 in H2. now apply Permutation_cons_inv in H2.
Qed.

Lemma zip_lookup_total {A B : Type} `{!Inhabited A} `{!Inhabited B}
    (l : list A) (k : list B) (i : nat) :
  (i < length l)%nat -> (i < length k)%nat ->
  zip l k !!! i = (l !!! i, k !!! i).
Proof.
  intros Hl Hk. apply list_lookup_total_correct. rewrite lookup_zip_with.
  rewrite (list_lookup_lookup_total_lt l i) by exact Hl.
  rewrite (list_lookup_lookup_total_lt k i) by exact Hk. reflexivity.
Qed.

(** Taking entry [i] out of the gas prefix by moving the last pair of the
    prefix into its place. *)
Lemma slot_pairs_remove (Pt Pt' : list particle_data) (S : list sph_particle_data)
    (i s : nat) :
  (i < s)%nat -> (s <= length Pt)%nat -> (s <= length S)%nat ->
  take (s - 1) Pt' = take (s - 1) (<[i := Pt !!! (s - 1)%nat]> Pt) ->
  take s (zip Pt S) ≡ₚ
    (Pt !!! i, S !!! i) :: take (s - 1) (zip Pt' (<[i := S !!! (s - 1)%nat]> S)).
Proof.
  intros Hi HP HS Htake.
  rewrite (zip_with_take _ (s - 1) Pt'), Htake, <- zip_with_take.
  rewrite <- (insert_zip_with pair).
  rewrite <- (zip_lookup_total Pt S (s - 1)) by lia.
  rewrite <- (zip_lookup_total Pt S i) by lia.
  apply end_swap_Permutation. rewrite length_zip_with. lia.
Qed.

Lemma reclaim_inv_swap (st0 st : part_state) (i : nat) (ti : Z) :
  (N_sph_slots st0 <= length (P st0))%nat ->
  (N_sph_slots st0 <= length (SphP st0))%nat ->
  reclaim_inv st0 st i ti ->
  (i < N_sph_slots st)%nat ->
  PType (P st !!! i) <> 0 ->
  reclaim_inv st0 (sph_reclaim_swap i st) i 1.
Proof.
  intros HP0 HS0
    (Hn & HlP & HlS & Hi & Hgas & Hnon & Htail & Hperm & Hpairs & Hti & Hrest)
    Hlt Hty.
  unfold slot_pairs in Hpairs.
  set (s := N_sph_slots st) in *. set (N0 := N_sph_slots st0) in *.
  unfold reclaim_inv, sph_reclaim_swap, slot_pairs.
  cbn [P SphP BhP NumPart N_sph_slots N_bh_slots TimeBinCount TimeBinCountSph
       NumActiveParticle ActiveParticle Nextnode Father].
  fold s. fold N0.
  split; [exact Hn|]. split; [now rewrite !length_insert|].
  split; [now rewrite length_insert|]. split; [lia|].
  split.
  { intros k Hk. rewrite !list_lookup_total_insert_ne by lia. now apply Hgas. }
  split.
  { intros k Hk. destruct (decide (k = s - 1)%nat) as [->|Hne].
    - rewrite list_lookup_total_insert_eq by (rewrite length_insert; lia). exact Hty.
    - rewrite !list_lookup_total_insert_ne by lia. apply Hnon. lia. }
  split.
  { intros k Hk. rewrite !list_lookup_insert_ne by lia. now apply Htail. }
  split.
  { rewrite <- Hperm. rewrite !take_insert_lt by lia.
    rewrite <- (lookup_total_take_lt (P st) N0 i) by lia.
    rewrite <- (lookup_total_take_lt (P st) N0 (s - 1)) by lia.
    apply swap_Permutation; rewrite length_take; lia. }
  split.
  { rewrite <- Hpairs.
    rewrite (slot_pairs_remove (P st)
               (<[(s - 1)%nat := P st !!! i]> (<[i := P st !!! (s - 1)%nat]> (P st)))
               (SphP st) i s) by (try lia; now rewrite take_insert_ge by lia).
    rewrite filter_cons_False by (cbn [fst]; exact Hty). reflexivity. }
  split; [right; split; [reflexivity|lia]|exact Hrest].
Qed.

Lemma sph_reclaim_loop_inv (st0 : part_state) (fuel : nat) :
  (N_sph_slots st0 <= length (P st0))%nat ->
  (N_sph_slots st0 <= length (SphP st0))%nat ->
  forall i st ti st' ti',
    reclaim_inv st0 st i ti ->
    (N_sph_slots st - i <= fuel)%nat ->
    sph_reclaim_loop fuel i st ti = (st', ti') ->
    reclaim_inv st0 st' (N_sph_slots st') ti'.
Proof.
  intros HP0 HS0.
  induction fuel as [|fuel IH]; intros i st ti st' ti' Hinv Hfuel Hrun;
    cbn [sph_reclaim_loop] in Hrun.
  - injection Hrun as <- <-. replace (N_sph_slots st) with i; [exact Hinv|].
    destruct Hinv as (_ & _ & _ & Hi & _). lia.
  - destruct (Nat.ltb_spec i (N_sph_slots st)) as [Hlt|Hge].
    + destruct (Z.eqb_spec (PType (P st !!! i)) 0) as [Hty|Hty]; cbn [negb] in Hrun.
      * eapply IH; [| |exact Hrun]; [|lia].
        destruct Hinv as (H1 & H2 & H3 & H4 & Hgas & Hrest).
        split; [exact H1|]. split; [exact H2|]. split; [exact H3|].
        split; [lia|]. split; [|exact Hrest].
        intros k Hk. destruct (decide (k = i)) as [->|Hne]; [exact Hty|].
        apply Hgas. lia.
      * eapply IH; [| |exact Hrun].
        -- now apply (reclaim_inv_swap st0 st i ti).
        -- unfold sph_reclaim_swap. cbn [N_sph_slots]. lia.
    + injection Hrun as <- <-. replace (N_sph_slots st) with i; [exact Hinv|].
      destruct Hinv as (_ & _ & _ & Hi & _). lia.
Qed.

Lemma reclaim_inv_init (st : part_state) : reclaim_inv st st 0 0.
Proof.
  unfold reclaim_inv. repeat split; try reflexivity; try lia; intros; lia.
Qed.

(** The reclaim loop from the first entry. *)
Lemma sph_reclaim_facts (st : part_state) :
  (N_sph_slots st <= NumPart st <= length (P st))%nat ->
  (N_sph_slots st <= length (SphP st))%nat ->
  exists tree_invalid st',
    domain_sph_garbage_collection_reclaim true st = (tree_invalid, st') /\
    NumPart st' = NumPart st /\
    length (P st') = length (P st) /\
    length (SphP st') = length (SphP st) /\
    (N_sph_slots st' <= N_sph_slots st)%nat /\
    (forall k, (k < N_sph_slots st')%nat -> PType (P st' !!! k) = 0) /\
    (forall k, (N_sph_slots st' <= k < N_sph_slots st)%nat ->
       PType (P st' !!! k) <> 0) /\
    (forall k, (N_sph_slots st <= k)%nat -> P st' !! k = P st !! k) /\
    live st' ≡ₚ live st /\
    slot_pairs st' ≡ₚ filter (fun x => PType (fst x) = 0) (slot_pairs st) /\
    ((tree_invalid = 0 /\ N_sph_slots st' = N_sph_slots st) \/
     (tree_invalid = 1 /\ (N_sph_slots st' < N_sph_slots st)%nat)) /\
    BhP st' = BhP st /\ N_bh_slots st' = N_bh_slots st /\
    TimeBinCount st' = TimeBinCount st /\ TimeBinCountSph st' = TimeBinCountSph st.
Proof.
  intros Hn HS.
  unfold domain_sph_garbage_collection_reclaim.
  destruct (sph_reclaim_loop (N_sph_slots st) 0 st 0) as [st' ti] eqn:Hrun.
  pose proof (sph_reclaim_loop_inv st (N_sph_slots st) ltac:(lia) HS 0 st 0 st' ti
                (reclaim_inv_init st) ltac:(lia) Hrun)
    as (HN & HlP & HlS & Hi & Hgas & Hnon & Htail & Hperm & Hpairs & Hti & Hb & Hnb &
        Ht1 & Ht2 & _).
  exists ti, st'. split; [reflexivity|]. split; [exact HN|].
  split; [exact HlP|]. split; [exact HlS|]. split; [lia|].
  split; [exact Hgas|]. split; [exact Hnon|]. split; [exact Htail|].
  split.
  { unfold live. rewrite HN.
    rewrite <- (take_drop (N_sph_slots st) (take (NumPart st) (P st'))).
    rewrite <- (take_drop (N_sph_slots st) (take (NumPart st) (P st))).
    rewrite !take_take, !Nat.min_l by lia.
    assert (Hd : drop (N_sph_slots st) (take (NumPart st) (P st'))
                 = drop (N_sph_slots st) (take (NumPart st) (P st))).
    { apply list_eq. intros k. rewrite !lookup_drop, !lookup_take.
      destruct (decide (N_sph_slots st + k < NumPart st)%nat); [|reflexivity].
      apply Htail. lia. }
    rewrite Hd, Hperm. reflexivity. }
  split.
  { rewrite <- Hpairs. rewrite filter_all_true; [reflexivity|].
    intros [p sl] Hin. cbn [fst]. unfold slot_pairs in Hin.
    apply list_elem_of_lookup in Hin as [k Hk].
    apply lookup_take_Some in Hk as [Hk Hlt].
    apply lookup_zip_with_Some in Hk as (p' & sl' & [= <- <-] & Hp & _).
    apply list_lookup_total_correct in Hp. rewrite <- Hp. now apply Hgas. }
  split; [exact Hti|]. repeat split; assumption.
Qed.

(** X14. The reclaim pass with the option [SFR], on a state whose gas prefix
    lies within the tables: afterwards the first [N_sph_slots] base entries
    are all gas and the entries taken out of the prefix are not; the entries
    that were in the prefix have only changed places among themselves and
    the entries behind it are untouched, so the live entries are the ones
    there were; every entry left in the prefix still has the gas slot it
    had; and the tree is reported invalid exactly when [N_sph_slots] went
    down.  Without the option the pass does nothing and returns 0. *)
Theorem sph_reclaim_spec (st : part_state) :
  (N_sph_slots st <= NumPart st <= length (P st))%nat ->
  (N_sph_slots st <= length (SphP st))%nat ->
  domain_sph_garbage_collection_reclaim false st = (0, st) /\
  exists tree_invalid st',
    domain_sph_garbage_collection_reclaim true st = (tree_invalid, st') /\
    NumPart st' = NumPart st /\
    (N_sph_slots st' <= N_sph_slots st)%nat /\
    (forall k, (k < N_sph_slots st')%nat -> PType (P st' !!! k) = 0) /\
    (forall k, (N_sph_slots st' <= k < N_sph_slots st)%nat ->
       PType (P st' !!! k) <> 0) /\
    (forall k, (N_sph_slots st <= k)%nat -> P st' !! k = P st !! k) /\
    live st' ≡ₚ live st /\
    slot_pairs st' ≡ₚ filter (fun x => PType (fst x) = 0) (slot_pairs st) /\
    ((tree_invalid = 0 /\ N_sph_slots st' = N_sph_slots st) \/
     (tree_invalid = 1 /\ (N_sph_slots st' < N_sph_slots st)%nat)) /\
    BhP st' = BhP st /\ N_bh_slots st' = N_bh_slots st /\
    TimeBinCount st' = TimeBinCount st /\ TimeBinCountSph st' = TimeBinCountSph st.
Proof.
  intros Hn HS. split; [reflexivity|].
  destruct (sph_reclaim_facts st Hn HS)
    as (ti & st' & H1 & H2 & _ & _ & H3 & H4 & H5 & H6 & H7 & H8 & H9 & H10).
  exists ti, st'. repeat split; try assumption; apply H10.
Qed.

(** ** The gas slots through the mass-zero elimination *)

Lemma gc_eliminate_pairs (i : nat) (st : part_state) :
  (i < NumPart st)%nat ->
  (NumPart st <= length (P st))%nat ->
  gas_prefix st ->
  (N_sph_slots st <= length (SphP st))%nat ->
  slot_pairs st ≡ₚ
    (if PType (P st !!! i) =? 0 then [(P st !!! i, SphP st !!! i)] else [])
    ++ slot_pairs (gc_eliminate i st) /\
  (N_sph_slots (gc_eliminate i st) <= length (SphP (gc_eliminate i st)))%nat.
Proof.
  intros Hi Hlen [Hsn Hgas] HS. unfold gc_eliminate, slot_pairs.
  destruct (Z.eqb_spec (PType (P st !!! i)) 0) as [Hty|Hty];
    cbn [P SphP N_sph_slots].
  - assert (His : (i < N_sph_slots st)%nat) by (apply Hgas; assumption).
    split; [|rewrite length_insert; lia].
    cbn [app]. apply slot_pairs_remove; try lia.
    now rewrite take_insert_ge by lia.
  - assert (His : ~ (i < N_sph_slots st)%nat) by (rewrite <- Hgas; assumption).
    split; [|exact HS]. cbn [app].
    rewrite !zip_with_take. now rewrite take_insert_ge by lia.
Qed.

Lemma all_gc_loop_pairs (st0 : part_state) (fuel : nat) :
  forall i st ce cg st' ce' cg',
    gc_inv st0 st i ce cg ->
    (N_sph_slots st <= length (SphP st))%nat ->
    filter (fun x => massless (fst x) = false) (slot_pairs st)
      ≡ₚ filter (fun x => massless (fst x) = false) (slot_pairs st0) ->
    all_gc_loop fuel i st ce cg = (st', ce', cg') ->
    filter (fun x => massless (fst x) = false) (slot_pairs st')
      ≡ₚ filter (fun x => massless (fst x) = false) (slot_pairs st0).
Proof.
  induction fuel as [|fuel IH]; intros i st ce cg st' ce' cg' Hinv HS Hpairs Hrun;
    cbn [all_gc_loop] in Hrun.
  - now injection Hrun as <- <- <-.
  - destruct (Nat.ltb_spec i (NumPart st)) as [Hlt|Hge];
      [|now injection Hrun as <- <- <-].
    destruct (Qeq_bool (Mass (P st !!! i)) 0) eqn:Hm.
    + pose proof Hinv as (Hlen & _ & Hgas & _).
      destruct (gc_eliminate_pairs i st Hlt Hlen Hgas HS) as [Hrem HS'].
      eapply IH; [| | |exact Hrun].
      * now apply gc_inv_eliminate.
      * exact HS'.
      * rewrite <- Hpairs, Hrem.
        destruct (PType (P st !!! i) =? 0); cbn [app]; [|reflexivity].
        rewrite filter_cons_False; [reflexivity|].
        cbn [fst]. unfold massless. rewrite Hm. discriminate.
    + eapply IH; [| | |exact Hrun]; [|exact HS|exact Hpairs].
      destruct Hinv as (Hlen & Hi & Hgas & Hdone & Hrest).
      split; [exact Hlen|]. split; [lia|]. split; [exact Hgas|].
      split; [|exact Hrest].
      intros k Hk. destruct (decide (k = i)) as [->|Hne]; [exact Hm|].
      apply Hdone. lia.
Qed.

(** X15. Through the mass-zero elimination every gas entry that stays
    keeps its gas slot: the entries of the gas prefix with their slots are
    afterwards the pairs there were, less those of the massless entries. *)
Theorem all_gc_keeps_gas_slots (others0 others : Z) (st : part_state) :
  (NumPart st <= length (P st))%nat ->
  gas_prefix st ->
  (N_sph_slots st <= length (SphP st))%nat ->
  slot_pairs (snd (domain_all_garbage_collection others0 others st))
    ≡ₚ filter (fun x => massless (fst x) = false) (slot_pairs st).
Proof.
  intros Hlen Hgas HS. unfold domain_all_garbage_collection.
  destruct (all_gc_loop (NumPart st) 0 st 0 0) as [[st' ce] cg] eqn:Hrun.
  cbn [snd].
  pose proof (all_gc_loop_inv st (NumPart st) 0 st 0 0 st' ce cg
                (gc_inv_init st Hlen Hgas) ltac:(lia) Hrun)
    as (Hlen' & _ & [Hsn' _] & Hdone & _).
  rewrite <- (all_gc_loop_pairs st (NumPart st) 0 st 0 0 st' ce cg
                (gc_inv_init st Hlen Hgas) HS (reflexivity _) Hrun).
  rewrite filter_all_true; [reflexivity|].
  intros [p sl] Hin. cbn [fst]. unfold slot_pairs in Hin.
  apply list_elem_of_lookup in Hin as [k Hk].
  apply lookup_take_Some in Hk as [Hk Hlt].
  apply lookup_zip_with_Some in Hk as (p' & sl' & [= <- <-] & Hp & _).
  apply list_lookup_total_correct in Hp. rewrite <- Hp. apply Hdone. lia.
Qed.

(** ** What the black-hole pass has checked when it returns *)

Lemma for_loopR_no_fuel {S : Type} (n : nat) (body : nat -> S -> result S) (s : S) :
  (forall i t, body i t <> OutOfFuel) -> for_loopR n body s <> OutOfFuel.
Proof.
  intros Hbody. induction n as [|n IH]; cbn [for_loopR]; [discriminate|].
  destruct (for_loopR n body s) as [t| |]; cbn [rbind];
    [apply Hbody|discriminate|contradiction].
Qed.

Section BhChecked.

Variable MaxPartBh : nat.
Variable qsort :
  (bh_particle_data -> bh_particle_data -> Z) ->
  list bh_particle_data -> list bh_particle_data.

(** X16. Whatever the tables and whatever [qsort] does: a black-hole pass
    that found black-hole slots on some rank and returns has checked that
    every live entry of type 5 points to a slot below [N_bh_slots] carrying
    its identifier and that [N_bh_slots] is the number of these entries;
    with no black-hole slot on any rank it returns at once and checks
    nothing; and the only fatal error it ends in is 1. *)
Theorem bh_gc_checked (others0 : Z) (st : part_state) :
  (forall r st',
     domain_bh_garbage_collection MaxPartBh qsort others0 st = OK (r, st') ->
     sumup_large_ints others0 (N_bh_slots st) <> 0 ->
     r = 0 /\
     (forall i, (i < NumPart st')%nat -> PType (P st' !!! i) = 5 ->
        (PI (P st' !!! i) < N_bh_slots st')%nat /\
        BhID (BhP st' !!! PI (P st' !!! i)) = ID (P st' !!! i)) /\
     N_bh_slots st' = length (bh_indices (P st') (NumPart st'))) /\
  (sumup_large_ints others0 (N_bh_slots st) = 0 ->
   domain_bh_garbage_collection MaxPartBh qsort others0 st = OK (0, st)) /\
  (forall code,
     domain_bh_garbage_collection MaxPartBh qsort others0 st = Fatal code ->
     code = 1) /\
  domain_bh_garbage_collection MaxPartBh qsort others0 st <> OutOfFuel.
Proof.
  unfold domain_bh_garbage_collection.
  destruct (Z.eqb_spec (sumup_large_ints others0 (N_bh_slots st)) 0) as [Hz|Hnz].
  { split; [intros r st' _ Hne; contradiction|].
    split; [reflexivity|]. split; discriminate. }
  assert (Hlink : forall i b code,
            bh_link_body (P st) (N_bh_slots st) i b = Fatal code -> code = 1).
  { intros i b code. unfold bh_link_body.
    destruct (PType (P st !!! i) =? 5); [|discriminate].
    destruct (N_bh_slots st <=? PI (P st !!! i))%nat; [now intros [= <-]|].
    destruct (negb _); [now intros [= <-]|discriminate]. }
  assert (Hcheck : forall Pt B nbh i j code,
            bh_check_body Pt B nbh i j = Fatal code -> code = 1).
  { intros Pt B nbh i j code. unfold bh_check_body.
    destruct (negb (PType (Pt !!! i) =? 5)); [discriminate|].
    destruct (nbh <=? PI (Pt !!! i))%nat; [now intros [= <-]|].
    destruct (negb _); [now intros [= <-]|discriminate]. }
  assert (Hlink' : forall i b, bh_link_body (P st) (N_bh_slots st) i b <> OutOfFuel).
  { intros i b. unfold bh_link_body.
    destruct (PType (P st !!! i) =? 5); [|discriminate].
    destruct (N_bh_slots st <=? PI (P st !!! i))%nat; [discriminate|].
    destruct (negb _); discriminate. }
  assert (Hcheck' : forall Pt B nbh i j, bh_check_body Pt B nbh i j <> OutOfFuel).
  { intros Pt B nbh i j. unfold bh_check_body.
    destruct (negb (PType (Pt !!! i) =? 5)); [discriminate|].
    destruct (nbh <=? PI (Pt !!! i))%nat; [discriminate|].
    destruct (negb _); discriminate. }
  destruct (for_loopR (NumPart st) (bh_link_body (P st) (N_bh_slots st)) _)
    as [B2|code|] eqn:HB2; cbn [rbind].
  - set (B3 := qsort bh_cmp_reverse_link (take (N_bh_slots st) B2)
               ++ drop (N_bh_slots st) B2).
    set (nbh := bh_trim (N_bh_slots st) B3).
    destruct (for_loopR (NumPart st) _ 0%nat) as [j|code|] eqn:Hj; cbn [rbind].
    + destruct (Nat.eqb_spec j nbh) as [->|Hne]; cbn [negb].
      * split; [|split; [intros; contradiction|split; discriminate]].
        intros r st' [= <- <-] _.
        cbn [P BhP NumPart N_bh_slots].
        apply bh_check_loop_inv in Hj as [Hcount Hok].
        split; [reflexivity|]. split; [exact Hok|exact Hcount].
      * split; [discriminate|]. split; [intros; contradiction|].
        split; [now intros code [= <-]|discriminate].
    + split; [discriminate|]. split; [intros; contradiction|].
      split; [|discriminate]. intros code' [= <-].
      apply for_loopR_fatal in Hj as (i & t & Hbad). now apply Hcheck in Hbad.
    + exfalso. revert Hj. now apply for_loopR_no_fuel.
  - split; [discriminate|]. split; [intros; contradiction|].
    split; [|discriminate]. intros code' [= <-].
    apply for_loopR_fatal in HB2 as (i & t & Hbad). now apply Hlink in Hbad.
  - exfalso. revert HB2. now apply for_loopR_no_fuel.
Qed.

End BhChecked.

(** ** The three passes of the collector together *)

Lemma live_elem_iff (st : part_state) (p : particle_data) :
  (NumPart st <= length (P st))%nat ->
  p ∈ live st <-> exists k, (k < NumPart st)%nat /\ P st !!! k = p.
Proof.
  intros Hlen. split; [now apply live_elem|].
  intros (k & Hk & <-). unfold live. apply list_elem_of_lookup. exists k.
  rewrite lookup_take_lt by exact Hk. apply list_lookup_lookup_total_lt. lia.
Qed.

Lemma bh_pis_prefix_NoDup (Pt : list particle_data) (n : nat) :
  (n <= length Pt)%nat ->
  (forall i j, (i < n)%nat -> (j < n)%nat ->
     PType (Pt !!! i) = 5 -> PType (Pt !!! j) = 5 ->
     PI (Pt !!! i) = PI (Pt !!! j) -> i = j) ->
  NoDup (PI <$> filter (fun p => PType p = 5) (take n Pt)).
Proof.
  intros Hn Hinj. induction n as [|n IH]; [rewrite take_0; constructor|].
  rewrite (take_S_r Pt n (Pt !!! n)) by (apply list_lookup_lookup_total_lt; lia).
  rewrite filter_app, fmap_app. apply NoDup_app.
  split; [apply IH; [lia|intros i j Hi Hj; apply Hinj; lia]|]. split.
  - intros x Hx Hx'. apply list_elem_of_fmap in Hx as (p & -> & Hp).
    apply list_elem_of_filter in Hp as [Hp5 Hp].
    apply list_elem_of_lookup in Hp as [i Hi].
    apply lookup_take_Some in Hi as [Hi Hin].
    apply list_lookup_total_correct in Hi. subst p.
    destruct (decide (PType (Pt !!! n) = 5)) as [Hn5|Hn5].
    + rewrite filter_cons_True in Hx' by exact Hn5. cbn in Hx'.
      apply list_elem_of_singleton in Hx'.
      assert (i = n); [|lia]. apply Hinj; try lia; assumption.
    + rewrite filter_cons_False in Hx' by exact Hn5. cbn in Hx'.
      now apply elem_of_nil in Hx'.
  - destruct (decide (PType (Pt !!! n) = 5)) as [Hn5|Hn5].
    + rewrite filter_cons_True by exact Hn5. cbn. repeat constructor.
      apply not_elem_of_nil.
    + rewrite filter_cons_False by exact Hn5. constructor.
Qed.

Lemma bh_pis_prefix_inj (Pt : list particle_data) (n : nat) :
  (n <= length Pt)%nat ->
  NoDup (PI <$> filter (fun p => PType p = 5) (take n Pt)) ->
  forall i j, (i < n)%nat -> (j < n)%nat ->
    PType (Pt !!! i) = 5 -> PType (Pt !!! j) = 5 ->
    PI (Pt !!! i) = PI (Pt !!! j) -> i = j.
Proof.
  intros Hn. induction n as [|n IH]; intros Hnd i j Hi Hj Hi5 Hj5 Heq; [lia|].
  rewrite (take_S_r Pt n (Pt !!! n)) in Hnd
    by (apply list_lookup_lookup_total_lt; lia).
  rewrite filter_app, fmap_app in Hnd. apply NoDup_app in Hnd as (Hprev & Hdisj & _).
  assert (Hin : forall k, (k < n)%nat -> PType (Pt !!! k) = 5 ->
            PI (Pt !!! k) ∈ PI <$> filter (fun p => PType p = 5) (take n Pt)).
  { intros k Hk Hk5. apply list_elem_of_fmap_2. apply list_elem_of_filter.
    split; [exact Hk5|]. apply list_elem_of_lookup. exists k.
    rewrite lookup_take_lt by exact Hk. apply list_lookup_lookup_total_lt. lia. }
  assert (Hlast : PType (Pt !!! n) = 5 ->
            PI (Pt !!! n) ∈ PI <$> filter (fun p => PType p = 5) [Pt !!! n]).
  { intros Hn5. rewrite filter_cons_True by exact Hn5. cbn. left. }
  destruct (decide (i = n)) as [->|Hin'], (decide (j = n)) as [->|Hjn].
  - reflexivity.
  - exfalso. apply (Hdisj (PI (Pt !!! j))); [apply Hin; [lia|exact Hj5]|].
    rewrite <- Heq. now apply Hlast.
  - exfalso. apply (Hdisj (PI (Pt !!! i))); [apply Hin; [lia|exact Hi5]|].
    rewrite Heq. now apply Hlast.
  - apply IH; try assumption; lia.
Qed.

(** A state whose live entries are among those of a well-formed state, with
    the same black-hole slots, is well formed. *)
Lemma bh_wf_sub (MaxPartBh : nat) (st st2 : part_state) :
  bh_wf MaxPartBh st ->
  live st2 ⊆+ live st ->
  BhP st2 = BhP st -> N_bh_slots st2 = N_bh_slots st ->
  (NumPart st2 <= length (P st2))%nat ->
  bh_wf MaxPartBh st2.
Proof.
  intros (H1 & H2 & H3 & Hslot & Hinj) Hsub HB HN Hlen2.
  unfold bh_wf. rewrite HB, HN.
  split; [exact H1|]. split; [exact H2|]. split; [exact Hlen2|]. split.
  - intros i Hi Hi5.
    assert (Hin : P st2 !!! i ∈ live st).
    { eapply elem_of_submseteq; [|exact Hsub].
      apply live_elem_iff; [exact Hlen2|]. now exists i. }
    apply live_elem in Hin as (k & Hk & Hpk); [|exact H3].
    rewrite <- Hpk in *. now apply Hslot.
  - apply bh_pis_prefix_inj; [exact Hlen2|].
    pose proof (bh_pis_prefix_NoDup (P st) (NumPart st) H3 Hinj) as Hnd.
    fold (live st) in Hnd. fold (live st2).
    apply submseteq_Permutation in Hsub as [k Hk].
    rewrite Hk, filter_app, fmap_app in Hnd. now apply NoDup_app in Hnd as [Hnd _].
Qed.

Lemma lookup_total_of_lookup {A : Type} `{!Inhabited A} (l k : list A) (i : nat) :
  l !! i = k !! i -> l !!! i = k !!! i.
Proof. intros H. now rewrite !list_lookup_total_alt, H. Qed.

(** The reclaim pass with or without the option, on a state that without
    the option has an all-gas prefix already. *)
Lemma sph_reclaim_any (SFR : bool) (st : part_state) :
  (N_sph_slots st <= NumPart st <= length (P st))%nat ->
  (N_sph_slots st <= length (SphP st))%nat ->
  (SFR = false -> forall k, (k < N_sph_slots st)%nat -> PType (P st !!! k) = 0) ->
  exists tree_invalid st',
    domain_sph_garbage_collection_reclaim SFR st = (tree_invalid, st') /\
    NumPart st' = NumPart st /\
    length (P st') = length (P st) /\
    length (SphP st') = length (SphP st) /\
    (N_sph_slots st' <= N_sph_slots st)%nat /\
    (forall k, (k < N_sph_slots st')%nat -> PType (P st' !!! k) = 0) /\
    (forall k, (N_sph_slots st' <= k < N_sph_slots st)%nat ->
       PType (P st' !!! k) <> 0) /\
    (forall k, (N_sph_slots st <= k)%nat -> P st' !! k = P st !! k) /\
    live st' ≡ₚ live st /\
    slot_pairs st' ≡ₚ filter (fun x => PType (fst x) = 0) (slot_pairs st) /\
    ((tree_invalid = 0 /\ N_sph_slots st' = N_sph_slots st) \/
     (tree_invalid = 1 /\ (N_sph_slots st' < N_sph_slots st)%nat)) /\
    BhP st' = BhP st /\ N_bh_slots st' = N_bh_slots st /\
    TimeBinCount st' = TimeBinCount st /\ TimeBinCountSph st' = TimeBinCountSph st.
Proof.
  intros Hn HS Hoff. destruct SFR; [now apply sph_reclaim_facts|].
  exists 0, st. split; [reflexivity|].
  split; [reflexivity|]. split; [reflexivity|]. split; [reflexivity|].
  split; [lia|]. split; [now apply Hoff|]. split; [intros k Hk; lia|].
  split; [reflexivity|]. split; [reflexivity|]. split.
  { rewrite filter_all_true; [reflexivity|].
    intros [p sl] Hin. cbn [fst]. unfold slot_pairs in Hin.
    apply list_elem_of_lookup in Hin as [k Hk].
    apply lookup_take_Some in Hk as [Hk Hlt].
    apply lookup_zip_with_Some in Hk as (p' & sl' & [= <- <-] & Hp & _).
    apply list_lookup_total_correct in Hp. rewrite <- Hp. now apply Hoff. }
  split; [left; split; reflexivity|]. repeat split.
Qed.

(** The entries of the old prefix after the reclaim pass are those that
    were there. *)
Lemma sph_reclaim_prefix (SFR : bool) (st : part_state) :
  (N_sph_slots st <= NumPart st <= length (P st))%nat ->
  (N_sph_slots st <= length (SphP st))%nat ->
  (SFR = false -> forall k, (k < N_sph_slots st)%nat -> PType (P st !!! k) = 0) ->
  take (N_sph_slots st) (P (snd (domain_sph_garbage_collection_reclaim SFR st)))
    ≡ₚ take (N_sph_slots st) (P st).
Proof.
  intros Hn HS Hoff. unfold domain_sph_garbage_collection_reclaim.
  destruct SFR; [|reflexivity].
  destruct (sph_reclaim_loop (N_sph_slots st) 0 st 0) as [st' ti] eqn:Hrun.
  cbn [snd].
  now pose proof (sph_reclaim_loop_inv st (N_sph_slots st) ltac:(lia) HS 0 st 0 st' ti
                    (reclaim_inv_init st) ltac:(lia) Hrun)
    as (_ & _ & _ & _ & _ & _ & _ & Hperm & _).
Qed.

Section CollectorFacts.

Variable SFR : bool.
Variable MaxPartBh : nat.
Variable qsort :
  (bh_particle_data -> bh_particle_data -> Z) ->
  list bh_particle_data -> list bh_particle_data.

Hypothesis qsort_Permutation : forall l, qsort bh_cmp_reverse_link l ≡ₚ l.
Hypothesis qsort_StronglySorted :
  forall l, StronglySorted bh_le (qsort bh_cmp_reverse_link l).

(** The black-hole pass on a well-formed state, with what it leaves alone. *)
Lemma bh_gc_links (others0 : Z) (st : part_state) :
  bh_wf MaxPartBh st ->
  0 <= others0 ->
  exists st',
    domain_bh_garbage_collection MaxPartBh qsort others0 st = OK (0, st') /\
    NumPart st' = NumPart st /\
    length (P st') = length (P st) /\
    (forall i, P st' !!! i = set_PI (PI (P st' !!! i)) (P st !!! i)) /\
    (forall i, PType (P st !!! i) <> 5 -> P st' !!! i = P st !!! i) /\
    SphP st' = SphP st /\ N_sph_slots st' = N_sph_slots st /\
    (forall i, (i < NumPart st')%nat -> PType (P st' !!! i) = 5 ->
       (PI (P st' !!! i) < N_bh_slots st')%nat /\
       BhID (BhP st' !!! PI (P st' !!! i)) = ID (P st' !!! i)) /\
    N_bh_slots st' = length (bh_indices (P st') (NumPart st')).
Proof.
  intros Hwf Hoth. pose proof Hwf as (Hnb & HlenB & _ & Hslot & _).
  destruct (bh_gc_wf MaxPartBh qsort qsort_Permutation qsort_StronglySorted
              others0 st Hwf Hoth)
    as (st' & Hrun & HN & HlenP & Hframe & Hn' & Hpi & Hslots & _).
  destruct (bh_gc_returns MaxPartBh qsort qsort_Permutation qsort_StronglySorted
              others0 st 0 st' HlenB Hnb Hrun)
    as (_ & _ & _ & Hkeep & HS & HNs & _).
  set (t := bh_indices (P st) (NumPart st)) in *.
  assert (Hext : bh_indices (P st') (NumPart st') = t).
  { rewrite HN. apply bh_indices_ext. intros i _. now rewrite (Hframe i). }
  exists st'. split; [exact Hrun|]. split; [exact HN|]. split; [exact HlenP|].
  split; [exact Hframe|]. split; [intros i; apply Hkeep|].
  split; [exact HS|]. split; [exact HNs|]. split; [|now rewrite Hext].
  intros i Hi H5. rewrite (Hframe i) in H5. cbn [PType set_PI] in H5.
  assert (Hit : i ∈ t) by (apply bh_indices_elem; split; [lia|exact H5]).
  apply list_elem_of_lookup in Hit as [k Hk].
  pose proof (lookup_lt_Some _ _ _ Hk) as Hkt. rewrite <- Hn' in Hkt.
  apply list_lookup_total_correct in Hk.
  rewrite <- Hk, Hpi by exact Hkt. split; [exact Hkt|].
  destruct (Hslots k Hkt) as [r ->]. cbn [BhID set_ReverseLink].
  rewrite Hk, (Hframe i). cbn [ID set_PI]. apply Hslot; [lia|exact H5].
Qed.

(** X17. [domain_garbage_collection] on a state whose gas entries all lie
    in the gas prefix (which without the option [SFR] holds gas only) and
    whose black holes each own a slot: the three passes come through; no
    live entry is massless afterwards; the gas prefix is exactly the gas
    entries; the live entries are, up to the [PI] of black holes, the
    entries of non-zero mass there were; every gas entry kept has the gas
    slot it had; every black hole points to a slot below [N_bh_slots] that
    carries its identifier, and [N_bh_slots] is their number; the value
    returned is what the other ranks add to a local flag, which is 1 exactly
    when an entry of the prefix was not gas, or an entry was removed here or
    on another rank; and the counts are those of the table as it is left. *)
Theorem garbage_collection_spec (np0 np bh0 invalid : Z) (counts : list Z)
    (st : part_state) :
  (N_sph_slots st <= NumPart st <= length (P st))%nat ->
  (N_sph_slots st <= length (SphP st))%nat ->
  (forall k, (k < NumPart st)%nat -> PType (P st !!! k) = 0 ->
     (k < N_sph_slots st)%nat) ->
  (SFR = false -> forall k, (k < N_sph_slots st)%nat -> PType (P st !!! k) = 0) ->
  bh_wf MaxPartBh st ->
  np <= np0 -> 0 <= bh0 ->
  exists local st',
    domain_garbage_collection SFR MaxPartBh qsort np0 np bh0 invalid counts st
      = OK (local + invalid, st', domain_count_particles counts st') /\
    (forall k, (k < NumPart st')%nat -> massless (P st' !!! k) = false) /\
    gas_prefix st' /\
    set_PI 0 <$> live st'
      ≡ₚ set_PI 0 <$> filter (fun p => massless p = false) (live st) /\
    slot_pairs st'
      ≡ₚ filter (fun x => massless (fst x) = false)
           (filter (fun x => PType (fst x) = 0) (slot_pairs st)) /\
    (forall i, (i < NumPart st')%nat -> PType (P st' !!! i) = 5 ->
       (PI (P st' !!! i) < N_bh_slots st')%nat /\
       BhID (BhP st' !!! PI (P st' !!! i)) = ID (P st' !!! i)) /\
    N_bh_slots st' = length (bh_indices (P st') (NumPart st')) /\
    (local = 0 \/ local = 1) /\
    (local = 1 <->
       (exists k, (k < N_sph_slots st)%nat /\ PType (P st !!! k) <> 0) \/
       (NumPart st' < NumPart st)%nat \/ np < np0).
Proof.
  intros Hn HS Hgas Hoff Hwf Hnp Hbh.
  destruct (sph_reclaim_any SFR st Hn HS Hoff)
    as (t1 & st1 & Hrun1 & HN1 & HlP1 & HlS1 & Hs1 & Hpre1 & Hnon1 & Htail1 & Hlive1 &
        Hpairs1 & Hflag1 & HB1 & HNb1 & _).
  assert (Hgas1 : gas_prefix st1).
  { split; [lia|]. intros k Hk. split; [|apply Hpre1].
    intros Hty. destruct (Nat.lt_ge_cases k (N_sph_slots st1)) as [|Hge]; [assumption|].
    exfalso. destruct (Nat.lt_ge_cases k (N_sph_slots st)) as [Hlt|Hge'].
    - now apply (Hnon1 k).
    - rewrite (lookup_total_of_lookup _ _ _ (Htail1 k Hge')) in Hty.
      specialize (Hgas k ltac:(lia) Hty). lia. }
  destruct (all_gc_loop (NumPart st1) 0 st1 0 0) as [[st2 ce] cg] eqn:Hrun2.
  pose proof (all_gc_loop_inv st1 (NumPart st1) 0 st1 0 0 st2 ce cg
                (gc_inv_init st1 ltac:(lia) Hgas1) ltac:(lia) Hrun2)
    as (Hlen2 & _ & Hgas2 & Hdone2 & Hperm2 & Hce2 & _ & _ & _ & _ & _ & HB2 & HNb2).
  pose proof (all_gc_loop_pairs st1 (NumPart st1) 0 st1 0 0 st2 ce cg
                (gc_inv_init st1 ltac:(lia) Hgas1) ltac:(lia) (reflexivity _) Hrun2)
    as Hpairs2.
  assert (Hclean2 : forall p, p ∈ live st2 -> massless p = false).
  { intros p Hp. destruct (live_elem st2 p Hlen2 Hp) as (k & Hk & <-).
    now apply Hdone2. }
  assert (Hlive2 : live st2 ≡ₚ filter (fun p => massless p = false) (live st)).
  { rewrite <- Hlive1, <- Hperm2. now rewrite filter_all_true. }
  assert (Hwf2 : bh_wf MaxPartBh st2).
  { apply (bh_wf_sub MaxPartBh st st2 Hwf); [|congruence|congruence|exact Hlen2].
    rewrite Hlive2. apply sublist_submseteq, sublist_filter. }
  destruct (bh_gc_links bh0 st2 Hwf2 Hbh)
    as (st3 & Hrun3 & HN3 & HlP3 & Hframe3 & Hkeep3 & HS3 & HNs3 & Hlinks3 & Hcount3).
  set (t2 := if sumup_large_ints np (NumPart st2) =? sumup_large_ints np0 (NumPart st1)
             then 0 else 1).
  exists (Z.lor (Z.lor (Z.lor 0 t1) t2) 0), st3. split.
  { unfold domain_garbage_collection, domain_all_garbage_collection.
    rewrite Hrun1, Hrun2. fold t2. rewrite Hrun3. reflexivity. }
  split.
  { intros k Hk. rewrite (Hframe3 k). cbn [massless Mass set_PI].
    apply (Hdone2 k). lia. }
  split.
  { destruct Hgas2 as [Hsn2 Htypes2]. split; [lia|].
    intros k Hk. rewrite (Hframe3 k), HNs3. cbn [PType set_PI].
    apply Htypes2. lia. }
  split.
  { rewrite <- Hlive2.
    enough (Heq : set_PI 0 <$> live st3 = set_PI 0 <$> live st2)
      by (rewrite Heq; reflexivity).
    unfold live. rewrite HN3.
    apply list_eq. intros k. rewrite !list_lookup_fmap, !lookup_take.
    destruct (decide (k < NumPart st2)%nat) as [Hk|]; [|reflexivity].
    rewrite (list_lookup_lookup_total_lt (P st3) k) by lia.
    rewrite (list_lookup_lookup_total_lt (P st2) k) by lia.
    cbn. f_equal. rewrite (Hframe3 k). apply set_PI_twice. }
  split.
  { assert (Hsame : slot_pairs st3 = slot_pairs st2).
    { unfold slot_pairs. rewrite HNs3, HS3, !zip_with_take. f_equal.
      destruct Hgas2 as [Hsn2 Htypes2].
      apply list_eq. intros k. rewrite !lookup_take.
      destruct (decide (k < N_sph_slots st2)%nat) as [Hk|]; [|reflexivity].
      rewrite (list_lookup_lookup_total_lt (P st3) k) by lia.
      rewrite (list_lookup_lookup_total_lt (P st2) k) by lia.
      f_equal. apply Hkeep3.
      rewrite (proj2 (Htypes2 k ltac:(lia)) Hk). discriminate. }
    rewrite Hsame, <- Hpairs1, <- Hpairs2. rewrite filter_all_true; [reflexivity|].
    intros [p sl] Hin. cbn [fst]. unfold slot_pairs in Hin.
    destruct Hgas2 as [Hsn2 _].
    apply list_elem_of_lookup in Hin as [k Hk].
    apply lookup_take_Some in Hk as [Hk Hlt].
    apply lookup_zip_with_Some in Hk as (p' & sl' & [= <- <-] & Hp & _).
    apply list_lookup_total_correct in Hp. rewrite <- Hp. apply Hdone2. lia. }
  split; [exact Hlinks3|]. split; [exact Hcount3|].
  assert (Ht2 : (t2 = 0 /\ NumPart st2 = NumPart st1 /\ np = np0) \/
                (t2 = 1 /\ ((NumPart st2 < NumPart st1)%nat \/ np < np0))).
  { unfold t2, sumup_large_ints.
    destruct (Z.eqb_spec (Z.of_nat (NumPart st2) + np) (Z.of_nat (NumPart st1) + np0));
      [left|right]; split; try reflexivity; lia. }
  assert (Hrec : (N_sph_slots st1 < N_sph_slots st)%nat <->
                 exists k, (k < N_sph_slots st)%nat /\ PType (P st !!! k) <> 0).
  { split.
    - intros Hlt.
      assert (Hin : P st1 !!! N_sph_slots st1 ∈ take (N_sph_slots st) (P st)).
      { pose proof (sph_reclaim_prefix SFR st Hn HS Hoff) as Hperm.
        rewrite Hrun1 in Hperm. cbn [snd] in Hperm. rewrite <- Hperm.
        apply list_elem_of_lookup. exists (N_sph_slots st1).
        rewrite lookup_take_lt by exact Hlt.
        apply list_lookup_lookup_total_lt. lia. }
      apply list_elem_of_lookup in Hin as [k Hk].
      apply lookup_take_Some in Hk as [Hk Hkn].
      apply list_lookup_total_correct in Hk.
      exists k. split; [exact Hkn|]. rewrite Hk. apply Hnon1. lia.
    - intros (k & Hk & Hty).
      destruct (Nat.lt_ge_cases (N_sph_slots st1) (N_sph_slots st)) as [|Hge];
        [assumption|].
      exfalso. apply Hty.
      assert (Hin : P st !!! k ∈ take (N_sph_slots st) (P st1)).
      { pose proof (sph_reclaim_prefix SFR st Hn HS Hoff) as Hperm.
        rewrite Hrun1 in Hperm. cbn [snd] in Hperm. rewrite Hperm.
        apply list_elem_of_lookup. exists k.
        rewrite lookup_take_lt by exact Hk.
        apply list_lookup_lookup_total_lt. lia. }
      apply list_elem_of_lookup in Hin as [j Hj].
      apply lookup_take_Some in Hj as [Hj Hjn].
      apply list_lookup_total_correct in Hj. rewrite <- Hj. apply Hpre1. lia. }
  rewrite HN3, <- HN1.
  destruct Hflag1 as [[-> Hs]|[-> Hs]], Ht2 as [(-> & Hn2 & Hnp2)|(-> & Hn2)];
    rewrite ?Z.lor_0_l, ?Z.lor_0_r; change (Z.lor 1 1) with 1;
    (split; [auto|]); rewrite <- Hrec; split; intros H; try lia; try reflexivity;
    tauto.
Qed.

End CollectorFacts.

(** ** The nodes added to the merged tree *)

Lemma grow_daughter_eq (i : Z) (j : nat) (tn : list local_topnode_data) :
  0 <= i < Daughter (node_at tn i) ->
  (Z.to_nat (Daughter (node_at tn i) + Z.of_nat j) < length tn)%nat ->
  grow_daughter i j tn =
  node_set tn (Daughter (node_at tn i) + Z.of_nat j)
    (grown_daughter i (node_at tn i)
       (node_at tn (Daughter (node_at tn i) + Z.of_nat j)) j).
Proof.
  intros Hi Hin. unfold grow_daughter, grown_daughter. cbv zeta.
  set (sub := Daughter (node_at tn i) + Z.of_nat j) in *.
  repeat (rewrite ?node_set_set;
          rewrite ?node_at_set_eq by (rewrite ?node_set_length; exact Hin);
          rewrite ?(node_at_set_ne _ sub i) by lia).
  reflexivity.
Qed.

Lemma grow_daughters_spec (i : Z) (tn : list local_topnode_data) (m : nat) :
  0 <= i < Daughter (node_at tn i) ->
  Daughter (node_at tn i) + Z.of_nat m <= Z.of_nat (length tn) ->
  length (for_loop m (grow_daughter i) tn) = length tn /\
  (forall k, 0 <= k ->
     k < Daughter (node_at tn i) \/ Daughter (node_at tn i) + Z.of_nat m <= k ->
     node_at (for_loop m (grow_daughter i) tn) k = node_at tn k) /\
  (forall j, (j < m)%nat ->
     node_at (for_loop m (grow_daughter i) tn) (Daughter (node_at tn i) + Z.of_nat j)
     = grown_daughter i (node_at tn i)
         (node_at tn (Daughter (node_at tn i) + Z.of_nat j)) j).
Proof.
  intros Hi. induction m as [|m IH]; intros Hroom.
  - cbn. split; [reflexivity|]. split; [reflexivity|]. intros j Hj. lia.
  - destruct IH as (Hlen & Hout & Hin); [lia|]. cbn [for_loop].
    set (tn' := for_loop m (grow_daughter i) tn) in *.
    assert (Hi' : node_at tn' i = node_at tn i) by (apply Hout; lia).
    rewrite grow_daughter_eq; rewrite Hi'; [|exact Hi|rewrite Hlen; lia].
    split; [now rewrite node_set_length|]. split.
    + intros k Hk Hrange. rewrite node_at_set_ne by lia. apply Hout; lia.
    + intros j Hj. destruct (decide (j = m)) as [->|Hne].
      * rewrite node_at_set_eq by (rewrite Hlen; lia).
        rewrite Hout by lia. reflexivity.
      * rewrite node_at_set_ne by lia. apply Hin. lia.
Qed.

Lemma set_Daughter_fields (x y : local_topnode_data) :
  set_Daughter 0 x = set_Daughter 0 y ->
  Size x = Size y /\ StartKey x = StartKey y /\ Count x = Count y /\
  Leaf x = Leaf y /\ Parent x = Parent y /\ PIndex x = PIndex y /\ Cost x = Cost y.
Proof.
  destruct x, y. unfold set_Daughter. cbn. intros [= -> -> -> -> -> -> ->].
  repeat split.
Qed.

Section AddNodesFacts.

Variable MaxTopNodes : Z.
Variable countlimit costlimit : Q.

Abbreviation over_lim := (over_limit countlimit costlimit).
Abbreviation ginv := (grow_inv MaxTopNodes countlimit costlimit).

Lemma grow_inv_init (t : toptree) :
  tree_wf MaxTopNodes t ->
  (forall n, 0 <= n < NTopnodes t -> Daughter (node_at (topNodes t) n) < NTopnodes t) ->
  ginv t 0 t.
Proof.
  intros Hwf Hd. pose proof Hwf as [HN _]. unfold grow_inv.
  split; [exact Hwf|]. split; [lia|]. split; [lia|].
  split; [intros k Hk; split; [reflexivity|now left]|].
  split; [intros k Hk; lia|]. split; [intros k Hk; lia|].
  split; [|split; [reflexivity|intros k Hk; lia]].
  intros n Hn Hdn. specialize (Hd n Hn). lia.
Qed.

Lemma grow_inv_skip (t0 : toptree) (i : Z) (t : toptree) :
  ginv t0 i t ->
  i < NTopnodes t ->
  (Daughter (node_at (topNodes t) i) <? 0) && over_lim (node_at (topNodes t) i)
    && (Size (node_at (topNodes t) i) >? 1) = false ->
  ginv t0 (i + 1) t.
Proof.
  intros (Hwf & HN & Hi & Hold & Hdone & Hnew & Hpar & Hout) Hlt Htest.
  unfold grow_inv. split; [exact Hwf|]. split; [exact HN|]. split; [lia|].
  split; [exact Hold|]. split; [|split; [exact Hnew|split; [exact Hpar|exact Hout]]].
  intros k Hk Hleaf Hsize. destruct (decide (k = i)) as [->|Hne]; [|apply Hdone; lia].
  destruct (Z.ltb_spec (Daughter (node_at (topNodes t) i)) 0); [|lia].
  destruct (Z.gtb_spec (Size (node_at (topNodes t) i)) 1); [|lia].
  cbn [andb] in Htest. now rewrite andb_true_r in Htest.
Qed.

Lemma grow_inv_step (t0 : toptree) (i : Z) (t : toptree) :
  0 <= NTopnodes t0 ->
  ginv t0 i t ->
  i < NTopnodes t ->
  Daughter (node_at (topNodes t) i) < 0 ->
  1 < Size (node_at (topNodes t) i) ->
  NTopnodes t + 8 <= MaxTopNodes ->
  ginv t0 (i + 1)
    (mk_toptree
       (for_loop 8 (grow_daughter i)
          (node_set (topNodes t) i
             (set_Daughter (NTopnodes t) (node_at (topNodes t) i))))
       (NTopnodes t + 8)).
Proof.
  intros HN0 ((HNr & Hlen) & HN & Hi & Hold & Hdone & Hnew & Hpar & Hout & Hnd)
    Hlt Hleaf Hsize Hroom.
  set (tn := topNodes t) in *. set (N := NTopnodes t) in *.
  set (x := node_at tn i) in *.
  set (tn1 := node_set tn i (set_Daughter N x)).
  assert (Hi1 : node_at tn1 i = set_Daughter N x)
    by (apply node_at_set_eq; lia).
  assert (Hk1 : forall k, 0 <= k -> k <> i -> node_at tn1 k = node_at tn k)
    by (intros k Hk Hne; apply node_at_set_ne; lia).
  assert (Hlen1 : length tn1 = length tn) by apply node_set_length.
  destruct (grow_daughters_spec i tn1 8) as (Hlen2 & Hout2 & Hin2);
    [rewrite Hi1; cbn; lia|rewrite Hi1, Hlen1; cbn [Daughter set_Daughter]; lia|].
  rewrite Hi1 in Hout2, Hin2. cbn [Daughter set_Daughter] in Hout2, Hin2.
  set (tn2 := for_loop 8 (grow_daughter i) tn1) in *.
  clearbody tn2. clearbody tn1.
  assert (Hlow : forall k, 0 <= k < N ->
            node_at tn2 k = if decide (k = i) then set_Daughter N x else node_at tn k).
  { intros k Hk. rewrite Hout2 by lia. destruct (decide (k = i)) as [->|Hne];
      [exact Hi1|apply Hk1; lia]. }
  unfold grow_inv, tree_wf. cbn [topNodes NTopnodes].
  split; [split; [lia|now rewrite Hlen2, Hlen1]|]. split; [lia|]. split; [lia|].
  split.
  { intros k Hk. destruct (Hold k Hk) as [Hsame Hd]. rewrite Hlow by lia.
    destruct (decide (k = i)) as [->|Hne]; [|now split].
    split; [exact Hsame|]. right. cbn [Daughter set_Daughter]. fold x in Hd. lia. }
  split.
  { intros k Hk. rewrite Hlow by lia. destruct (decide (k = i)) as [->|Hne].
    - cbn [Daughter set_Daughter]. lia.
    - apply Hdone. lia. }
  split.
  { intros k Hk. destruct (Z_lt_le_dec k N) as [HkN|HkN].
    - pose proof (Hnew k ltac:(lia)) as G. unfold grown_node in G |- *.
      cbv zeta in G |- *.
      assert (Hnode : set_Daughter 0 (node_at tn2 k) = set_Daughter 0 (node_at tn k)).
      { rewrite Hlow by lia. destruct (decide (k = i)) as [->|]; reflexivity. }
      destruct (set_Daughter_fields _ _ Hnode) as (E1 & E4 & E2 & _ & HP & _ & E3).
      rewrite HP. set (q := Parent (node_at tn k)) in *.
      destruct G as (G1 & G2 & G3 & G4 & G5 & G6 & G7 & G8).
      assert (Hq : node_at tn2 q = node_at tn q).
      { rewrite Hlow by lia. destruct (decide (q = i)) as [Hqi|]; [|reflexivity].
        rewrite Hqi in G2. fold x in G2. lia. }
      rewrite Hq, E1, E2, E3, E4. repeat split; try assumption; lia.
    - replace k with (N + Z.of_nat (Z.to_nat (k - N))) by lia.
      set (j := Z.to_nat (k - N)). assert (Hj : (j < 8)%nat) by lia.
      unfold grown_node. cbv zeta. rewrite (Hin2 j Hj).
      cbn [Parent grown_daughter]. rewrite Hlow by lia.
      destruct (decide (i = i)) as [_|]; [|contradiction].
      cbn [Daughter Size Count Cost StartKey set_Daughter grown_daughter].
      replace (N + Z.of_nat j - N) with (Z.of_nat j) by lia.
      repeat split; try reflexivity; lia. }
  split.
  { intros n Hn Hdn. destruct (Z_lt_le_dec n N) as [HnN|HnN].
    - rewrite Hlow in Hdn |- * by lia.
      destruct (decide (n = i)) as [->|Hne].
      + cbn [Daughter set_Daughter]. split; [lia|].
        intros j Hj. replace j with (Z.of_nat (Z.to_nat j)) by lia.
        rewrite Hin2 by lia. reflexivity.
      + destruct (Hpar n ltac:(lia) Hdn) as [Hd8 Hp]. split; [lia|].
        intros j Hj. rewrite Hlow by lia.
        destruct (decide (_ = i)) as [Heq|_]; [|now apply Hp].
        cbn [Parent set_Daughter]. unfold x. rewrite <- Heq. now apply Hp.
    - exfalso. revert Hdn.
      replace n with (N + Z.of_nat (Z.to_nat (n - N))) by lia.
      rewrite Hin2 by lia. cbn [Daughter grown_daughter]. lia. }
  split.
  { intros k Hk. rewrite Hout2 by lia. rewrite Hk1 by lia. apply Hout. lia. }
  intros k Hk. destruct (Z_lt_le_dec k N) as [HkN|HkN].
  - rewrite Hlow by lia. destruct (decide (k = i)) as [->|Hne].
    + right. cbn [Daughter set_Daughter]. lia.
    + apply Hnd. lia.
  - left. replace k with (N + Z.of_nat (Z.to_nat (k - N))) by lia.
    rewrite Hin2 by lia. cbn [Daughter grown_daughter]. lia.
Qed.

(** The loop comes to its end, with [errflag] 0 once every node has had its
    turn, or with [errflag] 1 at a leaf over the limits for whose daughters
    there is no room. *)
Lemma grow_loop_spec (t0 : toptree) (fuel : nat) :
  0 <= NTopnodes t0 ->
  forall i t,
    ginv t0 i t ->
    (Z.to_nat (MaxTopNodes - i) < fuel)%nat ->
    exists err t' i',
      grow_loop MaxTopNodes countlimit costlimit fuel i t = OK (err, t') /\
      ginv t0 i' t' /\
      ((err = 0 /\ i' = NTopnodes t') \/
       (err = 1 /\ i' < NTopnodes t' /\ MaxTopNodes < NTopnodes t' + 8 /\
        Daughter (node_at (topNodes t') i') < 0 /\
        1 < Size (node_at (topNodes t') i') /\
        over_lim (node_at (topNodes t') i') = true)).
Proof.
  intros HN0. induction fuel as [|fuel IH]; intros i t Hinv Hfuel;
    [exfalso; clear - Hfuel; lia|].
  pose proof Hinv as ((HNr & Hlen) & HN & Hi & _).
  cbn [grow_loop].
  destruct (Z.ltb_spec i (NTopnodes t)) as [Hlt|Hge].
  - destruct ((Daughter (node_at (topNodes t) i) <? 0)
              && over_lim (node_at (topNodes t) i)
              && (Size (node_at (topNodes t) i) >? 1)) eqn:Htest.
    + apply andb_true_iff in Htest as [Htest Hsize].
      apply andb_true_iff in Htest as [Hleaf Hover].
      apply Z.ltb_lt in Hleaf. apply Z.gtb_lt in Hsize.
      destruct (Z.leb_spec (NTopnodes t + 8) MaxTopNodes) as [Hroom|Hfull].
      * apply IH; [|lia]. apply grow_inv_step; try assumption; lia.
      * exists 1, t, i. split; [reflexivity|]. split; [exact Hinv|].
        right. repeat split; try assumption; lia.
    + apply IH; [|lia]. now apply grow_inv_skip.
  - exists 0, t, i. split; [reflexivity|].
    replace i with (NTopnodes t) in * by lia. split; [exact Hinv|]. now left.
Qed.

(** X18. The loop of [domain_determineTopTree] that adds nodes to the
    merged tree, on a tree of [NTopnodes] nodes in an array of
    [MaxTopNodes] whose daughters lie within the nodes in use: the loop
    ends, with [errflag] 0 or 1.  The nodes that were there keep all their
    fields but [Daughter], which changes only at a leaf that is opened.
    Every node added stands behind its parent, among the parent's eight
    daughters, with an eighth of its size, of its count (rounded towards
    zero) and of its cost.  With [errflag] 0 no leaf of more than one cell
    is left over the limits; with [errflag] 1 such a leaf is left and the
    array has no room for eight more nodes. *)
Theorem addnodes_spec (t : toptree) :
  tree_wf MaxTopNodes t ->
  (forall n, 0 <= n < NTopnodes t -> Daughter (node_at (topNodes t) n) < NTopnodes t) ->
  exists err t',
    domain_determineTopTree_addnodes MaxTopNodes countlimit costlimit t = OK (err, t') /\
    tree_wf MaxTopNodes t' /\
    NTopnodes t <= NTopnodes t' /\
    (forall k, 0 <= k < NTopnodes t ->
       set_Daughter 0 (node_at (topNodes t') k) = set_Daughter 0 (node_at (topNodes t) k) /\
       (Daughter (node_at (topNodes t') k) = Daughter (node_at (topNodes t) k) \/
        (Daughter (node_at (topNodes t) k) < 0 /\
         NTopnodes t <= Daughter (node_at (topNodes t') k)))) /\
    (forall k, NTopnodes t <= k < NTopnodes t' ->
       grown_node (topNodes t') k) /\
    ((err = 0 /\
      forall k, 0 <= k < NTopnodes t' ->
        Daughter (node_at (topNodes t') k) < 0 -> 1 < Size (node_at (topNodes t') k) ->
        over_lim (node_at (topNodes t') k) = false) \/
     (err = 1 /\ MaxTopNodes < NTopnodes t' + 8 /\
      exists k, 0 <= k < NTopnodes t' /\
        Daughter (node_at (topNodes t') k) < 0 /\ 1 < Size (node_at (topNodes t') k) /\
        over_lim (node_at (topNodes t') k) = true)).
Proof.
  intros Hwf Hd. pose proof Hwf as [HN _].
  destruct (grow_loop_spec t (S (Z.to_nat MaxTopNodes)) ltac:(lia) 0 t
              (grow_inv_init t Hwf Hd) ltac:(lia))
    as (err & t' & i' & Hrun & (Hwf' & HN' & Hi' & Hold & Hdone & Hnew & _) & Hend).
  exists err, t'. split; [exact Hrun|]. split; [exact Hwf'|]. split; [exact HN'|].
  split; [exact Hold|]. split; [exact Hnew|].
  destruct Hend as [[-> ->]|(-> & Hlt & Hfull & Hleaf & Hsize & Hover)].
  - left. split; [reflexivity|exact Hdone].
  - right. split; [reflexivity|]. split; [exact Hfull|].
    exists i'. repeat split; try assumption; lia.
Qed.

End AddNodesFacts.

(** ** The leaf of a key *)

Lemma pow8_pos (s : Z) : pow8 s -> 0 < s.
Proof. intros [k ->]. apply Z.pow_pos_nonneg; lia. Qed.

Lemma leafnode_walk_spec (t : toptree) (key : Z) (fuel : nat) :
  octree_ok t ->
  forall no,
    0 <= no < NTopnodes t ->
    in_range (topNodes t) no key ->
    (Z.to_nat (NTopnodes t - no) <= fuel)%nat ->
    exists leaf,
      no <= leaf < NTopnodes t /\
      Daughter (node_at (topNodes t) leaf) < 0 /\
      in_range (topNodes t) leaf key /\
      leafnode_walk fuel (topNodes t) key no = OK (Leaf (node_at (topNodes t) leaf)).
Proof.
  intros [HN Hok]. induction fuel as [|fuel IH]; intros no Hno Hin Hfuel; [lia|].
  cbn [leafnode_walk]. set (tn := topNodes t) in *. set (x := node_at tn no) in *.
  destruct (Hok no Hno) as (Hsize & Hstart & Hfit & Hdau). fold tn in Hsize, Hstart, Hfit, Hdau.
  fold x in Hsize, Hstart, Hfit, Hdau.
  destruct (Z.geb_spec (Daughter x) 0) as [Hd|Hd].
  - destruct (Hdau ltac:(lia)) as (Hbehind & Hroom & Hparts).
    unfold in_range in Hin. fold tn in Hin. fold x in Hin.
    set (s := Size x / 8).
    assert (Hs : forall j, 0 <= j < 8 ->
              Size (node_at tn (Daughter x + j)) = s /\
              StartKey (node_at tn (Daughter x + j)) = StartKey x + j * s).
    { intros j Hj. destruct (Hparts j Hj) as [H8 Hst].
      assert (Size (node_at tn (Daughter x + j)) = s).
      { unfold s. rewrite <- H8. rewrite Z.mul_comm, Z.div_mul by lia. reflexivity. }
      split; [assumption|]. rewrite Hst. congruence. }
    assert (H8s : Size x = 8 * s).
    { destruct (Hparts 0 ltac:(lia)) as [H8 _]. destruct (Hs 0 ltac:(lia)) as [Hs0 _].
      rewrite <- Hs0. lia. }
    assert (Hspos : 0 < s) by (pose proof (pow8_pos _ Hsize); lia).
    unfold peanokey_wrap. rewrite (Z.mod_small (key - StartKey x)) by lia.
    set (q := (key - StartKey x) / s).
    assert (Hq : 0 <= q < 8).
    { unfold q. split; [apply Z.div_pos; lia|].
      apply Z.div_lt_upper_bound; lia. }
    assert (Hqs : q * s <= key - StartKey x < (q + 1) * s).
    { unfold q. pose proof (Z.mul_div_le (key - StartKey x) s Hspos).
      pose proof (Z.mul_succ_div_gt (key - StartKey x) s Hspos). lia. }
    destruct (Hs q Hq) as [Hsq Hstq].
    destruct (IH (Daughter x + q)) as (leaf & Hleaf & Hl1 & Hl2 & Hrun); try lia.
    + unfold in_range. fold tn. rewrite Hsq, Hstq. lia.
    + exists leaf. split; [lia|]. split; [exact Hl1|]. split; [exact Hl2|exact Hrun].
  - exists no. split; [lia|]. split; [fold x; lia|]. split; [exact Hin|reflexivity].
Qed.

(** X19. On an oct-tree [domain_leafnodefunc] ends for every key in the key
    range of the root, and what it returns is the leaf number of a node
    without daughters whose key range holds the key. *)
Theorem leafnodefunc_finds_leaf (t : toptree) (key : Z) :
  octree_ok t ->
  in_range (topNodes t) 0 key ->
  exists leaf,
    0 <= leaf < NTopnodes t /\
    Daughter (node_at (topNodes t) leaf) < 0 /\
    in_range (topNodes t) leaf key /\
    domain_leafnodefunc t key = OK (Leaf (node_at (topNodes t) leaf)).
Proof.
  intros Hok Hin. pose proof Hok as [HN _]. unfold domain_leafnodefunc.
  apply (leafnode_walk_spec t key (Z.to_nat (NTopnodes t)) Hok 0); [lia|exact Hin|lia].
Qed.

(** ** The shape of the tree through the loop that adds nodes *)

Lemma pow8_shift (s : Z) :
  pow8 s -> 1 < s -> pow8 (Z.shiftr s 3) /\ 8 * Z.shiftr s 3 = s.
Proof.
  intros [k ->] Hbig. destruct k as [|k]; [cbn in Hbig; lia|].
  rewrite Nat2Z.inj_succ, Z.pow_succ_r by lia.
  rewrite Z.shiftr_div_pow2 by lia. change (2 ^ 3) with 8.
  rewrite (Z.mul_comm 8), Z.div_mul by lia.
  split; [now exists k|lia].
Qed.

Lemma daughter_key (start s j : Z) :
  0 <= start -> 0 < s -> start + 8 * s <= 2 ^ 64 -> 0 <= j < 8 ->
  peanokey_wrap (start + peanokey_wrap (j * s)) = start + j * s.
Proof.
  intros Hstart Hs Hfit Hj. unfold peanokey_wrap.
  assert (Hjs : 0 <= j * s <= 7 * s).
  { split; [apply Z.mul_nonneg_nonneg; lia|].
    apply Z.mul_le_mono_nonneg_r; lia. }
  rewrite (Z.mod_small (j * s)) by lia. apply Z.mod_small. lia.
Qed.

Section AddNodesShape.

Variable MaxTopNodes : Z.
Variable countlimit costlimit : Q.

(** X20. The loop that adds nodes keeps the tree an oct-tree: the nodes it
    adds have sizes that are powers of 8 and cut the key range of the leaf
    they are added to into eight equal parts in order. *)
Theorem addnodes_keeps_octree (t : toptree) :
  tree_wf MaxTopNodes t ->
  octree_ok t ->
  exists err t',
    domain_determineTopTree_addnodes MaxTopNodes countlimit costlimit t = OK (err, t') /\
    (err = 0 \/ err = 1) /\
    octree_ok t'.
Proof.
  intros Hwf [HN Hok]. pose proof Hwf as [HNr Hlen].
  assert (Hd : forall n, 0 <= n < NTopnodes t ->
            Daughter (node_at (topNodes t) n) < NTopnodes t).
  { intros n Hn. destruct (Hok n Hn) as (_ & _ & _ & Hdau).
    destruct (Z_lt_le_dec (Daughter (node_at (topNodes t) n)) 0) as [|Hge]; [lia|].
    destruct (Hdau Hge) as (_ & H8 & _). lia. }
  destruct (grow_loop_spec MaxTopNodes countlimit costlimit t
              (S (Z.to_nat MaxTopNodes)) ltac:(lia) 0 t
              (grow_inv_init MaxTopNodes countlimit costlimit t Hwf Hd) ltac:(lia))
    as (err & t' & i' & Hrun &
        ((HNr' & Hlen') & HN' & Hi' & Hold & _ & Hnew & Hpar & _ & Hnd) & Hend).
  exists err, t'. split; [exact Hrun|].
  split; [destruct Hend as [[-> _]|[-> _]]; auto|].
  set (tn := topNodes t) in *. set (tn' := topNodes t') in *.
  set (N0 := NTopnodes t) in *. set (N := NTopnodes t') in *.
  assert (HA : forall m : nat, forall n, 0 <= n < N -> (Z.to_nat n < m)%nat ->
            pow8 (Size (node_at tn' n)) /\ 0 <= StartKey (node_at tn' n) /\
            StartKey (node_at tn' n) + Size (node_at tn' n) <= 2 ^ 64).
  { induction m as [|m IH]; intros n Hn Hm; [lia|].
    destruct (Z_lt_le_dec n N0) as [Hold_n|Hnew_n].
    - destruct (Hold n ltac:(lia)) as [Hsame _].
      destruct (set_Daughter_fields _ _ Hsame) as (-> & -> & _).
      destruct (Hok n ltac:(lia)) as (H1 & H2 & H3 & _). auto.
    - destruct (Hnew n ltac:(lia)) as (G1 & G2 & G3 & G4 & G5 & _ & _ & G8).
      set (p := Parent (node_at tn' n)) in *.
      destruct (IH p ltac:(lia) ltac:(lia)) as (P1 & P2 & P3).
      destruct (pow8_shift _ P1 G4) as [Hp8 H8].
      pose proof (pow8_pos _ Hp8) as Hpos.
      rewrite G5 in G8 |- *. rewrite G8.
      rewrite daughter_key by lia.
      split; [exact Hp8|].
      set (s := Z.shiftr (Size (node_at tn' p)) 3) in *.
      set (j := n - Daughter (node_at tn' p)) in *.
      assert (0 <= j * s <= 7 * s).
      { split; [apply Z.mul_nonneg_nonneg; lia|].
        apply Z.mul_le_mono_nonneg_r; lia. }
      lia. }
  assert (HA' : forall n, 0 <= n < N ->
            pow8 (Size (node_at tn' n)) /\ 0 <= StartKey (node_at tn' n) /\
            StartKey (node_at tn' n) + Size (node_at tn' n) <= 2 ^ 64)
    by (intros n Hn; apply (HA (S (Z.to_nat n))); lia).
  unfold octree_ok. fold tn'. fold N.
  split; [lia|]. intros n Hn. cbv zeta.
  destruct (HA' n Hn) as (A1 & A2 & A3).
  split; [exact A1|]. split; [exact A2|]. split; [exact A3|].
  intros Hdn.
  assert (Hcase : (n < N0 /\ Daughter (node_at tn' n) = Daughter (node_at tn n) /\
                   0 <= Daughter (node_at tn n)) \/
                  N0 <= Daughter (node_at tn' n)).
  { destruct (Z_lt_le_dec n N0) as [Hold_n|Hnew_n].
    - destruct (Hold n ltac:(lia)) as [_ [Heq|[_ Hge]]]; [left|now right].
      split; [exact Hold_n|]. split; [exact Heq|lia].
    - destruct (Hnd n ltac:(lia)) as [Hneg|Hge]; [lia|now right]. }
  destruct Hcase as [(Hold_n & Heq & Hd0)|Hge].
  - destruct (Hok n ltac:(lia)) as (_ & _ & _ & Hdau). fold tn in Hdau.
    destruct (Hdau Hd0) as (Hbehind & Hroom & Hparts).
    rewrite Heq. split; [exact Hbehind|]. split; [lia|].
    intros j Hj.
    destruct (Hold (Daughter (node_at tn n) + j) ltac:(lia)) as [Hsame _].
    destruct (set_Daughter_fields _ _ Hsame) as (-> & -> & _).
    destruct (Hold n ltac:(lia)) as [Hsame_n _].
    destruct (set_Daughter_fields _ _ Hsame_n) as (-> & -> & _).
    now apply Hparts.
  - destruct (Hpar n Hn Hge) as [Hroom Hparent].
    set (d := Daughter (node_at tn' n)) in *.
    assert (Hj : forall j, 0 <= j < 8 ->
              n < d + j /\
              8 * Size (node_at tn' (d + j)) = Size (node_at tn' n) /\
              StartKey (node_at tn' (d + j))
                = StartKey (node_at tn' n) + j * Size (node_at tn' (d + j))).
    { intros j Hj.
      destruct (Hnew (d + j) ltac:(lia)) as (G1 & G2 & G3 & G4 & G5 & _ & _ & G8).
      rewrite (Hparent j Hj) in *. fold d in G2, G3, G8.
      destruct (pow8_shift _ A1 G4) as [Hp8 H8].
      split; [lia|]. rewrite G5. split; [exact H8|].
      pose proof (pow8_pos _ Hp8) as Hpos.
      rewrite G8, G5. replace (d + j - d) with j by lia.
      apply daughter_key; lia. }
    split; [destruct (Hj 0 ltac:(lia)); lia|]. split; [lia|].
    intros j Hj'. destruct (Hj j Hj') as (_ & H1 & H2). now split.
Qed.

End AddNodesShape.

(** ** Counting what is to go *)

Lemma sum_insert (l : list Z) (a : nat) (v : Z) (n : nat) :
  (a < length l)%nat ->
  for_loop n (fun t s => s + <[a := v]> l !!! t) 0 =
  for_loop n (fun t s => s + l !!! t) 0 + (if (a <? n)%nat then v - l !!! a else 0).
Proof.
  intros Ha. induction n as [|n IH]; [reflexivity|].
  cbn [for_loop]. rewrite IH. rewrite lookup_total_insert_lt by exact Ha.
  destruct (Nat.ltb_spec a n), (Nat.ltb_spec a (S n)), (decide (a = n)); subst; lia.
Qed.

Section CountToGoFacts.

Variable NTask ThisTask : nat.
Variable layoutfunc : nat -> nat.
Variable size_P size_Sph size_Bh : Z.

Abbreviation pkg := (package size_P size_Sph size_Bh).
Abbreviation tloop := (togo_loop ThisTask layoutfunc size_P size_Sph size_Bh).
Abbreviation tmark := (togo_mark layoutfunc size_P size_Sph size_Bh).
Abbreviation tcount := (togo_count ThisTask layoutfunc).
Abbreviation total := (fun a : list Z => for_loop NTask (fun t s => s + a !!! t) 0).

Lemma bump_lookup (a : list Z) (target t : nat) :
  (target < length a)%nat ->
  bump target a !!! t = a !!! t + (if decide (target = t) then 1 else 0).
Proof.
  intros H. unfold bump. rewrite lookup_total_insert_lt by exact H.
  destruct (decide (target = t)) as [->|]; lia.
Qed.

Lemma bump_length (a : list Z) (target : nat) : length (bump target a) = length a.
Proof. apply length_insert. Qed.

Lemma bump_total (a : list Z) (target : nat) :
  length a = NTask -> (target < NTask)%nat -> total (bump target a) = total a + 1.
Proof.
  intros Hlen Ht. unfold bump. rewrite sum_insert by lia.
  destruct (Nat.ltb_spec target NTask); lia.
Qed.

Lemma togo_count_S (Pt : list particle_data) (sel : particle_data -> Prop)
    `{!forall p, Decision (sel p)} (t a k : nat) :
  tcount Pt sel t a (S k) =
  (if decide (goes_to ThisTask layoutfunc Pt t a /\ sel (Pt !!! a)) then 1 else 0)
  + tcount Pt sel t (S a) k.
Proof.
  unfold togo_count. cbn [seq].
  destruct (decide (goes_to ThisTask layoutfunc Pt t a /\ sel (Pt !!! a))) as [Hg|Hg].
  - rewrite filter_cons_True by exact Hg. cbn [length]. lia.
  - rewrite filter_cons_False by exact Hg. lia.
Qed.

(** What marking particle [n] does. *)
Lemma togo_mark_spec (n : nat) (s : togo_state) :
  length (tg_toGo s) = NTask -> length (tg_toGoSph s) = NTask ->
  length (tg_toGoBh s) = NTask ->
  (layoutfunc n < NTask)%nat ->
  (n < length (tg_P s))%nat ->
  let s1 := tmark n s in
  let p := tg_P s !!! n in
  let t0 := layoutfunc n in
  length (tg_toGo s1) = NTask /\ length (tg_toGoSph s1) = NTask /\
  length (tg_toGoBh s1) = NTask /\ length (tg_P s1) = length (tg_P s) /\
  tg_P s1 = <[n := set_WillExport true p]> (tg_P s) /\
  (forall t, tg_toGo s1 !!! t = tg_toGo s !!! t + (if decide (t0 = t) then 1 else 0)) /\
  (forall t, tg_toGoSph s1 !!! t =
     tg_toGoSph s !!! t + (if decide (t0 = t /\ PType p = 0) then 1 else 0)) /\
  (forall t, tg_toGoBh s1 !!! t =
     tg_toGoBh s !!! t + (if decide (t0 = t /\ PType p = 5) then 1 else 0)) /\
  total (tg_toGo s1) = total (tg_toGo s) + 1 /\
  total (tg_toGoSph s1) = total (tg_toGoSph s) + (if decide (PType p = 0) then 1 else 0) /\
  total (tg_toGoBh s1) = total (tg_toGoBh s) + (if decide (PType p = 5) then 1 else 0) /\
  tg_nlimit s1 =
    (if decide (PType p = 5)
     then lower (if decide (PType p = 0)
                 then lower (lower (tg_nlimit s) size_P) size_Sph
                 else lower (tg_nlimit s) size_P) size_Bh
     else if decide (PType p = 0)
          then lower (lower (tg_nlimit s) size_P) size_Sph
          else lower (tg_nlimit s) size_P).
Proof.
  intros H1 H2 H3 Ht Hn. cbv zeta. unfold togo_mark.
  destruct (Z.eqb_spec (PType (tg_P s !!! n)) 0) as [E0|E0];
    destruct (Z.eqb_spec (PType (tg_P s !!! n)) 5) as [E5|E5];
    cbn [tg_P tg_toGo tg_toGoSph tg_toGoBh tg_nlimit];
    rewrite ?bump_length, ?length_insert;
    repeat split; try assumption; try reflexivity;
    try (intros t; rewrite ?bump_lookup by lia;
         repeat case_decide; try tauto; try lia);
    try (rewrite ?bump_total by assumption; repeat case_decide; try tauto; lia);
    repeat case_decide; try tauto; try lia; try reflexivity.
Qed.

Ltac range_cases :=
  repeat case_decide; try reflexivity; exfalso;
  repeat match goal with H : _ /\ _ |- _ => destruct H end;
  try congruence; try lia;
  match goal with
  | H : ~ _ |- _ => apply H; repeat split; (lia || assumption || congruence)
  end.

(** The loop when it ends with room left: every particle was looked at. *)
Lemma togo_loop_counts (Pt : list particle_data) (k : nat) :
  forall (n : nat) (s : togo_state),
  length (tg_toGo s) = NTask -> length (tg_toGoSph s) = NTask ->
  length (tg_toGoBh s) = NTask ->
  (forall m, (n <= m < n + k)%nat -> (layoutfunc m < NTask)%nat) ->
  (n + k <= length (tg_P s))%nat ->
  (forall m, (n <= m)%nat -> tg_P s !!! m = Pt !!! m) ->
  pkg < tg_nlimit (tloop k n s) ->
  let s' := tloop k n s in
  length (tg_P s') = length (tg_P s) /\
  (forall t, tg_toGo s' !!! t = tg_toGo s !!! t + tcount Pt (fun _ => True) t n k) /\
  (forall t, tg_toGoSph s' !!! t =
     tg_toGoSph s !!! t + tcount Pt (fun p => PType p = 0) t n k) /\
  (forall t, tg_toGoBh s' !!! t =
     tg_toGoBh s !!! t + tcount Pt (fun p => PType p = 5) t n k) /\
  (forall m, tg_P s' !!! m =
     if decide ((n <= m < n + k)%nat /\ OnAnotherDomain (Pt !!! m) = true /\
                layoutfunc m <> ThisTask)
     then set_WillExport true (Pt !!! m) else tg_P s !!! m).
Proof.
  induction k as [|k IH]; intros n s H1 H2 H3 Hlay Hlen Hsame Hroom; cbv zeta.
  - cbn [togo_loop]. unfold togo_count. cbn [seq filter length].
    repeat split; try (intros; rewrite filter_nil; cbn [length]; lia).
    intros m. case_decide as Hd; [lia | reflexivity].
  - cbn [togo_loop] in Hroom |- *.
    destruct (Z.geb_spec pkg (tg_nlimit s)) as [Hfull|Hfree]; [lia|].
    assert (Hskip : forall t sel (Hdec : forall p, Decision (sel p)),
              ~ (OnAnotherDomain (Pt !!! n) = true /\ layoutfunc n <> ThisTask) ->
              tcount Pt sel t n (S k) = tcount Pt sel t (S n) k).
    { intros t sel Hdec Hno. rewrite togo_count_S.
      case_decide as Hd; [|lia]. exfalso. apply Hno.
      destruct Hd as [(? & ? & ?) _]. split; assumption. }
    assert (HPn : tg_P s !!! n = Pt !!! n) by (apply Hsame; lia).
    assert (Hstep : forall s1,
              length (tg_P s1) = length (tg_P s) ->
              (forall m, m <> n -> tg_P s1 !!! m = tg_P s !!! m) ->
              (forall m, (S n <= m)%nat -> tg_P s1 !!! m = Pt !!! m)).
    { intros s1 _ Hother m Hm. rewrite Hother by lia. apply Hsame. lia. }
    destruct (OnAnotherDomain (tg_P s !!! n)) eqn:Eon; cbn [negb] in Hroom |- *.
    2:{ rewrite HPn in Eon.
        destruct (IH (S n) s H1 H2 H3) as (L & G & GS & GB & F);
          [intros; apply Hlay; lia | lia | intros; apply Hsame; lia | exact Hroom |].
        repeat split; [exact L | | | |].
        - intros t. rewrite G, Hskip; [reflexivity | rewrite Eon; intros [? _]; discriminate].
        - intros t. rewrite GS, Hskip; [reflexivity | rewrite Eon; intros [? _]; discriminate].
        - intros t. rewrite GB, Hskip; [reflexivity | rewrite Eon; intros [? _]; discriminate].
        - intros m. rewrite F. destruct (decide (m = n)) as [->|Hne]; range_cases. }
    destruct (Nat.eqb_spec (layoutfunc n) ThisTask) as [Ehere|Eaway].
    { rewrite HPn in Eon.
      destruct (IH (S n) s H1 H2 H3) as (L & G & GS & GB & F);
        [intros; apply Hlay; lia | lia | intros; apply Hsame; lia | exact Hroom |].
      repeat split; [exact L | | | |].
      - intros t. rewrite G, Hskip; [reflexivity | tauto].
      - intros t. rewrite GS, Hskip; [reflexivity | tauto].
      - intros t. rewrite GB, Hskip; [reflexivity | tauto].
      - intros m. rewrite F. destruct (decide (m = n)) as [->|Hne]; range_cases. }
    assert (Hlt : (layoutfunc n < NTask)%nat) by (apply Hlay; lia).
    assert (Hin : (n < length (tg_P s))%nat) by lia.
    destruct (togo_mark_spec n s H1 H2 H3 Hlt Hin)
      as (M1 & M2 & M3 & ML & MP & MG & MGS & MGB & _).
    rewrite HPn in Eon.
    destruct (IH (S n) (tmark n s) M1 M2 M3) as (L & G & GS & GB & F);
      [intros; apply Hlay; lia | lia
      | intros m Hm; rewrite MP, list_lookup_total_insert_ne by lia; apply Hsame; lia
      | exact Hroom |].
    repeat split.
    + rewrite L. exact ML.
    + intros t. rewrite G, MG, togo_count_S. unfold goes_to.
      repeat case_decide; try lia; exfalso; tauto.
    + intros t. rewrite GS, MGS, togo_count_S, HPn. unfold goes_to.
      repeat case_decide; try lia; exfalso; tauto.
    + intros t. rewrite GB, MGB, togo_count_S, HPn. unfold goes_to.
      repeat case_decide; try lia; exfalso; tauto.
    + intros m. rewrite F, MP, HPn.
      destruct (decide (m = n)) as [->|Hne].
      * rewrite list_lookup_total_insert_eq by lia. range_cases.
      * rewrite list_lookup_total_insert_ne by congruence. range_cases.
Qed.

Lemma total_zeros : total (replicate NTask 0) = 0.
Proof.
  enough (Hgen : forall a b, (b <= a)%nat ->
            for_loop b (fun t s => s + replicate a 0 !!! t) 0 = 0)
    by (apply Hgen; lia).
  intros a b. induction b as [|b IH]; intros Hb; [reflexivity|].
  cbn [for_loop]. rewrite IH by lia.
  rewrite lookup_total_replicate_2 by lia. reflexivity.
Qed.

(** The room left never wraps around, and what was taken from it is the
    size of what was counted. *)
Lemma togo_loop_budget (k : nat) :
  forall (n : nat) (s : togo_state),
  0 <= size_P -> 0 <= size_Sph -> 0 <= size_Bh ->
  length (tg_toGo s) = NTask -> length (tg_toGoSph s) = NTask ->
  length (tg_toGoBh s) = NTask ->
  (forall m, (n <= m < n + k)%nat -> (layoutfunc m < NTask)%nat) ->
  (n + k <= length (tg_P s))%nat ->
  0 < tg_nlimit s < 2 ^ 64 ->
  let s' := tloop k n s in
  0 < tg_nlimit s' <= tg_nlimit s /\
  tg_nlimit s - tg_nlimit s' =
    size_P * (total (tg_toGo s') - total (tg_toGo s))
    + size_Sph * (total (tg_toGoSph s') - total (tg_toGoSph s))
    + size_Bh * (total (tg_toGoBh s') - total (tg_toGoBh s)).
Proof.
  induction k as [|k IH]; intros n s HP HS HB H1 H2 H3 Hlay Hlen Hlim; cbv zeta.
  - cbn [togo_loop]. lia.
  - cbn [togo_loop].
    destruct (Z.geb_spec pkg (tg_nlimit s)) as [Hfull|Hfree]; [lia|].
    destruct (OnAnotherDomain (tg_P s !!! n)); cbn [negb];
      [|apply IH; try assumption; [intros; apply Hlay; lia | lia]].
    destruct (Nat.eqb_spec (layoutfunc n) ThisTask) as [Ehere|Eaway];
      [apply IH; try assumption; [intros; apply Hlay; lia | lia]|].
    assert (Hlt : (layoutfunc n < NTask)%nat) by (apply Hlay; lia).
    assert (Hin : (n < length (tg_P s))%nat) by lia.
    destruct (togo_mark_spec n s H1 H2 H3 Hlt Hin)
      as (M1 & M2 & M3 & ML & _ & _ & _ & _ & T1 & T2 & T3 & ML').
    unfold package in Hfree.
    assert (Hnew : 0 < tg_nlimit (tmark n s) < 2 ^ 64 /\
              tg_nlimit s - tg_nlimit (tmark n s) =
                size_P
                + size_Sph * (if decide (PType (tg_P s !!! n) = 0) then 1 else 0)
                + size_Bh * (if decide (PType (tg_P s !!! n) = 5) then 1 else 0)).
    { rewrite ML'. unfold lower.
      repeat case_decide; try lia;
        rewrite ?(Z.mod_small (tg_nlimit s - size_P)) by lia;
        rewrite ?(Z.mod_small (tg_nlimit s - size_P - _)) by lia; lia. }
    destruct Hnew as [Hlim1 Hdiff].
    destruct (IH (S n) (tmark n s) HP HS HB M1 M2 M3) as [Hle Hacc];
      [intros; apply Hlay; lia | lia | exact Hlim1 |].
    rewrite T1, T2, T3 in Hacc.
    revert Hdiff Hacc. repeat case_decide; intros Hdiff Hacc; split; lia.
Qed.

Abbreviation countToGo :=
  (domain_countToGo_local NTask ThisTask layoutfunc size_P size_Sph size_Bh).

(** X21. [domain_countToGo], counting loop: when the function ends with
    [ret = 0], every particle was looked at: for each rank [t] the entries
    [toGo[t]], [toGoSph[t]] and [toGoBh[t]] are the numbers of particles, of
    gas particles and of black holes that lie on another domain and whose
    target is [t], nothing is counted for the rank itself, and [WillExport]
    is set on exactly those particles, the rest of the table being as it
    was. *)
Theorem countToGo_counts (nlimit : Z) (NumPart : nat) (Pt : list particle_data)
    (s' : togo_state) :
  (NumPart <= length Pt)%nat ->
  (forall m, (m < NumPart)%nat -> (layoutfunc m < NTask)%nat) ->
  countToGo nlimit NumPart Pt = OK (0, s') ->
  (forall t, (t < NTask)%nat ->
     tg_toGo s' !!! t = tcount Pt (fun _ => True) t 0 NumPart /\
     tg_toGoSph s' !!! t = tcount Pt (fun p => PType p = 0) t 0 NumPart /\
     tg_toGoBh s' !!! t = tcount Pt (fun p => PType p = 5) t 0 NumPart) /\
  ((ThisTask < NTask)%nat -> tg_toGo s' !!! ThisTask = 0) /\
  length (tg_P s') = length Pt /\
  (forall m, tg_P s' !!! m =
     if decide ((m < NumPart)%nat /\ OnAnotherDomain (Pt !!! m) = true /\
                layoutfunc m <> ThisTask)
     then set_WillExport true (Pt !!! m) else Pt !!! m).
Proof.
  intros Hlen Hlay Hrun. unfold domain_countToGo_local in Hrun.
  destruct (Z.geb_spec pkg nlimit) as [Hfull|Hfree]; [discriminate|].
  cbv zeta in Hrun.
  set (s0 := mk_togo Pt (replicate NTask 0) (replicate NTask 0)
               (replicate NTask 0) nlimit) in Hrun.
  destruct (Z.geb_spec pkg (tg_nlimit (tloop NumPart 0 s0))) as [Hout|Hroom];
    [discriminate|].
  injection Hrun as Hs'.
  destruct (togo_loop_counts Pt NumPart 0 s0) as (L & G & GS & GB & F);
    [apply length_replicate | apply length_replicate | apply length_replicate
    | intros m Hm; apply Hlay; lia | exact Hlen | intros; reflexivity
    | exact Hroom |].
  rewrite Hs' in L, G, GS, GB, F.
  assert (Hcounts : forall t, (t < NTask)%nat ->
     tg_toGo s' !!! t = tcount Pt (fun _ => True) t 0 NumPart /\
     tg_toGoSph s' !!! t = tcount Pt (fun p => PType p = 0) t 0 NumPart /\
     tg_toGoBh s' !!! t = tcount Pt (fun p => PType p = 5) t 0 NumPart).
  { intros t Ht. rewrite G, GS, GB. subst s0. cbn [tg_toGo tg_toGoSph tg_toGoBh].
    rewrite lookup_total_replicate_2 by exact Ht. repeat split; lia. }
  split; [exact Hcounts|]. split; [|split].
  - intros Hthis. destruct (Hcounts ThisTask Hthis) as [-> _].
    unfold togo_count.
    assert (Hnone : forall l : list nat,
              filter (fun m => goes_to ThisTask layoutfunc Pt ThisTask m /\ True) l = []).
    { induction l as [|x l IHl]; [reflexivity|].
      rewrite filter_cons_False; [exact IHl|].
      intros [(_ & Hne & He) _]. exact (Hne He). }
    rewrite Hnone. reflexivity.
  - exact L.
  - intros m. rewrite F. subst s0. cbn [tg_P]. range_cases.
Qed.

(** X22. [domain_countToGo], the room for the exchange: the function stops
    with code 212 exactly when one package does not fit in [nlimit];
    otherwise the room left stays positive and never wraps around, and what
    was taken from it is the size of the particles counted: a particle entry
    for each, a gas entry for each gas particle and a black hole entry for
    each black hole. *)
Theorem countToGo_budget (nlimit : Z) (NumPart : nat) (Pt : list particle_data) :
  0 <= size_P -> 0 <= size_Sph -> 0 <= size_Bh ->
  0 <= nlimit < 2 ^ 64 ->
  (NumPart <= length Pt)%nat ->
  (forall m, (m < NumPart)%nat -> (layoutfunc m < NTask)%nat) ->
  (pkg >= nlimit -> countToGo nlimit NumPart Pt = Fatal 212) /\
  (pkg < nlimit ->
   exists ret s',
     countToGo nlimit NumPart Pt = OK (ret, s') /\
     (ret = 0 /\ pkg < tg_nlimit s' \/ ret = 1 /\ tg_nlimit s' <= pkg) /\
     0 < tg_nlimit s' <= nlimit /\
     nlimit - tg_nlimit s' =
       size_P * total (tg_toGo s') + size_Sph * total (tg_toGoSph s')
       + size_Bh * total (tg_toGoBh s')).
Proof.
  intros HP HS HB Hlim Hlen Hlay. unfold domain_countToGo_local.
  destruct (Z.geb_spec pkg nlimit) as [Hfull|Hfree];
    (split; [intros Hge | intros Hlt]); try reflexivity; try lia.
  cbv zeta.
  set (s0 := mk_togo Pt (replicate NTask 0) (replicate NTask 0)
               (replicate NTask 0) nlimit).
  assert (Hpos : 0 <= pkg) by (unfold package; lia).
  destruct (togo_loop_budget NumPart 0 s0 HP HS HB) as [Hle Hacc];
    [apply length_replicate | apply length_replicate | apply length_replicate
    | intros m Hm; apply Hlay; lia | exact Hlen
    | subst s0; cbn [tg_nlimit]; lia |].
  exists (if pkg >=? tg_nlimit (tloop NumPart 0 s0) then 1 else 0),
         (tloop NumPart 0 s0).
  split; [reflexivity|]. split; [|split].
  - destruct (Z.geb_spec pkg (tg_nlimit (tloop NumPart 0 s0))); [right | left]; lia.
  - exact Hle.
  - subst s0. cbn [tg_toGo tg_toGoSph tg_toGoBh tg_nlimit] in Hacc.
    rewrite total_zeros in Hacc. rewrite Hacc. ring.
Qed.

End CountToGoFacts.

(** ** The test of the identifiers *)

Lemma id_loop_spec (ids : list Z) (n : nat) :
  (for_loopR n (id_check ids) tt = OK tt /\
   forall k, (k < n)%nat -> ids !!! S k <> ids !!! k) \/
  (for_loopR n (id_check ids) tt = Fatal 12 /\
   exists k, (k < n)%nat /\ ids !!! S k = ids !!! k).
Proof.
  induction n as [|n [[Hrun Hall]|[Hrun Hex]]]; cbn [for_loopR].
  - left. split; [reflexivity|]. intros k Hk. lia.
  - rewrite Hrun. cbn [rbind]. unfold id_check.
    destruct (Z.eqb_spec (ids !!! S n) (ids !!! n)) as [Heq|Hne].
    + right. split; [reflexivity|]. exists n. split; [lia|exact Heq].
    + left. split; [reflexivity|]. intros k Hk.
      destruct (decide (k = n)) as [->|]; [exact Hne|apply Hall; lia].
  - rewrite Hrun. cbn [rbind]. right. split; [reflexivity|].
    destruct Hex as (k & Hk & Heq). exists k. split; [lia|exact Heq].
Qed.

(** In a sorted array equal entries are neighbours. *)
Lemma sorted_NoDup_adjacent (l : list Z) :
  StronglySorted Z.le l ->
  (NoDup l <-> forall k, (S k < length l)%nat -> l !!! S k <> l !!! k).
Proof.
  induction l as [|x l IH]; intros Hs.
  - split; [intros _ k Hk; cbn in Hk; lia | intros _; constructor].
  - apply StronglySorted_cons in Hs as [Hall Hs'].
    rewrite NoDup_cons, (IH Hs'). split.
    + intros [Hnin Hadj] k Hk. cbn [length] in Hk. destruct k as [|k].
      * cbn. intros Heq. apply Hnin. rewrite <- Heq.
        apply list_elem_of_lookup_total_2. lia.
      * apply (Hadj k). lia.
    + intros Hadj. split.
      * intros Hin. destruct l as [|y l']; [inversion Hin|].
        pose proof (Hadj 0%nat ltac:(cbn; lia)) as Hne. cbn in Hne.
        apply Forall_cons in Hall as [Hxy _].
        apply StronglySorted_cons in Hs' as [Hy _].
        apply elem_of_cons in Hin as [->|Hin]; [congruence|].
        rewrite Forall_forall in Hy. specialize (Hy x Hin). lia.
      * intros k Hk. apply (Hadj (S k)). cbn [length]. lia.
Qed.

Lemma sorted_last_max (a : list Z) (x : Z) :
  StronglySorted Z.le a -> x ∈ a -> x <= a !!! (length a - 1)%nat.
Proof.
  destruct a as [|z a] using rev_ind; [intros _ Hin; inversion Hin|].
  clear IHa. intros Hs Hin.
  rewrite length_app. cbn [length].
  rewrite lookup_total_app_r by lia.
  replace (length a + 1 - 1 - length a)%nat with 0%nat by lia. cbn.
  apply elem_of_app in Hin as [Hin|Hin].
  - apply (StronglySorted_app_1_elem_of _ _ _ _ _ Hs Hin). apply list_elem_of_singleton.
    reflexivity.
  - apply list_elem_of_singleton in Hin. lia.
Qed.

Lemma sorted_head_min (b : list Z) (x : Z) :
  StronglySorted Z.le b -> x ∈ b -> b !!! 0%nat <= x.
Proof.
  destruct b as [|y b]; [intros _ Hin; inversion Hin|].
  intros [Hall _]%StronglySorted_cons Hin. cbn.
  apply elem_of_cons in Hin as [->|Hin]; [lia|].
  rewrite Forall_forall in Hall. apply Hall, Hin.
Qed.

(** Two sorted arrays one behind the other share an entry only where they
    meet. *)
Lemma sorted_app_NoDup (a b : list Z) :
  a <> [] -> b <> [] ->
  StronglySorted Z.le (a ++ b) ->
  (NoDup (a ++ b) <->
   NoDup a /\ NoDup b /\ a !!! (length a - 1)%nat <> b !!! 0%nat).
Proof.
  intros Ha Hb Hs.
  assert (Hla : a !!! (length a - 1)%nat ∈ a).
  { apply list_elem_of_lookup_total_2. destruct a; [contradiction|cbn; lia]. }
  assert (Hhb : b !!! 0%nat ∈ b).
  { apply list_elem_of_lookup_total_2. destruct b; [contradiction|cbn; lia]. }
  pose proof (StronglySorted_app_1_l _ _ _ Hs) as Hsa.
  pose proof (StronglySorted_app_1_r _ _ _ Hs) as Hsb.
  rewrite NoDup_app. split.
  - intros (Na & Hdis & Nb). split; [exact Na|]. split; [exact Nb|].
    intros Heq. apply (Hdis _ Hla). rewrite Heq. exact Hhb.
  - intros (Na & Nb & Hne). split; [exact Na|]. split; [|exact Nb].
    intros x Hxa Hxb. apply Hne.
    pose proof (sorted_last_max a x Hsa Hxa).
    pose proof (sorted_head_min b x Hsb Hxb).
    pose proof (StronglySorted_app_1_elem_of _ _ _ _ _ Hs Hxa Hhb).
    pose proof (StronglySorted_app_1_elem_of _ _ _ _ _ Hs Hla Hxb).
    lia.
Qed.

(** The same for the arrays of all ranks in a row. *)
Lemma chunks_NoDup (cs : list (list Z)) :
  (forall c, c ∈ cs -> c <> []) ->
  StronglySorted Z.le (concat cs) ->
  (NoDup (concat cs) <->
   (forall c, c ∈ cs -> NoDup c) /\
   (forall r, (S r < length cs)%nat ->
      (cs !!! r) !!! (length (cs !!! r) - 1)%nat <> (cs !!! S r) !!! 0%nat)).
Proof.
  induction cs as [|c cs IH]; intros Hne Hs.
  - split; [|intros _; constructor].
    intros _. split; [intros c Hc; inversion Hc | intros r Hr; cbn in Hr; lia].
  - assert (Hc : c <> []) by (apply Hne; left).
    assert (Hne' : forall c0, c0 ∈ cs -> c0 <> []) by (intros c0 H0; apply Hne; right; exact H0).
    cbn [concat] in Hs |- *.
    destruct cs as [|c' cs'].
    + cbn [concat]. rewrite app_nil_r. split.
      * intros Nc. split.
        -- intros c0 [->|H0]%elem_of_cons; [exact Nc|inversion H0].
        -- intros r Hr. cbn in Hr. lia.
      * intros [Hall _]. apply Hall. left.
    + assert (Hc' : c' <> []) by (apply Hne'; left).
      assert (HD : concat (c' :: cs') <> []).
      { cbn [concat]. destruct c'; [contradiction|discriminate]. }
      assert (Hhead : concat (c' :: cs') !!! 0%nat = c' !!! 0%nat).
      { cbn [concat]. apply lookup_total_app_l. destruct c'; [contradiction|cbn; lia]. }
      rewrite (sorted_app_NoDup c _ Hc HD Hs), Hhead.
      rewrite (IH Hne' (StronglySorted_app_1_r _ _ _ Hs)). split.
      * intros (Nc & [Hall Hbd] & Hmeet). split.
        -- intros c0 [->|H0]%elem_of_cons; [exact Nc|apply Hall, H0].
        -- intros r Hr. destruct r as [|r]; [exact Hmeet|].
           apply (Hbd r). cbn [length] in Hr |- *. lia.
      * intros [Hall Hbd]. split; [apply Hall; left|]. split; [split|].
        -- intros c0 H0. apply Hall. right. exact H0.
        -- intros r Hr. apply (Hbd (S r)). cbn [length] in Hr |- *. lia.
        -- apply (Hbd 0%nat). cbn [length]. lia.
Qed.

Lemma sorted_concat_chunk (cs : list (list Z)) (c : list Z) :
  StronglySorted Z.le (concat cs) -> c ∈ cs -> StronglySorted Z.le c.
Proof.
  induction cs as [|c0 cs IH]; intros Hs Hin; [inversion Hin|].
  cbn [concat] in Hs. apply elem_of_cons in Hin as [->|Hin].
  - exact (StronglySorted_app_1_l _ _ _ Hs).
  - exact (IH (StronglySorted_app_1_r _ _ _ Hs) Hin).
Qed.

Section IdFacts.

Variable NTask ThisTask : nat.
Variable mpsort_mpi : list Z -> list Z.
Variable ids_first : list Z.

Abbreviation id_test := (domain_test_id_uniqueness NTask ThisTask mpsort_mpi ids_first).

(** The test on a sorted array, by cases. *)
Lemma id_test_spec (st : part_state) :
  let ids := mpsort_mpi (ID <$> live st) in
  length ids = NumPart st ->
  StronglySorted Z.le ids ->
  id_test st =
    if (NumPart st =? 0)%nat then Fatal 8
    else if decide (NoDup ids)
         then if (ThisTask <? NTask - 1)%nat
              then if ids !!! (NumPart st - 1)%nat =? ids_first !!! (ThisTask + 1)%nat
                   then Fatal 13 else OK tt
              else OK tt
         else Fatal 12.
Proof.
  intros ids Hlen Hs. unfold domain_test_id_uniqueness. fold ids.
  destruct (Nat.eqb_spec (NumPart st) 0) as [|Hn]; [reflexivity|].
  pose proof (sorted_NoDup_adjacent ids Hs) as Hadj.
  destruct (id_loop_spec ids (NumPart st - 1)) as [[Hrun Hall]|[Hrun Hex]];
    rewrite Hrun; cbn [rbind].
  - rewrite decide_True; [reflexivity|].
    apply Hadj. intros k Hk. apply Hall. lia.
  - rewrite decide_False; [reflexivity|].
    intros Hnd. destruct Hex as (k & Hk & Heq).
    apply (proj1 Hadj Hnd k); [lia|exact Heq].
Qed.

(** X23. [domain_test_id_uniqueness] on a rank whose array is sorted after
    [mpsort_mpi]: the run ends with code 8 exactly when the rank has no
    particle, and with code 12 exactly when it has particles and two
    entries of its array are the same; a run that comes through, or ends
    with code 13, has found the array free of duplicates; code 13 needs
    the last entry to be the first one of the next rank. *)
Theorem id_uniqueness_codes (st : part_state) :
  let ids := mpsort_mpi (ID <$> live st) in
  length ids = NumPart st ->
  StronglySorted Z.le ids ->
  (id_test st = Fatal 8 <-> NumPart st = 0%nat) /\
  (id_test st = Fatal 12 <-> NumPart st <> 0%nat /\ ~ NoDup ids) /\
  (id_test st = Fatal 13 <->
     NumPart st <> 0%nat /\ NoDup ids /\ (ThisTask < NTask - 1)%nat /\
     ids !!! (NumPart st - 1)%nat = ids_first !!! (ThisTask + 1)%nat) /\
  (id_test st = OK tt <->
     NumPart st <> 0%nat /\ NoDup ids /\
     ((ThisTask < NTask - 1)%nat ->
      ids !!! (NumPart st - 1)%nat <> ids_first !!! (ThisTask + 1)%nat)).
Proof.
  intros ids Hlen Hs. rewrite (id_test_spec st Hlen Hs). fold ids.
  destruct (Nat.eqb_spec (NumPart st) 0) as [Hz|Hn];
    [|destruct (decide (NoDup ids)) as [Hnd|Hnd];
      [destruct (Nat.ltb_spec ThisTask (NTask - 1)) as [Hlt|Hge];
       [destruct (Z.eqb_spec (ids !!! (NumPart st - 1)%nat)
                    (ids_first !!! (ThisTask + 1)%nat)) as [Heq|Hne]|]|]];
    repeat split; intros; try discriminate; try reflexivity; try tauto; try lia.
Qed.

End IdFacts.

(** X24. [domain_test_id_uniqueness] on all ranks together, [sts r] being
    the particles of rank [r], provided
    [mpsort_mpi] leaves every rank as many identifiers as it had, sorted
    across the ranks, and the same identifiers in all: the test comes
    through on every rank exactly when every rank has a particle and no
    identifier occurs twice anywhere. *)
Theorem id_uniqueness_global (NTask : nat) (mpsort_mpi : nat -> list Z -> list Z)
    (sts : nat -> part_state) :
  let own := fun r => ID <$> live (sts r) in
  let ids := fun r => mpsort_mpi r (own r) in
  let ids_first := (fun r => ids r !!! 0%nat) <$> seq 0 NTask in
  (forall r, (r < NTask)%nat -> length (ids r) = NumPart (sts r)) ->
  StronglySorted Z.le (concat (ids <$> seq 0 NTask)) ->
  concat (ids <$> seq 0 NTask) ≡ₚ concat (own <$> seq 0 NTask) ->
  ((forall r, (r < NTask)%nat ->
      domain_test_id_uniqueness NTask r (mpsort_mpi r) ids_first (sts r) = OK tt)
   <->
   (forall r, (r < NTask)%nat -> NumPart (sts r) <> 0%nat) /\
   NoDup (concat (own <$> seq 0 NTask))).
Proof.
  intros own ids ids_first Hlen Hs Hperm.
  set (cs := ids <$> seq 0 NTask) in *.
  assert (Hcs : forall r, (r < NTask)%nat -> cs !!! r = ids r).
  { intros r Hr. unfold cs.
    rewrite (list_lookup_total_fmap ids (seq 0 NTask) r)
      by (rewrite length_seq; exact Hr).
    rewrite lookup_total_seq_lt by exact Hr. reflexivity. }
  assert (Hcslen : length cs = NTask) by (unfold cs; rewrite length_fmap; apply length_seq).
  assert (Hin : forall c, c ∈ cs -> exists r, (r < NTask)%nat /\ c = ids r).
  { intros c (r & -> & Hr)%list_elem_of_fmap. apply elem_of_seq in Hr.
    exists r. split; [lia|reflexivity]. }
  assert (Hsorted : forall r, (r < NTask)%nat -> StronglySorted Z.le (ids r)).
  { intros r Hr. apply (sorted_concat_chunk cs); [exact Hs|].
    unfold cs. apply list_elem_of_fmap. exists r. split; [reflexivity|].
    apply elem_of_seq. lia. }
  assert (Hfirst : forall r, (r + 1 < NTask)%nat ->
            ids_first !!! (r + 1)%nat = ids (r + 1)%nat !!! 0%nat).
  { intros r Hr. unfold ids_first.
    rewrite (list_lookup_total_fmap (fun r => ids r !!! 0%nat) (seq 0 NTask) (r + 1))
      by (rewrite length_seq; exact Hr).
    rewrite lookup_total_seq_lt by exact Hr. reflexivity. }
  assert (Hspec : forall r, (r < NTask)%nat ->
            domain_test_id_uniqueness NTask r (mpsort_mpi r) ids_first (sts r) =
            if (NumPart (sts r) =? 0)%nat then Fatal 8
            else if decide (NoDup (ids r))
                 then if (r <? NTask - 1)%nat
                      then if ids r !!! (NumPart (sts r) - 1)%nat
                                =? ids_first !!! (r + 1)%nat
                           then Fatal 13 else OK tt
                      else OK tt
                 else Fatal 12).
  { intros r Hr.
    exact (id_test_spec NTask r (mpsort_mpi r) ids_first (sts r)
             (Hlen r Hr) (Hsorted r Hr)). }
  assert (Hnonempty : (forall r, (r < NTask)%nat -> NumPart (sts r) <> 0%nat) ->
            forall c, c ∈ cs -> c <> []).
  { intros Hn c Hc. destruct (Hin c Hc) as (r & Hr & ->).
    intros Hnil. apply (Hn r Hr). rewrite <- (Hlen r Hr), Hnil. reflexivity. }
  split.
  - intros Hok.
    assert (Hn : forall r, (r < NTask)%nat -> NumPart (sts r) <> 0%nat).
    { intros r Hr Hz. specialize (Hok r Hr). rewrite (Hspec r Hr) in Hok.
      rewrite (proj2 (Nat.eqb_eq _ _) Hz) in Hok. discriminate. }
    split; [exact Hn|]. rewrite <- Hperm.
    apply (chunks_NoDup cs (Hnonempty Hn) Hs). split.
    + intros c Hc. destruct (Hin c Hc) as (r & Hr & ->).
      specialize (Hok r Hr). rewrite (Hspec r Hr) in Hok.
      destruct (NumPart (sts r) =? 0)%nat; [discriminate|].
      destruct (decide (NoDup (ids r))) as [Hnd|]; [exact Hnd|discriminate].
    + intros r Hr. rewrite Hcslen in Hr.
      rewrite (Hcs r) by lia. rewrite (Hcs (S r)) by lia.
      specialize (Hok r ltac:(lia)). rewrite (Hspec r) in Hok by lia.
      destruct (NumPart (sts r) =? 0)%nat; [discriminate|].
      destruct (decide (NoDup (ids r))); [|discriminate].
      destruct (Nat.ltb_spec r (NTask - 1)) as [_|Hge]; [|lia].
      rewrite (Hlen r) by lia.
      rewrite (Hfirst r) in Hok by lia.
      replace (S r) with (r + 1)%nat by lia.
      destruct (Z.eqb_spec (ids r !!! (NumPart (sts r) - 1)%nat)
                  (ids (r + 1)%nat !!! 0%nat)) as [|Hne]; [discriminate|exact Hne].
  - intros [Hn Hnd] r Hr. rewrite <- Hperm in Hnd.
    apply (chunks_NoDup cs (Hnonempty Hn) Hs) in Hnd as [Hall Hbd].
    rewrite (Hspec r Hr).
    destruct (Nat.eqb_spec (NumPart (sts r)) 0) as [Hz|_];
      [exfalso; exact (Hn r Hr Hz)|].
    rewrite decide_True.
    2:{ apply Hall. unfold cs. apply list_elem_of_fmap. exists r.
        split; [reflexivity|]. apply elem_of_seq. lia. }
    destruct (Nat.ltb_spec r (NTask - 1)) as [Hlt|_]; [|reflexivity].
    rewrite (Hfirst r) by lia.
    specialize (Hbd r ltac:(lia)).
    rewrite (Hcs r) in Hbd by lia. rewrite (Hcs (S r)) in Hbd by lia.
    rewrite (Hlen r) in Hbd by lia.
    replace (S r) with (r + 1)%nat in Hbd by lia.
    destruct (Z.eqb_spec (ids r !!! (NumPart (sts r) - 1)%nat)
                (ids (r + 1)%nat !!! 0%nat)) as [Heq|_];
      [contradiction|reflexivity].
Qed.

(** ** The properties above on small inputs *)

Lemma sample_bh_massive :
  forall k, (k < NumPart sample_bh_state)%nat ->
    massless (P sample_bh_state !!! k) = false.
Proof.
  intros k Hk. cbn [NumPart sample_bh_state] in Hk.
  destruct k as [|[|[|[|k]]]]; try lia; reflexivity.
Qed.

Lemma fork_twice_distinct_witness :
  exists st1 st2,
    domain_fork_particle 6 timebin_keep 0 sample_gas_state = OK (4%nat, st1) /\
    domain_fork_particle 6 timebin_keep 0 st1 = OK (5%nat, st2) /\
    ID (P st2 !!! 4%nat) <> ID (P st2 !!! 5%nat).
Proof.
  destruct (fork_twice_distinct 6 timebin_keep 0 sample_gas_state eq_refl
              ltac:(cbn; lia) ltac:(cbn; lia))
    as (st1 & st2 & H1 & H2 & _ & Hne & _).
  exists st1, st2. split; [exact H1|]. split; [exact H2|exact Hne].
Defined.

Lemma fork_generation_wraps_witness :
  exists st',
    domain_fork_particle 2 timebin_keep 0 sample_old_state = OK (1%nat, st') /\
    Generation (P st' !!! 0%nat) = 0.
Proof.
  destruct (fork_generation_wraps 2 timebin_keep 0 sample_old_state eq_refl
              ltac:(cbn; lia) ltac:(cbn; lia) eq_refl ltac:(cbn; lia))
    as (st' & Hrun & Hgen & _).
  exists st'. split; [exact Hrun|exact Hgen].
Defined.

Lemma all_gc_without_massless_witness :
  domain_all_garbage_collection 3 4 sample_bh_state = (1, sample_bh_state).
Proof.
  exact (all_gc_without_massless 3 4 sample_bh_state sample_bh_massive).
Defined.

Lemma fork_then_collect_witness :
  exists st1 st2,
    domain_fork_particle 6 timebin_keep 2 sample_bh_state = OK (4%nat, st1) /\
    domain_all_garbage_collection 0 0 st1 = (1, st2) /\
    NumPart st2 = 4%nat.
Proof.
  destruct (fork_then_collect 6 timebin_keep 2 sample_bh_state 0 eq_refl
              ltac:(cbn; lia) ltac:(cbn; lia) ltac:(cbn; lia) sample_bh_massive)
    as (st1 & st2 & H1 & H2 & Hn & _).
  exists st1, st2. split; [exact H1|]. split; [exact H2|exact Hn].
Defined.

Lemma findSplit_load_balanced_spec_witness :
  DomainEndList
    (domain_findSplit_load_balanced 3 6 [1; 1; 1; 1; 1; 1]
       (mk_layout [0; 0; 0] [0; 0; 0])) !!! Z.to_nat (3 - 1)
  = 6 - 1.
Proof.
  destruct (findSplit_load_balanced_spec 3 6 [1; 1; 1; 1; 1; 1]
              (mk_layout [0; 0; 0] [0; 0; 0]) ltac:(lia) eq_refl eq_refl)
    as (_ & Hlast & _).
  - intros k. unfold count_at.
    destruct (Z.to_nat k) as [|[|[|[|[|[|[|n]]]]]]]; cbn; lia.
  - vm_compute. reflexivity.
  - exists 2. vm_compute. reflexivity.
  - exact Hlast.
Defined.

Lemma check_memory_bound_flags_witness :
  domain_check_memory_bound 2 1 5 true [1; 1; 1; 1]%Q [5; 1; 1; 1]
    (mk_layout [0; 1] [0; 3]) = 1
  <-> exists ta, (ta < 2)%nat /\
        assigned_count 1 (mk_layout [0; 1] [0; 3]) [5; 1; 1; 1] ta > 5.
Proof.
  destruct (check_memory_bound_flags 2 1 5 true [1; 1; 1; 1]%Q [5; 1; 1; 1]
              (mk_layout [0; 1] [0; 3]) ltac:(lia))
    as (Hone & _).
  - split; [exact sample_counts_nonneg|].
    intros ta Hta. destruct ta as [|[|ta]]; [vm_compute; reflexivity..|lia].
  - exact Hone.
Defined.

Lemma exchange_overflow_never_settles_witness :
  safety_loop 2 1000 1000 [801; 500] [0; 0] [0; 0] (fun c => c) 3 50 sample_exchange
    = Fatal 1013 \/
  safety_loop 2 1000 1000 [801; 500] [0; 0] [0; 0] (fun c => c) 3 50 sample_exchange
    = OutOfFuel.
Proof.
  apply (exchange_overflow_never_settles 2 1000 1000 [801; 500] [0; 0] [0; 0]
           (fun c => c) 3 50 sample_exchange 0 ltac:(lia)).
  right. right. vm_compute. reflexivity.
Defined.

Lemma shed_takes_ntoomany_witness :
  col_sum 2 [[0; 0]; [199; 0]] 0 = col_sum 2 [[0; 0]; [200; 0]] 0 - 1.
Proof.
  destruct (shed_takes_ntoomany 2 10 0 0 1 [[0; 0]; [200; 0]] [[0; 0]; [199; 0]]
              200 199 ltac:(lia) eq_refl)
    as (Hsum & _); [|reflexivity|exact Hsum].
  intros r Hr. destruct r as [|[|r]]; cbn; lia.
Defined.

Lemma shed_without_senders_witness :
  shed 2 5 0 0 1 [[0; 0]; [0; 7]] 3 = OutOfFuel.
Proof.
  apply (shed_without_senders 2 5 0 0 1 [[0; 0]; [0; 7]] 3); [lia|lia|].
  intros r Hr. destruct r as [|[|r]]; cbn; lia.
Defined.

Lemma shed_ends_with_enough_senders_witness :
  exists tg', shed 2 4 0 0 2 [[0; 0]; [200; 0]] 200 = OK (tg', 200 - 2).
Proof.
  apply (shed_ends_with_enough_senders 2 4 0 0 2 [[0; 0]; [200; 0]] 200);
    [lia|reflexivity| |vm_compute; split; discriminate|cbn; lia].
  intros r Hr. destruct r as [|[|r]]; cbn; lia.
Defined.

Lemma count_particles_by_type_witness :
  exists NLocal NTotal TotNumPart,
    domain_count_particles [0; 0; 0; 0; 0; 2] sample_bh_state
      = (NLocal, NTotal, TotNumPart) /\
    for_loop 6 (fun t s => s + NLocal !!! t) 0 = 4.
Proof.
  destruct (count_particles_by_type [0; 0; 0; 0; 0; 2] sample_bh_state)
    as (NLocal & NTotal & Tot & Hrun & _ & _ & Hsum & _).
  - cbn. lia.
  - intros k Hk. cbn [NumPart sample_bh_state] in Hk.
    destruct k as [|[|[|[|k]]]]; try lia; cbn; lia.
  - reflexivity.
  - exists NLocal, NTotal, Tot. split; [exact Hrun|exact Hsum].
Defined.

Lemma sph_reclaim_spec_witness :
  exists tree_invalid st',
    domain_sph_garbage_collection_reclaim true sample_gas_state = (tree_invalid, st') /\
    live st' ≡ₚ live sample_gas_state.
Proof.
  destruct (sph_reclaim_spec sample_gas_state ltac:(cbn; lia) ltac:(cbn; lia))
    as (_ & ti & st' & Hrun & _ & _ & _ & _ & _ & Hlive & _).
  exists ti, st'. split; [exact Hrun|exact Hlive].
Defined.

Lemma all_gc_keeps_gas_slots_witness :
  slot_pairs (snd (domain_all_garbage_collection 0 0 sample_gas_state))
    ≡ₚ filter (fun x => massless (fst x) = false) (slot_pairs sample_gas_state).
Proof.
  apply (all_gc_keeps_gas_slots 0 0 sample_gas_state);
    [cbn; lia | exact sample_gas_prefix | cbn; lia].
Defined.

Lemma garbage_collection_spec_witness :
  exists local st',
    domain_garbage_collection true 4 merge_qsort 4 4 0 0 [0; 0; 0; 0; 0; 0]
        sample_bh_state
      = OK (local + 0, st', domain_count_particles [0; 0; 0; 0; 0; 0] st') /\
    gas_prefix st'.
Proof.
  destruct (garbage_collection_spec true 4 merge_qsort merge_qsort_Permutation
              merge_qsort_StronglySorted 4 4 0 0 [0; 0; 0; 0; 0; 0] sample_bh_state)
    as (loc & st' & Hrun & _ & Hgas & _).
  - cbn. lia.
  - cbn. lia.
  - intros k Hk Hty. cbn [NumPart N_sph_slots sample_bh_state] in Hk |- *.
    destruct k as [|[|[|[|k]]]]; try lia; cbn in Hty; discriminate.
  - discriminate.
  - exact sample_bh_wf.
  - lia.
  - lia.
  - exists loc, st'. split; [exact Hrun|exact Hgas].
Defined.

Ltac tree_lia :=
  unfold in_range;
  repeat match goal with
  | |- context [node_at ?tn ?k] =>
      let v := eval vm_compute in (node_at tn k) in
      change (node_at tn k) with v
  | H : context [node_at ?tn ?k] |- _ =>
      let v := eval vm_compute in (node_at tn k) in
      change (node_at tn k) with v in H
  end;
  cbn in *; lia.

Lemma sample_tree_wf : tree_wf 25 sample_tree.
Proof. split; [cbn; lia | reflexivity]. Qed.

Lemma sample_tree_octree : octree_ok sample_tree.
Proof.
  split; [tree_lia|]. intros n Hn. cbn [NTopnodes sample_tree] in Hn.
  assert (Hc : n = 0 \/ n = 1 \/ n = 2 \/ n = 3 \/ n = 4 \/ n = 5 \/ n = 6 \/
               n = 7 \/ n = 8) by lia.
  destruct Hc as [->|Hc].
  - cbv zeta. split; [exists 3%nat; reflexivity|].
    split; [tree_lia|]. split; [tree_lia|]. intros _.
    split; [tree_lia|]. split; [tree_lia|]. intros j Hj.
    assert (Hj' : j = 0 \/ j = 1 \/ j = 2 \/ j = 3 \/ j = 4 \/ j = 5 \/ j = 6 \/
                  j = 7) by lia.
    repeat (destruct Hj' as [->|Hj']); try subst j; tree_lia.
  - repeat (destruct Hc as [->|Hc]); try subst n; cbv zeta;
      (split; [exists 2%nat; reflexivity|]); (split; [tree_lia|]);
      (split; [tree_lia|]); intros Hd; tree_lia.
Qed.

Lemma addnodes_spec_witness :
  exists err t',
    domain_determineTopTree_addnodes 25 3 3 sample_tree = OK (err, t') /\
    tree_wf 25 t'.
Proof.
  destruct (addnodes_spec 25 3 3 sample_tree sample_tree_wf)
    as (err & t' & Hrun & Hwf & _).
  - intros n Hn. cbn [NTopnodes sample_tree] in Hn.
    assert (Hc : n = 0 \/ n = 1 \/ n = 2 \/ n = 3 \/ n = 4 \/ n = 5 \/ n = 6 \/
                 n = 7 \/ n = 8) by lia.
    repeat (destruct Hc as [->|Hc]); try subst n; tree_lia.
  - exists err, t'. split; [exact Hrun|exact Hwf].
Defined.

Lemma leafnodefunc_finds_leaf_witness :
  exists leaf,
    0 <= leaf < NTopnodes sample_tree /\
    domain_leafnodefunc sample_tree 70 = OK (Leaf (node_at (topNodes sample_tree) leaf)).
Proof.
  destruct (leafnodefunc_finds_leaf sample_tree 70 sample_tree_octree)
    as (leaf & Hleaf & _ & _ & Hrun).
  - tree_lia.
  - exists leaf. split; [exact Hleaf|exact Hrun].
Defined.

Lemma addnodes_keeps_octree_witness :
  exists err t',
    domain_determineTopTree_addnodes 25 3 3 sample_tree = OK (err, t') /\
    octree_ok t'.
Proof.
  destruct (addnodes_keeps_octree 25 3 3 sample_tree sample_tree_wf sample_tree_octree)
    as (err & t' & Hrun & _ & Hok).
  exists err, t'. split; [exact Hrun|exact Hok].
Defined.

Lemma sample_layoutfunc_lt : forall m, (m < 4)%nat -> (sample_layoutfunc m < 2)%nat.
Proof. intros m _. unfold sample_layoutfunc. destruct (Nat.even m); lia. Qed.

Lemma countToGo_counts_witness :
  tg_toGo (togo_loop 0 sample_layoutfunc 10 20 30 4 0
             (mk_togo sample_togo_table [0; 0] [0; 0] [0; 0] 1000)) !!! 1%nat
  = togo_count 0 sample_layoutfunc sample_togo_table (fun _ => True) 1 0 4.
Proof.
  destruct (countToGo_counts 2 0 sample_layoutfunc 10 20 30 1000 4 sample_togo_table
              (togo_loop 0 sample_layoutfunc 10 20 30 4 0
                 (mk_togo sample_togo_table [0; 0] [0; 0] [0; 0] 1000))
              ltac:(cbn; lia) sample_layoutfunc_lt)
    as (Hcounts & _).
  - vm_compute. reflexivity.
  - destruct (Hcounts 1%nat ltac:(lia)) as (Hgo & _). exact Hgo.
Defined.

Lemma countToGo_budget_witness :
  exists ret s',
    domain_countToGo_local 2 0 sample_layoutfunc 10 20 30 1000 4 sample_togo_table
      = OK (ret, s') /\
    0 < tg_nlimit s' <= 1000.
Proof.
  destruct (countToGo_budget 2 0 sample_layoutfunc 10 20 30 1000 4 sample_togo_table
              ltac:(lia) ltac:(lia) ltac:(lia) ltac:(lia) ltac:(cbn; lia)
              sample_layoutfunc_lt)
    as (_ & Hok).
  destruct (Hok ltac:(unfold package; lia)) as (ret & s' & Hrun & _ & Hroom & _).
  exists ret, s'. split; [exact Hrun|exact Hroom].
Defined.

Lemma Z_merge_sort_sorted (l : list Z) : StronglySorted Z.le (merge_sort Z.le l).
Proof.
  apply StronglySorted_merge_sort.
  - intros x y z. apply Z.le_trans.
  - intros x y. apply Z.le_ge_cases.
Qed.

Lemma id_uniqueness_codes_witness :
  domain_test_id_uniqueness 1 0 (merge_sort Z.le) [10] sample_bh_state = Fatal 8
  <-> NumPart sample_bh_state = 0%nat.
Proof.
  destruct (id_uniqueness_codes 1 0 (merge_sort Z.le) [10] sample_bh_state)
    as (Hnone & _).
  - vm_compute. reflexivity.
  - apply Z_merge_sort_sorted.
  - exact Hnone.
Defined.

Lemma sample_ranks_sorted :
  concat ((fun r => sample_mpsort_mpi r (ID <$> live (sample_ranks r))) <$> seq 0 2)
  = merge_sort Z.le (ID <$> live (sample_ranks 0) ++ live (sample_ranks 1)).
Proof. vm_compute. reflexivity. Qed.

Lemma id_uniqueness_global_witness :
  (forall r, (r < 2)%nat ->
     domain_test_id_uniqueness 2 r (sample_mpsort_mpi r)
       ((fun r => sample_mpsort_mpi r (ID <$> live (sample_ranks r)) !!! 0%nat)
          <$> seq 0 2)
       (sample_ranks r) = OK tt)
  <->
  (forall r, (r < 2)%nat -> NumPart (sample_ranks r) <> 0%nat) /\
  NoDup (concat ((fun r => ID <$> live (sample_ranks r)) <$> seq 0 2)).
Proof.
  apply (id_uniqueness_global 2 sample_mpsort_mpi sample_ranks).
  - intros r Hr. destruct r as [|[|r]]; [reflexivity|reflexivity|lia].
  - rewrite sample_ranks_sorted. apply Z_merge_sort_sorted.
  - rewrite sample_ranks_sorted, merge_sort_Permutation.
    cbn [seq fmap list_fmap concat]. rewrite app_nil_r, fmap_app. reflexivity.
Defined.
